(* ===== verification/_CoqProject ===== *)
-Q . S2P
Prelude.v
Dict.v
Json.v
Lifecycle.v
Fsm.v
FsmInterface.v
SchedulerFsm.v
JobStore.v
Channel.v
Context.v
ContextInterface.v
Task.v
Workflow.v
SoftTimeout.v
Threads.v
Singleton.v
OneShot.v
PyValues.v
Payload.v
PayloadTyped.v
World.v
Job.v
Demo.v
JobSpec.v
Dispatcher.v
Worker.v
WorkerSpec.v
WorkerRun.v
WorkerCancel.v
WorkerFail.v
WorkerFollow.v
WorkerRan.v
DispatchSpec.v
JobInterface.v
Pipeline.v
DurableStore.v
DurableSpec.v
SseEvent.v
SseHub.v
SseHubSpec.v
SseStream.v
SseStreamSpec.v
SseDelivery.v
SseInterfaces.v
SseLimits.v
SseSecurity.v
SseSecuritySpec.v
SseApp.v
Encodings.v
Event.v
Crypto.v
EventInterface.v
DbUri.v
DbUriSpec.v
StoreConfig.v
Time.v
Random.v
Utils.v
Connect.v
Http.v
Log.v
Startup.v
Config.v
Scripts.v
Build.v
