(* ===== verification/Prelude.v ===== *)
(** * PyPepper: a verification library

    PyPepper ([src/pypepper]) is a Python toolkit for services: a job scheduler
    with pluggable persistence, a state machine library it builds on, server-sent
    events, signed domain events, and small common utilities.  This library models
    their logic and proves what makes it correct.

    ** How the program is modelled

    A Python call is a function of the state it can reach, returning a value or
    an exception and the state it leaves ([M], below): what happened before a
    [raise] stays.  Objects that are shared - jobs, channels, connections,
    cancellation events - live in a heap or a map and are named by references.
    A [dict] is an association list in insertion order ([Dict]); JSON values,
    [json.dumps] and [json.loads] are in [Json]; [str], [repr], [int], truthiness
    and attribute access on such values in [PyValues].  A [str] is a [string] of
    the code points U+0000 to U+00FF; integers are [Z], as Python's are unbounded.
    Code outside [src] is a parameter of the definitions that use it: a type class
    of operations and, where a theorem needs it, a class of laws that states its
    documented behaviour ([FuturePool], [RowTable], [SqlTransactions] with its savepoints, [TtlCache],
    [Ecdsa], [EcdsaKeys], [Env], [Entropy], [Arrow], [Loguru],
    [Host]).  Each class has an instance in an [...Examples] module on which the
    theorems are applied.  Interleaving is explicit: an operation is a
    step where the source has no suspension point, and other tasks, threads and
    connections act between the steps a definition is split into.

    ** The parts, the files and the sources

    Foundations: [Prelude] (exceptions, the monad, [preserves] and its tactic),
    [Dict], [Json], [PyValues], [Encodings] (UTF-8, base64).

    The scheduler, [src/pypepper/scheduler] and [src/pypepper/fsm]:
    - [Lifecycle]: job statuses and the fence of [store/lifecycle.py]; [Fsm]: the
      generic machine of [fsm/fsm.py], its table keyed by JSON text, handlers that
      may do anything to it and raise; [FsmInterface]: what [fsm/interfaces.py] promises
      of it, and fire-then-save as a client; [SchedulerFsm]: the machine of
      [events.py].
    - [JobStore]: the store interface of [store/interfaces.py] as a class with
      laws over an abstract map of rows, the store of [store/memory.py] and its
      refinement; [DurableStore], [DurableSpec]: the SQL and MongoDB stores
      ([store/sql.py], [store/mongodb.py]) on tables other connections write to
      between any two statements.
    - [DbUri], [DbUriSpec], [Connect], [StoreConfig]: options and URLs ([helper/db])
      and what a reader of a URL gets, opening a
      database and migrating its schema, installing a store ([store/__init__.py])
      and the guard of [common/config.py].
    - [Channel] ([channel.py]), [Context] and [ContextInterface] ([common/context]),
      [Task] ([task.py],
      [tag.py], [executor.py]), [Workflow] ([workflow.py], written against the
      interface [FuturePool]) and [SoftTimeout] (its theorems on a pool whose
      workers move between any two calls), [Payload] and [PayloadTyped] (workflows
      as JSON, in [job.py]; what a payload from elsewhere is read as).
    - [Threads] (schedules of threads and a lock), [Singleton] (the constructors
      of the process-wide registries and the soft-timeout pool on any schedule),
      [OneShot] (warnings given once).
    - [World]: the objects the scheduler shares; [Job] (class [Job] of [job.py]),
      [Dispatcher] ([Processor] and [Dispatcher] of [job.py]), [Worker]
      ([worker.py]) on it.  [JobSpec], [DispatchSpec], [WorkerSpec], [WorkerRun],
      [WorkerCancel], [WorkerFail], [WorkerFollow], [WorkerRan] prove their
      properties;
      [JobInterface]: what [IJob] promises of a job, and its owner as a client;
      [Pipeline] composes them, from scheduling to the drained channel, with the
      program of [example/scheduler/app.py];
      [Demo] holds the store, clock and workflows the examples use.

    Server-sent events, [src/pypepper/network/http/sse]: [SseEvent] (events, the
    wire format, a reference client), [SseHub] and [SseHubSpec] ([connection.py]),
    [SseStream] and [SseStreamSpec] ([stream.py], [handlers.py]), [SseSecurity]
    and [SseSecuritySpec] ([security.py], with [Cache] of [common/cache.py]),
    [SseInterfaces] (the registry as [sse/interfaces.py] has it, with laws and a
    client), [SseLimits] (limits assigned while connections are open),
    [SseDelivery] (what a client reads from a stream), [SseApp] (the program of
    [example/sse/app.py]).

    The process: [Http] is the server's start, default handlers and middleware
    ([network/http] outside [sse]) and tracing ([common/tracing]); [Log] the
    logger ([common/log.py]) and the build information ([common/version.py]);
    [Startup] reading a configuration ([common/config.py]), signals
    ([common/system.py]) and the main of [example/server/app.py]; [Config] the
    typed configuration and what the rest reads from it.

    [Event]: [event/event.py] with the digest and ECDSA wrappers of
    [common/security/crypto]; [EventInterface]: what [event/interfaces.py]
    promises of it; [Crypto]: digests and keys as text.  [Utils]: retries,
    named caches, options and the module loader ([common/utils], [common/cache.py], [common/options.py], [loader.py]);
    [Random]: random values, identifiers and salts; [Time]: dates and delays
    ([common/utils/time.py]).  [Scripts]: the health check, audit and
    class-attribute checks of [src/scripts]; [Build]: its packaging script, on a
    file system of paths.

    ** What the theorems show

    - Persistence: every store implements one contract - an abstract map in which
      a row's status moves only along the status machine, versions grow and stale
      writers are refused ([memory_store_refines_contract],
      [sql_put_linearizes], [mongo_put_linearizes], [put_stale_version_refused],
      [store_rows_only_move_forward]); the fence is reachability in the machine
      ([put_applies_is_reachability], [sched_fsm_refines_diagram]); the rows of the
      databases and the payloads read back, but for a task version of 0
      ([sql_row_roundtrip], [payload_roundtrip], [from_record_inverts_to_record]), and a payload written
      by others is rejected or read as well-typed tasks ([foreign_payload_typed]).
    - Machines: an event that fails puts the current state back, whatever handlers
      did, and the rest is as the failing handler left it
      ([on_error_rolls_back]); firing and then saving is all or nothing, for any
      machine that keeps the interface's laws ([fire_and_save_atomic]).
    - Dispatching: a refused dispatch leaves no trace, an accepted one stays
      queued and returns once a save was answered true ([refused_dispatch_rolls_back], [accepted_dispatch_commits]).
    - Working: whatever fails, a job is Completed only if all its workflows ran, in
      order and once; workflows start only in jobs that are durably in progress, a
      run ends in its final status, cancellation wins and reaches every task, an
      unrecorded start gives the job back, a job taken by others is followed, the
      loop drains a stopped channel ([completed_means_ran],
      [workflows_start_in_progress], [process_runs_job], [cancel_wins],
      [cancel_persists], [unrecorded_start_gives_job_back],
      [taken_job_follows_store], [run_forever_drains]), and one failed read
      strands a job ([failed_read_strands_job]).  Jobs scheduled on a channel that
      is then stopped are all run, in order, and end durably
      ([scheduled_jobs_run_in_order]).
    - Tasks: no two executions of a task overlap and the retry budget is exact, on any
      pool
      ([no_overlapping_execute], [execute_once_leaves_nothing], [retry_budget]);
      tasks run in the order they were added ([run_added]).
    - Jobs: one that is cancelled stays so, whatever its owner and its store do,
      for any job that keeps the interface's laws ([cancelled_stays]).
    - Threads: a registry is made once and complete on any schedule, nobody is
      stuck ([singleton_is_single]), also without a lock once it exists
      ([published_stays]); a warning is given once per reset ([warned_once]).
    - Channels deliver in order within their bound and drain when stopped
      ([channel_fifo_bounded], [channel_stop_drains]); contexts of a given length
      are built, or the recursion does not end ([born_builds_chain]).
    - Configuration: a declared database is used or saving is refused
      ([declared_database_is_used]); a document of the declared types is read
      without an attribute error ([run_document], [provider_of_document]);
      credentials of any characters reach the database, the same one whether the
      helper or the store connects ([uri_reads_back], [store_and_helper_agree]).
    - Server-sent events: limits hold, connecting and broadcasting do what they
      say on every branch, the wire format reads back, the rate limiter matches a
      reference, the gate admits only keys it should, a client reads what the
      handler generates, in order ([stream_delivers_in_order]), and a stream that
      ends frees its id unless its handler's [on_disconnect] raises ([registry_within_limits], [connect_registers_or_refuses],
      [broadcast_reaches_open], [sse_stream_roundtrip], [rate_limit_window],
      [endpoint_gate], [stream_end_frees_id]); under limits that change, the
      registry only shrinks while it is above them ([run_limit_op_size]).
    - Events: their text determines them and signatures verify
      ([event_text_determines_event], [signed_event_verifies]), also with a key
      made and written to a file by the library ([new_key_signs]).
    - The HTTP server is started with what the configuration asks for or not at
      all, and requests are correlated ([server_starts_as_configured],
      [request_correlated]); a server program reads its configuration, sets up
      the log and tracing it asks for, and starts the server it asks for, or ends
      with an error ([server_main_starts_configured]).
    - Utilities and checks: retries make no more attempts than asked and end with
      the last ([retry_run_attempts]); the health check's exit code says whether
      every service is usable ([devenv_exit_code]); the audit reads every line of
      its ignore file and keeps every line of the lock export
      ([ignored_vulns_total], [strip_markers_lines]); the class-attribute check is
      exact ([visit_exact]); a name of a cache set has one cache, which clearing
      empties for its holders ([cacheset_new_again], [cacheset_clear_spec]); the
      packaging script makes [./dist] what its sources are, touches nothing else,
      and running it again changes nothing ([build_packs]).

    ** Fuel and bounds

    [born] recurses on the interpreter's remaining depth: its theorems say how much
    is enough, and that no depth is when the parent is too long.  [run_forever]
    takes the number of turns; [run_forever_drains] gives one per queued job and
    one more.  [Json.parse] takes one unit per character, proved enough for any
    printed value.  All other recursion is structural: on the tasks, attempts and
    rounds of a workflow, on scripts of what other parties do, or on data.

    ** Not modelled

    Logging has no effect on the state of the rest: [Log] models the logger, the
    other files leave its calls out, and the colours and format of a line are
    left out everywhere.  What FastAPI, uvicorn, OpenTelemetry, loguru, argparse,
    YAML, the database drivers and the operating system do with what the code
    gives them is theirs: a parameter where a result is used.  The logo and the
    class [InternalException] beyond its message (a constructor of [exn]) carry no
    logic.  The packaging script's file system has no symbolic links and its disk
    does not fail.  How long a stream waits for an event, a
    float from the configuration, is left out: a wait ends with the event or with
    the timeout, whichever a script of the others' steps says.  Characters beyond
    U+00FF - except what [rand_case] makes of U+00B5, U+00DF and U+00FF -
    and floating-point numbers in JSON are outside the model.  Threads are
    interleaved where the code shares state between them: the soft-timeout pool
    ([SoftTimeout]), the constructors and warnings ([Singleton], [OneShot]), the
    databases' other writers ([DurableSpec]); an operation that holds its object's
    lock throughout is one step. *)
From stdpp Require Export base tactics option list gmap strings pretty sets relations.
From Stdlib Require Export ZArith Lia Ascii.
#[global] Open Scope string_scope.
#[global] Open Scope list_scope.

#[global] Set Default Goal Selector "!".

(** ** Python exceptions

    One constructor per exception class the modelled code raises or tests for;
    [OtherException] is any other subclass of [Exception] that user code (an
    executor, a handler, a driver) may raise, [BaseExc] a [BaseException] that
    is not an [Exception] ([KeyboardInterrupt], [SystemExit],
    [asyncio.CancelledError]): an [except Exception] clause does not catch it. *)
Inductive exn : Type :=
| InternalException (msg : string)
| ValueError (msg : string)
| RuntimeError (msg : string)
| KeyError (key : string)
| TypeError (msg : string)
| TimeoutError (msg : string)
| ChannelFullError (msg : string)
| ChannelStoppedError (msg : string)
| JobRedeliveryError (msg reason : string) (job : option nat)
| JobRequeuedError (msg : string)
| HTTPException (status_code : Z) (detail : string)
| OtherException (cls msg : string)
| BaseExc (cls : string).

(** [isinstance(e, Exception)]: what an [except Exception] clause catches. *)
Definition is_exception (e : exn) : bool :=
  match e with BaseExc _ => false | _ => true end.

(** ** Outcomes and the state-and-exception monad

    A Python call on a state [W] returns a value or raises, and in both cases
    leaves a state behind: effects that happened before a [raise] stay. *)
Inductive outcome (A : Type) : Type :=
| Ret (a : A)
| Raise (e : exn).
Arguments Ret {A} a.
Arguments Raise {A} e.

Definition M (W A : Type) : Type := W → outcome A * W.

Definition m_ret {W A} (a : A) : M W A := λ w, (Ret a, w).
Definition m_raise {W A} (e : exn) : M W A := λ w, (Raise e, w).
Definition m_bind {W A B} (m : M W A) (k : A → M W B) : M W B :=
  λ w, match m w with
       | (Ret a, w') => k a w'
       | (Raise e, w') => (Raise e, w')
       end.
Definition m_get {W A} (f : W → A) : M W A := λ w, (Ret (f w), w).
Definition m_modify {W} (f : W → W) : M W unit := λ w, (Ret tt, f w).
Definition m_of_outcome {W A} (o : outcome A) : M W A := λ w, (o, w).

(** [try: m except Exception as e: h e]. *)
Definition m_try {W A} (m : M W A) (h : exn → M W A) : M W A :=
  λ w, match m w with
       | (Ret a, w') => (Ret a, w')
       | (Raise e, w') => if is_exception e then h e w' else (Raise e, w')
       end.

(** [try: m except C as e: h e] for a class of exceptions [p]. *)
Definition m_except {W A} (p : exn → bool) (m : M W A) (h : exn → M W A) : M W A :=
  λ w, match m w with
       | (Ret a, w') => (Ret a, w')
       | (Raise e, w') => if p e then h e w' else (Raise e, w')
       end.

(** [try: m finally: f]. *)
Definition m_finally {W A} (m : M W A) (f : M W unit) : M W A :=
  λ w, match m w with
       | (o, w') => match f w' with
                    | (Ret _, w'') => (o, w'')
                    | (Raise e, w'') => (Raise e, w'')
                    end
       end.

Definition is_timeout (e : exn) : bool := match e with TimeoutError _ => true | _ => false end.

Declare Scope py_scope.
Delimit Scope py_scope with py.
Notation "'let*' x := c 'in' k" := (m_bind c (λ x, k))
  (at level 10, x pattern, c at level 100, k at level 200) : py_scope.
#[global] Open Scope py_scope.

(** ** Python truthiness of the values the code tests with [if not x] *)
Definition str_truthy (s : string) : bool := negb (String.eqb s "").
Definition opt_str_truthy (o : option string) : bool :=
  match o with Some s => str_truthy s | None => false end.
(** [int(x or 0)] style tests on integers *)
Definition int_truthy (z : Z) : bool := negb (Z.eqb z 0).

(** ** Generic lemmas *)
Lemma bind_eq {W A B} (m : M W A) (k : A → M W B) w :
  m_bind m k w = match m w with (Ret a, w') => k a w' | (Raise e, w') => (Raise e, w') end.
Proof. done. Qed.

Lemma bind_ret_run {W A B} (m : M W A) (k : A → M W B) w a w' :
  m w = (Ret a, w') → m_bind m k w = k a w'.
Proof. intros H. by rewrite bind_eq, H. Qed.

Lemma bind_raise_run {W A B} (m : M W A) (k : A → M W B) w e w' :
  m w = (Raise e, w') → m_bind m k w = (Raise e, w').
Proof. intros H. by rewrite bind_eq, H. Qed.

Lemma bind_ret_inv {W A B} (m : M W A) (k : A → M W B) w b w' :
  m_bind m k w = (Ret b, w') → ∃ a w1, m w = (Ret a, w1) ∧ k a w1 = (Ret b, w').
Proof. rewrite bind_eq. destruct (m w) as [[a|e] w1]; [eauto | done]. Qed.

Lemma try_ret_run {W A} (m : M W A) h w a w' :
  m w = (Ret a, w') → m_try m h w = (Ret a, w').
Proof. intros H. unfold m_try. by rewrite H. Qed.

Lemma try_raise_run {W A} (m : M W A) h w e w' :
  m w = (Raise e, w') → is_exception e = true → m_try m h w = h e w'.
Proof. intros H He. unfold m_try. by rewrite H, He. Qed.

(** Strings *)
#[global] Arguments String.append !_ _ / : simpl nomatch.
Lemma str_app_assoc (a b c : string) : (a +:+ b) +:+ c = a +:+ (b +:+ c).
Proof. induction a as [|x a IH]; [done |]. simpl. by f_equal. Qed.
Lemma str_app_nil_r (a : string) : a +:+ "" = a.
Proof. induction a as [|x a IH]; [done |]. simpl. by f_equal. Qed.
Lemma str_length_app (a b : string) :
  String.length (a +:+ b) = (String.length a + String.length b)%nat.
Proof. induction a as [|x a IH]; simpl; [done | by rewrite IH]. Qed.
(** What follows the prefix [p] of [s]. *)
Fixpoint str_after (p s : string) : option string :=
  match p, s with
  | "", _ => Some s
  | String a p, String b s => if Ascii.eqb a b then str_after p s else None
  | _, "" => None
  end.
Lemma str_after_app (p s : string) : str_after p (p +:+ s) = Some s.
Proof. induction p as [|a p IH]; [done |]. cbn. by rewrite Ascii.eqb_refl. Qed.
Lemma str_truthy_true s : str_truthy s = true ↔ s ≠ "".
Proof. destruct s; cbn; split; congruence. Qed.
Lemma str_truthy_false s : str_truthy s = false ↔ s = "".
Proof. destruct s; cbn; split; congruence. Qed.

(** ** Preservation of a relation on states

    [preserves R m]: whatever [m] does, value or exception, it moves the state
    along [R].  The lemmas below let [eauto with preserves] derive it for a
    composed operation from its parts. *)
Definition preserves {W A} (R : W → W → Prop) (m : M W A) : Prop :=
  ∀ w, R w (m w).2.

Section Preserves.
Context {W : Type} (R : W → W → Prop) `{!PreOrder R}.

Lemma preserves_ret {A} (a : A) : preserves R (m_ret a).
Proof. intros w. cbn. reflexivity. Qed.
Lemma preserves_raise {A} e : preserves R (m_raise (A := A) e).
Proof. intros w. cbn. reflexivity. Qed.
Lemma preserves_get {A} (f : W → A) : preserves R (m_get f).
Proof. intros w. cbn. reflexivity. Qed.
Lemma preserves_of_outcome {A} (o : outcome A) : preserves R (m_of_outcome o).
Proof. intros w. cbn. reflexivity. Qed.
Lemma preserves_modify f : (∀ w, R w (f w)) → preserves R (m_modify f).
Proof. intros H w. cbn. apply H. Qed.
Lemma preserves_bind {A B} (m : M W A) (k : A → M W B) :
  preserves R m → (∀ a, preserves R (k a)) → preserves R (m_bind m k).
Proof.
  intros Hm Hk w. specialize (Hm w). rewrite bind_eq.
  destruct (m w) as [[a|e] w1]; cbn in *; [| done].
  etransitivity; [exact Hm | apply Hk].
Qed.
Lemma preserves_try {A} (m : M W A) h :
  preserves R m → (∀ e, preserves R (h e)) → preserves R (m_try m h).
Proof.
  intros Hm Hh w. specialize (Hm w). unfold m_try.
  destruct (m w) as [[a|e] w1]; cbn in *; [done |].
  destruct (is_exception e); cbn; [| done].
  etransitivity; [exact Hm | apply Hh].
Qed.
Lemma preserves_except {A} p (m : M W A) h :
  preserves R m → (∀ e, preserves R (h e)) → preserves R (m_except p m h).
Proof.
  intros Hm Hh w. specialize (Hm w). unfold m_except.
  destruct (m w) as [[a|e] w1]; cbn in *; [done |].
  destruct (p e); cbn; [| done].
  etransitivity; [exact Hm | apply Hh].
Qed.
Lemma preserves_finally {A} (m : M W A) f :
  preserves R m → preserves R f → preserves R (m_finally m f).
Proof.
  intros Hm Hf w. specialize (Hm w). unfold m_finally.
  destruct (m w) as [o w1]; cbn in *. specialize (Hf w1).
  destruct (f w1) as [[a|e] w2]; cbn in *; by etransitivity.
Qed.
Lemma preserves_if {A} (b : bool) (m1 m2 : M W A) :
  preserves R m1 → preserves R m2 → preserves R (if b then m1 else m2).
Proof. by destruct b. Qed.
End Preserves.

Create HintDb preserves discriminated.
#[export] Hint Resolve preserves_ret preserves_raise preserves_get preserves_of_outcome
  preserves_bind preserves_try preserves_except preserves_finally preserves_if : preserves.
#[export] Hint Extern 1 (PreOrder _) => apply _ : preserves.

(** Case analysis on every call a hypothesis or the goal is stuck on. *)
Ltac destruct_run :=
  match goal with
  | H : context [match ?m ?w with (_, _) => _ end] |- _ =>
      let o := fresh "o" in let w' := fresh "w" in let E := fresh "E" in
      destruct (m w) as [o w'] eqn:E; destruct o; cbn in H
  | |- context [match ?m ?w with (_, _) => _ end] =>
      let o := fresh "o" in let w' := fresh "w" in let E := fresh "E" in
      destruct (m w) as [o w'] eqn:E; destruct o; cbn
  end.

(** Peel a composed operation down to the calls the [preserves] hints know. *)
Ltac prove_preserves :=
  repeat match goal with
    | |- preserves _ (match ?x with _ => _ end) => destruct x
    | |- preserves _ (m_bind _ _) => apply preserves_bind; [apply _ | | intros ?]
    | |- preserves _ (m_finally _ _) => apply preserves_finally; [apply _ | |]
    | |- preserves _ (m_try _ _) => apply preserves_try; [apply _ | | intros ?]
    | |- preserves _ (m_except _ _ _) => apply preserves_except; [apply _ | | intros ?]
    | |- preserves _ _ => solve [auto with preserves]
    end.
