(* ===== verification/Dict.v ===== *)
(** * Dict: Python dictionaries with string keys

    A dict keeps its items in insertion order; assigning to a present key keeps
    its position.  [dict_map] is the finite map a dict denotes. *)
From S2P Require Import Prelude.

Abbreviation dict A := (list (string * A)).

Section Dict.
Context {A : Type}.
Implicit Types (d : dict A) (k : string) (v : A).

(** [d[k] = v], [d.get(k)], [d.pop(k, None)], [d.values()]. *)
Fixpoint dict_set (k : string) (v : A) (d : dict A) : dict A :=
  match d with
  | [] => [(k, v)]
  | (k', v') :: d' => if decide (k = k') then (k, v) :: d' else (k', v') :: dict_set k v d'
  end.
Fixpoint dict_get (k : string) (d : dict A) : option A :=
  match d with
  | [] => None
  | (k', v') :: d' => if decide (k = k') then Some v' else dict_get k d'
  end.
Definition dict_pop (k : string) (d : dict A) : dict A := filter (λ kv, kv.1 ≠ k) d.
Definition dict_values (d : dict A) : list A := List.map snd d.
Definition dict_keys (d : dict A) : list string := List.map fst d.

Definition dict_map (d : dict A) : gmap string A := list_to_map d.

Lemma dict_get_map k d : dict_get k d = dict_map d !! k.
Proof.
  unfold dict_map. induction d as [|[k' v'] d IH]; simpl; [by rewrite lookup_empty |].
  rewrite lookup_insert, IH. repeat case_decide; congruence.
Qed.

Lemma dict_map_set k v d : dict_map (dict_set k v d) = <[k := v]> (dict_map d).
Proof.
  unfold dict_map. induction d as [|[k' v'] d IH]; simpl; [done |].
  case_decide as Hk; simpl.
  - subst. by rewrite insert_insert_eq.
  - by rewrite IH, insert_insert_ne.
Qed.

Lemma dict_map_pop k d : dict_map (dict_pop k d) = delete k (dict_map d).
Proof.
  unfold dict_map, dict_pop. induction d as [|[k' v'] d IH]; simpl; [by rewrite delete_empty |].
  rewrite filter_cons. simpl. case_decide as Hk; simpl.
  - by rewrite IH, delete_insert_ne by congruence.
  - assert (k' = k) as -> by (destruct (decide (k' = k)); congruence).
    by rewrite delete_insert_eq.
Qed.

Lemma dict_set_new k v d : k ∉ dict_keys d → dict_set k v d = d ++ [(k, v)].
Proof.
  induction d as [|[k' v'] d IH]; simpl; [done |].
  intros [Hne Hni]%not_elem_of_cons. by rewrite decide_False, IH.
Qed.

Lemma dict_keys_set k v d :
  dict_keys (dict_set k v d) = if decide (k ∈ dict_keys d) then dict_keys d else dict_keys d ++ [k].
Proof.
  unfold dict_keys. induction d as [|[k' v'] d IH]; [done |].
  cbn [dict_set]. destruct (decide (k = k')) as [->|Hk]; cbn [List.map fst].
  - by rewrite decide_True by left.
  - rewrite IH. destruct (decide (k ∈ List.map fst d)) as [Hin|Hin].
    + by rewrite decide_True by (by right).
    + rewrite decide_False; [done |]. by intros [?|?]%elem_of_cons.
Qed.

Lemma dict_set_NoDup k v d : NoDup (dict_keys d) → NoDup (dict_keys (dict_set k v d)).
Proof.
  intros H. rewrite dict_keys_set. case_decide; [done |].
  apply NoDup_app; split; [done |]. split; [| apply NoDup_singleton].
  intros x Hx ->%list_elem_of_singleton. done.
Qed.

Lemma dict_pop_NoDup k d : NoDup (dict_keys d) → NoDup (dict_keys (dict_pop k d)).
Proof.
  intros H. eapply sublist_NoDup; [exact H |].
  unfold dict_keys, dict_pop. apply fmap_sublist, sublist_filter.
Qed.

(** The values of a dict are the values of its map. *)
Lemma elem_of_dict_values v d :
  NoDup (dict_keys d) → v ∈ dict_values d ↔ ∃ k, dict_map d !! k = Some v.
Proof.
  intros Hnd. unfold dict_values, dict_map. rewrite list_elem_of_fmap. split.
  - intros ([k v'] & -> & Hin). exists k. by apply elem_of_list_to_map_1.
  - intros (k & Hk%elem_of_list_to_map_2). by exists (k, v).
Qed.
End Dict.
