(* ===== verification/Json.v ===== *)
(** * Json: the part of Python's [json] the program uses

    [json.dumps] (both [ensure_ascii] settings, any separators, [sort_keys])
    and [json.loads], on [None], booleans, integers, strings, lists and dicts
    with string keys.  A Python [str] is a [string] whose characters are the
    code points U+0000 to U+00FF; [json.loads] is modelled on documents whose
    numbers are integers and whose characters are in that range. *)
From S2P Require Import Prelude Dict.
From Stdlib Require Import DecimalString DecimalZ DecimalPos.
From stdpp Require Import sorting.

Inductive json : Type :=
| JNull
| JBool (b : bool)
| JInt (z : Z)
| JStr (s : string)
| JArr (l : list json)
| JObj (l : list (string * json)).

(** ** Strings *)
Definition code (c : ascii) : nat := nat_of_ascii c.
Definition dquote : ascii := "034".
Definition bslash : ascii := "092".

Definition hex_digit (n : nat) : ascii :=
  ascii_of_nat (if n <? 10 then 48 + n else 87 + n)%nat.
Definition hex_value (c : ascii) : option nat :=
  let n := code c in
  if (48 <=? n)%nat && (n <=? 57)%nat then Some (n - 48)%nat
  else if (97 <=? n)%nat && (n <=? 102)%nat then Some (n - 87)%nat
  else if (65 <=? n)%nat && (n <=? 70)%nat then Some (n - 55)%nat
  else None.

(** [py_encode_basestring_ascii] / [py_encode_basestring], one character. *)
Definition esc_char (ensure_ascii : bool) (c : ascii) : string :=
  let n := code c in
  if decide (c = dquote) then String bslash (String dquote "")
  else if decide (c = bslash) then String bslash (String bslash "")
  else if (n =? 8)%nat then String bslash "b"
  else if (n =? 9)%nat then String bslash "t"
  else if (n =? 10)%nat then String bslash "n"
  else if (n =? 12)%nat then String bslash "f"
  else if (n =? 13)%nat then String bslash "r"
  else if (n <? 32)%nat || (ensure_ascii && (126 <? n)%nat) then
    String bslash (String "u" (String "0" (String "0"
      (String (hex_digit (n / 16)) (String (hex_digit (n mod 16)) "")))))
  else String c "".

Fixpoint esc_str (ea : bool) (s : string) : string :=
  match s with
  | "" => ""
  | String c s' => esc_char ea c +:+ esc_str ea s'
  end.

Definition quote (ea : bool) (s : string) : string :=
  String dquote (esc_str ea s +:+ String dquote "").

(** The decoder's [scanstring] (strict), after the opening quote. *)
Definition cons_fst (c : ascii) (r : option (string * string)) : option (string * string) :=
  match r with Some (s, rest) => Some (String c s, rest) | None => None end.

Fixpoint scan_str (s : string) : option (string * string) :=
  match s with
  | "" => None
  | String c s1 =>
      if decide (c = dquote) then Some ("", s1)
      else if decide (c = bslash) then
        match s1 with
        | "" => None
        | String d s2 =>
            if decide (d = dquote) then cons_fst dquote (scan_str s2)
            else if decide (d = bslash) then cons_fst bslash (scan_str s2)
            else if decide (d = "/"%char) then cons_fst "/" (scan_str s2)
            else if decide (d = "b"%char) then cons_fst "008" (scan_str s2)
            else if decide (d = "t"%char) then cons_fst "009" (scan_str s2)
            else if decide (d = "n"%char) then cons_fst "010" (scan_str s2)
            else if decide (d = "f"%char) then cons_fst "012" (scan_str s2)
            else if decide (d = "r"%char) then cons_fst "013" (scan_str s2)
            else if decide (d = "u"%char) then
              match s2 with
              | String a (String b (String x (String y s3))) =>
                  match hex_value a, hex_value b, hex_value x, hex_value y with
                  | Some 0%nat, Some 0%nat, Some h, Some l =>
                      cons_fst (ascii_of_nat (16 * h + l)) (scan_str s3)
                  | _, _, _, _ => None
                  end
              | _ => None
              end
            else None
        end
      else if (code c <? 32)%nat then None
      else cons_fst c (scan_str s1)
  end.

Lemma scan_esc_char ea c r : scan_str (esc_char ea c +:+ r) = cons_fst c (scan_str r).
Proof.
  destruct ea; destruct c as [[] [] [] [] [] [] [] []]; cbn -[scan_str]; reflexivity.
Qed.

Lemma scan_quote ea s r : scan_str (esc_str ea s +:+ String dquote r) = Some (s, r).
Proof.
  induction s as [|c s IH]; [done |]. cbn [esc_str].
  by rewrite str_app_assoc, scan_esc_char, IH.
Qed.

(** ** Integers *)
Definition str_of_Z (z : Z) : string := NilZero.string_of_int (Z.to_int z).

Definition is_digit (c : ascii) : bool := (48 <=? code c)%nat && (code c <=? 57)%nat.

Fixpoint span_digits (s : string) : string * string :=
  match s with
  | "" => ("", "")
  | String c s' =>
      if is_digit c then let (a, b) := span_digits s' in (String c a, b) else ("", s)
  end.

Definition int_token (s : string) : string * string :=
  match s with
  | String "-" s' => let (a, b) := span_digits s' in (String "-" a, b)
  | _ => span_digits s
  end.

(** A number token of the JSON grammar without fraction and exponent. *)
Definition scan_int (s : string) : option (Z * string) :=
  let (tok, rest) := int_token s in
  match rest with
  | String "." _ | String "e" _ | String "E" _ => None
  | _ =>
      match NilZero.int_of_string tok with
      | Some d =>
          let z := Z.of_int d in
          if decide (str_of_Z z = tok ∨ tok = "-0") then Some (z, rest) else None
      | None => None
      end
  end.

(** What may follow a value: nothing that would extend a number. *)
Definition stops (rest : string) : bool :=
  match rest with
  | "" => true
  | String c _ =>
      negb (is_digit c || bool_decide (c = "."%char) || bool_decide (c = "e"%char)
            || bool_decide (c = "E"%char))
  end.

Lemma span_digits_uint d rest :
  stops rest = true →
  span_digits (NilEmpty.string_of_uint d +:+ rest) = (NilEmpty.string_of_uint d, rest).
Proof.
  intros Hr. induction d; cbn; rewrite ?IHd; try done.
  destruct rest as [|c rest]; [done |]. cbn in *.
  destruct (is_digit c); [done | reflexivity].
Qed.

Lemma span_digits_uint0 d rest :
  stops rest = true →
  span_digits (NilZero.string_of_uint d +:+ rest) = (NilZero.string_of_uint d, rest).
Proof.
  intros Hr. assert (∃ d', NilZero.string_of_uint d = NilEmpty.string_of_uint d') as [d' ->].
  { destruct d as [|d|d|d|d|d|d|d|d|d|d]; [by exists (Decimal.D0 Decimal.Nil) | by eexists ..]. }
  by apply span_digits_uint.
Qed.

Lemma int_token_str z rest :
  stops rest = true → int_token (str_of_Z z +:+ rest) = (str_of_Z z, rest).
Proof.
  intros Hr. unfold str_of_Z, NilZero.string_of_int.
  destruct (Z.to_int z) as [d|d]; simpl.
  - rewrite <- (span_digits_uint0 d rest Hr). unfold int_token.
    destruct d; done.
  - by rewrite (span_digits_uint0 d rest Hr).
Qed.

Lemma int_of_str z : NilZero.int_of_string (str_of_Z z) = Some (Z.to_int z).
Proof.
  unfold str_of_Z. apply NilZero.isi; intros H;
    apply (f_equal Z.of_int) in H as H'; rewrite DecimalZ.of_to in H';
    cbn in H'; subst z; done.
Qed.

Lemma str_of_Z_inj z1 z2 : str_of_Z z1 = str_of_Z z2 → z1 = z2.
Proof.
  intros H. apply (f_equal NilZero.int_of_string) in H. rewrite !int_of_str in H.
  injection H as H. by rewrite <- (DecimalZ.of_to z1), H, DecimalZ.of_to.
Qed.

Lemma scan_int_str z rest : stops rest = true → scan_int (str_of_Z z +:+ rest) = Some (z, rest).
Proof.
  intros Hr. unfold scan_int. rewrite (int_token_str z rest Hr), int_of_str, DecimalZ.of_to.
  rewrite decide_True by auto. destruct rest as [|c rest]; [done |].
  destruct c as [[] [] [] [] [] [] [] []]; try done; discriminate Hr.
Qed.

(** The first character of a printed integer is a digit or a minus sign. *)
Lemma str_of_Z_head z :
  ∃ c s, str_of_Z z = String c s ∧ (is_digit c = true ∨ c = "-"%char).
Proof.
  unfold str_of_Z, NilZero.string_of_int.
  destruct (Z.to_int z) as [d|d]; [| by eauto].
  destruct d; simpl; by eauto.
Qed.

(** ** Values *)
Definition is_ws (c : ascii) : bool :=
  bool_decide (c = " "%char ∨ c = "009"%char ∨ c = "010"%char ∨ c = "013"%char).
Fixpoint skip_ws (s : string) : string :=
  match s with
  | String c s' => if is_ws c then skip_ws s' else s
  | "" => ""
  end.

(** [ensure_ascii], [separators] and the item/key separators of [json.dumps]. *)
Record dump_opts : Type := DumpOpts {
  ensure_ascii : bool;
  item_sep : string;
  key_sep : string;
}.
(** [json.dumps(x)]. *)
Definition default_opts : dump_opts := DumpOpts true ", " ": ".
(** [json.dumps(x, separators=(",", ":"), ensure_ascii=False)]. *)
Definition compact_opts : dump_opts := DumpOpts false "," ":".

Fixpoint join (sep : string) (l : list string) : string :=
  match l with
  | [] => ""
  | [x] => x
  | x :: l' => x +:+ sep +:+ join sep l'
  end.

Fixpoint dump (o : dump_opts) (j : json) : string :=
  match j with
  | JNull => "null"
  | JBool true => "true"
  | JBool false => "false"
  | JInt z => str_of_Z z
  | JStr s => quote (ensure_ascii o) s
  | JArr l => "[" +:+ join (item_sep o) (List.map (dump o) l) +:+ "]"
  | JObj l =>
      "{" +:+ join (item_sep o)
        (List.map (λ kv, quote (ensure_ascii o) kv.1 +:+ key_sep o +:+ dump o kv.2) l) +:+ "}"
  end.

(** One item of a dict as [dump] prints it. *)
Definition dump_item (o : dump_opts) (kv : string * json) : string :=
  quote (ensure_ascii o) kv.1 +:+ key_sep o +:+ dump o kv.2.

(** [sort_keys=True]: the items of every dict in key order. *)
Fixpoint sort_keys (j : json) : json :=
  match j with
  | JArr l => JArr (List.map sort_keys l)
  | JObj l =>
      JObj (merge_sort (λ a b, String.le a.1 b.1)
              (List.map (λ kv, (kv.1, sort_keys kv.2)) l))
  | _ => j
  end.

(** ** The decoder: [scan_once], [JSONArray] and [JSONObject], by fuel. *)
Fixpoint strip_prefix (p s : string) : option string :=
  match p, s with
  | "", _ => Some s
  | String a p', String b s' => if decide (a = b) then strip_prefix p' s' else None
  | _, "" => None
  end.

Fixpoint parse (n : nat) (s : string) {struct n} : option (json * string) :=
  match n with
  | O => None
  | S n' =>
      match s with
      | "" => None
      | String c r =>
          if decide (c = dquote) then
            match scan_str r with Some (v, r') => Some (JStr v, r') | None => None end
          else if decide (c = "["%char) then
            match skip_ws r with
            | String "]" r' => Some (JArr [], r')
            | r' => parse_arr n' [] r'
            end
          else if decide (c = "{"%char) then
            match skip_ws r with
            | String "}" r' => Some (JObj [], r')
            | r' => parse_obj n' [] r'
            end
          else if decide (c = "n"%char) then
            match strip_prefix "null" s with Some r' => Some (JNull, r') | None => None end
          else if decide (c = "t"%char) then
            match strip_prefix "true" s with Some r' => Some (JBool true, r') | None => None end
          else if decide (c = "f"%char) then
            match strip_prefix "false" s with Some r' => Some (JBool false, r') | None => None end
          else
            match scan_int s with Some (z, r') => Some (JInt z, r') | None => None end
      end
  end
with parse_arr (n : nat) (acc : list json) (s : string) {struct n} : option (json * string) :=
  match n with
  | O => None
  | S n' =>
      match parse n' s with
      | None => None
      | Some (v, r) =>
          match skip_ws r with
          | String "]" r' => Some (JArr (acc ++ [v]), r')
          | String "," r' => parse_arr n' (acc ++ [v]) (skip_ws r')
          | _ => None
          end
      end
  end
with parse_obj (n : nat) (acc : list (string * json)) (s : string) {struct n}
    : option (json * string) :=
  match n with
  | O => None
  | S n' =>
      match s with
      | String dq r =>
          if decide (dq = dquote) then
          match scan_str r with
          | None => None
          | Some (k, r1) =>
              match skip_ws r1 with
              | String ":" r2 =>
                  match parse n' (skip_ws r2) with
                  | None => None
                  | Some (v, r3) =>
                      match skip_ws r3 with
                      | String "}" r4 => Some (JObj (dict_set k v acc), r4)
                      | String "," r4 => parse_obj n' (dict_set k v acc) (skip_ws r4)
                      | _ => None
                      end
                  end
              | _ => None
              end
          end
          else None
      | _ => None
      end
  end.

(** [json.loads(s)]; [None] is the [JSONDecodeError]. *)
Definition loads (s : string) : option json :=
  match parse (S (String.length s)) (skip_ws s) with
  | Some (j, r) => if decide (skip_ws r = "") then Some j else None
  | None => None
  end.

(** ** Induction over nested values *)
Section JsonInd.
Variable P : json → Prop.
Hypothesis (Hnull : P JNull) (Hbool : ∀ b, P (JBool b)) (Hint : ∀ z, P (JInt z))
  (Hstr : ∀ s, P (JStr s)) (Harr : ∀ l, Forall P l → P (JArr l))
  (Hobj : ∀ l, Forall (λ kv, P kv.2) l → P (JObj l)).

Fixpoint json_ind' (j : json) : P j :=
  match j with
  | JNull => Hnull
  | JBool b => Hbool b
  | JInt z => Hint z
  | JStr s => Hstr s
  | JArr l =>
      Harr l ((fix go (l : list json) : Forall P l :=
        match l with
        | [] => Forall_nil_2 _
        | x :: l' => Forall_cons_2 _ x l' (json_ind' x) (go l')
        end) l)
  | JObj l =>
      Hobj l ((fix go (l : list (string * json)) : Forall (λ kv, P kv.2) l :=
        match l with
        | [] => Forall_nil_2 _
        | x :: l' => Forall_cons_2 _ x l' (json_ind' x.2) (go l')
        end) l)
  end.
End JsonInd.

(** A value whose dicts have distinct keys, as every Python dict has. *)
Fixpoint dicts_ok (j : json) : Prop :=
  match j with
  | JArr l => fold_right (λ x Q, dicts_ok x ∧ Q) True l
  | JObj l => NoDup (List.map fst l) ∧ fold_right (λ kv Q, dicts_ok kv.2 ∧ Q) True l
  | _ => True
  end.

(** Fuel that is enough to parse the printed value. *)
Fixpoint need (j : json) : nat :=
  match j with
  | JArr l => S (fold_right (λ x n, S (need x + n)) 0 l)
  | JObj l => S (fold_right (λ kv n, S (need kv.2 + n)) 0 l)
  | _ => 1
  end%nat.

Lemma skip_ws_nws c s : is_ws c = false → skip_ws (String c s) = String c s.
Proof. intros H. simpl. by rewrite H. Qed.

Lemma dump_head o j :
  ∃ c s, dump o j = String c s ∧ is_ws c = false ∧ c ≠ "]"%char.
Proof.
  destruct j as [|[]|z|s|l|l]; try by (eexists _, _; split; [reflexivity | split; vm_compute; done]).
  simpl. destruct (str_of_Z_head z) as (c & s & -> & Hc). exists c, s. split; [done |].
  destruct c as [[] [] [] [] [] [] [] []]; destruct Hc as [Hc|Hc]; try discriminate Hc;
    split; vm_compute; congruence.
Qed.

(** The separators [json.dumps] is called with. *)
Definition opts_ok (o : dump_opts) : Prop :=
  (item_sep o = "," ∨ item_sep o = ", ") ∧ (key_sep o = ":" ∨ key_sep o = ": ").

Lemma default_opts_ok : opts_ok default_opts.
Proof. split; by right. Qed.
Lemma compact_opts_ok : opts_ok compact_opts.
Proof. split; by left. Qed.
#[export] Hint Resolve default_opts_ok compact_opts_ok : core.

Lemma item_sep_cases o s : opts_ok o →
  ∃ w, item_sep o +:+ s = String "," w ∧ skip_ws w = skip_ws s.
Proof. intros [[->| ->] _]; by eexists. Qed.
Lemma key_sep_cases o s : opts_ok o →
  ∃ w, key_sep o +:+ s = String ":" w ∧ skip_ws w = skip_ws s.
Proof. intros [_ [->| ->]]; by eexists. Qed.

Lemma skip_ws_dump o j r : skip_ws (dump o j +:+ r) = dump o j +:+ r.
Proof.
  destruct (dump_head o j) as (c & s & -> & Hws & _). simpl. by rewrite Hws.
Qed.

(** The result the parser is to give on a printed value. *)
Definition parses (o : dump_opts) (j : json) : Prop :=
  ∀ n r, need j ≤ n → stops r = true → parse n (dump o j +:+ r) = Some (j, r).

(** Joining a nonempty list, one element at a time. *)
Lemma join_cons2 sep a b l : join sep (a :: b :: l) = a +:+ sep +:+ join sep (b :: l).
Proof. done. Qed.

Lemma skip_ws_join o x l t :
  skip_ws (join (item_sep o) (List.map (dump o) (x :: l)) +:+ t)
  = join (item_sep o) (List.map (dump o) (x :: l)) +:+ t.
Proof.
  destruct l; simpl List.map; [| rewrite join_cons2, !str_app_assoc]; apply skip_ws_dump.
Qed.

(** Closing a list: the elements already read, then the rest. *)
Lemma parse_arr_join o x l acc n r :
  opts_ok o → Forall (parses o) (x :: l) →
  fold_right (λ x n, S (need x + n)) 0 (x :: l) ≤ n →
  parse_arr n acc (join (item_sep o) (List.map (dump o) (x :: l)) +:+ String "]" r)
    = Some (JArr (acc ++ x :: l), r).
Proof.
  intros Ho. revert x acc n. induction l as [|y l IH]; intros x acc n Hall Hn;
    (destruct n as [|n]; [simpl in Hn; lia |]); apply Forall_cons in Hall as [Hx Hl].
  - cbn. rewrite Hx by (simpl in Hn; lia || done). done.
  - cbn [fold_right] in Hn. simpl List.map. rewrite join_cons2, !str_app_assoc.
    change (dump o y :: List.map (dump o) l) with (List.map (dump o) (y :: l)).
    destruct (item_sep_cases o (join (item_sep o) (List.map (dump o) (y :: l)) +:+ String "]" r) Ho)
      as (w & -> & Hw).
    cbn [parse_arr]. rewrite Hx by (lia || done). cbn [skip_ws is_ws]. simpl.
    rewrite Hw, skip_ws_join, (IH y (acc ++ [x]) n Hl) by (cbn [fold_right]; lia).
    by rewrite <- app_assoc.
Qed.

(** One item of an object, as [dump] prints it. *)
Lemma parse_obj_item o k v (acc : list (string * json)) n t :
  opts_ok o → parses o v → need v ≤ n → stops t = true → k ∉ List.map fst acc →
  parse_obj (S n) acc (dump_item o (k, v) +:+ t) =
    match skip_ws t with
    | String "}" r => Some (JObj (acc ++ [(k, v)]), r)
    | String "," r => parse_obj n (acc ++ [(k, v)]) (skip_ws r)
    | _ => None
    end.
Proof.
  intros Ho Hv Hn Ht Hk. unfold dump_item. cbn [fst snd]. unfold quote.
  rewrite !str_app_assoc. cbn [String.append parse_obj]. rewrite decide_True by done.
  rewrite !str_app_assoc. cbn [String.append]. rewrite scan_quote.
  destruct (key_sep_cases o (dump o v +:+ t) Ho) as (w & -> & Hw). simpl.
  rewrite Hw, skip_ws_dump, (Hv n t Hn Ht). by rewrite (dict_set_new k v acc Hk).
Qed.

Lemma keys_fresh k (v : json) (acc l : list (string * json)) :
  NoDup (List.map fst (acc ++ (k, v) :: l)) → k ∉ List.map fst acc.
Proof.
  rewrite map_app. intros (_ & H & _)%NoDup_app Hin. apply (H k Hin). simpl. left.
Qed.

Lemma parse_obj_join o (x : string * json) l acc n r :
  opts_ok o → Forall (λ kv, parses o kv.2) (x :: l) →
  NoDup (List.map fst (acc ++ x :: l)) →
  fold_right (λ kv n, S (need kv.2 + n)) 0 (x :: l) ≤ n →
  parse_obj n acc (join (item_sep o) (List.map (dump_item o) (x :: l)) +:+ String "}" r)
    = Some (JObj (acc ++ x :: l), r).
Proof.
  intros Ho. revert x acc n. induction l as [|y l IH]; intros [k v] acc n Hall Hnd Hn;
    (destruct n as [|n]; [simpl in Hn; lia |]); apply Forall_cons in Hall as [Hx Hl];
    pose proof (keys_fresh _ _ _ _ Hnd) as Hk; cbn [fold_right snd] in *; simpl List.map.
  - cbn [join]. by rewrite parse_obj_item by (done || lia).
  - rewrite join_cons2, !str_app_assoc.
    change (dump_item o y :: List.map (dump_item o) l) with (List.map (dump_item o) (y :: l)).
    set (tl := join (item_sep o) (List.map (dump_item o) (y :: l)) +:+ String "}" r).
    destruct (item_sep_cases o tl Ho) as (w & Htl & Hw). rewrite Htl.
    assert (skip_ws tl = tl) as Htl' by (subst tl; destruct l; done).
    rewrite parse_obj_item by (done || lia). simpl. rewrite Hw, Htl'. subst tl.
    rewrite (IH y (acc ++ [(k, v)]) n Hl); [by rewrite <- app_assoc | | cbn [fold_right]; lia].
    by rewrite <- app_assoc.
Qed.

Lemma parses_arr o l : opts_ok o → Forall (parses o) l → parses o (JArr l).
Proof.
  intros Ho Hl [|n] r Hn Hr; [simpl in Hn; lia |]. destruct l as [|x l]; [done |].
  assert (∃ c s, join (item_sep o) (List.map (dump o) (x :: l)) +:+ String "]" r = String c s
    ∧ is_ws c = false ∧ c ≠ "]"%char) as (c & s & Heq & Hws & Hc).
  { destruct (dump_head o x) as (c & s & Hx & Hws & Hc).
    destruct l; simpl List.map; [cbn [join] | rewrite join_cons2];
      rewrite Hx; simpl; eauto. }
  assert (parse (S n) (String "[" (String c s)) = parse_arr n [] (String c s)) as Hp.
  { cbn [parse]. rewrite decide_False, decide_True by done. rewrite (skip_ws_nws c s Hws).
    destruct c as [[] [] [] [] [] [] [] []]; done. }
  change (dump o (JArr (x :: l))) with
    (String "[" (join (item_sep o) (List.map (dump o) (x :: l)) +:+ "]")).
  cbn [String.append]. rewrite str_app_assoc. cbn [String.append]. rewrite Heq, Hp, <- Heq, parse_arr_join; [done | done | done | simpl in *; lia].
Qed.

Lemma parses_obj o (l : list (string * json)) :
  opts_ok o → NoDup (List.map fst l) → Forall (λ kv, parses o kv.2) l → parses o (JObj l).
Proof.
  intros Ho Hnd Hl [|n] r Hn Hr; [simpl in Hn; lia |]. destruct l as [|x l]; [done |].
  assert (∃ s, join (item_sep o) (List.map (dump_item o) (x :: l)) +:+ String "}" r
    = String dquote s) as (s & Heq).
  { destruct l; simpl List.map; [cbn [join] | rewrite join_cons2]; eexists; reflexivity. }
  assert (parse (S n) (String "{" (String dquote s)) = parse_obj n [] (String dquote s)) as Hp
    by done.
  change (dump o (JObj (x :: l))) with
    (String "{" (join (item_sep o) (List.map (dump_item o) (x :: l)) +:+ "}")).
  cbn [String.append]. rewrite str_app_assoc. cbn [String.append]. rewrite Heq, Hp, <- Heq, parse_obj_join; [done | done | done | done | simpl in *; lia].
Qed.

(** ** Round trip *)
Lemma fold_right_Forall {A} (Q : A → Prop) l :
  fold_right (λ x P, Q x ∧ P) True l ↔ Forall Q l.
Proof.
  induction l as [|x l IH]; simpl; [by split; [constructor |] |].
  by rewrite Forall_cons, IH.
Qed.

Lemma parses_all o j : opts_ok o → dicts_ok j → parses o j.
Proof.
  intros Ho. induction j as [|[]|z|s|l IH|l IH] using json_ind'; intros Hj;
    try (by intros [|n] r Hn Hr; simpl in Hn; [lia | reflexivity]).
  - intros [|n] r Hn Hr; [simpl in Hn; lia |]. cbn [dump].
    destruct (str_of_Z_head z) as (c & s & Heq & Hc).
    pose proof (scan_int_str z r Hr) as Hs. rewrite Heq in *. cbn [String.append] in *.
    cbn [parse]. rewrite Hs.
    by destruct c as [[] [] [] [] [] [] [] []]; destruct Hc as [Hc|Hc]; try discriminate Hc.
  - intros [|n] r Hn Hr; [simpl in Hn; lia |]. cbn [dump]. unfold quote.
    cbn [String.append parse]. rewrite decide_True, str_app_assoc by done.
    cbn [String.append]. by rewrite scan_quote.
  - apply parses_arr; [done |]. apply fold_right_Forall in Hj.
    apply Forall_forall. intros x Hx. rewrite Forall_forall in IH, Hj.
    apply IH; [done | by apply Hj].
  - destruct Hj as [Hnd Hj]. apply parses_obj; [done | done |]. apply fold_right_Forall in Hj.
    apply Forall_forall. intros x Hx. rewrite Forall_forall in IH, Hj.
    apply IH; [done | by apply Hj].
Qed.

Lemma str_of_Z_length z : 1 ≤ String.length (str_of_Z z).
Proof. destruct (str_of_Z_head z) as (c & s & -> & _). simpl. lia. Qed.

Lemma need_join {A} (f : A → string) (g : A → nat) sep l :
  1 ≤ String.length sep → Forall (λ x, g x ≤ String.length (f x)) l →
  fold_right (λ x n, S (g x + n)) 0 l ≤ S (String.length (join sep (List.map f l))).
Proof.
  intros Hs. induction 1 as [|x l Hx Hl IH]; simpl; [lia |].
  destruct l as [|y l]; simpl in *; [lia |].
  rewrite !str_length_app. simpl in *. lia.
Qed.

Lemma need_dump o j : opts_ok o → need j ≤ String.length (dump o j).
Proof.
  intros Ho. assert (1 ≤ String.length (item_sep o)) as Hs.
  { destruct Ho as [[-> | ->] _]; simpl; lia. }
  induction j as [|[]|z|s|l IH|l IH] using json_ind'; try (simpl; lia).
  - apply str_of_Z_length.
  - simpl. rewrite str_length_app.
    pose proof (need_join (dump o) need (item_sep o) l Hs IH). simpl. lia.
  - change (dump o (JObj l)) with
      (String "{" (join (item_sep o) (List.map (dump_item o) l) +:+ "}")).
    simpl. rewrite str_length_app.
    enough (Forall (λ kv, need kv.2 ≤ String.length (dump_item o kv)) l) as H.
    { pose proof (need_join (dump_item o) (λ kv, need kv.2) (item_sep o) l Hs H). simpl. lia. }
    eapply Forall_impl; [exact IH |]. intros kv Hkv. unfold dump_item.
    rewrite !str_length_app. cbn beta in Hkv. lia.
Qed.

(** [json.loads(json.dumps(j)) == j]. *)
Lemma loads_dump o j : opts_ok o → dicts_ok j → loads (dump o j) = Some j.
Proof.
  intros Ho Hj. unfold loads.
  pose proof (skip_ws_dump o j "") as Hw. rewrite str_app_nil_r in Hw. rewrite Hw.
  pose proof (parses_all o j Ho Hj (S (String.length (dump o j))) "") as Hp.
  rewrite str_app_nil_r in Hp. rewrite Hp; [done | | done].
  pose proof (need_dump o j Ho). lia.
Qed.

Lemma dump_inj o j1 j2 :
  opts_ok o → dicts_ok j1 → dicts_ok j2 → dump o j1 = dump o j2 → j1 = j2.
Proof.
  intros Ho H1 H2 Heq. apply (f_equal loads) in Heq.
  rewrite !loads_dump in Heq by done. congruence.
Qed.
