(* ===== verification/Lifecycle.v ===== *)
(** * Lifecycle: job statuses and the store's status fence

    [src/pypepper/scheduler/status.py] and
    [src/pypepper/scheduler/store/lifecycle.py].  Statuses travel as strings in
    job records; the enumeration [Status] is the scheduler's, [status_value]
    its [.value]. *)
From S2P Require Import Prelude.

(** [class Status(StrEnum)]. *)
Inductive Status : Type :=
| UNKNOWN
| INITIALIZING
| SCHEDULED
| IN_PROGRESS
| FAILED
| COMPLETED
| CANCELLED.

#[export] Instance Status_eq_dec : EqDecision Status.
Proof. solve_decision. Defined.

Definition all_statuses : list Status :=
  [UNKNOWN; INITIALIZING; SCHEDULED; IN_PROGRESS; FAILED; COMPLETED; CANCELLED].

(** [Status.X.value]. *)
Definition status_value (s : Status) : string :=
  match s with
  | UNKNOWN => "Unknown"
  | INITIALIZING => "Initializing"
  | SCHEDULED => "Scheduled"
  | IN_PROGRESS => "InProgress"
  | FAILED => "Failed"
  | COMPLETED => "Completed"
  | CANCELLED => "Cancelled"
  end.

(** [Status(value)]: the enum constructor, [ValueError] on an unknown value. *)
Definition Status_of (v : string) : outcome Status :=
  match list_find (λ s, status_value s = v) all_statuses with
  | Some (_, s) => Ret s
  | None => Raise (ValueError (v +:+ " is not a valid Status"))
  end.

(** [_NON_TERMINAL]. *)
Definition _NON_TERMINAL : gset string :=
  {[ status_value UNKNOWN; status_value INITIALIZING;
     status_value SCHEDULED; status_value IN_PROGRESS ]}.

(** [_REPLACEABLE]: incoming status -> the existing statuses it may replace. *)
Definition _REPLACEABLE : gmap string (gset string) :=
  list_to_map
    [ (status_value UNKNOWN, {[ status_value UNKNOWN ]});
      (status_value INITIALIZING, {[ status_value UNKNOWN; status_value INITIALIZING ]});
      (status_value SCHEDULED,
        {[ status_value UNKNOWN; status_value INITIALIZING; status_value SCHEDULED ]});
      (status_value IN_PROGRESS, _NON_TERMINAL);
      (status_value FAILED, _NON_TERMINAL ∪ {[ status_value FAILED ]});
      (status_value COMPLETED, _NON_TERMINAL ∪ {[ status_value COMPLETED ]});
      (status_value CANCELLED, _NON_TERMINAL ∪ {[ status_value CANCELLED ]}) ].

(** [existing_statuses_put_may_replace(incoming_status)]. *)
Definition existing_statuses_put_may_replace (incoming_status : string) : gset string :=
  match _REPLACEABLE !! incoming_status with
  | Some allowed => allowed
  | None => {[ incoming_status ]}
  end.

(** [put_applies(existing_status, incoming_status)]. *)
Definition put_applies (existing_status : option string) (incoming_status : string) : bool :=
  match existing_status with
  | None => true
  | Some existing => bool_decide (existing ∈ existing_statuses_put_may_replace incoming_status)
  end.

(** [put_may_write(...)]: the fence plus the optimistic version check. *)
Definition put_may_write (existing_status : option string) (existing_version : option Z)
    (incoming_status : string) (incoming_version : Z) : bool :=
  match existing_status with
  | None => true
  | Some _ =>
      if negb (put_applies existing_status incoming_status) then false
      else bool_decide (existing_version = Some incoming_version)
  end.

(** ** The enumeration and its values *)
Lemma Status_of_value s : Status_of (status_value s) = Ret s.
Proof. by destruct s. Qed.

#[export] Instance status_value_inj : Inj (=) (=) status_value.
Proof. intros [] []; done. Qed.

Lemma Status_of_Ret v s : Status_of v = Ret s → v = status_value s.
Proof.
  unfold Status_of. destruct (list_find _ _) as [[i s']|] eqn:E; [| done].
  intros [= <-]. by apply list_find_Some in E as (_ & <- & _).
Qed.

Lemma elem_of_all_statuses s : s ∈ all_statuses.
Proof. destruct s; unfold all_statuses; set_solver. Qed.

(** A property of two statuses that is decidable by computation holds when it
    holds on the 49 pairs. *)
Lemma status_pairs_ind (P : Status → Status → bool) :
  forallb (λ a, forallb (P a) all_statuses) all_statuses = true → ∀ a b, P a b = true.
Proof.
  intros H a b. rewrite forallb_forall in H.
  specialize (H a (proj1 (list_elem_of_In _ _) (elem_of_all_statuses a))).
  rewrite forallb_forall in H.
  by apply H, list_elem_of_In, elem_of_all_statuses.
Qed.

(** The fence on known statuses. *)
Definition fence (a b : Status) : bool := put_applies (Some (status_value a)) (status_value b).

Lemma fence_refl a : fence a a = true.
Proof. by destruct a. Qed.

Lemma fence_antisym a b : fence a b = true → fence b a = true → a = b.
Proof. destruct a, b; vm_compute; congruence. Qed.

Lemma fence_trans a b c : fence a b = true → fence b c = true → fence a c = true.
Proof. destruct a, b, c; vm_compute; congruence. Qed.

(** ** The fence on arbitrary status strings *)
Lemma Status_of_dec v : (∃ s, v = status_value s) ∨ (∀ s, v ≠ status_value s).
Proof.
  destruct (decide (v ∈ map status_value all_statuses)) as [H|H].
  - left. apply list_elem_of_fmap in H as (s & -> & _). by exists s.
  - right. intros s ->. apply H, list_elem_of_fmap. exists s. split; [done |].
    apply elem_of_all_statuses.
Qed.

Lemma replaceable_known b x :
  x ∈ existing_statuses_put_may_replace (status_value b) ↔ ∃ a, x = status_value a ∧ fence a b = true.
Proof.
  split.
  - destruct b; unfold existing_statuses_put_may_replace;
      match goal with |- _ ∈ match ?m with _ => _ end → _ =>
        let v := eval vm_compute in m in change m with v end;
      simpl; intros Hx;
      match goal with H : _ ∈ ?s |- _ =>
        assert (x ∈ elements s) as Hx' by (by apply elem_of_elements);
        let l := eval vm_compute in (elements s) in change (elements s) with l in Hx'
      end; clear Hx;
      repeat (apply elem_of_cons in Hx' as [->|Hx']; [
        first [ by exists UNKNOWN | by exists INITIALIZING | by exists SCHEDULED
              | by exists IN_PROGRESS | by exists FAILED | by exists COMPLETED
              | by exists CANCELLED ] |]);
      by apply elem_of_nil in Hx'.
  - intros (a & -> & H). by apply bool_decide_eq_true in H.
Qed.

Lemma replaceable_unknown v :
  (∀ s, v ≠ status_value s) → existing_statuses_put_may_replace v = {[ v ]}.
Proof.
  intros Hv. unfold existing_statuses_put_may_replace, _REPLACEABLE.
  rewrite not_elem_of_list_to_map_1; [done |]. intros Hin.
  change (v ∈ map status_value all_statuses) in Hin.
  apply list_elem_of_fmap in Hin as (s & -> & _). by apply (Hv s).
Qed.

(** A put may replace a status by itself, or a known status by one the machine
    reaches from it; nothing else. *)
Lemma put_applies_cases x y :
  put_applies (Some x) y = true ↔
  x = y ∨ ∃ a b, x = status_value a ∧ y = status_value b ∧ fence a b = true.
Proof.
  unfold put_applies. rewrite bool_decide_eq_true.
  destruct (Status_of_dec y) as [[b ->]|Hy].
  - rewrite replaceable_known. split.
    + intros (a & -> & H). right. by exists a, b.
    + intros [->|(a & b' & -> & Hb & H)]; [exists b; split; [done | apply fence_refl] |].
      apply (inj status_value) in Hb as ->. by exists a.
  - rewrite (replaceable_unknown _ Hy), elem_of_singleton. split; [by left |].
    intros [->|(a & b & _ & -> & _)]; [done |]. by destruct (Hy b).
Qed.

Lemma put_applies_refl x : put_applies (Some x) x = true.
Proof. apply put_applies_cases. by left. Qed.

Lemma put_applies_trans x y z :
  put_applies (Some x) y = true → put_applies (Some y) z = true → put_applies (Some x) z = true.
Proof.
  rewrite !put_applies_cases. intros [->|(a & b & -> & -> & H1)]; [done |].
  intros [<-|(b' & c & Hb & -> & H2)]; right.
  - by exists a, b.
  - apply (inj status_value) in Hb as <-. exists a, c. split_and!; [done .. |].
    by eapply fence_trans.
Qed.

Lemma put_applies_antisym x y :
  put_applies (Some x) y = true → put_applies (Some y) x = true → x = y.
Proof.
  rewrite !put_applies_cases. intros [->|(a & b & -> & -> & H1)]; [done |].
  intros [<-|(b' & a' & Hb & Ha & H2)]; [done |].
  apply (inj status_value) in Hb as <-. apply (inj status_value) in Ha as <-.
  by rewrite (fence_antisym a b).
Qed.
