(* ===== verification/Fsm.v ===== *)
(** * Fsm: the event-triggered state machine with rollback

    [src/pypepper/fsm/fsm.py].  The machine reads two fields of an event
    ([event.data.flow], [event.data.name]); the class [IEvent] is that
    interface.  A handler is an object [h : H], and [code h] is what calling it
    does: it may raise, change the world [W], and do anything to the machine that
    holds it - call [on], [restore] or [close] - so it is a computation on the
    whole machine and the world. *)
From S2P Require Import Prelude Json.

(** [errors.py] *)
Definition ERROR_INVALID_EVENT : string := "invalid event".

(** What the machine reads of an event. *)
Class IEvent (E : Type) : Type := {
  event_flow : E → string;
  event_name : E → string;
}.

(** [class State]. *)
Record State : Type := mkState { value : string }.

#[export] Instance State_eq_dec : EqDecision State.
Proof. solve_decision. Defined.

(** [_build_transition_key(event, from_state)]. *)
Definition _build_transition_key {E} `{!IEvent E} (event : E) (from_state : State) : string :=
  dump default_opts
    (JObj [("flow", JStr (event_flow event)); ("name", JStr (event_name event));
           ("from_state", JStr (value from_state))]).

(** [_build_event_key(event)]. *)
Definition _build_event_key {E} `{!IEvent E} (event : E) : string :=
  dump default_opts
    (JObj [("flow", JStr (event_flow event)); ("name", JStr (event_name event))]).

(** [class Response]. *)
Record Response (R : Type) : Type := mkResponse {
  rs_state : option State;
  rs_error : option exn;
  event_handler_result : option R;
  transition_result : option R;
}.
Arguments mkResponse {R}. Arguments rs_state {R}. Arguments rs_error {R}.
Arguments event_handler_result {R}. Arguments transition_result {R}.

Section Fsm.
Context {E : Type} `{!IEvent E}.
(** Handler objects and handler contexts. *)
Context {H C : Type}.

(** [class Transition], [class Options], [class Target]. *)
Record Transition : Type := mkTransition {
  tr_event : E;
  from_state : list State;
  to_state : State;
  tr_handler : option H;
  tr_context : option C;
}.
Record Options : Type := mkOptions {
  fsm_id : string;
  initial : State;
  transitions : list Transition;
}.
Record Target : Type := mkTarget {
  tg_state : State;
  tg_handler : option H;
  tg_context : option C;
}.

(** [class FSM].  [_states] is a dict used as a set of state objects, which no
    operation reads: the states in the order they were stored. *)
Record FSM : Type := mkFSM {
  _id : string;
  _current : option State;
  _transitions : gmap string Target;
  _events : gmap string E;
  _states : list State;
}.

Definition with_current (s : option State) (f : FSM) : FSM :=
  mkFSM (_id f) s (_transitions f) (_events f) (_states f).

(** The body of the inner [for from_state in tr.from_state] loop. *)
Definition add_from (tr : Transition) (f : FSM) (s : State) : FSM :=
  mkFSM (_id f) (_current f)
    (<[_build_transition_key (tr_event tr) s :=
         mkTarget (to_state tr) (tr_handler tr) (tr_context tr)]> (_transitions f))
    (_events f) (_states f ++ [s]).

(** The body of the outer [for tr in options.transitions] loop. *)
Definition add_transition (f : FSM) (tr : Transition) : FSM :=
  let f1 := fold_left (add_from tr) (from_state tr) f in
  mkFSM (_id f1) (_current f1) (_transitions f1)
    (<[_build_event_key (tr_event tr) := tr_event tr]> (_events f1))
    (_states f1 ++ [to_state tr]).

(** [FSM.__init__] and [fsm.new]. *)
Definition fsm_new (options : Options) : FSM :=
  fold_left add_transition (transitions options)
    (mkFSM (fsm_id options) (Some (initial options)) ∅ ∅ []).

(** [FSM.current], [FSM.restore], [FSM.close]. *)
Definition current (f : FSM) : option State := _current f.
Definition restore (s : option State) (f : FSM) : FSM := with_current s f.
Definition close (f : FSM) : FSM := mkFSM (_id f) None ∅ ∅ [].

(** The world a handler acts on, its results, the truth value of its context,
    and its code. *)
Context {W R : Type} (ctx_truthy : C → bool) (code : H → option C → M (FSM * W) R).

Definition set_current (s : option State) : M (FSM * W) unit :=
  m_modify (λ fw, (with_current s fw.1, fw.2)).

(** [handler(context) if context else handler()]. *)
Definition call_handler (h : H) (context : option C) : M (FSM * W) R :=
  code h (match context with
          | Some c => if ctx_truthy c then Some c else None
          | None => None
          end).

(** One [if handler: try: ... except Exception as e: self._current = prev;
    return Response(...)] block: the handler's result, or the exception. *)
Definition guarded_call (prev : State) (handler : option H) (context : option C)
  : M (FSM * W) (option R + exn) :=
  match handler with
  | None => m_ret (inl None)
  | Some h =>
      m_try (let* r := call_handler h context in m_ret (inl (Some r)))
            (λ e, let* _ := set_current (Some prev) in m_ret (inr e))
  end.

(** [FSM._transition] (and [FSM.on], which only forwards to it). *)
Definition _transition (event : E) (handler : option H) (context : option C)
  : M (FSM * W) (Response R) :=
  let* f := m_get fst in
  match _current f with
  | None => m_raise (InternalException ERROR_INVALID_EVENT)
  | Some prev =>
      match _transitions f !! _build_transition_key event prev with
      | None =>
          m_ret (mkResponse (Some prev) (Some (InternalException ERROR_INVALID_EVENT)) None None)
      | Some target =>
          let* _ := set_current (Some (tg_state target)) in
          let* r1 := guarded_call prev (tg_handler target) (tg_context target) in
          match r1 with
          | inr e =>
              let* cur := m_get (λ fw, _current fw.1) in m_ret (mkResponse cur (Some e) None None)
          | inl event_handler_result =>
              let* r2 := guarded_call prev handler context in
              match r2 with
              | inr e =>
                  let* cur := m_get (λ fw, _current fw.1) in
                  m_ret (mkResponse cur (Some e) event_handler_result None)
              | inl transition_result =>
                  let* cur := m_get (λ fw, _current fw.1) in
                  m_ret (mkResponse cur None event_handler_result transition_result)
              end
          end
      end
  end.

Definition on (event : E) (handler : option H) (context : option C)
  : M (FSM * W) (Response R) := _transition event handler context.
End Fsm.

(** ** Keys *)
Lemma transition_key_inj {E1 E2} `{!IEvent E1, !IEvent E2} (e1 : E1) (e2 : E2) s1 s2 :
  _build_transition_key e1 s1 = _build_transition_key e2 s2 →
  event_flow e1 = event_flow e2 ∧ event_name e1 = event_name e2 ∧ value s1 = value s2.
Proof.
  intros H%dump_inj; [by injection H | done | |];
    (split; [| done]; by apply (bool_decide_unpack _)).
Qed.

(** The machine sees an event and a state through three strings only. *)
Lemma transition_key_eq {E1 E2} `{!IEvent E1, !IEvent E2} (e1 : E1) (e2 : E2) s1 s2 :
  _build_transition_key e1 s1 = _build_transition_key e2 s2 ↔
  (event_flow e1, event_name e1, value s1) = (event_flow e2, event_name e2, value s2).
Proof.
  split.
  - intros (-> & -> & ->)%transition_key_inj. done.
  - unfold _build_transition_key. by intros [= -> -> ->].
Qed.

Section FsmFacts.
Context {E : Type} `{!IEvent E} {H C : Type}.
Implicit Types (f : @FSM E H C) (tr : @Transition E H C).

(** ** The transition table *)
Definition target_of (tr : @Transition E H C) : @Target H C :=
  mkTarget (to_state tr) (tr_handler tr) (tr_context tr).

(** A declared transition that answers [ev] in state [st]. *)
Definition answers (ev : E) (st : State) (tr : @Transition E H C) : Prop :=
  (event_flow (tr_event tr), event_name (tr_event tr)) = (event_flow ev, event_name ev)
  ∧ value st ∈ map value (from_state tr).
#[global] Instance answers_dec ev st tr : Decision (answers ev st tr).
Proof. unfold answers. apply _. Defined.

(** The reference table: the last declared transition that answers. *)
Definition declared (trs : list (@Transition E H C)) (ev : E) (st : State)
  : option (@Target H C) :=
  target_of <$> last (filter (answers ev st) trs).

Lemma add_from_lookup tr (froms : list State) f ev st :
  _transitions (fold_left (add_from tr) froms f) !! _build_transition_key ev st =
    if decide ((event_flow (tr_event tr), event_name (tr_event tr))
                 = (event_flow ev, event_name ev) ∧ value st ∈ map value froms)
    then Some (target_of tr) else _transitions f !! _build_transition_key ev st.
Proof.
  induction froms as [|s froms IH] using rev_ind; simpl.
  { rewrite decide_False; [done |]. intros [_ Hn]. by apply elem_of_nil in Hn. }
  rewrite fold_left_app. simpl. rewrite lookup_insert, IH, map_app.
  destruct (decide (_build_transition_key (tr_event tr) s = _build_transition_key ev st))
    as [Hk|Hk]; rewrite transition_key_eq in Hk.
  - rewrite decide_True; [done |]. injection Hk as H1 H2 H3. split; [congruence |].
    apply elem_of_app. right. apply list_elem_of_singleton. congruence.
  - destruct (decide (_ ∧ value st ∈ map value froms)) as [[Hev Hin]|Hno].
    + rewrite decide_True; [done |]. split; [done |]. apply elem_of_app. by left.
    + rewrite decide_False; [done |]. intros [Hev Hin]. apply elem_of_app in Hin as [Hin|Hin].
      * by apply Hno.
      * apply list_elem_of_singleton in Hin. apply Hk. simpl in Hin. congruence.
Qed.

Lemma add_transition_lookup f tr ev st :
  _transitions (add_transition f tr) !! _build_transition_key ev st =
    if decide (answers ev st tr) then Some (target_of tr)
    else _transitions f !! _build_transition_key ev st.
Proof. unfold add_transition. simpl. apply add_from_lookup. Qed.

Lemma fsm_new_lookup (o : @Options E H C) ev st :
  _transitions (fsm_new o) !! _build_transition_key ev st = declared (transitions o) ev st.
Proof.
  unfold fsm_new, declared. induction (transitions o) as [|tr trs IH] using rev_ind; [done |].
  rewrite fold_left_app. cbn [fold_left]. rewrite add_transition_lookup, IH, filter_app, filter_cons.
  rewrite filter_nil. destruct (decide (answers ev st tr)).
  - by rewrite last_snoc.
  - by rewrite app_nil_r.
Qed.

Lemma fsm_new_current (o : @Options E H C) : _current (fsm_new o) = Some (initial o).
Proof.
  unfold fsm_new. set (f := mkFSM _ _ _ _ _). assert (Hf : _current f = Some (initial o)) by done.
  clearbody f. revert f Hf. induction (transitions o) as [|tr trs IH]; simpl; [done |].
  intros f Hf. apply IH. simpl. clear -Hf. revert f Hf.
  induction (from_state tr) as [|s l IH]; simpl; [done |]. intros f Hf. by apply IH.
Qed.

(** ** Rollback *)
Lemma with_current_twice s1 s2 f : with_current s1 (with_current s2 f) = with_current s1 f.
Proof. done. Qed.
Lemma with_current_same f : with_current (_current f) f = f.
Proof. by destruct f. Qed.

(** ** Calling handlers *)
Context {W R : Type} (ctx_truthy : C → bool) (code : H → option C → M (@FSM E H C * W) R).
Implicit Types (w : W).

(** [handler] is not one that failed, or it failed with the exception [e] and
    left the machine [f2] and the world [w']. *)
Definition failed_in (h : H) (e : exn) f2 w' : Prop :=
  is_exception e = true ∧ ∃ arg f1 w1, code h arg (f1, w1) = (Raise e, (f2, w')).
(** A handler that leaves the tables alone: it changes at most the current state. *)
Definition keeps_table (h : H) : Prop :=
  ∀ arg f w, let '(_, (f', _)) := code h arg (f, w) in with_current (_current f) f' = f.
Definition keeps (h : option H) : Prop := ∀ x, h = Some x → keeps_table x.

(** A guarded call: nothing without a handler; else what the handler does, and
    when it raises an [Exception], the current state is put back to [prev]. *)
Lemma guarded_call_spec prev h c f w :
  let '(o, (f', w')) := guarded_call ctx_truthy code prev h c (f, w) in
  (h = None → o = Ret (inl None) ∧ f' = f ∧ w' = w)
  ∧ (∀ e, o = Ret (inr e) → ∃ x f2, h = Some x ∧ failed_in x e f2 w' ∧ f' = with_current (Some prev) f2)
  ∧ (∀ e, o = Raise e → is_exception e = false)
  ∧ (keeps h → with_current (_current f) f' = f).
Proof.
  destruct h as [h|]; cbn.
  - unfold m_try, m_bind, call_handler. set (arg := match c with Some _ => _ | None => _ end).
    destruct (code h arg (f, w)) as [[r|e] [f2 w2]] eqn:Eh.
    + split_and!; [done .. |]. intros Hk. specialize (Hk h eq_refl arg f w). by rewrite Eh in Hk.
    + destruct (is_exception e) eqn:He; cbn.
      * split_and!; [done | | done |].
        { intros ? [= <-]. exists h, f2. split_and!; [done | | done]. split; [done |]. by exists arg, f, w. }
        intros Hk. specialize (Hk h eq_refl arg f w). by rewrite Eh in Hk.
      * split_and!; [done | done | by intros ? [= <-] |].
        intros Hk. specialize (Hk h eq_refl arg f w). by rewrite Eh in Hk.
  - split_and!; [done .. |]. intros _. apply with_current_same.
Qed.

(** [fsm_frame f f']: the two machines differ at most in their current state. *)
Definition fsm_frame f f' : Prop := f' = with_current (_current f') f.

Lemma frame_with_current f f' : with_current (_current f) f' = f → fsm_frame f f'.
Proof. unfold fsm_frame. destruct f, f'. cbn. by intros [= -> -> -> ->]. Qed.
Lemma fsm_frame_eq f f' : fsm_frame f f' → _current f' = _current f → f' = f.
Proof. unfold fsm_frame. intros H1 H2. rewrite H1, H2. apply with_current_same. Qed.
Lemma fsm_frame_trans f1 f2 f3 : fsm_frame f1 f2 → fsm_frame f2 f3 → fsm_frame f1 f3.
Proof. unfold fsm_frame. intros H2 H3. rewrite H3, H2. by destruct f1. Qed.
Lemma frame_set s f : fsm_frame f (with_current s f).
Proof. done. Qed.

(** [on], on every branch: a machine without current state, an event that is not
    answered, a failed handler, and a step. *)
Lemma on_cases ev handler context f w :
  let '(o, (f', w')) := on ctx_truthy code ev handler context (f, w) in
  match _current f with
  | None => o = Raise (InternalException ERROR_INVALID_EVENT) ∧ f' = f ∧ w' = w
  | Some prev =>
      match _transitions f !! _build_transition_key ev prev with
      | None =>
          o = Ret (mkResponse (Some prev) (Some (InternalException ERROR_INVALID_EVENT)) None None)
          ∧ f' = f ∧ w' = w
      | Some t =>
          (keeps (tg_handler t) → keeps handler → fsm_frame f f')
          ∧ match o with
            | Ret r =>
                rs_state r = _current f'
                ∧ (∀ e, rs_error r = Some e → _current f' = Some prev
                     ∧ ∃ x f2, (tg_handler t = Some x ∨ handler = Some x)
                               ∧ failed_in x e f2 w' ∧ f' = with_current (Some prev) f2)
                ∧ (tg_handler t = None → handler = None →
                   r = mkResponse (Some (tg_state t)) None None None ∧ f' = with_current (Some (tg_state t)) f
                   ∧ w' = w)
            | Raise e => is_exception e = false ∧ (tg_handler t ≠ None ∨ handler ≠ None)
            end
      end
  end.
Proof.
  unfold on, _transition. unfold m_get at 1. rewrite bind_eq. simpl.
  destruct (_current f) as [prev|] eqn:Hc; [| done].
  destruct (_transitions f !! _) as [t|] eqn:Ht; [| done].
  rewrite bind_eq. unfold set_current at 1. simpl. rewrite bind_eq.
  set (f1 := with_current (Some (tg_state t)) f).
  pose proof (guarded_call_spec prev (tg_handler t) (tg_context t) f1 w) as H1.
  destruct (guarded_call _ _ _ _ _ (f1, w)) as [[[r1|e1]|e1] [f2 w2]];
    destruct H1 as (Hnone & Hex & Hbase & Hkeep).
  - rewrite bind_eq. pose proof (guarded_call_spec prev handler context f2 w2) as H2.
    destruct (guarded_call _ _ _ _ _ (f2, w2)) as [[[r2|e2]|e2] [f3 w3]];
      destruct H2 as (Hnone' & Hex' & Hbase' & Hkeep'); simpl;
      (split; [intros Hk1 Hk2; apply (fsm_frame_trans f f1), (fsm_frame_trans f1 f2);
               [apply frame_set | by apply frame_with_current, Hkeep | by apply frame_with_current, Hkeep'] |]).
    + split; [done |]. split; [done |]. intros Hn1 Hn2.
      destruct (Hnone Hn1) as ([= ->] & -> & ->). by destruct (Hnone' Hn2) as ([= ->] & -> & ->).
    + destruct (Hex' e2 eq_refl) as (x & f4 & Hx & Hf4 & ->). split; [done |]. split.
      * intros e [= <-]. split; [done |]. exists x, f4. split_and!; [by right | done | done].
      * intros _ Hn2. congruence.
    + split; [by apply Hbase' |]. right. intros Hn. by destruct (Hnone' Hn).
  - destruct (Hex e1 eq_refl) as (x & f4 & Hx & Hf4 & ->). simpl.
    split; [intros Hk1 _; apply (fsm_frame_trans f f1); [apply frame_set | by apply frame_with_current, Hkeep] |].
    split; [done |]. split.
    + intros e [= <-]. split; [done |]. exists x, f4. split_and!; [by left | done | done].
    + intros Hn1. congruence.
  - simpl. split; [intros Hk1 _; apply (fsm_frame_trans f f1); [apply frame_set | by apply frame_with_current, Hkeep] |].
    split; [by apply Hbase |]. left. intros Hn. by destruct (Hnone Hn).
Qed.
End FsmFacts.

Section FsmProperties.
Context {E : Type} `{!IEvent E} {H C W R : Type} (ctx_truthy : C → bool)
  (code : H → option C → M (@FSM E H C * W) R).

Lemma declared_handler (trs : list (@Transition E H C)) ev st t :
  Forall (λ tr, tr_handler tr = None) trs → declared trs ev st = Some t → tg_handler t = None.
Proof.
  unfold declared. intros Hall Hd. apply fmap_Some in Hd as (tr & Hlast & ->). simpl.
  rewrite last_Some in Hlast. destruct Hlast as [l Hl].
  assert (tr ∈ filter (answers ev st) trs) as Hin by (rewrite Hl; set_solver).
  apply list_elem_of_filter in Hin as [_ Hin]. rewrite Forall_forall in Hall. by apply Hall.
Qed.

(** A machine built from options whose transitions carry no handler, put in
    state [s], steps along the declared transitions. *)
Lemma on_no_handler (o : @Options E H C) ev s w :
  Forall (λ tr, tr_handler tr = None) (transitions o) →
  on ctx_truthy code ev None None (restore (Some s) (fsm_new o), w) =
    match declared (transitions o) ev s with
    | Some t => (Ret (mkResponse (Some (tg_state t)) None None None),
                 (restore (Some (tg_state t)) (fsm_new o), w))
    | None => (Ret (mkResponse (Some s) (Some (InternalException ERROR_INVALID_EVENT)) None None),
               (restore (Some s) (fsm_new o), w))
    end.
Proof.
  intros Hall. pose proof (on_cases ctx_truthy code ev None None (restore (Some s) (fsm_new o)) w) as Ho.
  destruct (on _ _ _ _ _ _) as [out [f' w']]. simpl in Ho. rewrite fsm_new_lookup in Ho.
  destruct (declared (transitions o) ev s) as [t|] eqn:Hd; [| by destruct Ho as (-> & -> & ->)].
  pose proof (declared_handler _ _ _ _ Hall Hd) as Hh. destruct Ho as (_ & Hout).
  destruct out as [r|e]; [| by destruct Hout as [_ [?|?]]].
  destruct Hout as (_ & _ & Hr). by destruct (Hr Hh eq_refl) as (-> & -> & ->).
Qed.

(** C15: rollback.  When [on] answers with an error, the machine is back in the
    state before the call, whatever the transition's own handler and the
    caller's handler did - re-enter the machine, restore or close it - and the
    response reports that state.  Either the event was not one the machine
    answers in that state, and nothing changed at all; or the error is an
    [Exception] that one of the two handlers raised, and beside the current state
    the machine is what that handler left: a table it cleared stays cleared.
    When neither handler touches the tables, the machine is exactly the one
    before the call. *)
Theorem on_error_rolls_back ev handler context (f : @FSM E H C) w r f' w' e :
  on ctx_truthy code ev handler context (f, w) = (Ret r, (f', w')) → rs_error r = Some e →
  let own := _current f ≫= λ st, _transitions f !! _build_transition_key ev st ≫= tg_handler in
  _current f' = _current f ∧ rs_state r = _current f ∧ is_exception e = true
  ∧ (e = InternalException ERROR_INVALID_EVENT ∧ f' = f ∧ w' = w
     ∨ ∃ h arg f1 w1 f2, (own = Some h ∨ handler = Some h)
         ∧ code h arg (f1, w1) = (Raise e, (f2, w')) ∧ f' = with_current (_current f) f2)
  ∧ (keeps code own → keeps code handler → f' = f).
Proof.
  intros Hon He. pose proof (on_cases ctx_truthy code ev handler context f w) as Ho.
  rewrite Hon in Ho. destruct (_current f) as [prev|] eqn:Hc; [| by destruct Ho].
  cbn [mbind option_bind]. destruct (_transitions f !! _) as [t|]; cbn [mbind option_bind].
  - destruct Ho as (Hfr & Hst & Herr & _). destruct (Herr e He) as (Hcur & h & f2 & Hh & (Hx & arg & f1 & w1 & Hcode) & Hf').
    split_and!; [done | by rewrite Hst | done | right; by exists h, arg, f1, w1, f2 |].
    intros Hk1 Hk2. apply fsm_frame_eq; [by apply Hfr | by rewrite Hcur].
  - destruct Ho as ([= ->] & -> & ->). simpl in He. injection He as <-.
    split_and!; [done | done | done | by left | done].
Qed.
End FsmProperties.

(** ** A concrete machine: a gate whose handlers re-enter it, or close it, and
    then fail. *)
Module FsmExample.
#[local] Instance pair_event : IEvent (string * string) :=
  {| event_flow := fst; event_name := snd |}.

Inductive handler : Type := Jam | Demolish.
Abbreviation gate_fsm := (@FSM (string * string) handler nat).
Definition code (h : handler) (arg : option nat) : M (gate_fsm * nat) nat := λ fw,
  match h with
  | Jam => (Raise (RuntimeError "jammed"), (restore (Some (mkState "broken")) fw.1, S fw.2))
  | Demolish => (Raise (RuntimeError "gone"), (close fw.1, S fw.2))
  end.
Definition gate : @Options (string * string) handler nat :=
  mkOptions "gate" (mkState "closed")
    [ mkTransition ("", "open") [mkState "closed"] (mkState "open") (Some Jam) None;
      mkTransition ("", "remove") [mkState "closed"] (mkState "open") (Some Demolish) None;
      mkTransition ("", "close") [mkState "open"] (mkState "closed") None None ].

Lemma on_error_rolls_back_witness :
  let f := fsm_new gate in
  ∃ r w', on (λ _, true) code ("", "open") None None (f, 0%nat) = (Ret r, (f, w'))
    ∧ w' = 1%nat ∧ rs_state r = Some (mkState "closed").
Proof.
  eexists _, _. split; [| split]; [vm_compute; reflexivity | reflexivity |].
  destruct (on_error_rolls_back (λ _, true) code ("", "open") None None (fsm_new gate) 0%nat
    (mkResponse (Some (mkState "closed")) (Some (RuntimeError "jammed")) None None)
    (fsm_new gate) 1%nat (RuntimeError "jammed")) as (_ & Hs & _);
    [vm_compute; reflexivity | reflexivity | exact Hs].
Defined.
(** A handler that closes its machine and fails: the state is back, the table is
    not, and no event is answered any more. *)
Example demolished :
  let f := fsm_new gate in
  let f' := (on (λ _, true) code ("", "remove") None None (f, 0%nat)).2.1 in
  _current f' = _current f ∧ _transitions f' = ∅
  ∧ (on (λ _, true) code ("", "open") None None (f', 1%nat)).1
    = Ret (mkResponse (Some (mkState "closed")) (Some (InternalException ERROR_INVALID_EVENT)) None None).
Proof. vm_compute. split_and!; reflexivity. Qed.
End FsmExample.
