(* ===== verification/FsmInterface.v ===== *)
(** * FsmInterface: what a state machine promises to its owner

    [IFSM] of [src/pypepper/fsm/interfaces.py] as an interface with laws: firing
    an event whose handlers leave the machine's tables alone changes the current
    state only, a failed one changes no state, and [restore] takes back a step
    that succeeded.  [FSM] implements it; the dispatcher's way of using a machine -
    fire, save, restore when the save fails - is a client proved against the laws
    alone. *)
From S2P Require Import Prelude Fsm.

Section Interface.
Context {E : Type} `{!IEvent E} {H C W R : Type}.
Implicit Types (w : W) (ev : E).

Class IFSM (F : Type) : Type := {
  ifsm_current : F → option State;
  ifsm_restore : option State → F → F;
  ifsm_on : E → option H → option C → M (F * W) (Response R);
  ifsm_close : F → F;
}.

(** [harmless h]: the handler changes at most the machine's current state;
    [steady f]: so do the handlers the machine itself would call. *)
Class IFSMLaws (F : Type) `{!IFSM F} (harmless : H → Prop) (steady : F → Prop) : Prop := {
  restore_current : ∀ s f, ifsm_current (ifsm_restore s f) = s;
  restore_twice : ∀ s s' f, ifsm_restore s (ifsm_restore s' f) = ifsm_restore s f;
  restore_same : ∀ f, ifsm_restore (ifsm_current f) f = f;
  restore_steady : ∀ s f, steady f → steady (ifsm_restore s f);
  on_frame : ∀ ev h c f w, steady f → (∀ x, h = Some x → harmless x) →
    let '(_, (f', _)) := ifsm_on ev h c (f, w) in f' = ifsm_restore (ifsm_current f') f;
  (** The answer reports the state; with an error it is the one before. *)
  on_answer : ∀ ev h c f w r f' w', ifsm_on ev h c (f, w) = (Ret r, (f', w')) →
    rs_state r = ifsm_current f' ∧ (rs_error r ≠ None → ifsm_current f' = ifsm_current f);
  close_current : ∀ f, ifsm_current (ifsm_close f) = None;
  (** Without a current state - once closed - every event is refused. *)
  on_no_state : ∀ ev h c f w, ifsm_current f = None →
    ifsm_on ev h c (f, w) = (Raise (InternalException ERROR_INVALID_EVENT), (f, w));
}.

(** ** [FSM] implements it *)
Section Instance_.
Context (ctx_truthy : C → bool) (code : H → option C → M (@FSM E H C * W) R).
#[export] Instance FSM_ifsm : IFSM (@FSM E H C) := {
  ifsm_current := current;
  ifsm_restore := restore;
  ifsm_on := on ctx_truthy code;
  ifsm_close := close;
}.
Definition steady_table (f : @FSM E H C) : Prop :=
  ∀ key t, _transitions f !! key = Some t → keeps code (tg_handler t).
#[export] Instance FSM_ifsm_laws : IFSMLaws (@FSM E H C) (keeps_table code) steady_table.
Proof.
  split; cbn [ifsm_current ifsm_restore ifsm_on ifsm_close FSM_ifsm]; unfold current, restore; try done.
  - intros f. apply with_current_same.
  - intros ev h c f w Hf Hh. pose proof (on_cases ctx_truthy code ev h c f w) as Hon.
    destruct (on _ _ _ _ _ _) as [o [f' w']]. destruct (_current f) eqn:Hc.
    + destruct (_transitions f !! _) eqn:Ht; [apply Hon; [by eapply Hf | exact Hh] |].
      destruct Hon as (_ & -> & _). symmetry. apply with_current_same.
    + destruct Hon as (_ & -> & _). symmetry. apply with_current_same.
  - intros ev h c f w r f' w' Hr. pose proof (on_cases ctx_truthy code ev h c f w) as Hon. rewrite Hr in Hon.
    destruct (_current f) eqn:Hc; [| by destruct Hon].
    destruct (_transitions f !! _).
    + destruct Hon as (_ & Hs & He & _). split; [done |]. destruct (rs_error r) as [e|]; [| done].
      intros _. by destruct (He e eq_refl).
    + destruct Hon as ([= ->] & -> & _). by rewrite Hc.
  - intros ev h c f w Hc. pose proof (on_cases ctx_truthy code ev h c f w) as Hon.
    destruct (on _ _ _ _ _ _) as [o [f' w']]. rewrite Hc in Hon. by destruct Hon as (-> & -> & ->).
Qed.
End Instance_.

(** ** A client: fire, then save, or take the step back

    What [Dispatcher.dispatch] and [Worker._process_job] do with a job's machine:
    [save] is the rest of the job's state, which the machine does not see. *)
Section Client.
Context {F : Type} (harmless : H → Prop) (steady : F → Prop) `{!IFSM F, !IFSMLaws F harmless steady}.
Context (save : M W unit).

Definition fire_and_save (ev : E) : M (F * W) (Response R) := λ fw,
  let prev := ifsm_current fw.1 in
  match ifsm_on ev None None fw with
  | (Raise e, fw') => (Raise e, fw')
  | (Ret r, (f', w')) =>
      match rs_error r with
      | Some e => (Raise e, (f', w'))
      | None =>
          match save w' with
          | (Ret _, w'') => (Ret r, (f', w''))
          | (Raise e, w'') => (Raise e, (ifsm_restore prev f', w''))
          end
      end
  end.

(** All or nothing: the machine moves exactly when the step is saved. *)
Lemma fire_and_save_atomic ev f w : steady f → let '(o, (f', _)) := fire_and_save ev (f, w) in
  match o with
  | Ret r => rs_error r = None ∧ rs_state r = ifsm_current f' ∧ f' = ifsm_restore (rs_state r) f
  | Raise e => f' = f ∨ ∃ w', (ifsm_on ev None None (f, w)).1 = Raise e
                              ∧ (ifsm_on ev None None (f, w)).2 = (f', w')
  end.
Proof using IFSMLaws0.
  intros Hsteady. unfold fire_and_save. cbn [fst].
  pose proof (on_frame ev None None f w Hsteady ltac:(done)) as Hf. pose proof (on_answer ev None None f w) as Ha.
  destruct (ifsm_on ev None None (f, w)) as [[r|e] [f' w']]; [| right; by exists w'].
  destruct (Ha r f' w' eq_refl) as [Hs He].
  destruct (rs_error r) eqn:Hr; [left; by rewrite Hf, (He ltac:(done)), restore_same |].
  destruct (save w') as [[?|?] w'']; [by rewrite Hs |].
  left. by rewrite Hf, restore_twice, restore_same.
Qed.

(** Events fired one after the other until one fails. *)
Fixpoint fire_all (evs : list E) : M (F * W) (list (Response R)) :=
  match evs with
  | [] => m_ret []
  | ev :: evs => let* r := fire_and_save ev in let* rs := fire_all evs in m_ret (r :: rs)
  end.

(** A run that gets through leaves the machine in the last answered state. *)
Lemma fire_all_last evs : ∀ f w rs f' w', steady f → fire_all evs (f, w) = (Ret rs, (f', w')) →
  length rs = length evs ∧ f' = ifsm_restore (default (ifsm_current f) (rs_state <$> last rs)) f.
Proof using IFSMLaws0.
  induction evs as [|ev evs IH]; intros f w rs f' w' Hsteady; cbn [fire_all].
  - intros [= <- <- <-]. cbn. by rewrite restore_same.
  - rewrite bind_eq. pose proof (fire_and_save_atomic ev f w Hsteady) as Hat.
    destruct (fire_and_save ev (f, w)) as [[r|e] [f1 w1]]; [| done].
    destruct Hat as (_ & Hcur & Hf1). rewrite bind_eq.
    destruct (fire_all evs (f1, w1)) as [[rs1|e] [f2 w2]] eqn:Hall; [| done].
    intros [= <- <- <-]. assert (steady f1) as Hst1 by (rewrite Hf1; by apply restore_steady).
    destruct (IH _ _ _ _ _ Hst1 Hall) as [Hl Hf2]. split; [cbn; by rewrite Hl |].
    rewrite Hf2, Hf1, restore_twice, restore_current.
    rewrite last_cons. by destruct (last rs1).
Qed.

(** A closed machine saves nothing. *)
Lemma closed_saves_nothing ev f w : fire_and_save ev (ifsm_close f, w)
  = (Raise (InternalException ERROR_INVALID_EVENT), (ifsm_close f, w)).
Proof using IFSMLaws0. unfold fire_and_save. cbn [fst]. by rewrite on_no_state by apply close_current. Qed.
End Client.
End Interface.

(** ** An example: a save that fails takes the step back. *)
Module FsmInterfaceExamples.
Import FsmExample.
Definition door : @Options (string * string) handler nat :=
  mkOptions "door" (mkState "closed")
    [mkTransition ("", "open") [mkState "closed"] (mkState "open") None None].
#[local] Instance pair_event : IEvent (string * string) := {| event_flow := fst; event_name := snd |}.
#[local] Instance door_ifsm : IFSM (W := nat) (R := nat) gate_fsm := FSM_ifsm (λ _, true) code.
(** Saving works while the world is even. *)
Definition save_if_even : M nat unit :=
  λ n, if Nat.even n then (Ret tt, S n) else (Raise (RuntimeError "disk full"), n).

Example open_door :
  (fire_and_save (F := gate_fsm) save_if_even ("", "open") (fsm_new door, 0%nat)).2.1
  = restore (Some (mkState "open")) (fsm_new door).
Proof. vm_compute. reflexivity. Qed.
Example door_stays_closed :
  fire_and_save (F := gate_fsm) save_if_even ("", "open") (fsm_new door, 1%nat)
  = (Raise (RuntimeError "disk full"), (fsm_new door, 1%nat)).
Proof. vm_compute. reflexivity. Qed.
End FsmInterfaceExamples.
