(* ===== verification/SchedulerFsm.v ===== *)
(** * SchedulerFsm: the job status machine

    [src/pypepper/scheduler/events.py].  Each job owns a machine built from
    [_OPTIONS]; no transition carries a handler.  The section at the end relates
    the machine to the store's status fence ([Lifecycle]). *)
From S2P Require Import Prelude Json Lifecycle Fsm.

(** The module's [Event] constants.  The machine reads their flow and name;
    [event.new] leaves the flow empty. *)
Inductive SchedEvent : Type := INIT | SCHEDULE | RUN | FAIL | COMPLETE | CANCEL.

#[export] Instance SchedEvent_eq_dec : EqDecision SchedEvent.
Proof. solve_decision. Defined.

Definition sched_event_name (e : SchedEvent) : string :=
  match e with
  | INIT => "init"
  | SCHEDULE => "schedule"
  | RUN => "run"
  | FAIL => "fail"
  | COMPLETE => "complete"
  | CANCEL => "cancel"
  end.

(** [Event.data.src]: descriptive metadata, not read by the machine. *)
Definition sched_event_src (e : SchedEvent) : Status :=
  match e with
  | INIT => UNKNOWN
  | SCHEDULE => INITIALIZING
  | RUN => SCHEDULED
  | FAIL | COMPLETE | CANCEL => IN_PROGRESS
  end.

#[export] Instance sched_event : IEvent SchedEvent :=
  {| event_flow := λ _, ""; event_name := sched_event_name |}.

(** [fsm.State(Status.X)]. *)
Definition state_of (s : Status) : State := mkState (status_value s).

(** A handler-free machine: there is no handler object. *)
Abbreviation SFSM := (@FSM SchedEvent Empty_set unit).
Abbreviation STransition := (@Transition SchedEvent Empty_set unit).

Definition sched_transition (ev : SchedEvent) (from : list Status) (to : Status) : STransition :=
  mkTransition ev (map state_of from) (state_of to) None None.

(** [_OPTIONS]. *)
Definition _OPTIONS : @Options SchedEvent Empty_set unit :=
  mkOptions "scheduler_fsm" (state_of UNKNOWN)
    [ sched_transition INIT [UNKNOWN] INITIALIZING;
      sched_transition SCHEDULE [INITIALIZING] SCHEDULED;
      sched_transition RUN [SCHEDULED] IN_PROGRESS;
      sched_transition FAIL [IN_PROGRESS] FAILED;
      sched_transition COMPLETE [IN_PROGRESS] COMPLETED;
      sched_transition CANCEL [SCHEDULED; IN_PROGRESS] CANCELLED ].

(** [build_scheduler_fsm()] and the wrapper class [FSM]. *)
Definition build_scheduler_fsm : SFSM := fsm_new _OPTIONS.

Definition sched_on (ev : SchedEvent) (f : SFSM) : outcome (Response unit) * SFSM :=
  let '(o, (f', _)) := on (λ _, true) (λ h : Empty_set, match h with end) ev None None (f, tt) in (o, f').

(** ** The specification: the transition diagram *)
Definition sched_next (ev : SchedEvent) (s : Status) : option Status :=
  match ev, s with
  | INIT, UNKNOWN => Some INITIALIZING
  | SCHEDULE, INITIALIZING => Some SCHEDULED
  | RUN, SCHEDULED => Some IN_PROGRESS
  | FAIL, IN_PROGRESS => Some FAILED
  | COMPLETE, IN_PROGRESS => Some COMPLETED
  | CANCEL, (SCHEDULED | IN_PROGRESS) => Some CANCELLED
  | _, _ => None
  end.

Inductive sched_step : Status → Status → Prop :=
| sched_step_intro ev a b : sched_next ev a = Some b → sched_step a b.

(** The scheduler's machine in status [s]. *)
Definition fsm_at (s : Status) : SFSM := restore (Some (state_of s)) build_scheduler_fsm.

Lemma fsm_at_UNKNOWN : build_scheduler_fsm = fsm_at UNKNOWN.
Proof. done. Qed.

Lemma sched_declared ev s :
  declared (transitions _OPTIONS) ev (state_of s)
  = (λ b, mkTarget (state_of b) None None) <$> sched_next ev s.
Proof. destruct ev, s; vm_compute; reflexivity. Qed.

(** The machine in status [s] steps as the diagram says, and answers any other
    event with the invalid-event error, staying where it is. *)
Lemma sched_on_at ev s :
  sched_on ev (fsm_at s) =
    match sched_next ev s with
    | Some b => (Ret (mkResponse (Some (state_of b)) None None None), fsm_at b)
    | None => (Ret (mkResponse (Some (state_of s))
                 (Some (InternalException ERROR_INVALID_EVENT)) None None), fsm_at s)
    end.
Proof.
  pose proof (on_no_handler (W := unit) (R := unit) (λ _ : unit, true) (λ h : Empty_set, match h with end) _OPTIONS ev (state_of s) tt) as H.
  rewrite sched_declared in H. unfold sched_on, fsm_at, build_scheduler_fsm.
  rewrite H by (repeat constructor). by destruct (sched_next ev s).
Qed.

(** Proofs use [sched_on_at]: the table itself is unfolded last. *)
#[global] Strategy opaque [build_scheduler_fsm].

Lemma restore_fsm_at a s : restore (Some (state_of a)) (fsm_at s) = fsm_at a.
Proof. reflexivity. Qed.

(** ** Reachability *)
Definition reaches : Status → Status → Prop := rtc sched_step.

Lemma sched_step_fence a b : sched_step a b → fence a b = true.
Proof. intros [ev a' b' H]. by destruct ev, a'; simplify_eq/=. Qed.

Lemma reaches_fence a b : reaches a b → fence a b = true.
Proof.
  induction 1 as [a|a b c Hab _ IH]; [apply fence_refl |].
  eapply fence_trans; [by apply sched_step_fence | done].
Qed.

(** A run of the machine through a list of events. *)
Fixpoint sched_run (evs : list SchedEvent) (s : Status) : option Status :=
  match evs with
  | [] => Some s
  | ev :: evs' => match sched_next ev s with Some b => sched_run evs' b | None => None end
  end.

Lemma sched_run_reaches evs a b : sched_run evs a = Some b → reaches a b.
Proof.
  revert a. induction evs as [|ev evs IH]; simpl; intros a H; [by simplify_eq; constructor |].
  destruct (sched_next ev a) as [c|] eqn:Hc; [| done].
  eapply rtc_l; [by econstructor | by apply IH].
Qed.

(** Events that lead from [a] to [b] when the fence lets [b] replace [a]. *)
Definition path (a b : Status) : list SchedEvent :=
  let to_progress := match a with
    | UNKNOWN => [INIT; SCHEDULE; RUN] | INITIALIZING => [SCHEDULE; RUN]
    | SCHEDULED => [RUN] | _ => [] end in
  if decide (a = b) then []
  else match b with
  | UNKNOWN => []
  | INITIALIZING => [INIT]
  | SCHEDULED => match a with UNKNOWN => [INIT; SCHEDULE] | _ => [SCHEDULE] end
  | IN_PROGRESS => to_progress
  | FAILED => to_progress ++ [FAIL]
  | COMPLETED => to_progress ++ [COMPLETE]
  | CANCELLED => to_progress ++ [CANCEL]
  end.

Lemma path_run a b : fence a b = true → sched_run (path a b) a = Some b.
Proof.
  destruct a, b; vm_compute; first [reflexivity | discriminate].
Qed.

Lemma fence_reaches a b : fence a b = true → reaches a b.
Proof. intros Hf. by eapply sched_run_reaches, path_run. Qed.

Lemma fence_iff_reaches a b : fence a b = true ↔ reaches a b.
Proof. split; [apply fence_reaches | apply reaches_fence]. Qed.

(** [Failed], [Completed] and [Cancelled] are final. *)
Definition terminal (s : Status) : bool :=
  match s with FAILED | COMPLETED | CANCELLED => true | _ => false end.

Lemma terminal_sched_next ev s : terminal s = true → sched_next ev s = None.
Proof. by destruct s, ev. Qed.

Lemma terminal_reaches a b : terminal a = true → reaches a b → b = a.
Proof.
  intros Ht Hr. inversion Hr as [|? c ? Hs]; subst; [done |].
  inversion Hs as [ev ? ? Hn]; subst. by rewrite (terminal_sched_next ev _ Ht) in Hn.
Qed.

(** ** Properties *)

(** C17: the store fence is the reachability relation of the status machine.  A
    [put] may replace a durable status by another exactly when the scheduler's
    machine, started from the scheduler's options in the durable status, can
    reach the incoming one by some sequence of accepted events. *)
Theorem put_applies_is_reachability a b :
  put_applies (Some (status_value a)) (status_value b) = true
  ↔ ∃ evs, fold_left (λ f ev, (sched_on ev f).2) evs (fsm_at a) = fsm_at b
       ∧ sched_run evs a = Some b.
Proof.
  change (fence a b = true ↔ ∃ evs,
    fold_left (λ f ev, (sched_on ev f).2) evs (fsm_at a) = fsm_at b ∧ sched_run evs a = Some b).
  split.
  - intros Hrun%path_run. exists (path a b). split; [| done].
    set (evs := path a b) in *. clearbody evs. revert a Hrun.
    induction evs as [|ev evs IH]; simpl; intros a Hrun; [by injection Hrun as -> |].
    rewrite sched_on_at. destruct (sched_next ev a) as [c|]; [| done]. by apply IH.
  - intros (evs & _ & H). by eapply reaches_fence, sched_run_reaches.
Qed.

(** C14: the job machine refines the transition diagram: an event the diagram
    allows moves the machine and is answered without error; any other event,
    and every event in a final status, leaves the machine as it was and is
    answered with the invalid-event error. *)
Theorem sched_fsm_refines_diagram ev s :
  sched_on ev (fsm_at s) =
    match sched_next ev s with
    | Some b => (Ret (mkResponse (Some (state_of b)) None None None), fsm_at b)
    | None => (Ret (mkResponse (Some (state_of s))
                 (Some (InternalException ERROR_INVALID_EVENT)) None None), fsm_at s)
    end
  ∧ (terminal s = true → sched_next ev s = None).
Proof. split; [apply sched_on_at | apply terminal_sched_next]. Qed.
