(* ===== verification/JobStore.v ===== *)
(** * JobStore: the store contract and the in-memory store

    [src/pypepper/scheduler/store/interfaces.py] and [.../memory.py].  The
    contract is stated on the finite map of rows a store holds: [may_write] and
    [write_row] say what a [put] is to do, the class [JobStore] is the
    interface with its view [rows], [JobStoreLaws] what every implementation
    promises its clients ([Job], [Worker]). *)
From S2P Require Import Prelude Dict Json Lifecycle SchedulerFsm.

(** [class JobRecord] ([payload] is a dict of JSON values). *)
Record JobRecord : Type := mkRecord {
  r_id : string;
  r_category : option string;
  r_channel_id : string;
  r_status : string;
  r_created : string;
  r_updated : string;
  r_workflow_count : Z;
  r_version : Z;
  r_payload : option (dict json);
}.

(** [dataclasses.replace(record, created=..., version=...)]. *)
Definition replace_row (record : JobRecord) (created : string) (version : Z) : JobRecord :=
  mkRecord (r_id record) (r_category record) (r_channel_id record) (r_status record)
    created (r_updated record) (r_workflow_count record) version (r_payload record).

Abbreviation Rows := (gmap string JobRecord).

(** ** The contract of [IJobStore.put] on the rows of a store *)
Definition may_write (record : JobRecord) (m : Rows) : bool :=
  match m !! r_id record with
  | None => true
  | Some ex =>
      put_may_write (Some (r_status ex)) (Some (r_version ex)) (r_status record) (r_version record)
  end.

Definition write_row (record : JobRecord) (m : Rows) : Rows :=
  match m !! r_id record with
  | None => <[r_id record := record]> m
  | Some ex => <[r_id record := replace_row record (r_created ex) (r_version ex + 1)]> m
  end.

Definition put_spec (record : JobRecord) (m : Rows) : bool * Rows :=
  if may_write record m then (true, write_row record m) else (false, m).

(** [class IJobStore]: the operations of a backend with state [S].  [rows] is
    the map of durable rows, [is_in_memory] the test
    [isinstance(store, InMemoryJobStore)]. *)
Class JobStore (S : Type) : Type := {
  put : JobRecord → M S bool;
  get : string → M S (option JobRecord);
  delete_row : string → M S unit;
  list_rows : option string → M S (list JobRecord);
  clear_rows : M S unit;
  rows : S → Rows;
  is_in_memory : S → bool;
}.

(** What clients rely on.  A call may raise (a durable backend can lose its
    connection), and a [put] that raises may or may not have been applied. *)
Class JobStoreLaws (S : Type) `{!JobStore S} : Prop := {
  put_law : ∀ r s,
    match put r s with
    | (Ret b, s') => (b, rows s') = put_spec r (rows s)
    | (Raise e, s') =>
        is_exception e = true
        ∧ (rows s' = rows s ∨ may_write r (rows s) = true ∧ rows s' = write_row r (rows s))
    end;
  get_law : ∀ i s,
    match get i s with
    | (Ret o, s') => o = rows s !! i ∧ rows s' = rows s
    | (Raise e, s') => is_exception e = true ∧ rows s' = rows s
    end;
}.

(** ** [class InMemoryJobStore] *)
Module InMemoryJobStore.
Record t : Type := mk { _store : dict JobRecord }.

Definition init : t := mk [].

Definition put (record : JobRecord) : M t bool :=
  λ s,
    match dict_get (r_id record) (_store s) with
    | None => (Ret true, mk (dict_set (r_id record) record (_store s)))
    | Some existing =>
        if negb (put_may_write (Some (r_status existing)) (Some (r_version existing))
                   (r_status record) (r_version record))
        then (Ret false, s)
        else (Ret true,
              mk (dict_set (r_id record)
                    (replace_row record (r_created existing) (r_version existing + 1))
                    (_store s)))
    end.

Definition get (job_id : string) : M t (option JobRecord) :=
  m_get (λ s, dict_get job_id (_store s)).

Definition delete (job_id : string) : M t unit :=
  m_modify (λ s, mk (dict_pop job_id (_store s))).

Definition list_ (channel_id : option string) : M t (list JobRecord) :=
  m_get (λ s,
    let records := dict_values (_store s) in
    match channel_id with
    | None => records
    | Some c => filter (λ r, r_channel_id r = c) records
    end).

Definition clear : M t unit := m_modify (λ _, mk []).

#[export] Instance store : JobStore t := {
  JobStore.put := put;
  JobStore.get := get;
  delete_row := delete;
  list_rows := list_;
  clear_rows := clear;
  rows := λ s, dict_map (_store s);
  is_in_memory := λ _, true;
}.

Lemma put_run r s :
  (put r s).1 = Ret (put_spec r (rows s)).1 ∧ rows (put r s).2 = (put_spec r (rows s)).2.
Proof.
  unfold put, put_spec, may_write, write_row. cbn [rows store]. rewrite dict_get_map.
  destruct (dict_map (_store s) !! r_id r) as [ex|].
  - destruct (put_may_write (Some (r_status ex)) (Some (r_version ex)) (r_status r) (r_version r));
      cbn [negb fst snd _store]; [by rewrite dict_map_set | split; reflexivity].
  - cbn [fst snd _store]. by rewrite dict_map_set.
Qed.

#[export] Instance laws : JobStoreLaws t.
Proof.
  split.
  - intros r s. cbn [JobStore.put store]. destruct (put_run r s) as [H1 H2].
    destruct (put r s) as [o s']. cbn [fst snd] in *. rewrite H1, H2.
    by destruct (put_spec r (rows s)).
  - intros i s. cbn. split; [apply dict_get_map | done].
Qed.
End InMemoryJobStore.
#[export] Existing Instances InMemoryJobStore.store InMemoryJobStore.laws.

(** ** Consequences of the contract *)

(** A durable row only moves along the status machine, its version never
    decreases and its [created] never changes. *)
Definition status_le (a b : string) : Prop := put_applies (Some a) b = true.

Definition row_le (a b : JobRecord) : Prop :=
  status_le (r_status a) (r_status b) ∧ (r_version a ≤ r_version b)%Z
  ∧ r_created a = r_created b ∧ r_id a = r_id b.

Definition rows_le (m m' : Rows) : Prop :=
  ∀ i a, m !! i = Some a → ∃ b, m' !! i = Some b ∧ row_le a b.

(** Every row is stored under its own id. *)
Definition rows_ok (m : Rows) : Prop := ∀ i r, m !! i = Some r → r_id r = i.

#[export] Instance row_le_preorder : PreOrder row_le.
Proof.
  split.
  - intros a. split_and!; [apply put_applies_refl | lia | done ..].
  - intros a b c (Hs1 & Hv1 & Hc1 & Hi1) (Hs2 & Hv2 & Hc2 & Hi2). split_and!; [| lia | congruence ..].
    by eapply put_applies_trans.
Qed.

#[export] Instance rows_le_preorder : PreOrder rows_le.
Proof.
  split.
  - intros m i a Ha. by exists a.
  - intros m1 m2 m3 H12 H23 i a Ha. destruct (H12 i a Ha) as (b & Hb & Hab).
    destruct (H23 i b Hb) as (c & Hc & Hbc). exists c. split; [done |]. by etransitivity.
Qed.

Lemma may_write_Some r m ex :
  m !! r_id r = Some ex →
  may_write r m = true ↔
  put_applies (Some (r_status ex)) (r_status r) = true ∧ r_version ex = r_version r.
Proof.
  intros Hex. unfold may_write, put_may_write. rewrite Hex.
  destruct (put_applies (Some (r_status ex)) (r_status r)); cbn [negb].
  - rewrite bool_decide_eq_true. split; [intros [= H]; done | intros [_ ->]; done].
  - split; [done | by intros []].
Qed.

Lemma write_row_lookup_ne r m i : r_id r ≠ i → write_row r m !! i = m !! i.
Proof. intros H. unfold write_row. destruct (m !! r_id r); by rewrite lookup_insert_ne. Qed.

Lemma write_row_le r m : rows_ok m → may_write r m = true → rows_le m (write_row r m).
Proof.
  intros Hok Hw i a Ha. destruct (decide (r_id r = i)) as [<-|Hne].
  - unfold write_row. rewrite Ha, lookup_insert_eq. eexists. split; [done |].
    destruct (proj1 (may_write_Some r m a Ha) Hw) as [Hs Hv].
    split_and!; simpl; [done | lia | done |]. by apply Hok.
  - rewrite write_row_lookup_ne by done. by exists a.
Qed.

Lemma write_row_ok r m : rows_ok m → rows_ok (write_row r m).
Proof.
  intros Hok i x. unfold write_row.
  destruct (m !! r_id r) as [ex|]; rewrite lookup_insert; case_decide as Hi;
    try (intros [= <-]; done); apply Hok.
Qed.

(** The step every client of a store makes on its rows, and its closure under
    sequences: what a store does to durable state. *)
Definition rows_step (m m' : Rows) : Prop := rows_ok m → rows_ok m' ∧ rows_le m m'.

#[export] Instance rows_step_preorder : PreOrder rows_step.
Proof.
  split.
  - intros m Hm. by split.
  - intros m1 m2 m3 H12 H23 Hm. destruct (H12 Hm) as [H2 L12].
    destruct (H23 H2) as [H3 L23]. split; [done |]. by etransitivity.
Qed.

Lemma write_row_step r m : may_write r m = true → rows_step m (write_row r m).
Proof. intros Hw Hm. split; [by apply write_row_ok | by apply write_row_le]. Qed.

Section StoreFacts.
Context {S : Type} `{!JobStore S, !JobStoreLaws S}.

Definition store_step (s s' : S) : Prop := rows_step (rows s) (rows s').
#[global] Instance store_step_preorder : PreOrder store_step.
Proof.
  split; [intros s; unfold store_step; reflexivity |].
  intros s1 s2 s3. unfold store_step. apply transitivity.
Qed.

Lemma put_ret r s b s' :
  put r s = (Ret b, s') → b = may_write r (rows s) ∧ rows s' = (put_spec r (rows s)).2.
Proof.
  intros H. pose proof (put_law r s) as Hl. rewrite H in Hl. unfold put_spec in *.
  destruct (may_write r (rows s)); by injection Hl as -> ->.
Qed.

Lemma put_raise r s e s' :
  put r s = (Raise e, s') →
  is_exception e = true
  ∧ (rows s' = rows s ∨ may_write r (rows s) = true ∧ rows s' = write_row r (rows s)).
Proof. intros H. pose proof (put_law r s) as Hl. by rewrite H in Hl. Qed.

Lemma get_ret i s o s' : get i s = (Ret o, s') → o = rows s !! i ∧ rows s' = rows s.
Proof. intros H. pose proof (get_law i s) as Hl. by rewrite H in Hl. Qed.

Lemma get_raise i s e s' :
  get i s = (Raise e, s') → is_exception e = true ∧ rows s' = rows s.
Proof. intros H. pose proof (get_law i s) as Hl. by rewrite H in Hl. Qed.

Lemma put_preserves r : preserves store_step (put r).
Proof.
  intros s. unfold store_step. destruct (put r s) as [[b|e] s'] eqn:H; simpl.
  - apply put_ret in H as [-> ->]. unfold put_spec.
    destruct (may_write r (rows s)) eqn:Hw; [by apply write_row_step | done].
  - apply put_raise in H as [_ [->|[Hw ->]]]; [done | by apply write_row_step].
Qed.

Lemma get_preserves i : preserves store_step (get i).
Proof.
  intros s. unfold store_step. destruct (get i s) as [[b|e] s'] eqn:H; simpl.
  - by apply get_ret in H as [_ ->].
  - by apply get_raise in H as [_ ->].
Qed.
End StoreFacts.
#[export] Hint Resolve put_preserves get_preserves : preserves.

(** ** The in-memory store refines the map of its rows *)
Inductive store_op : Type :=
| OpPut (r : JobRecord)
| OpGet (i : string)
| OpDelete (i : string)
| OpList (c : option string)
| OpClear.

Inductive store_res : Type :=
| ResBool (b : bool)
| ResRow (o : option JobRecord)
| ResRows (l : list JobRecord)
| ResUnit
| ResExn (e : exn).

Definition m_res {S A} (f : A → store_res) (m : M S A) : S → store_res * S :=
  λ s, match m s with (Ret a, s') => (f a, s') | (Raise e, s') => (ResExn e, s') end.

Definition run_op {S} `{!JobStore S} (op : store_op) : S → store_res * S :=
  match op with
  | OpPut r => m_res ResBool (put r)
  | OpGet i => m_res ResRow (get i)
  | OpDelete i => m_res (λ _, ResUnit) (delete_row i)
  | OpList c => m_res ResRows (list_rows c)
  | OpClear => m_res (λ _, ResUnit) clear_rows
  end.

Fixpoint run_ops {S} `{!JobStore S} (ops : list store_op) (s : S) : list store_res * S :=
  match ops with
  | [] => ([], s)
  | op :: ops' =>
      let '(r, s1) := run_op op s in
      let '(rs, s2) := run_ops ops' s1 in (r :: rs, s2)
  end.

(** The abstract store: one operation on the map, and the result it allows (the
    rows of a listing come in any order). *)
Definition map_op (op : store_op) (m : Rows) : Rows :=
  match op with
  | OpPut r => (put_spec r m).2
  | OpGet _ | OpList _ => m
  | OpDelete i => delete i m
  | OpClear => ∅
  end.

Definition map_res (op : store_op) (m : Rows) (res : store_res) : Prop :=
  match op, res with
  | OpPut r, ResBool b => b = may_write r m
  | OpGet i, ResRow o => o = m !! i
  | OpList c, ResRows l =>
      NoDup l ∧ ∀ r, r ∈ l ↔ m !! r_id r = Some r ∧ (∀ ch, c = Some ch → r_channel_id r = ch)
  | (OpDelete _ | OpClear), ResUnit => True
  | _, _ => False
  end.

Fixpoint map_results (ops : list store_op) (m : Rows) (rs : list store_res) : Prop :=
  match ops, rs with
  | [], [] => True
  | op :: ops', r :: rs' => map_res op m r ∧ map_results ops' (map_op op m) rs'
  | _, _ => False
  end.

Module MemoryRefinement.
Import InMemoryJobStore.

(** Representation invariant: distinct keys, each row under its own id. *)
Definition wf (s : t) : Prop := NoDup (dict_keys (_store s)) ∧ rows_ok (rows s).

Lemma wf_init : wf init.
Proof. split; [apply NoDup_nil_2 | intros i r H; change ((∅ : Rows) !! i = Some r) in H;
  by apply lookup_empty_Some in H]. Qed.

Lemma put_keys r s : NoDup (dict_keys (_store s)) → NoDup (dict_keys (_store (InMemoryJobStore.put r s).2)).
Proof.
  intros H. unfold InMemoryJobStore.put. destruct (dict_get _ _) as [ex|].
  - destruct (negb _); [done |]. by apply dict_set_NoDup.
  - by apply dict_set_NoDup.
Qed.

Lemma put_spec_ok r m : rows_ok m → rows_ok (put_spec r m).2.
Proof. intros H. unfold put_spec. destruct (may_write r m); [by apply write_row_ok | done]. Qed.

Lemma values_NoDup (d : dict JobRecord) :
  NoDup (dict_keys d) → rows_ok (dict_map d) → NoDup (dict_values d).
Proof.
  unfold dict_keys, dict_values, dict_map, rows_ok. induction d as [|[k v] d IH]; simpl; intros Hn Hok.
  { constructor. }
  apply NoDup_cons in Hn as [Hk Hn]. apply NoDup_cons. split.
  - intros ([k' v'] & -> & Hin)%list_elem_of_fmap. simpl in *.
    assert (r_id v' = k) as Hk1 by (apply Hok; by rewrite lookup_insert_eq).
    assert (k' ≠ k) as Hne.
    { intros ->. apply Hk. apply list_elem_of_fmap. by exists (k, v'). }
    apply Hne. rewrite <- Hk1. symmetry. apply Hok. rewrite lookup_insert_ne by done.
    by apply elem_of_list_to_map_1.
  - apply IH; [done |]. intros i r Hr. apply Hok. rewrite lookup_insert_ne; [done |].
    intros ->. apply Hk. apply elem_of_list_to_map_2 in Hr.
    apply list_elem_of_fmap. by exists (i, r).
Qed.

Lemma list_res c s : wf s → map_res (OpList c) (rows s) (run_op (OpList c) s).1.
Proof.
  intros [Hn Hok]. unfold run_op, m_res. cbn [list_rows store rows]. unfold list_. cbn.
  assert (∀ r, r ∈ dict_values (_store s) ↔ dict_map (_store s) !! r_id r = Some r) as Hin.
  { intros r. rewrite elem_of_dict_values by done. split; [| by eauto].
    intros (k & Hk). by rewrite (Hok k r Hk). }
  pose proof (values_NoDup _ Hn Hok) as Hnd.
  destruct c as [ch|]; split; try done.
  - by apply NoDup_filter.
  - intros r. rewrite list_elem_of_filter, Hin. split.
    + intros [<- Hr]. split; [done | by intros ? [= <-]].
    + intros [Hr Hc]. split; [by apply Hc | done].
  - intros r. rewrite Hin. split; [done | by intros []].
Qed.

(** One operation: its result, its effect on the rows, the invariant. *)
Lemma run_op_sim op s :
  wf s →
  map_res op (rows s) (run_op op s).1 ∧ rows (run_op op s).2 = map_op op (rows s)
  ∧ wf (run_op op s).2.
Proof.
  intros Hwf. pose proof Hwf as [Hn Hok]. destruct op as [r|i|i|c|].
  - destruct (put_run r s) as [H1 H2]. pose proof (put_keys r s Hn) as Hk.
    unfold run_op, m_res. cbn [JobStore.put store]. destruct (InMemoryJobStore.put r s) as [o s'].
    cbn [fst snd] in *. subst o. cbn [fst snd map_res map_op]. split; [| split; [done | split; [done |]]].
    + unfold put_spec. by destruct (may_write r (rows s)).
    + rewrite H2. by apply put_spec_ok.
  - unfold run_op, m_res. cbn. split; [apply dict_get_map | split; [done | exact Hwf]].
  - unfold run_op, m_res. cbn. split; [done | split; [apply dict_map_pop |]].
    split; [by apply dict_pop_NoDup |].
    change (rows_ok (dict_map (dict_pop i (_store s)))). rewrite dict_map_pop.
    intros j r. rewrite lookup_delete. case_decide; [done |]. apply Hok.
  - split; [by apply list_res |]. done.
  - unfold run_op, m_res. cbn. split; [done | split; [done | apply wf_init]].
Qed.
End MemoryRefinement.

(** ** Properties *)

(** C11: the in-memory store implements the store contract.  Started empty, on
    any sequence of [put], [get], [delete], [list] and [clear] it returns what
    the map of rows with the fenced, versioned [put] allows, and a listing
    holds exactly the rows of the asked channel, each once. *)
Theorem memory_store_refines_contract (ops : list store_op) :
  map_results ops ∅ (run_ops ops InMemoryJobStore.init).1
  ∧ rows (run_ops ops InMemoryJobStore.init).2 = fold_left (λ m op, map_op op m) ops ∅.
Proof.
  change (∅ : Rows) with (rows InMemoryJobStore.init).
  generalize MemoryRefinement.wf_init. generalize InMemoryJobStore.init as s.
  induction ops as [|op ops IH]; intros s Hwf; [done |].
  destruct (MemoryRefinement.run_op_sim op s Hwf) as (Hres & Hrows & Hwf'). cbn [run_ops].
  destruct (run_op op s) as [r s1]. cbn [fst snd] in *. destruct (IH s1 Hwf') as [IH1 IH2].
  destruct (run_ops ops s1) as [rs s2]. cbn [fst snd map_results fold_left] in *.
  by rewrite Hrows in *.
Qed.

(** The operations a job and a worker use: they never delete rows. *)
Definition no_delete (op : store_op) : bool :=
  match op with OpPut _ | OpGet _ => true | _ => false end.

(** C18: durable rows only move forward.  Through any sequence of puts and gets on
    any lawful store, with any of the calls failing, every row that was there
    is still there, its status has moved at most along the status machine's
    order, its version has not decreased and its [created] is the one it was
    inserted with. *)
Theorem store_rows_only_move_forward {S} `{!JobStore S, !JobStoreLaws S} ops (s : S) :
  rows_ok (rows s) → forallb no_delete ops = true →
  rows_ok (rows (run_ops ops s).2) ∧ rows_le (rows s) (rows (run_ops ops s).2).
Proof.
  intros Hok Hops. enough (store_step s (run_ops ops s).2) as H by by apply H.
  clear Hok. revert s Hops. induction ops as [|op ops IH]; simpl; intros s Hops; [reflexivity |].
  apply andb_prop in Hops as [Hop Hops].
  assert (store_step s (run_op op s).2) as H1.
  { destruct op as [r|i| | |]; try discriminate Hop; unfold run_op, m_res.
    - pose proof (put_preserves r s). by destruct (put r s) as [[]].
    - pose proof (get_preserves i s). by destruct (get i s) as [[]]. }
  destruct (run_op op s) as [r s1]. specialize (IH s1 Hops).
  destruct (run_ops ops s1) as [rs s2]. cbn [fst snd] in *. by etransitivity.
Qed.

(** No lost update.  When a [put] has replaced a durable row, a second [put]
    of the same job carrying the version the first one carried (a writer that
    read the same row) is refused, whatever its status, and changes nothing. *)
Theorem put_stale_version_refused {S} `{!JobStore S, !JobStoreLaws S} r1 r2 (s s1 s2 : S) o :
  rows s !! r_id r1 ≠ None → put r1 s = (Ret true, s1) →
  r_id r2 = r_id r1 → r_version r2 = r_version r1 → put r2 s1 = (o, s2) →
  o ≠ Ret true ∧ rows s2 = rows s1.
Proof.
  intros Hex Hput Hid Hver Hput2. apply put_ret in Hput as [Hw Hrows].
  destruct (rows s !! r_id r1) as [ex|] eqn:Hl; [| done].
  assert (may_write r2 (rows s1) = false) as Hw2.
  { symmetry in Hw. apply (may_write_Some _ _ _ Hl) in Hw as Hv. destruct Hv as [_ Hv].
    assert (rows s1 !! r_id r2 = Some (replace_row r1 (r_created ex) (r_version ex + 1))) as Hl2.
    { rewrite Hrows. unfold put_spec. rewrite Hw. simpl. unfold write_row.
      by rewrite Hl, Hid, lookup_insert_eq. }
    apply not_true_is_false. intros H. apply (may_write_Some _ _ _ Hl2) in H as [_ H].
    simpl in H. lia. }
  destruct o as [b|e].
  - apply put_ret in Hput2 as [-> ->]. unfold put_spec. by rewrite Hw2.
  - apply put_raise in Hput2 as (_ & [->|[H _]]); [done | by rewrite Hw2 in H].
Qed.

(** ** Witnesses *)
Module StoreExamples.
Definition row (status : Status) (version : Z) : JobRecord :=
  mkRecord "job-1" (Some "demo") "ch" (status_value status) "t0" "t1" 1 version None.

Definition ops : list store_op :=
  [OpPut (row SCHEDULED 1); OpPut (row IN_PROGRESS 1); OpPut (row SCHEDULED 2);
   OpPut (row COMPLETED 2); OpGet "job-1"; OpPut (row FAILED 3)].
Definition s0 : InMemoryJobStore.t := (run_ops [OpPut (row SCHEDULED 1)] InMemoryJobStore.init).2.

Lemma store_rows_only_move_forward_witness :
  rows_le (rows s0) (rows (run_ops ops s0).2)
  ∧ (rows (run_ops ops s0).2 !! "job-1") = Some (row FAILED 4).
Proof.
  split; [| vm_compute; reflexivity].
  apply (store_rows_only_move_forward ops s0); [| reflexivity].
  apply (MemoryRefinement.run_op_sim (OpPut (row SCHEDULED 1)) _ MemoryRefinement.wf_init).
Defined.

Lemma put_stale_version_refused_witness :
  put (row COMPLETED 1) (put (row IN_PROGRESS 1) s0).2
    = (Ret false, (put (row IN_PROGRESS 1) s0).2)
  ∧ rows (put (row COMPLETED 1) (put (row IN_PROGRESS 1) s0).2).2
    = rows (put (row IN_PROGRESS 1) s0).2.
Proof.
  split; [vm_compute; reflexivity |].
  refine (proj2 (put_stale_version_refused (row IN_PROGRESS 1) (row COMPLETED 1) s0
    (put (row IN_PROGRESS 1) s0).2 _ (Ret false) _ _ _ _ _)); vm_compute; done.
Defined.
End StoreExamples.
