(* ===== verification/Channel.v ===== *)
(** * Channel: job channels and the channel manager

    [src/pypepper/scheduler/channel.py].  [Queue] and [asyncio.Event] are the
    standard library's: a queue is the list of its items with the bound
    [maxsize] (no bound when it is not positive), an event a flag.  [send] and
    [request_stop] run under the instance lock, so each is one step; [receive]
    is the two points at which its coroutine runs: when it is called
    ([receive_start]) and when it is woken up ([receive_wake]). *)
From S2P Require Import Prelude.
From Stdlib Require Import ZArith.

Inductive SendResult : Type := SEND_OK | SEND_FULL | SEND_STOPPED.

#[export] Instance SendResult_eq_dec : EqDecision SendResult.
Proof. solve_decision. Defined.

Section Channel.
Context {T : Type}.

(** [class Channel]. *)
Record Channel : Type := mkChannel {
  _stop : bool;
  _queue : list T;
  maxsize : Z;
  _stopped : bool;
}.

(** [Channel(maxsize)] / [channel.new(maxsize)]. *)
Definition channel_new (maxsize : Z) : Channel := mkChannel false [] maxsize false.

(** [Queue.full()]. *)
Definition queue_full (c : Channel) : bool :=
  (0 <? maxsize c)%Z && (maxsize c <=? Z.of_nat (length (_queue c)))%Z.

Definition with_queue (q : list T) (c : Channel) : Channel :=
  mkChannel (_stop c) q (maxsize c) (_stopped c).

(** [Channel.send(value)]. *)
Definition send (value : T) : M Channel SendResult :=
  λ c,
    if _stop c then (Ret SEND_STOPPED, c)
    else if queue_full c then (Ret SEND_FULL, c)
    else (Ret SEND_OK, with_queue (_queue c ++ [value]) c).

(** [Queue.get_nowait()], [None] for [QueueEmpty]. *)
Definition get_nowait : M Channel (option T) :=
  λ c,
    match _queue c with
    | [] => (Ret None, c)
    | x :: q => (Ret (Some x), with_queue q c)
    end.

(** What a scheduling of [receive] comes to: it returns, or it waits. *)
Inductive recv : Type :=
| Received (item : option T)
| Waiting.

(** [receive()] up to its first suspension: drained without blocking when the
    channel is stopped, else the race of [get] against the stop event. *)
Definition receive_start : M Channel recv :=
  λ c,
    if _stop c then (let* x := get_nowait in m_ret (Received x)) c
    else (Ret Waiting, c).

(** A waiting [receive()] when it runs again: a [get] that can complete is
    preferred; when only the stop event is set it takes what [get_nowait]
    gives; when neither is ready it keeps waiting. *)
Definition receive_wake : M Channel recv :=
  λ c,
    match _queue c with
    | x :: q => (Ret (Received (Some x)), with_queue q c)
    | [] => if _stopped c then (let* x := get_nowait in m_ret (Received x)) c
            else (Ret Waiting, c)
    end.

(** [receive()] by a consumer nothing interrupts: it starts and is woken up at
    once. *)
Definition receive : M Channel recv :=
  let* r := receive_start in
  match r with
  | Received x => m_ret (Received x)
  | Waiting => receive_wake
  end.

(** [Channel.request_stop()]. *)
Definition request_stop : M Channel unit :=
  λ c, if _stop c then (Ret tt, c) else (Ret tt, mkChannel true (_queue c) (maxsize c) true).

(** [Channel.stop], [Channel.length()]. *)
Definition stop (c : Channel) : bool := _stop c.
Definition channel_length (c : Channel) : Z := Z.of_nat (length (_queue c)).

(** ** One channel: a transition system *)

(** The stop flag and the stop event are set together, and the queue keeps its
    bound. *)
Definition channel_ok (c : Channel) : Prop :=
  _stopped c = _stop c ∧ ((0 < maxsize c)%Z → (Z.of_nat (length (_queue c)) ≤ maxsize c)%Z).

Inductive event : Type :=
| ESend (v : T) (r : SendResult)
| EStop
| EStart (r : recv)
| EWake (r : recv).

(** Senders, stoppers and receivers in any order; [EWake] is a receive that had
    been left waiting. *)
Inductive chan_step : Channel → event → Channel → Prop :=
| step_send c v r c' : send v c = (Ret r, c') → chan_step c (ESend v r) c'
| step_stop c c' : request_stop c = (Ret tt, c') → chan_step c EStop c'
| step_start c r c' : receive_start c = (Ret r, c') → chan_step c (EStart r) c'
| step_wake c r c' : receive_wake c = (Ret r, c') → chan_step c (EWake r) c'.

Inductive chan_run : Channel → list event → Channel → Prop :=
| run_nil c : chan_run c [] c
| run_snoc c es c' e c'' : chan_run c es c' → chan_step c' e c'' → chan_run c (es ++ [e]) c''.

(** Items whose send was answered [ok], items handed to receivers. *)
Definition accepted (es : list event) : list T :=
  omap (λ e, match e with ESend v SEND_OK => Some v | _ => None end) es.
Definition delivered (es : list event) : list T :=
  omap (λ e, match e with
             | EStart (Received (Some x)) | EWake (Received (Some x)) => Some x
             | _ => None end) es.

Lemma send_cases v c :
  send v c = (if _stop c then (Ret SEND_STOPPED, c)
              else if queue_full c then (Ret SEND_FULL, c)
              else (Ret SEND_OK, with_queue (_queue c ++ [v]) c)).
Proof. done. Qed.

Lemma receive_start_wake c :
  channel_ok c → _stop c = true → receive_start c = receive_wake c.
Proof.
  intros [Hs _] Hc. unfold receive_start, receive_wake, m_bind, get_nowait.
  rewrite Hs, Hc. by destruct (_queue c).
Qed.

(** A stopped channel hands out what it holds. *)
Lemma receive_stopped c :
  _stop c = true →
  receive c = (Ret (Received (hd_error (_queue c))), with_queue (tail (_queue c)) c).
Proof.
  intros Hs. unfold receive, receive_start, m_bind, get_nowait. rewrite Hs.
  destruct c as [st q ms sd]. cbn in *. by destruct q.
Qed.

(** A channel that holds something hands it out, stopped or not. *)
Lemma receive_nonempty c x q :
  _queue c = x :: q → receive c = (Ret (Received (Some x)), with_queue q c).
Proof.
  intros Hq. unfold receive, receive_start, receive_wake, m_bind, get_nowait.
  destruct c as [[] qu ms sd]; cbn in *; by subst.
Qed.

(** The three outcomes of an uninterrupted [receive]. *)
Lemma receive_cases c :
  channel_ok c →
  receive c =
    match _queue c with
    | x :: q => (Ret (Received (Some x)), with_queue q c)
    | [] => if _stop c then (Ret (Received None), c) else (Ret Waiting, c)
    end.
Proof.
  intros [Hs _]. unfold receive, receive_start, receive_wake, get_nowait, m_bind, m_ret.
  destruct (_stop c) eqn:Hc; destruct (_queue c) eqn:Hq; simpl; rewrite ?Hq, ?Hs; done.
Qed.

Lemma chan_step_ok c e c' : channel_ok c → chan_step c e c' → channel_ok c' ∧ maxsize c' = maxsize c.
Proof.
  intros Hok Hst. pose proof Hok as [Hs Hb].
  destruct Hst as [c v r c' H|c c' H|c r c' H|c r c' H].
  - rewrite send_cases in H. destruct (_stop c) eqn:Hc; [by simplify_eq |].
    destruct (queue_full c) eqn:Hf; simplify_eq; [done |]. split; [| done]. split; [simpl; congruence |].
    simpl. intros Hm. specialize (Hb Hm). unfold queue_full in Hf. rewrite length_app. simpl.
    destruct (Z.ltb_spec 0 (maxsize c)); [| lia].
    destruct (Z.leb_spec (maxsize c) (Z.of_nat (length (_queue c)))); [done | lia].
  - unfold request_stop in H. by destruct (_stop c) eqn:Hc; simplify_eq.
  - unfold receive_start, get_nowait, m_bind, m_ret in H.
    destruct (_stop c) eqn:Hc; [| by simplify_eq].
    destruct (_queue c) eqn:Hq; simplify_eq; [done |].
    split; [| done]. split; [simpl; congruence |]. simpl in *. intros Hm. specialize (Hb Hm). lia.
  - unfold receive_wake, get_nowait, m_bind, m_ret in H.
    destruct (_queue c) eqn:Hq.
    + by destruct (_stopped c); simplify_eq/=; rewrite ?Hq in *; simplify_eq.
    + simplify_eq. split; [| done]. split; [simpl; congruence |]. simpl in *. intros Hm.
      specialize (Hb Hm). lia.
Qed.

Lemma chan_step_fifo c e c' :
  chan_step c e c' →
  _queue c ++ accepted [e] = delivered [e] ++ _queue c' ∧ (_stop c = true → _stop c' = true).
Proof.
  intros Hst. destruct Hst as [c v r c' H|c c' H|c r c' H|c r c' H].
  - rewrite send_cases in H.
    destruct (_stop c) eqn:Hc; [| destruct (queue_full c)]; simplify_eq; simpl;
      by rewrite ?app_nil_r, ?Hc.
  - unfold request_stop in H. destruct (_stop c) eqn:Hc; simplify_eq; simpl; by rewrite app_nil_r.
  - unfold receive_start, get_nowait, m_bind, m_ret in H.
    destruct (_stop c) eqn:Hc; [destruct (_queue c) eqn:Hq |]; simplify_eq; simpl;
      by rewrite ?Hq, ?Hc, ?app_nil_r.
  - unfold receive_wake, get_nowait, m_bind, m_ret in H.
    destruct (_queue c) eqn:Hq; [destruct (_stopped c) |]; simplify_eq; simpl;
      by rewrite ?Hq, ?app_nil_r.
Qed.
End Channel.
#[global] Arguments Channel : clear implicits.
#[global] Arguments recv : clear implicits.
#[global] Arguments event : clear implicits.

(** ** [class ChannelManager]

    Channels are objects: [channels] is the heap they live in, [_job_channel]
    maps a key to a reference into it, [next_ref] is the next free reference. *)
Section Manager.
Context {T : Type}.

Record ChannelManager : Type := mkManager {
  channels : gmap nat (Channel T);
  next_ref : nat;
  _job_channel : gmap string nat;
}.

Definition manager_init : ChannelManager := mkManager ∅ 0 ∅.

Definition with_job_channel (j : gmap string nat) (m : ChannelManager) : ChannelManager :=
  mkManager (channels m) (next_ref m) j.

(** Creating a channel object. *)
Definition alloc_channel (maxsize : Z) : M ChannelManager nat :=
  λ m, (Ret (next_ref m),
        mkManager (<[next_ref m := channel_new maxsize]> (channels m)) (S (next_ref m))
          (_job_channel m)).

(** [ChannelManager.put]; [chan] is [None] for a caller that passes [None]. *)
Definition manager_put (key : string) (chan : option nat) : M ChannelManager unit :=
  if negb (str_truthy key) then m_raise (ValueError "invalid key")
  else match chan with
       | None => m_raise (ValueError "invalid channel")
       | Some ref => m_modify (λ m, with_job_channel (<[key := ref]> (_job_channel m)) m)
       end.

(** [ChannelManager.get]. *)
Definition manager_get (key : string) : M ChannelManager (option nat) :=
  if negb (str_truthy key) then m_raise (ValueError "invalid key")
  else m_get (λ m, if decide (_job_channel m = ∅) then None else _job_channel m !! key).

(** [ChannelManager.remove]: [dict.pop(key)] raises on a missing key. *)
Definition manager_remove (key : string) : M ChannelManager (option nat) :=
  if negb (str_truthy key) then m_raise (ValueError "invalid key")
  else λ m,
    if decide (_job_channel m = ∅) then (Ret None, m)
    else match _job_channel m !! key with
         | Some ref => (Ret (Some ref), with_job_channel (delete key (_job_channel m)) m)
         | None => (Raise (KeyError key), m)
         end.

(** [ChannelManager.new] and its alias [available]. *)
Definition manager_new (key : string) (maxsize : Z) : M ChannelManager nat :=
  if negb (str_truthy key) then m_raise (ValueError "invalid key")
  else
    let* existing := m_get (λ m, _job_channel m !! key) in
    match existing with
    | Some ref => m_ret ref
    | None =>
        let* ref := alloc_channel maxsize in
        let* _ := m_modify (λ m, with_job_channel (<[key := ref]> (_job_channel m)) m) in
        m_ret ref
    end.
Definition available (key : string) (maxsize : Z) : M ChannelManager nat :=
  manager_new key maxsize.

(** Every registered reference is an allocated channel below [next_ref]. *)
Definition manager_ok (m : ChannelManager) : Prop :=
  (∀ k ref, _job_channel m !! k = Some ref → is_Some (channels m !! ref))
  ∧ (∀ ref, is_Some (channels m !! ref) → ref < next_ref m).

Lemma manager_init_ok : manager_ok manager_init.
Proof. split; [intros k ref H | intros ref [c H]]; simpl in H; by apply lookup_empty_Some in H. Qed.

Lemma manager_new_empty key n m :
  key = "" → manager_new key n m = (Raise (ValueError "invalid key"), m).
Proof. by intros ->. Qed.

(** The channel of a key after [new]: the existing object, or a fresh unbounded
    or bounded one. *)
Lemma manager_new_run key n m :
  key ≠ "" →
  manager_new key n m =
    match _job_channel m !! key with
    | Some ref => (Ret ref, m)
    | None => (Ret (next_ref m),
               mkManager (<[next_ref m := channel_new n]> (channels m)) (S (next_ref m))
                 (<[key := next_ref m]> (_job_channel m)))
    end.
Proof.
  intros Hk. unfold manager_new. apply str_truthy_true in Hk as ->. simpl.
  unfold m_bind, m_get. by destruct (_job_channel m !! key).
Qed.

Lemma manager_new_ok key n m : manager_ok m → manager_ok (manager_new key n m).2.
Proof.
  intros [H1 H2]. destruct (decide (key = "")) as [->|Hk]; [done |].
  rewrite manager_new_run by done. destruct (_job_channel m !! key) as [ref|]; [done |].
  split; simpl.
  - intros k ref. rewrite lookup_insert. case_decide.
    + intros [= <-]. rewrite lookup_insert_eq. by eexists.
    + intros Hr. rewrite lookup_insert. case_decide; [by eexists | by eapply H1].
  - intros ref. rewrite lookup_insert. case_decide as Hr; [lia |]. intros Hc%H2. lia.
Qed.

Lemma manager_new_mono key n m ref c :
  manager_ok m → channels m !! ref = Some c → channels (manager_new key n m).2 !! ref = Some c.
Proof.
  intros [_ H2] Hc. destruct (decide (key = "")) as [->|Hk]; [done |].
  rewrite manager_new_run by done. destruct (_job_channel m !! key); [done |]. simpl.
  rewrite lookup_insert_ne; [done |]. assert (ref < next_ref m) by (apply H2; by exists c). lia.
Qed.
End Manager.
#[global] Arguments ChannelManager : clear implicits.

(** ** Properties *)
Section ChannelProperties.
Context {T : Type}.

Lemma chan_run_inv (c c' : Channel T) es :
  channel_ok c → chan_run c es c' →
  channel_ok c' ∧ maxsize c' = maxsize c ∧ _queue c ++ accepted es = delivered es ++ _queue c'
  ∧ (_stop c = true → _stop c' = true ∧ accepted es = []).
Proof.
  intros Hok Hrun. induction Hrun as [c|c es c' e c'' Hrun IH Hst].
  - split_and!; [done | done | by rewrite app_nil_r | done].
  - destruct (IH Hok) as (Hok' & Hm & Hq & Hs).
    destruct (chan_step_ok _ _ _ Hok' Hst) as [Hok'' Hm']. destruct (chan_step_fifo _ _ _ Hst) as [Hq' Hs'].
    unfold accepted, delivered in *. rewrite !omap_app. split_and!; [done | congruence | |].
    + by rewrite app_assoc, Hq, <- !app_assoc, Hq'.
    + intros H0. destruct (Hs H0) as [Hs1 Hacc]. split; [by apply Hs' |]. rewrite Hacc. simpl.
      destruct Hst as [c' v r c'' H| | |]; try done.
      rewrite send_cases, Hs1 in H. by simplify_eq.
Qed.

(** C21: a channel is a bounded queue that loses nothing.  Whatever the
    interleaving of sends, stops and receives, the items whose send was
    answered [ok] are, in order, the items delivered followed by the items
    still queued, and a positive [maxsize] is never exceeded. *)
Theorem channel_fifo_bounded n es (c : Channel T) :
  chan_run (channel_new n) es c →
  accepted es = delivered es ++ _queue c
  ∧ ((0 < n)%Z → (channel_length c ≤ n)%Z).
Proof.
  intros Hrun. assert (channel_ok (channel_new (T := T) n)) as Hok by (split; simpl; [done | lia]).
  destruct (chan_run_inv _ _ _ Hok Hrun) as ([_ Hb] & Hm & Hq & _). simpl in *.
  split; [done |]. intros Hn. unfold channel_length. rewrite Hm in Hb. lia.
Qed.

(** C22: stop is a clean cut.  Once stop was requested no send is accepted any
    more; a receiver is answered [None] only when the channel is stopped and
    every accepted item has been delivered, and on a stopped channel a receive
    never waits. *)
Theorem channel_stop_drains n es1 es2 (c c1 c2 : Channel T) r :
  chan_run (channel_new n) es1 c → chan_step c EStop c1 → chan_run c1 es2 c2 →
  accepted es2 = []
  ∧ ((receive c2).1 = Ret r →
     r ≠ Waiting ∧ (r = Received None → accepted es1 = delivered es1 ++ delivered es2)).
Proof.
  intros Hrun1 Hst Hrun2.
  assert (channel_ok (channel_new (T := T) n)) as Hok0 by (split; simpl; [done | lia]).
  destruct (chan_run_inv _ _ _ Hok0 Hrun1) as (Hok & _ & Hq & _).
  destruct (chan_step_ok _ _ _ Hok Hst) as [Hok1 _]. destruct (chan_step_fifo _ _ _ Hst) as [Hq1 _].
  assert (_stop c1 = true) as Hs1.
  { inversion Hst as [|? ? H| |]; subst. unfold request_stop in H.
    by destruct (_stop c) eqn:Hc; simplify_eq. }
  destruct (chan_run_inv _ _ _ Hok1 Hrun2) as (Hok2 & _ & Hq2 & Hs2).
  destruct (Hs2 Hs1) as [Hs Hacc]. split; [done |]. intros Hr. rewrite receive_cases, Hs in Hr by done.
  simpl in Hq1. rewrite app_nil_r in Hq1. simpl in Hq. rewrite Hacc, app_nil_r in Hq2.
  destruct (_queue c2) as [|x q]; simpl in Hr; simplify_eq; [| done].
  split; [done |]. intros _. by rewrite Hq, Hq1, Hq2, app_nil_r.
Qed.

(** One channel per key.  Asking the manager for a key again returns the
    same object and changes nothing, whatever [maxsize] is asked; a key asked
    for the first time gets an empty channel with the asked bound, distinct from
    every channel object that existed. *)
Theorem manager_new_one_channel_per_key key n1 n2 (m m1 : ChannelManager T) ref :
  manager_ok m → manager_new key n1 m = (Ret ref, m1) →
  available key n2 m1 = (Ret ref, m1)
  ∧ (_job_channel m !! key = None →
     channels m !! ref = None ∧ channels m1 !! ref = Some (channel_new n1)
     ∧ ∀ k, k ≠ key → _job_channel m1 !! k ≠ Some ref).
Proof.
  intros [H1 H2] Hnew. destruct (decide (key = "")) as [->|Hk]; [done |].
  rewrite manager_new_run in Hnew by done. unfold available. rewrite manager_new_run by done.
  destruct (_job_channel m !! key) as [r|] eqn:Hl; simplify_eq; [by rewrite Hl |].
  simpl. rewrite lookup_insert_eq. split; [done |]. intros _.
  assert (channels m !! next_ref m = None) as Hn.
  { apply eq_None_not_Some. intros Hs%H2. lia. }
  split_and!; [done | by rewrite lookup_insert_eq |].
  intros k Hne. rewrite lookup_insert_ne by done. intros [c Hc]%H1. congruence.
Qed.

(** [remove] of a key that is not registered returns [None] when no channel
    is registered at all and raises [KeyError] as soon as there is one, although
    its signature promises a channel or [None]. *)
Theorem manager_remove_missing key (m : ChannelManager T) :
  key ≠ "" → _job_channel m !! key = None →
  manager_remove key m =
    (if decide (_job_channel m = ∅) then Ret None else Raise (KeyError key), m).
Proof.
  intros Hk Hl. unfold manager_remove. apply str_truthy_true in Hk as ->. simpl.
  case_decide; [done |]. by rewrite Hl.
Qed.
End ChannelProperties.

(** ** Driving a channel *)
Inductive action (T : Type) : Type := ASend (v : T) | AStop | AStart | AWake.
#[global] Arguments ASend {T} v.
#[global] Arguments AStop {T}.
#[global] Arguments AStart {T}.
#[global] Arguments AWake {T}.

Definition drive1 {T} (a : action T) (c : Channel T) : event T * Channel T :=
  match a with
  | ASend v => match send v c with (Ret r, c') => (ESend v r, c') | (_, c') => (EStop, c') end
  | AStop => (EStop, (request_stop c).2)
  | AStart => match receive_start c with (Ret r, c') => (EStart r, c') | (_, c') => (EStop, c') end
  | AWake => match receive_wake c with (Ret r, c') => (EWake r, c') | (_, c') => (EStop, c') end
  end.

Lemma drive1_step {T} (a : action T) c : chan_step c (drive1 a c).1 (drive1 a c).2.
Proof.
  destruct a as [v| | |]; simpl.
  - unfold send. destruct (_stop c) eqn:H1; [| destruct (queue_full c) eqn:H2];
      constructor; unfold send; by rewrite H1, ?H2.
  - constructor. unfold request_stop. by destruct (_stop c).
  - unfold receive_start, get_nowait, m_bind, m_ret. destruct (_stop c) eqn:H1;
      [destruct (_queue c) eqn:H2 |]; constructor;
      unfold receive_start, get_nowait, m_bind, m_ret; by rewrite H1, ?H2.
  - unfold receive_wake, get_nowait, m_bind, m_ret. destruct (_queue c) eqn:H1;
      [rewrite ?H1; destruct (_stopped c) eqn:H2 |]; constructor;
      unfold receive_wake, get_nowait, m_bind, m_ret; by rewrite H1, ?H2.
Qed.

Definition drive {T} (acts : list (action T)) (c : Channel T) : list (event T) * Channel T :=
  fold_left (λ '(es, c) a, let '(e, c') := drive1 a c in (es ++ [e], c')) acts ([], c).

Lemma drive_run {T} (acts : list (action T)) c : chan_run c (drive acts c).1 (drive acts c).2.
Proof.
  unfold drive. induction acts as [|a acts IH] using rev_ind; [constructor |].
  rewrite fold_left_app. simpl. destruct (fold_left _ _ _) as [es c'].
  pose proof (drive1_step a c') as H. destruct (drive1 a c') as [e c'']. by econstructor.
Qed.

(** ** Witnesses *)
Module ChannelExamples.
Definition es1 : list (event nat) :=
  [ESend 1 SEND_OK; EStart Waiting; ESend 2 SEND_OK; ESend 3 SEND_FULL].
Definition c1 : Channel nat := mkChannel false [1; 2] 2 false.
Definition c2 : Channel nat := mkChannel true [1; 2] 2 true.
Definition es2 : list (event nat) :=
  [EWake (Received (Some 1)); ESend 4 SEND_STOPPED; EStart (Received (Some 2))].
Definition c3 : Channel nat := mkChannel true [] 2 true.

Lemma run1 : chan_run (channel_new 2) es1 c1.
Proof. exact (drive_run [ASend 1; AStart; ASend 2; ASend 3] (channel_new 2)). Qed.
Lemma run2 : chan_run c2 es2 c3.
Proof. exact (drive_run [AWake; ASend 4; AStart] c2). Qed.

Lemma channel_fifo_bounded_witness :
  accepted es1 = delivered es1 ++ [1; 2] ∧ (channel_length c1 ≤ 2)%Z.
Proof.
  destruct (channel_fifo_bounded 2 es1 c1 run1) as [H1 H2]. split; [exact H1 | apply H2; lia].
Defined.

Lemma channel_stop_drains_witness :
  accepted es2 = [] ∧ accepted es1 = delivered es1 ++ delivered es2.
Proof.
  destruct (channel_stop_drains 2 es1 es2 c1 c2 c3 (Received None) run1
    (step_stop c1 c2 eq_refl) run2) as [H1 H2].
  split; [exact H1 |]. apply H2; reflexivity.
Defined.

Lemma manager_new_one_channel_per_key_witness :
  let m1 := (manager_new "jobs" 5 (manager_init (T := nat))).2 in
  available "jobs" 9 m1 = (Ret 0, m1).
Proof.
  refine (proj1 (manager_new_one_channel_per_key "jobs" 5 9 manager_init _ 0 manager_init_ok _)).
  reflexivity.
Defined.

Lemma manager_remove_missing_witness :
  let m1 := (manager_new "jobs" 5 (manager_init (T := nat))).2 in
  manager_remove "other" (manager_init (T := nat)) = (Ret None, manager_init)
  ∧ manager_remove "other" m1 = (Raise (KeyError "other"), m1).
Proof.
  split.
  - etransitivity; [apply (manager_remove_missing "other" manager_init); done | reflexivity].
  - etransitivity; [apply (manager_remove_missing "other"); done | reflexivity].
Defined.
End ChannelExamples.
