(* ===== verification/Context.v ===== *)
(** * Context: chained contexts

    [src/pypepper/common/context/context.py].  A context holds its index, its id,
    a dict of values and its parent; keys are strings.  [born] recurses once per
    generation: its fuel is the interpreter's remaining recursion depth, and
    running out of it is Python's [RecursionError]. *)
From S2P Require Import Prelude.

Definition ERROR_CONTEXT_INDEX_NOT_FOUND : string := "context index not found".
Definition RecursionError : exn := OtherException "RecursionError" "maximum recursion depth exceeded".

Section Context.
Context {V : Type}.

(** [class Context]. *)
Inductive context : Type :=
| mkContext (index : Z) (context_id : option string) (values : gmap string V)
    (parent : option context).

Definition ctx_index (c : context) : Z := let 'mkContext i _ _ _ := c in i.
Definition ctx_id (c : context) : option string := let 'mkContext _ i _ _ := c in i.
Definition ctx_values (c : context) : gmap string V := let 'mkContext _ _ v _ := c in v.
Definition ctx_parent (c : context) : option context := let 'mkContext _ _ _ p := c in p.

(** [Context.__init__] and [context.new]. *)
Definition ctx_new (context_id : option string) (parent : option context) : context :=
  mkContext (match parent with Some p => ctx_index p + 1 | None => 0 end)%Z context_id ∅ parent.

(** [Context.with_value(key, value)]. *)
Definition with_value (key : string) (v : V) (c : context) : context :=
  mkContext (ctx_index c) (ctx_id c) (<[key := v]> (ctx_values c)) (ctx_parent c).

(** [Context.trace(index)]. *)
Fixpoint trace (c : context) (index : Z) : outcome context :=
  match c with
  | mkContext i _ _ p =>
      if (i =? index)%Z then Ret c
      else match p with
           | None => Raise (InternalException ERROR_CONTEXT_INDEX_NOT_FOUND)
           | Some p' => trace p' index
           end
  end.

(** [Context.length()] and [Context.head()]. *)
Definition ctx_length (c : context) : Z := (ctx_index c + 1)%Z.
Definition head (c : context) : outcome context := trace c 0.

(** [born(length, parent, id_provider)]; [next_id] is the provider, or
    [uuid.new_uuid] when there is none. *)
Fixpoint born {W} (fuel : nat) (length : Z) (parent : option context) (next_id : M W string)
  : M W context :=
  match fuel with
  | O => m_raise RecursionError
  | S fuel' =>
      if (length <? 1)%Z then
        m_raise (ValueError ("born length must be >= 1, got " +:+ pretty length))
      else
        match parent with
        | Some p =>
            if (ctx_index p =? length - 1)%Z then m_ret p
            else
              let* id := next_id in
              born fuel' length (Some (ctx_new (Some id) (Some p))) next_id
        | None =>
            let* id := next_id in
            born fuel' length (Some (ctx_new (Some id) None)) next_id
        end
  end.

(** ** Chains *)

(** The contexts from the head of the chain to [c]. *)
Fixpoint chain (c : context) : list context :=
  match c with
  | mkContext _ _ _ p => match p with Some p' => chain p' | None => [] end ++ [c]
  end.

(** Every context built by [ctx_new] has as index the number of its ancestors. *)
Fixpoint indexed (c : context) : Prop :=
  match c with
  | mkContext i _ _ p =>
      match p with
      | Some p' => indexed p' ∧ i = (ctx_index p' + 1)%Z
      | None => i = 0%Z
      end
  end.

Fixpoint context_ind' (P : context → Prop)
    (Hroot : ∀ i id v, P (mkContext i id v None))
    (Hchild : ∀ i id v p, P p → P (mkContext i id v (Some p))) (c : context) : P c :=
  match c with
  | mkContext i id v p =>
      match p with
      | Some p' => Hchild i id v p' (context_ind' P Hroot Hchild p')
      | None => Hroot i id v
      end
  end.

Lemma ctx_new_indexed id p : (∀ p', p = Some p' → indexed p') → indexed (ctx_new id p).
Proof. destruct p as [p'|]; simpl; [| done]. intros H. split; [by apply H | done]. Qed.

Lemma with_value_indexed k v c : indexed c → indexed (with_value k v c).
Proof. by destruct c. Qed.

Lemma chain_length c : indexed c → Z.of_nat (length (chain c)) = ctx_length c.
Proof.
  unfold ctx_length. induction c as [i id v|i id v p IH] using context_ind'; simpl.
  - by intros ->.
  - intros [Hp ->]. rewrite length_app. simpl. specialize (IH Hp). lia.
Qed.

Lemma indexed_nonneg c : indexed c → (0 ≤ ctx_index c)%Z.
Proof.
  induction c as [i id v|i id v p IH] using context_ind'; simpl; [lia |].
  intros [Hp ->]. specialize (IH Hp). lia.
Qed.

(** [trace] finds the context of the chain with the asked index, and raises
    exactly for the indices outside the chain. *)
Lemma trace_chain c i :
  indexed c →
  trace c i =
    if (0 <=? i)%Z then
      match chain c !! Z.to_nat i with
      | Some a => Ret a
      | None => Raise (InternalException ERROR_CONTEXT_INDEX_NOT_FOUND)
      end
    else Raise (InternalException ERROR_CONTEXT_INDEX_NOT_FOUND).
Proof.
  induction c as [j id v|j id v p IH] using context_ind'; intros Hc.
  - simpl in *. subst. destruct (Z.eqb_spec 0 i) as [<-|Hi]; [done |].
    destruct (Z.leb_spec 0 i); [| done]. by rewrite lookup_ge_None_2 by (simpl; lia).
  - simpl in Hc. destruct Hc as [Hp ->]. pose proof (chain_length p Hp) as Hl.
    pose proof (indexed_nonneg p Hp) as Hn. unfold ctx_length in Hl. cbn [trace chain].
    destruct (Z.eqb_spec (ctx_index p + 1) i) as [<-|Hi].
    + destruct (Z.leb_spec 0 (ctx_index p + 1)); [| lia].
      rewrite lookup_app_r by lia. by replace (_ - _)%nat with 0%nat by lia.
    + rewrite IH by done. destruct (Z.leb_spec 0 i); [| done].
      destruct (decide (Z.to_nat i < length (chain p))).
      * by rewrite lookup_app_l by lia.
      * rewrite lookup_app_r by lia. rewrite (lookup_ge_None_2 (chain p)) by lia.
        by rewrite lookup_ge_None_2 by (simpl; lia).
Qed.

(** [born] up to the asked length: the parent's chain, then fresh contexts. *)
Lemma born_extends {W} (next_id : M W string) n : ∀ fuel p w,
  indexed p → (∀ w, ∃ id w', next_id w = (Ret id, w')) → (1 ≤ ctx_index p + 1 + Z.of_nat n)%Z →
  n < fuel →
  ∃ c w', born fuel (ctx_index p + 1 + Z.of_nat n) (Some p) next_id w = (Ret c, w')
    ∧ indexed c ∧ ctx_length c = (ctx_index p + 1 + Z.of_nat n)%Z
    ∧ (∃ l, chain c = chain p ++ l) .
Proof.
  induction n as [|n IH]; intros fuel p w Hp Hid Hlen Hf; (destruct fuel as [|fuel]; [lia |]);
    cbn [born]; rewrite (proj2 (Z.ltb_ge _ _)) by lia.
  - rewrite (proj2 (Z.eqb_eq _ _)) by lia.
    exists p, w. unfold ctx_length. split_and!; [done | done | lia |]. exists []. by rewrite app_nil_r.
  - rewrite (proj2 (Z.eqb_neq _ _)) by lia. destruct (Hid w) as (id & w1 & Hw).
    rewrite (bind_ret_run _ _ _ _ _ Hw).
    set (q := ctx_new (Some id) (Some p)).
    assert (indexed q) as Hq by (apply ctx_new_indexed; by intros ? [= <-]).
    assert (ctx_index p + 1 + Z.of_nat (S n) = ctx_index q + 1 + Z.of_nat n)%Z as -> by (simpl; lia).
    destruct (IH fuel q w1 Hq Hid) as (c & w' & Hb & Hc & Hl & l & Hch); [simpl; lia | lia |].
    exists c, w'. split_and!; [done | done | done |]. exists (q :: l).
    rewrite Hch. change (chain q) with (chain p ++ [q]). by rewrite <- app_assoc.
Qed.

Lemma born_diverges {W} (next_id : M W string) fuel : ∀ length p w,
  (∀ w, ∃ id w', next_id w = (Ret id, w')) → (1 ≤ length)%Z → (length ≤ ctx_index p)%Z →
  (born fuel length (Some p) next_id w).1 = Raise RecursionError.
Proof.
  induction fuel as [|fuel IH]; intros length p w Hid Hl Hp; [done |].
  cbn [born]. rewrite (proj2 (Z.ltb_ge _ _)) by lia. rewrite (proj2 (Z.eqb_neq _ _)) by lia.
  destruct (Hid w) as (id & w1 & Hw). rewrite (bind_ret_run _ _ _ _ _ Hw).
  apply IH; [done | done | simpl; lia].
Qed.

(** ** Properties *)

(** [born] from a parent, for every asked length.  Below one it is refused.
    From the parent's length on, given more recursion depth than missing
    generations, it returns a context of exactly that length whose chain extends
    the parent's: every old index still traces to the old context, the new ones
    to fresh contexts, and no other to any.  In between, it never returns: it
    generates children until the recursion limit, whatever that limit is. *)
Theorem born_builds_chain {W} (next_id : M W string) fuel length p w :
  (∀ w, ∃ id w', next_id w = (Ret id, w')) → indexed p →
  ((length < 1)%Z → (0 < fuel)%nat →
     ∃ m, born fuel length (Some p) next_id w = (Raise (ValueError m), w))
  ∧ ((1 ≤ length < ctx_length p)%Z →
     (born fuel length (Some p) next_id w).1 = Raise RecursionError)
  ∧ ((ctx_length p ≤ length)%Z → (length - ctx_length p < Z.of_nat fuel)%Z →
     ∃ c w', born fuel length (Some p) next_id w = (Ret c, w') ∧ ctx_length c = length
       ∧ (∀ i, (0 ≤ i < ctx_length p)%Z → trace c i = trace p i)
       ∧ (∀ i, (0 ≤ i < length)%Z → ∃ a, trace c i = Ret a)
       ∧ (∀ i, (i < 0 ∨ length ≤ i)%Z →
            trace c i = Raise (InternalException ERROR_CONTEXT_INDEX_NOT_FOUND))).
Proof.
  intros Hid Hp. pose proof (indexed_nonneg p Hp) as Hn. unfold ctx_length. split_and!.
  { intros Hl Hf. destruct fuel as [|fuel]; [lia |]. cbn [born].
    rewrite (proj2 (Z.ltb_lt _ _)) by lia. by eexists. }
  { intros Hl. apply born_diverges; [done | lia | lia]. }
  intros Hlen Hf.
  destruct (born_extends next_id (Z.to_nat (length - (ctx_index p + 1))) fuel p w Hp Hid)
    as (c & w' & Hb & Hc & Hl & l & Hch); [lia | lia |].
  replace (ctx_index p + 1 + _)%Z with length in * by lia.
  pose proof (chain_length c Hc) as Hlc. pose proof (chain_length p Hp) as Hlp.
  unfold ctx_length in Hl, Hlp, Hlc. rewrite Hl in Hlc.
  exists c, w'. split_and!; [done | done | | |]; intros i Hi; rewrite (trace_chain c i Hc).
  - rewrite (trace_chain p i Hp), (proj2 (Z.leb_le _ _)) by lia.
    by rewrite Hch, lookup_app_l by lia.
  - rewrite (proj2 (Z.leb_le _ _)) by lia.
    destruct (lookup_lt_is_Some_2 (chain c) (Z.to_nat i)) as [a ->]; [lia |]. by exists a.
  - destruct (Z.leb_spec 0 i); [| done]. by rewrite (lookup_ge_None_2 (chain c)) by lia.
Qed.
End Context.
#[global] Arguments context : clear implicits.

(** ** Witnesses *)
Module ContextExamples.
(** Ids are taken from a counter. *)
Definition counter : M nat string := λ n, (Ret (pretty n), S n).
Lemma counter_total w : ∃ id w', counter w = (Ret id, w').
Proof. by eexists _, _. Qed.

Definition root : context nat := ctx_new (Some "root") None.
Definition child : context nat := ctx_new (Some "child") (Some root).
Lemma child_indexed : indexed child.
Proof. done. Qed.

Lemma born_builds_chain_witness :
  (born 900 1 (Some child) counter 0).1 = Raise RecursionError
  ∧ ∃ c w', born 10 4 (Some child) counter 0 = (Ret c, w') ∧ ctx_length c = 4%Z
      ∧ trace c 1 = Ret child.
Proof.
  split.
  - apply (born_builds_chain counter 900 1 child 0 counter_total child_indexed).
    split; [lia | reflexivity].
  - destruct (born_builds_chain counter 10 4 child 0 counter_total child_indexed) as (_ & _ & H).
    destruct H as (c & w' & Hb & Hl & Ht & _); [vm_compute; discriminate | reflexivity |].
    exists c, w'. split; [exact Hb |]. split; [exact Hl |].
    rewrite (Ht 1%Z); [reflexivity |]. split; [lia | reflexivity].
Defined.
End ContextExamples.
