(* ===== verification/ContextInterface.v ===== *)
(** * ContextInterface: what a context promises to those who hold one

    [IContext] of [src/pypepper/common/context/interfaces.py] as an interface
    with laws; [Context] implements it, and whoever walks to the head of a chain,
    or looks a value up along it, is a client. *)
From S2P Require Import Prelude Context.

Class IContext (V C : Type) : Type := {
  index : C → Z;
  context_id : C → option string;
  values_of : C → gmap string V;                 (** the attribute [context] *)
  parent : C → option C;
  set_value : string → V → C → C;                (** [with_value] *)
  trace_to : C → Z → outcome C;                  (** [trace] *)
  length_of : C → Z;
  head_of : C → outcome C;
}.

(** [chained c]: [c] was built by the constructor, from its parents up. *)
Class IContextLaws (V C : Type) `{!IContext V C} (chained : C → Prop) : Prop := {
  chained_parent : ∀ c, chained c →
    match parent c with Some p => chained p ∧ index c = (index p + 1)%Z | None => index c = 0%Z end;
  set_value_chained : ∀ k v c, chained c → chained (set_value k v c);
  set_value_law : ∀ k v c,
    values_of (set_value k v c) = <[k := v]> (values_of c) ∧ index (set_value k v c) = index c
    ∧ context_id (set_value k v c) = context_id c ∧ parent (set_value k v c) = parent c;
  trace_law : ∀ c i, trace_to c i =
    if (index c =? i)%Z then Ret c else
    match parent c with Some p => trace_to p i | None => Raise (InternalException ERROR_CONTEXT_INDEX_NOT_FOUND) end;
  length_law : ∀ c, length_of c = (index c + 1)%Z;
  head_law : ∀ c, head_of c = trace_to c 0;
  chained_nonneg : ∀ c, chained c → (0 ≤ index c)%Z;
}.

(** ** [Context] implements it *)
#[export] Instance Context_icontext V : IContext V (context V) := {
  index := ctx_index;
  context_id := ctx_id;
  values_of := ctx_values;
  parent := ctx_parent;
  set_value := with_value;
  trace_to := trace;
  length_of := ctx_length;
  head_of := head;
}.
#[export] Instance Context_icontext_laws V : IContextLaws V (context V) indexed.
Proof.
  split; cbn [index context_id values_of parent set_value trace_to length_of head_of Context_icontext]; try done.
  - intros [i id v [p|]]; cbn; [by intros [? ->] | by intros ->].
  - intros k v c. apply with_value_indexed.
  - intros [i id v [p|]] j; done.
  - intros c. apply indexed_nonneg.
Qed.

(** ** Clients *)
Section Client.
Context {V C : Type} {chained : C → Prop} `{!IContext V C, !IContextLaws V C chained}.

(** The contexts of a chain are found by their index, itself first. *)
Lemma trace_self c : trace_to c (index c) = Ret c.
Proof using IContextLaws0. by rewrite trace_law, Z.eqb_refl. Qed.

Lemma trace_finds n : ∀ c i, chained c → (0 ≤ i)%Z → index c = (i + Z.of_nat n)%Z →
  ∃ a, trace_to c i = Ret a ∧ chained a ∧ index a = i.
Proof using IContextLaws0.
  induction n as [|n IH]; intros c i Hc Hi Hn; rewrite trace_law.
  - rewrite (proj2 (Z.eqb_eq _ _)) by lia. exists c. split_and!; [done | done | lia].
  - rewrite (proj2 (Z.eqb_neq _ _)) by lia. pose proof (chained_parent c Hc) as Hp.
    destruct (parent c) as [p|]; [| lia]. destruct Hp as [Hp Hpi]. apply IH; [done | done | lia].
Qed.
Lemma trace_misses c i : chained c → (i < 0 ∨ index c < i)%Z →
  trace_to c i = Raise (InternalException ERROR_CONTEXT_INDEX_NOT_FOUND).
Proof using IContextLaws0.
  intros Hc. pose proof (chained_nonneg c Hc). revert Hc. remember (Z.to_nat (index c)) as n eqn:Hn.
  revert c Hn H. induction n as [|n IH]; intros c Hn Hnn Hc Hi; rewrite trace_law;
    (rewrite (proj2 (Z.eqb_neq _ _)) by lia); pose proof (chained_parent c Hc) as Hp;
    (destruct (parent c) as [p|]; [| done]); destruct Hp as [Hp Hpi];
    pose proof (chained_nonneg p Hp); [lia |]. apply IH; [lia | lia | done | lia].
Qed.

(** Every chain has a head: index zero, no parent, length one. *)
Lemma head_is_root c : chained c →
  ∃ r, head_of c = Ret r ∧ index r = 0%Z ∧ parent r = None ∧ length_of r = 1%Z ∧ head_of r = Ret r.
Proof using IContextLaws0.
  intros Hc. pose proof (chained_nonneg c Hc).
  destruct (trace_finds (Z.to_nat (index c)) c 0) as (r & Ht & Hr & Hi); [done | done | lia |].
  exists r. rewrite !head_law, length_law, Hi. split_and!; [done | done | | done |].
  - pose proof (chained_parent r Hr) as Hp. destruct (parent r) as [p|]; [| done].
    destruct Hp as [Hp Hpi]. pose proof (chained_nonneg p Hp). lia.
  - rewrite <- Hi. apply trace_self.
Qed.

(** The value of [key] nearest to the end of a chain, found by tracing back
    from index [n]. *)
Fixpoint find_value (n : nat) (key : string) (c : C) : option V :=
  match trace_to c (Z.of_nat n) with
  | Raise _ => None
  | Ret a =>
      match values_of a !! key, n with
      | Some v, _ => Some v
      | None, O => None
      | None, Datatypes.S n' => find_value n' key c
      end
  end.
(** A value that was just set shadows those of the ancestors; the others are
    found as before. *)
Lemma find_value_set k v c : chained c → find_value (Z.to_nat (index c)) k (set_value k v c) = Some v.
Proof using IContextLaws0.
  intros Hc. destruct (set_value_law k v c) as (Hv & Hi & _ & _). pose proof (chained_nonneg c Hc).
  assert (trace_to (set_value k v c) (Z.of_nat (Z.to_nat (index c))) = Ret (set_value k v c)) as Ht
    by (rewrite Z2Nat.id, <- Hi by lia; apply trace_self).
  revert Ht. destruct (Z.to_nat (index c)); cbn [find_value]; intros ->; by rewrite Hv, lookup_insert_eq.
Qed.
Lemma trace_set_value k v c i : i ≠ index c → trace_to (set_value k v c) i = trace_to c i.
Proof using IContextLaws0.
  intros Hi. destruct (set_value_law k v c) as (_ & Hx & _ & Hp).
  rewrite !(trace_law _ i), Hx, Hp, (proj2 (Z.eqb_neq _ _)) by done. done.
Qed.
Lemma find_value_below k v n c : (Z.of_nat n < index c)%Z → ∀ k', find_value n k' (set_value k v c) = find_value n k' c.
Proof using IContextLaws0.
  induction n as [|n IH]; intros Hn k'; cbn [find_value]; rewrite trace_set_value by lia; [done |].
  destruct (trace_to c _); [| done]. destruct (_ !! k'); [done |]. apply IH. lia.
Qed.
End Client.

Module ContextInterfaceExamples.
Definition shop : context Z := with_value "vat" 19%Z (ctx_new (Some "shop") None).
Definition cart : context Z := with_value "items" 3%Z (ctx_new (Some "cart") (Some shop)).
Example vat_of_cart : find_value 1 "vat" cart = Some 19%Z.
Proof. reflexivity. Qed.
Example discounted : find_value 1 "vat" (with_value "vat" 7%Z cart) = Some 7%Z.
Proof. exact (find_value_set (chained := indexed) "vat" 7%Z cart (conj eq_refl eq_refl)). Qed.
End ContextInterfaceExamples.
