(* ===== verification/Task.v ===== *)
(** * Task: task data, tags and the executor registry

    [src/pypepper/scheduler/tag.py], [task.py], [executor.py].  Executors and
    executor factories are objects, known by reference; what they do when
    called is up to the caller ([Workflow], [ExecutorRegistry.resolve]). *)
From S2P Require Import Prelude Json Context.

(** [class Tag]. *)
Record Tag : Type := mkTag { tag_key : string; tag_value : string }.

(** What a context dict holds: a [threading.Event] (by reference), or plain data. *)
Inductive ctx_value : Type := CEvent (ref : nat) | CData (j : json).

Definition DEFAULT_RETRY_UNTIL_MAX : Z := 1000.

(** [class Task]: the attributes its constructor sets. *)
Record Task : Type := mkTask {
  t_channel_id : string;
  t_dag_id : string;
  t_fingerprint : string;
  t_name : string;
  t_category : string;
  t_description : string;
  t_tags : list Tag;
  t_executor : option nat;
  t_executor_id : option string;
  t_round_timeout : Z;
  t_round_timeout_join : Z;
  t_round_times : Z;
  t_version : Z;
  t_retry_count : Z;
  t_retry_delay : Z;
  t_retry_until_completed : bool;
  t_retry_until_max : Z;
  t_optional : bool;
  t_id : string;
  t_context : context ctx_value;
}.

(** The integer checks of [Task.__init__], in its order. *)
Definition task_check (round_timeout round_timeout_join round_times retry_count retry_delay
    retry_until_max : Z) : option string :=
  if (retry_until_max <? 1)%Z then
    Some ("retry_until_max must be >= 1, got " +:+ str_of_Z retry_until_max)
  else if (round_times <? 1)%Z then
    Some ("round_times must be >= 1, got " +:+ str_of_Z round_times)
  else if (round_timeout <? 0)%Z then
    Some ("round_timeout must be >= 0, got " +:+ str_of_Z round_timeout)
  else if (round_timeout_join <? 0)%Z then
    Some ("round_timeout_join must be >= 0, got " +:+ str_of_Z round_timeout_join)
  else if (retry_count <? 0)%Z then
    Some ("retry_count must be >= 0, got " +:+ str_of_Z retry_count)
  else if (retry_delay <? 0)%Z then
    Some ("retry_delay must be >= 0, got " +:+ str_of_Z retry_delay)
  else None.

(** [Task(...)].  The two generated ids, [self.id] and the context's, are drawn
    from [uuid.new_uuid] ([next_uuid]). *)
Definition Task_new {W} (next_uuid : M W string)
    (channel_id dag_id fingerprint name category description : string) (tags : list Tag)
    (executor : option nat) (round_timeout round_times version retry_count retry_delay : Z)
    (retry_until_completed : bool) (retry_until_max : Z) (optional : bool)
    (executor_id : option string) (round_timeout_join : Z) : M W Task :=
  match task_check round_timeout round_timeout_join round_times retry_count retry_delay
          retry_until_max with
  | Some msg => m_raise (ValueError msg)
  | None =>
      let* id := next_uuid in
      let* context_id := next_uuid in
      m_ret (mkTask channel_id dag_id fingerprint name category description tags executor
        executor_id round_timeout round_timeout_join round_times version retry_count retry_delay
        retry_until_completed retry_until_max optional id (ctx_new (Some context_id) None))
  end.

Definition with_context (c : context ctx_value) (t : Task) : Task :=
  mkTask (t_channel_id t) (t_dag_id t) (t_fingerprint t) (t_name t) (t_category t)
    (t_description t) (t_tags t) (t_executor t) (t_executor_id t) (t_round_timeout t)
    (t_round_timeout_join t) (t_round_times t) (t_version t) (t_retry_count t) (t_retry_delay t)
    (t_retry_until_completed t) (t_retry_until_max t) (t_optional t) (t_id t) c.

Definition with_id (id : string) (t : Task) : Task :=
  mkTask (t_channel_id t) (t_dag_id t) (t_fingerprint t) (t_name t) (t_category t)
    (t_description t) (t_tags t) (t_executor t) (t_executor_id t) (t_round_timeout t)
    (t_round_timeout_join t) (t_round_times t) (t_version t) (t_retry_count t) (t_retry_delay t)
    (t_retry_until_completed t) (t_retry_until_max t) (t_optional t) id (t_context t).

(** What the constructor guarantees of a task. *)
Definition task_ok (t : Task) : Prop :=
  (1 ≤ t_retry_until_max t ∧ 1 ≤ t_round_times t ∧ 0 ≤ t_round_timeout t
   ∧ 0 ≤ t_round_timeout_join t ∧ 0 ≤ t_retry_count t ∧ 0 ≤ t_retry_delay t)%Z.

Lemma task_check_None a b c d e f :
  task_check a b c d e f = None ↔ (1 ≤ f ∧ 1 ≤ c ∧ 0 ≤ a ∧ 0 ≤ b ∧ 0 ≤ d ∧ 0 ≤ e)%Z.
Proof.
  unfold task_check.
  repeat match goal with |- context [(?x <? ?y)%Z] => destruct (Z.ltb_spec x y) end;
    split; intros; try done; lia.
Qed.

(** ** [class ExecutorRegistry] *)
Inductive exec_spec : Type := SInstance (executor : nat) | SFactory (factory : nat).

Abbreviation Registry := (gmap string exec_spec).

Section Registry.
Context {W : Type}.
(** Calling a factory, and where the registry lives in the world. *)
Context (call_factory : nat → M W nat) (reg : W → Registry) (set_reg : Registry → W → W).

(** [register(name, factory)]; [None] is a caller that passes [None]. *)
Definition register (name : string) (factory : option exec_spec) : M W unit :=
  if negb (str_truthy name) then m_raise (ValueError "invalid executor id")
  else match factory with
       | None => m_raise (ValueError "invalid executor factory")
       | Some spec => m_modify (λ w, set_reg (<[name := spec]> (reg w)) w)
       end.

(** [resolve(name)]. *)
Definition resolve (name : string) : M W nat :=
  if negb (str_truthy name) then m_raise (ValueError "invalid executor id")
  else
    let* spec := m_get (λ w, reg w !! name) in
    match spec with
    | None => m_raise (ValueError ("unknown executor_id: " +:+ name))
    | Some (SInstance e) => m_ret e
    | Some (SFactory f) => call_factory f
    end.

(** [clear()]. *)
Definition registry_clear : M W unit := m_modify (set_reg ∅).
End Registry.

(** ** Executors *)
(** An executor object: [Executor], which does nothing, or a callable wrapped by
    [CallableExecutor]; [execute] is [IExecutor]'s one method. *)
Inductive IExecutor (F : Type) : Type :=
| Executor
| CallableExecutor (func : F).
Arguments Executor {F}. Arguments CallableExecutor {F}.
Definition execute {W F V} (call : F → Task → option (context ctx_value) → M W V)
    (executor : IExecutor F) (task : Task) (ctx : option (context ctx_value)) : M W (option V) :=
  match executor with
  | Executor => m_ret None
  | CallableExecutor func => let* v := call func task ctx in m_ret (Some v)
  end.
