(* ===== verification/Workflow.v ===== *)
(** * Workflow: running tasks with rounds, retries and soft timeouts

    [src/pypepper/scheduler/workflow.py].  The world [W] is whatever executors
    can touch.  [FuturePool] is what the code uses of the standard library's
    [ThreadPoolExecutor] and [Future] (futures are known by reference), of
    [time.sleep] and of the module's [_inflight] dictionary; [execute] calls an
    executor.  [SoftTimeout.v] gives a pool whose workers make progress between
    any two calls.  The tracing span around [run] has no effect on its value. *)
From S2P Require Import Prelude Json Context Task.

Class FuturePool (W V : Type) : Type := {
  (** [executor.execute(task, task.context)] *)
  execute : nat → Task → M W (option V);
  (** [time.sleep(seconds)] *)
  sleep : Z → M W unit;
  (** [_inflight] *)
  _inflight : W → gmap string nat;
  set_inflight : gmap string nat → W → W;
  (** [_soft_timeout_pool().submit(executor.execute, task, task.context)] *)
  submit : nat → Task → M W nat;
  (** [future.done()], [future.cancel()], [future.result(timeout)] *)
  fut_done : nat → M W bool;
  fut_cancel : nat → M W bool;
  fut_result : nat → option Z → M W (option V);
}.

Section Workflow.
Context {W V : Type} `{!FuturePool W V}.

(** [Workflow._attempts_per_round(task)]. *)
Definition _attempts_per_round (task : Task) : Z :=
  let retry_count := t_retry_count task in
  if t_retry_until_completed task && (retry_count =? 0)%Z then Z.max 1 (t_retry_until_max task)
  else Z.max 1 (retry_count + 1).

(** [rounds = max(1, int(task.round_times or 1))]. *)
Definition rounds_of (task : Task) : Z :=
  Z.max 1 (if int_truthy (t_round_times task) then t_round_times task else 1).

(** The messages of the [TimeoutError]s. *)
Definition msg_previous (task : Task) : string :=
  "Task execute still running from a previous attempt: id=" +:+ t_id task
  +:+ ", name=" +:+ t_name task.
Definition msg_before_start (task : Task) : string :=
  "Task execute timed out before start (round_timeout=" +:+ str_of_Z (t_round_timeout task)
  +:+ "s, still queued): id=" +:+ t_id task +:+ ", name=" +:+ t_name task.
Definition msg_exceeded (task : Task) : string :=
  "Task execute exceeded round_timeout=" +:+ str_of_Z (t_round_timeout task)
  +:+ "s (execute still running): id=" +:+ t_id task +:+ ", name=" +:+ t_name task.

Definition inflight_pop (id : string) : M W unit :=
  m_modify (λ w, set_inflight (delete id (_inflight w)) w).
Definition inflight_set (id : string) (f : nat) : M W unit :=
  m_modify (λ w, set_inflight (<[id := f]> (_inflight w)) w).

(** The check under [_inflight_lock] before a submit. *)
Definition check_previous (task : Task) : M W unit :=
  let* existing := m_get (λ w, _inflight w !! t_id task) in
  match existing with
  | None => m_ret tt
  | Some f =>
      let* d := fut_done f in
      if negb d then m_raise (TimeoutError (msg_previous task))
      else
        let* d' := fut_done f in
        if d' then inflight_pop (t_id task) else m_ret tt
  end.

(** The join of work that started. *)
Definition join_started (task : Task) (future : nat) : M W (option V) :=
  let join_timeout := t_round_timeout_join task in
  let* _ :=
    m_except is_exception
      (fut_result future (if (0 <? join_timeout)%Z then Some join_timeout else None))
      (λ _, m_raise (TimeoutError (msg_exceeded task))) in
  m_raise (TimeoutError (msg_exceeded task)).

(** [except FuturesTimeoutError]: what becomes of a future that did not finish
    within [round_timeout]. *)
Definition after_timeout (task : Task) (future : nat) : M W (option V) :=
  let* d := fut_done future in
  if d then fut_result future None
  else
    let* c := fut_cancel future in
    if c then
      let* _ := inflight_pop (t_id task) in
      m_raise (TimeoutError (msg_before_start task))
    else
      let* d' := fut_done future in
      if d' then fut_result future None else join_started task future.

(** The [finally] clause. *)
Definition forget_done (task : Task) (future : nat) : M W unit :=
  let* d := fut_done future in
  if d then inflight_pop (t_id task) else m_ret tt.

(** [Workflow._execute_once(task)]. *)
Definition _execute_once (task : Task) : M W (option V) :=
  match t_executor task with
  | None => m_ret None
  | Some executor =>
      let timeout := t_round_timeout task in
      if (timeout <=? 0)%Z then execute executor task
      else
        let* _ := check_previous task in
        let* future := submit executor task in
        let* _ := inflight_set (t_id task) future in
        m_finally
          (m_except is_timeout (fut_result future (Some timeout))
             (λ _, after_timeout task future))
          (forget_done task future)
  end.

(** How the two [for] loops leave: [return] with a value, or exhausted with the
    last error. *)
Inductive loop_exit : Type :=
| Returned (v : option V)
| Exhausted (last_error : option exn).

(** [for attempt in range(attempts)] of one round, [left] attempts to go. *)
Fixpoint attempt_loop (task : Task) (attempts : Z) (left : nat) (attempt : Z)
    (last_error : option exn) : M W loop_exit :=
  match left with
  | O => m_ret (Exhausted last_error)
  | S left' =>
      let* r :=
        m_try (let* v := _execute_once task in m_ret (Returned v))
          (λ e,
             let* _ := if (attempt + 1 <? attempts)%Z && int_truthy (t_retry_delay task)
                       then sleep (t_retry_delay task) else m_ret tt in
             m_ret (Exhausted (Some e))) in
      match r with
      | Returned v => m_ret (Returned v)
      | Exhausted last => attempt_loop task attempts left' (attempt + 1) last
      end
  end.

(** [for round_idx in range(rounds)]. *)
Fixpoint round_loop (task : Task) (attempts : Z) (left : nat) (last_error : option exn)
  : M W loop_exit :=
  match left with
  | O => m_ret (Exhausted last_error)
  | S left' =>
      let* r := attempt_loop task attempts (Z.to_nat attempts) 0 last_error in
      match r with
      | Returned v => m_ret (Returned v)
      | Exhausted last => round_loop task attempts left' last
      end
  end.

(** [Workflow._run_task(task)]. *)
Definition _run_task (task : Task) : M W (option V) :=
  let rounds := rounds_of task in
  let attempts := _attempts_per_round task in
  let* r := round_loop task attempts (Z.to_nat rounds) None in
  match r with
  | Returned v => m_ret v
  | Exhausted last_error =>
      if t_optional task then m_ret None
      else match last_error with
           | Some e => m_raise e
           | None => m_raise (RuntimeError ("Task failed: " +:+ t_id task))
           end
  end.

(** [Workflow.run()]. *)
Fixpoint run_tasks (tasks : list Task) (results : list (option V)) : M W (list (option V)) :=
  match tasks with
  | [] => m_ret results
  | task :: tasks' =>
      let* result := _run_task task in
      run_tasks tasks' (results ++ [result])
  end.
Definition run (tasks : list Task) : M W (list (option V)) :=
  if decide (length tasks = 0) then m_ret [] else run_tasks tasks [].

(** ** Building a workflow *)
(** A workflow is the list of its tasks, empty when it is made: [add_task],
    [add_tasks] and [get_tasks]. *)
Definition new_Workflow : list Task := [].
Definition add_task (task : Task) : M (list Task) unit := m_modify (λ tasks, tasks ++ [task]).
Definition add_tasks (more : list Task) : M (list Task) unit := m_modify (λ tasks, tasks ++ more).
Definition get_tasks : M (list Task) (list Task) := m_get (λ tasks, tasks).

(** ** The reference: one loop over the whole budget *)

(** Attempt [j] of the budget, counted across rounds: an attempt that failed is
    followed by the delay unless it closed its round. *)
Fixpoint flat_loop (task : Task) (attempts : nat) (left j : nat) (last_error : option exn)
  : M W loop_exit :=
  match left with
  | O => m_ret (Exhausted last_error)
  | S left' =>
      let* r :=
        m_try (let* v := _execute_once task in m_ret (Returned v))
          (λ e,
             let* _ := if negb (S j mod attempts =? 0)%nat && int_truthy (t_retry_delay task)
                       then sleep (t_retry_delay task) else m_ret tt in
             m_ret (Exhausted (Some e))) in
      match r with
      | Returned v => m_ret (Returned v)
      | Exhausted last => flat_loop task attempts left' (S j) last
      end
  end.

Lemma flat_loop_app task a n1 n2 j last w :
  flat_loop task a (n1 + n2) j last w =
    match flat_loop task a n1 j last w with
    | (Ret (Returned v), w') => (Ret (Returned v), w')
    | (Ret (Exhausted l), w') => flat_loop task a n2 (j + n1) l w'
    | (Raise e, w') => (Raise e, w')
    end.
Proof.
  revert j last w. induction n1 as [|n1 IH]; intros j last w; simpl.
  { by rewrite Nat.add_0_r. }
  unfold m_bind at 1 4. destruct (m_try _ _ w) as [[[v|l]|e] w1]; [done | | done].
  rewrite IH. by rewrite Nat.add_succ_r.
Qed.

(** One round is [attempts] iterations of the flat loop, from a multiple of
    [attempts]. *)
Lemma attempt_loop_flat task (a : nat) left k r last w :
  left + k = a → 0 < a →
  attempt_loop task (Z.of_nat a) left (Z.of_nat k) last w
  = flat_loop task a left (r * a + k) last w.
Proof.
  revert k last w. induction left as [|left IH]; intros k last w Hk Ha; [done |]. simpl.
  assert ((Z.of_nat k + 1 <? Z.of_nat a)%Z = negb (S (r * a + k) mod a =? 0)%nat) as Hb.
  { destruct (Z.ltb_spec (Z.of_nat k + 1) (Z.of_nat a)).
    - replace (S (r * a + k)) with (S k + r * a) by lia. rewrite Nat.Div0.mod_add, Nat.mod_small by lia.
      done.
    - replace (S (r * a + k)) with (0 + (r + 1) * a) by lia.
      by rewrite Nat.Div0.mod_add, Nat.Div0.mod_0_l. }
  rewrite Hb. unfold m_bind at 1 4. destruct (m_try _ _ w) as [[[v|l]|e] w1]; [done | | done].
  replace (Z.of_nat k + 1)%Z with (Z.of_nat (S k)) by lia.
  rewrite IH by lia. by rewrite Nat.add_succ_r.
Qed.

Lemma round_loop_flat task (a left r : nat) last w :
  0 < a →
  round_loop task (Z.of_nat a) left last w = flat_loop task a (left * a) (r * a) last w.
Proof.
  intros Ha. revert r last w. induction left as [|left IH]; intros r last w; [done |].
  cbn [round_loop Nat.mul]. rewrite flat_loop_app. unfold m_bind. rewrite Nat2Z.id.
  pose proof (attempt_loop_flat task a a 0 r last w ltac:(lia) Ha) as H.
  change (Z.of_nat 0) with 0%Z in H. rewrite H, Nat.add_0_r.
  destruct (flat_loop task a a (r * a) last w) as [[[v|l]|e] w1]; [done | | done].
  rewrite (IH (S r)). by replace (S r * a) with (r * a + a) by lia.
Qed.

(** The whole budget of a task. *)
Definition attempts_nat (task : Task) : nat := Z.to_nat (_attempts_per_round task).
Definition budget (task : Task) : nat := Z.to_nat (rounds_of task) * attempts_nat task.

Lemma attempts_pos task : (1 ≤ _attempts_per_round task)%Z.
Proof. unfold _attempts_per_round. destruct (_ && _); lia. Qed.
Lemma rounds_pos task : (1 ≤ rounds_of task)%Z.
Proof. unfold rounds_of. lia. Qed.
Lemma budget_pos task : 0 < budget task.
Proof.
  unfold budget, attempts_nat. pose proof (attempts_pos task). pose proof (rounds_pos task). nia.
Qed.

Lemma run_task_flat task w :
  _run_task task w =
    match flat_loop task (attempts_nat task) (budget task) 0 None w with
    | (Ret (Returned v), w') => (Ret v, w')
    | (Ret (Exhausted l), w') =>
        if t_optional task then (Ret None, w')
        else match l with
             | Some e => (Raise e, w')
             | None => (Raise (RuntimeError ("Task failed: " +:+ t_id task)), w')
             end
    | (Raise e, w') => (Raise e, w')
    end.
Proof.
  unfold _run_task, m_bind, budget. pose proof (attempts_pos task) as Ha.
  assert (_attempts_per_round task = Z.of_nat (attempts_nat task)) as Heq
    by (unfold attempts_nat; lia).
  rewrite Heq at 1. rewrite (round_loop_flat task _ _ 0) by lia. simpl.
  destruct (flat_loop _ _ _ _ _ w) as [[[v|l]|e] w1]; [done | | done].
  destruct (t_optional task); [done |]. by destruct l.
Qed.

(** ** The budget of a task, as its settings say it *)

(** Attempts of one round: one more than the retries; a task to retry until it
    completes, and no retry count, has [retry_until_max] of them. *)
Definition round_size (task : Task) : Z :=
  if t_retry_until_completed task then
    if decide (t_retry_count task = 0%Z) then t_retry_until_max task else t_retry_count task + 1
  else t_retry_count task + 1.

(** [failing task n last w w']: from [w], [n] attempts failed one after the
    other, the last with [last], and led to [w'].  After a failure the delay is
    slept, unless there is none or the failure closes a round. *)
Inductive failing (task : Task) : nat → option exn → W → W → Prop :=
| failing_none w : failing task 0 None w w
| failing_more n last w w1 e w2 w3 :
    failing task n last w w1 → _execute_once task w1 = (Raise e, w2) → is_exception e = true →
    (if decide ((Z.of_nat (S n) mod round_size task = 0)%Z ∨ t_retry_delay task = 0%Z) then w3 = w2
     else sleep (t_retry_delay task) w2 = (Ret tt, w3)) →
    failing task (S n) (Some e) w w3.

Lemma failing_last task n last w w' : failing task n last w w' → (last = None ↔ n = 0).
Proof. by destruct 1. Qed.

Section Budget.
Context (task : Task) (Hok : task_ok task)
  (Hsleep : ∀ d w, (0 < d)%Z → ∃ w', sleep d w = (Ret tt, w')).

Lemma round_size_attempts : round_size task = Z.of_nat (attempts_nat task).
Proof using Hok.
  destruct Hok as (? & ? & ? & ? & ? & ?). unfold round_size, attempts_nat, _attempts_per_round.
  destruct (t_retry_until_completed task); cbn [andb]; [| lia].
  destruct (Z.eqb_spec (t_retry_count task) 0), (decide (t_retry_count task = 0%Z)); lia.
Qed.
Lemma rounds_of_ok : rounds_of task = t_round_times task.
Proof using Hok.
  destruct Hok as (? & ? & ? & ? & ? & ?). unfold rounds_of, int_truthy.
  destruct (Z.eqb_spec (t_round_times task) 0); cbn [negb]; lia.
Qed.
Lemma budget_ok : Z.of_nat (budget task) = (t_round_times task * round_size task)%Z.
Proof using Hok.
  unfold budget. rewrite round_size_attempts, rounds_of_ok.
  destruct Hok as (? & ? & ? & ? & ? & ?). lia.
Qed.

(** The pause after a failed attempt. *)
Lemma pause_run n (last : option exn) w :
  ∃ w',
    (let* _ := if negb (S n mod attempts_nat task =? 0)%nat && int_truthy (t_retry_delay task)
               then sleep (t_retry_delay task) else m_ret tt in
     m_ret (Exhausted last)) w = (Ret (Exhausted last), w')
    ∧ (if decide ((Z.of_nat (S n) mod round_size task = 0)%Z ∨ t_retry_delay task = 0%Z) then w' = w
       else sleep (t_retry_delay task) w = (Ret tt, w')).
Proof using Hok Hsleep.
  assert (0 < attempts_nat task) as Ha by (unfold attempts_nat; pose proof (attempts_pos task); lia).
  assert ((Z.of_nat (S n) mod round_size task = 0)%Z ↔ S n mod attempts_nat task = 0) as Hdiv.
  { rewrite round_size_attempts, <- Nat2Z.inj_mod. lia. }
  assert (int_truthy (t_retry_delay task) = false ↔ t_retry_delay task = 0%Z) as Hd0
    by (unfold int_truthy; destruct (Z.eqb_spec (t_retry_delay task) 0); cbn [negb]; split; intros; congruence).
  destruct (decide _) as [Hc|Hc].
  - exists w. split; [| done]. destruct Hc as [->%Hdiv%Nat.eqb_eq| ->%Hd0]; cbn [negb andb]; [done |].
    by rewrite andb_false_r.
  - destruct (Hsleep (t_retry_delay task) w) as [w' E].
    { destruct Hok as (? & ? & ? & ? & ? & ?). lia. }
    exists w'. split; [| exact E].
    destruct (Nat.eqb_spec (S n mod attempts_nat task) 0) as [H0|_]; [by destruct Hc; left; apply Hdiv |].
    destruct (int_truthy (t_retry_delay task)) eqn:Ht; [| by destruct Hc; right; apply Hd0].
    cbn [negb andb]. by rewrite (bind_ret_run _ _ _ _ _ E).
Qed.

(** The flat loop from [n] failures on: it stops at an attempt, or fails them all. *)
Lemma flat_loop_failing left : ∀ n last w0 w,
  failing task n last w0 w →
  let loop := flat_loop task (attempts_nat task) left n last w in
  (∃ m last' w1 o w', n ≤ m < n + left ∧ failing task m last' w0 w1
     ∧ _execute_once task w1 = (o, w') ∧ (∀ e, o = Raise e → is_exception e = false)
     ∧ loop = (match o with Ret v => Ret (Returned v) | Raise e => Raise e end, w'))
  ∨ (∃ last' w1, failing task (n + left) last' w0 w1 ∧ loop = (Ret (Exhausted last'), w1)).
Proof using Hok Hsleep.
  induction left as [|left IH]; intros n last w0 w Hf loop.
  { right. exists last, w. by rewrite Nat.add_0_r. }
  subst loop. cbn [flat_loop]. rewrite bind_eq. unfold m_try at 1 2. rewrite bind_eq.
  destruct (_execute_once task w) as [[v|e] w1] eqn:E.
  { left. exists n, last, w, (Ret v), w1. split_and!; [lia | lia | done | done | done | done]. }
  destruct (is_exception e) eqn:He.
  - destruct (pause_run n (Some e) w1) as (w2 & E2 & Hw2). rewrite E2.
    assert (failing task (S n) (Some e) w0 w2) as Hf' by (by econstructor).
    replace (n + S left) with (S n + left) by lia.
    destruct (IH (S n) (Some e) w0 w2 Hf') as [(m & l & w3 & o & w4 & ? & ?)|?]; [left | by right].
    exists m, l, w3, o, w4. split; [lia | done].
  - left. exists n, last, w, (Raise e), w1. split_and!; [lia | lia | done | done | | done].
    by intros ? [= <-].
Qed.

(** A run of the task: it ends with the first attempt that does not fail, or
    after the whole budget. *)
Lemma run_task_failing w :
  (∃ n last w1 o w', (Z.of_nat n < t_round_times task * round_size task)%Z
     ∧ failing task n last w w1 ∧ _execute_once task w1 = (o, w')
     ∧ (∀ e, o = Raise e → is_exception e = false) ∧ _run_task task w = (o, w'))
  ∨ (∃ n e w', Z.of_nat n = (t_round_times task * round_size task)%Z
     ∧ failing task n (Some e) w w'
     ∧ _run_task task w = (if t_optional task then Ret None else Raise e, w')).
Proof using Hok Hsleep.
  rewrite run_task_flat, <- budget_ok.
  destruct (flat_loop_failing (budget task) 0 None w w (failing_none _ _))
    as [(n & l & w1 & o & w' & Hn & Hf & E & Ho & ->)|(l & w1 & Hf & ->)].
  - left. exists n, l, w1, o, w'. split_and!; [lia | done | done | done |]. by destruct o.
  - right. pose proof (budget_pos task). pose proof (failing_last _ _ _ _ _ Hf) as Hl.
    destruct l as [e|]; [| pose proof (proj1 Hl eq_refl); lia]. exists (budget task), e, w1. split_and!; [done | done |].
    by destruct (t_optional task).
Qed.
End Budget.

(** Appending to the results commutes with running the tasks. *)
Lemma run_tasks_app ts1 ts2 acc w :
  run_tasks (ts1 ++ ts2) acc w =
    match run_tasks ts1 acc w with
    | (Ret rs, w') => run_tasks ts2 rs w'
    | (Raise e, w') => (Raise e, w')
    end.
Proof.
  revert acc w. induction ts1 as [|t ts1 IH]; intros acc w; [done |]. cbn [app run_tasks].
  unfold m_bind. destruct (_run_task t w) as [[v|e] w1]; [apply IH | done].
Qed.

Lemma run_tasks_length ts acc w rs w' :
  run_tasks ts acc w = (Ret rs, w') → length rs = length acc + length ts.
Proof.
  revert acc w. induction ts as [|t ts IH]; intros acc w H; simpl in *.
  - injection H as <- <-. lia.
  - apply bind_ret_inv in H as (v & w1 & _ & H). apply IH in H. rewrite length_app in H.
    simpl in H. lia.
Qed.

(** Tasks run in the order they were added, whichever way: a workflow that has
    grown runs as before, then what was added, unless a task raises. *)
Lemma run_tasks_results ts : ∀ acc w,
  run_tasks ts acc w =
    match run_tasks ts [] w with
    | (Ret rs, w') => (Ret (acc ++ rs), w')
    | (Raise e, w') => (Raise e, w')
    end.
Proof.
  induction ts as [|t ts IH]; intros acc w; cbn [run_tasks]; [by unfold m_ret; rewrite app_nil_r |].
  unfold m_bind. destruct (_run_task t w) as [[v|e] w1]; [| done].
  rewrite IH, (IH ([] ++ [v])). destruct (run_tasks ts [] w1) as [[rs|e] w2]; [| done].
  by rewrite <- app_assoc.
Qed.
Lemma run_is_run_tasks ts w : run ts w = run_tasks ts [] w.
Proof. unfold run. by destruct ts. Qed.
Lemma run_added ts more w :
  run (add_tasks more ts).2 w =
    match run ts w with
    | (Ret rs, w1) =>
        match run more w1 with (Ret rs', w2) => (Ret (rs ++ rs'), w2) | (Raise e, w2) => (Raise e, w2) end
    | (Raise e, w1) => (Raise e, w1)
    end.
Proof.
  cbn. rewrite !run_is_run_tasks, run_tasks_app. destruct (run_tasks ts [] w) as [[rs|e] w1]; [| done].
  by rewrite run_is_run_tasks, run_tasks_results.
Qed.
(** Adding tasks one by one is adding them together. *)
Lemma add_each more : ∀ ts, foldl (λ ts t, (add_task t ts).2) ts more = (add_tasks more ts).2.
Proof.
  induction more as [|t more IH]; intros ts; cbn; [by rewrite app_nil_r |].
  rewrite IH. cbn. by rewrite <- app_assoc.
Qed.

Lemma execute_once_preserves (R : W → W → Prop) `{!PreOrder R} t :
  (∀ e t, preserves R (execute e t)) → (∀ m w, R w (set_inflight m w)) →
  (∀ e t, preserves R (submit e t)) → (∀ f, preserves R (fut_done f)) →
  (∀ f, preserves R (fut_cancel f)) → (∀ f t, preserves R (fut_result f t)) →
  preserves R (_execute_once t).
Proof.
  intros He Hi Hs Hd Hc Hr.
  unfold _execute_once, check_previous, after_timeout, join_started, forget_done,
    inflight_pop, inflight_set.
  assert (∀ f : W → W, (∀ w, R w (f w)) → preserves R (m_modify f)) as Hm
    by (intros; by apply preserves_modify).
  prove_preserves.
Qed.

Lemma run_preserves (R : W → W → Prop) `{!PreOrder R} ts :
  (∀ t, preserves R (_execute_once t)) → (∀ d, preserves R (sleep d)) → preserves R (run ts).
Proof.
  intros Honce Hd.
  assert (∀ t, preserves R (_run_task t)) as Htask.
  { intros t w. rewrite run_task_flat.
    enough (∀ n j l, preserves R (flat_loop t (attempts_nat t) n j l)) as Hf.
    { pose proof (Hf (budget t) 0 None w) as H.
      destruct (flat_loop _ _ _ _ _ w) as [[[v|[e|]]|e] w1]; try done; by destruct (t_optional t). }
    induction n as [|n IH]; intros j l; simpl; [auto with preserves |].
    apply preserves_bind; [done | |].
    - apply preserves_try; [done | auto with preserves |]. intros e.
      apply preserves_bind; [done | | auto with preserves].
      apply preserves_if; auto with preserves.
    - intros [v|l']; auto with preserves. }
  unfold run. destruct (decide _); [auto with preserves |].
  generalize (@nil (option V)). clear n.
  induction ts as [|t ts IH]; intros acc; simpl; auto with preserves.
Qed.
End Workflow.
