(* ===== verification/SoftTimeout.v ===== *)
(** * SoftTimeout: the shared pool of timed executes

    A pool for [Workflow.FuturePool]: the futures of the shared
    [ThreadPoolExecutor], whose workers start and finish work at any call the
    workflow makes ([p_moves], arbitrary), at most
    [_SOFT_TIMEOUT_MAX_WORKERS] at a time.  A wait without a bound ends when
    its future does, with the outcome [eventual] gives it: a run in which such
    a future never ends is one in which the code hangs, and has no outcome
    here.  [p_overlap] is an observer: it is set when work is submitted for a
    task that still has work queued or running. *)
From S2P Require Import Prelude Json Context Task Workflow.

Definition _SOFT_TIMEOUT_MAX_WORKERS : nat := 32.

Section Pool.
Context {V : Type}.

Inductive fstate : Type :=
| FPending
| FRunning
| FDone (o : outcome (option V))
| FCancelled.

Record fut : Type := mkFut { f_task : string; f_state : fstate }.

(** Queued or running: [not future.done()]. *)
Definition live_state (s : fstate) : bool :=
  match s with FPending | FRunning => true | _ => false end.
Definition live (fu : fut) : bool := live_state (f_state fu).

Definition is_running (fu : fut) : Prop :=
  match f_state fu with FRunning => True | _ => False end.
#[local] Instance is_running_dec fu : Decision (is_running fu).
Proof. unfold is_running. destruct (f_state fu); apply _. Defined.
Definition running (fs : list fut) : nat := length (base.filter is_running fs).

(** What the workers do. *)
Inductive move : Type := MStart (f : nat) | MFinish (f : nat) (o : outcome (option V)).

Definition move_step (fs : list fut) (m : move) : list fut :=
  match m with
  | MStart f =>
      match fs !! f with
      | Some (mkFut t FPending) =>
          if decide (running fs < _SOFT_TIMEOUT_MAX_WORKERS) then <[f := mkFut t FRunning]> fs
          else fs
      | _ => fs
      end
  | MFinish f o =>
      match fs !! f with
      | Some (mkFut t FRunning) => <[f := mkFut t (FDone o)]> fs
      | _ => fs
      end
  end.

Record pool : Type := mkPool {
  p_futs : list fut;
  p_inflight : gmap string nat;
  p_moves : list (list move);
  p_direct : list (outcome (option V));
  p_sleeps : list Z;
  p_overlap : bool;
}.

Definition with_futs (fs : list fut) (w : pool) : pool :=
  mkPool fs (p_inflight w) (p_moves w) (p_direct w) (p_sleeps w) (p_overlap w).

(** The workers make some progress. *)
Definition tick (w : pool) : pool :=
  match p_moves w with
  | [] => w
  | ms :: moves =>
      mkPool (fold_left move_step ms (p_futs w)) (p_inflight w) moves (p_direct w) (p_sleeps w)
        (p_overlap w)
  end.

Context (eventual : nat → outcome (option V)).

Definition p_submit (_ : nat) (task : Task) : M pool nat :=
  λ w0,
    let w := tick w0 in
    let fs := p_futs w in
    (Ret (length fs),
     mkPool (fs ++ [mkFut (t_id task) FPending]) (p_inflight w) (p_moves w) (p_direct w)
       (p_sleeps w)
       (p_overlap w || existsb (λ fu, live fu && String.eqb (f_task fu) (t_id task)) fs)).

Definition p_done (f : nat) : M pool bool :=
  λ w0,
    let w := tick w0 in
    (Ret (match p_futs w !! f with Some fu => negb (live fu) | None => true end), w).

Definition p_cancel (f : nat) : M pool bool :=
  λ w0,
    let w := tick w0 in
    match p_futs w !! f with
    | Some (mkFut t FPending) => (Ret true, with_futs (<[f := mkFut t FCancelled]> (p_futs w)) w)
    | Some (mkFut _ FCancelled) => (Ret true, w)
    | _ => (Ret false, w)
    end.

(** [Future.result]: what a finished future gives. *)
Definition result_of (s : fstate) : option (outcome (option V)) :=
  match s with
  | FDone o => Some o
  | FCancelled => Some (Raise (OtherException "CancelledError" ""))
  | _ => None
  end.

Definition p_result (f : nat) (timeout : option Z) : M pool (option V) :=
  λ w0,
    let w := tick w0 in
    match p_futs w !! f with
    | None => (Raise (RuntimeError "no such future"), w)
    | Some (mkFut t s) =>
        match result_of s with
        | Some o => (o, w)
        | None =>
            match timeout with
            | Some _ => (Raise (TimeoutError ""), w)
            | None => (eventual f, with_futs (<[f := mkFut t (FDone (eventual f))]> (p_futs w)) w)
            end
        end
    end.

(** A call of an executor in the workflow's own thread, and [time.sleep]. *)
Definition p_execute (_ : nat) (_ : Task) : M pool (option V) :=
  λ w0,
    let w := tick w0 in
    match p_direct w with
    | [] => (Ret None, w)
    | o :: rest =>
        (o, mkPool (p_futs w) (p_inflight w) (p_moves w) rest (p_sleeps w) (p_overlap w))
    end.

Definition p_sleep (d : Z) : M pool unit :=
  λ w0,
    let w := tick w0 in
    (Ret tt, mkPool (p_futs w) (p_inflight w) (p_moves w) (p_direct w) (p_sleeps w ++ [d])
               (p_overlap w)).

#[local] Instance scripted_pool : FuturePool pool V := {
  execute := p_execute;
  sleep := p_sleep;
  _inflight := p_inflight;
  set_inflight m w := mkPool (p_futs w) m (p_moves w) (p_direct w) (p_sleeps w) (p_overlap w);
  submit := p_submit;
  fut_done := p_done;
  fut_cancel := p_cancel;
  fut_result := p_result;
}.

(** ** What every call but a submit does to the futures *)
Definition shrinks (fs fs' : list fut) : Prop :=
  ∀ f fu', fs' !! f = Some fu' →
    ∃ fu, fs !! f = Some fu ∧ f_task fu = f_task fu' ∧ (live fu' = true → live fu = true).

#[local] Instance shrinks_preorder : PreOrder shrinks.
Proof.
  split.
  - intros fs f fu H. eauto.
  - intros a b c Hab Hbc f fu H. apply Hbc in H as (fu1 & H & Ht & Hl).
    apply Hab in H as (fu0 & H & Ht' & Hl'). exists fu0. naive_solver congruence.
Qed.

Lemma shrinks_insert fs f t s s' :
  fs !! f = Some (mkFut t s) → (live_state s' = true → live_state s = true) →
  shrinks fs (<[f := mkFut t s']> fs).
Proof.
  intros H Hl g fu Hg. apply list_lookup_insert_Some in Hg as [(<- & <- & _)|(_ & Hg)]; eauto.
Qed.

Lemma move_shrinks fs m : shrinks fs (move_step fs m).
Proof.
  destruct m as [f|f o]; simpl; destruct (fs !! f) as [[t []]|] eqn:E; try done.
  - destruct (decide _); [| done]. by apply shrinks_insert with FPending.
  - by apply shrinks_insert with FRunning.
Qed.

Lemma moves_shrink ms fs : shrinks fs (fold_left move_step ms fs).
Proof.
  revert fs. induction ms as [|m ms IH]; intros fs; [done |]. simpl.
  etransitivity; [apply move_shrinks | apply IH].
Qed.

(** Calls that only make workers progress, or cancel or end a future. *)
Definition quiet (w w' : pool) : Prop :=
  shrinks (p_futs w) (p_futs w') ∧ p_inflight w' = p_inflight w ∧ p_overlap w' = p_overlap w.
#[local] Instance quiet_preorder : PreOrder quiet.
Proof.
  split; [by split | intros a b c (? & ? & ?) (? & ? & ?); split_and!; [| congruence..]].
  by etransitivity.
Qed.

Lemma tick_quiet w : quiet w (tick w).
Proof. unfold tick. destruct (p_moves w); [done | split; [apply moves_shrink | done]]. Qed.

Lemma done_quiet f : preserves quiet (p_done f).
Proof. intros w. apply tick_quiet. Qed.
Lemma cancel_quiet f : preserves quiet (p_cancel f).
Proof.
  intros w. etransitivity; [apply (tick_quiet w) |]. unfold p_cancel.
  destruct (p_futs (tick w) !! f) as [[t []]|] eqn:E; try done.
  split; [| done]. by apply shrinks_insert with FPending.
Qed.
Lemma result_quiet f t : preserves quiet (p_result f t).
Proof.
  intros w. etransitivity; [apply (tick_quiet w) |]. unfold p_result.
  destruct (p_futs (tick w) !! f) as [[id s]|] eqn:E; [| done].
  destruct (result_of s); [done |]. destruct t; [done |].
  split; [| done]. by apply shrinks_insert with s.
Qed.
Lemma execute_quiet e t : preserves quiet (p_execute e t).
Proof.
  intros w. etransitivity; [apply (tick_quiet w) |]. unfold p_execute. by destruct (p_direct _).
Qed.
Lemma sleep_quiet d : preserves quiet (p_sleep d).
Proof. intros w. etransitivity; [apply (tick_quiet w) | done]. Qed.

(** A future [done()] calls finished, or that was cancelled, is not live. *)
Definition dead (fs : list fut) (f : nat) : Prop := ∀ fu, fs !! f = Some fu → live fu = false.

Lemma dead_shrinks fs fs' f : shrinks fs fs' → dead fs f → dead fs' f.
Proof.
  intros H Hd fu' Hf. apply H in Hf as (fu & Hf & _ & Hl). apply Hd in Hf.
  destruct (live fu'); [| done]. rewrite Hl in Hf; done.
Qed.

Lemma done_true f w : p_done f w = (Ret true, (p_done f w).2) → dead (p_futs (p_done f w).2) f.
Proof.
  unfold p_done. simpl. intros [= H] fu Hf. rewrite Hf in H. by destruct (live fu).
Qed.
Lemma cancel_true f w w' : p_cancel f w = (Ret true, w') → dead (p_futs w') f.
Proof.
  unfold p_cancel. destruct (p_futs (tick w) !! f) as [[t []]|] eqn:E; intros [= <-]; intros fu.
  - simpl. rewrite list_lookup_insert_eq by (by eapply lookup_lt_Some). by intros [= <-].
  - rewrite E. by intros [= <-].
Qed.

(** ** The invariant

    Unfinished work of a task is the one [_inflight] has for it. *)
Definition live_of (id : string) (w : pool) (f : nat) : Prop :=
  ∃ fu, p_futs w !! f = Some fu ∧ live fu = true ∧ f_task fu = id.
Definition owned (w : pool) : Prop :=
  ∀ id f, live_of id w f → p_inflight w !! id = Some f.
Definition pool_ok (w : pool) : Prop := owned w ∧ p_overlap w = false.
Definition idle (id : string) (w : pool) : Prop := ∀ f, ¬ live_of id w f.

(** While a call of [_execute_once] is in progress, the unfinished work of its
    task is its own future. *)
Definition working (id : string) (future : nat) (w : pool) : Prop :=
  pool_ok w ∧ ∀ f, live_of id w f → f = future.

Lemma live_of_shrinks id w w' f :
  shrinks (p_futs w) (p_futs w') → live_of id w' f → live_of id w f.
Proof.
  intros H (fu' & Hf & Hl & <-). apply H in Hf as (fu & Hf & Ht & Hll). exists fu. auto.
Qed.

Lemma quiet_ok w w' : quiet w w' → pool_ok w → pool_ok w'.
Proof.
  intros (Hs & Hi & Ho) [Hw Hov]. split; [| congruence].
  intros id f Hf. rewrite Hi. apply Hw. by eapply live_of_shrinks.
Qed.
Lemma quiet_idle id w w' : quiet w w' → idle id w → idle id w'.
Proof. intros (Hs & _) Hw f Hf. apply (Hw f). by eapply live_of_shrinks. Qed.
Lemma quiet_working id future w w' : quiet w w' → working id future w → working id future w'.
Proof.
  intros Hq [Hok Hw]. split; [by eapply quiet_ok |]. intros f Hf. apply Hw.
  destruct Hq as [Hs _]. by eapply live_of_shrinks.
Qed.

(** Forgetting a future that is over loses nothing. *)
Lemma pop_working id future w :
  working id future w → dead (p_futs w) future →
  let w' := (inflight_pop (V := V) id w).2 in working id future w' ∧ idle id w'.
Proof.
  intros [[Hown Hov] Hw] Hdead.
  assert (idle id w) as Hidle.
  { intros f Hf. pose proof (Hw f Hf) as ->. destruct Hf as (fu & Hf & Hl & _).
    apply Hdead in Hf. congruence. }
  cbv zeta. split; [| exact Hidle]. split; [split; [| exact Hov] | exact Hw].
  intros id' f Hf. simpl. destruct (decide (id' = id)) as [->|].
  - exfalso. exact (Hidle f Hf).
  - rewrite lookup_delete_ne by done. exact (Hown id' f Hf).
Qed.

(** [m] keeps [working], and when it says that the work is over, it is. *)
Definition keeps_working {A} (id : string) (future : nat) (m : M pool A) : Prop :=
  ∀ w, working id future w → working id future (m w).2.

Lemma keeps_quiet {A} id future (m : M pool A) : preserves quiet m → keeps_working id future m.
Proof. intros H w Hw. eapply quiet_working; [apply H | done]. Qed.

Lemma keeps_bind {A B} id future (m : M pool A) (k : A → M pool B) :
  keeps_working id future m → (∀ a, keeps_working id future (k a)) →
  keeps_working id future (m_bind m k).
Proof.
  intros Hm Hk w Hw. specialize (Hm w Hw). rewrite bind_eq.
  destruct (m w) as [[a|e] w1]; [by apply Hk | done].
Qed.

Lemma check_previous_ok task w :
  pool_ok w →
  match check_previous task w with
  | (Ret _, w') => pool_ok w' ∧ idle (t_id task) w'
  | (Raise _, w') => quiet w w'
  end.
Proof.
  intros Hok. unfold check_previous, m_bind, m_get. cbn [_inflight scripted_pool].
  destruct (p_inflight w !! t_id task) as [f|] eqn:E.
  - cbn [fut_done scripted_pool].
    pose proof (done_quiet f w) as Hq. pose proof (done_true f w) as Hd.
    destruct (p_done f w) as [[[]|e] w1] eqn:E1; cbn [snd negb] in *; [| done | done].
    specialize (Hd eq_refl).
    pose proof (done_quiet f w1) as Hq1.
    assert (∃ w2, p_done f w1 = (Ret true, w2)) as [w2 E2].
    { unfold p_done. eexists. f_equal. f_equal.
      destruct (p_futs (tick w1) !! f) as [fu|] eqn:Hf; [| done].
      destruct (tick_quiet w1) as [Hs _]. by rewrite (dead_shrinks _ _ _ Hs Hd fu Hf). }
    rewrite E2 in Hq1 |- *. cbn [snd] in Hq1.
    assert (working (t_id task) f w2) as Hwk.
    { split; [by apply (quiet_ok w1), (quiet_ok w) |].
      intros g Hg. destruct Hok as [Hown _].
      assert (live_of (t_id task) w g) as Hg'.
      { destruct Hq as [Hs _], Hq1 as [Hs1 _]. by do 2 (eapply live_of_shrinks; [done |]). }
      apply Hown in Hg'. congruence. }
    destruct (pop_working _ _ _ Hwk) as [[? _] ?]; [| done].
    destruct Hq1 as [Hs1 _]. by eapply dead_shrinks.
  - split; [done |]. intros f Hf. apply Hok in Hf. congruence.
Qed.

(** A submit for an idle task makes its future the work in progress. *)
Lemma submit_working task w :
  pool_ok w → idle (t_id task) w →
  let '(future, w1) := (length (p_futs (tick w)), (p_submit 0 task w).2) in
  working (t_id task) future (inflight_set (V := V) (t_id task) future w1).2.
Proof.
  intros Hok Hidle. pose proof (tick_quiet w) as Hq.
  apply (quiet_ok _ _ Hq) in Hok as [Hown Hov]. apply (quiet_idle _ _ _ Hq) in Hidle.
  unfold p_submit. cbv zeta. cbn [fst snd]. clear Hq. set (w1 := tick w) in *. clearbody w1.
  set (w2 := snd _). assert (∀ id f, live_of id w2 f →
    live_of id w1 f ∨ (id = t_id task ∧ f = length (p_futs w1))) as Hlive.
  { intros id f (fu & Hf & Hl & <-). simpl in Hf.
    apply lookup_app_Some in Hf as [Hf|[Hlen Hf]]; [left; by exists fu |].
    right. apply list_lookup_singleton_Some in Hf as [Hf <-]. split; [done |]. lia. }
  split; [split |].
  - intros id f Hf. simpl. destruct (Hlive id f Hf) as [Hf'|[-> ->]];
      [| by rewrite lookup_insert_eq].
    destruct (decide (id = t_id task)) as [->|]; [by apply Hidle in Hf' |].
    rewrite lookup_insert_ne by done. by apply Hown.
  - simpl. rewrite Hov. simpl. apply not_true_is_false. intros H.
    apply existsb_exists in H as (fu & Hin & Hb). apply andb_prop in Hb as [Hl Hid].
    apply String.eqb_eq in Hid. apply list_elem_of_In, list_elem_of_lookup in Hin as [f Hf].
    apply (Hidle f). by exists fu.
  - intros f Hf. destruct (Hlive _ _ Hf) as [Hf'|[_ ->]]; [by apply Hidle in Hf' | done].
Qed.

(** ** One [_execute_once] *)
Lemma done_dead f w : dead (p_futs w) f → ∃ w', p_done f w = (Ret true, w') ∧ quiet w w'.
Proof.
  intros Hd. pose proof (done_quiet f w) as Hq. unfold p_done in *. eexists.
  split; [| exact Hq]. f_equal. f_equal.
  destruct (p_futs (tick w) !! f) as [fu|] eqn:Hf; [| done].
  destruct (tick_quiet w) as [Hs _]. by rewrite (dead_shrinks _ _ _ Hs Hd fu Hf).
Qed.

Lemma result_dead f t w o w' :
  p_result f t w = (o, w') →
  t = None ∨ (∀ e, o = Raise e → is_timeout e = false) → dead (p_futs w') f.
Proof.
  unfold p_result. destruct (p_futs (tick w) !! f) as [[id s]|] eqn:E.
  - destruct (result_of s) as [o'|] eqn:Es.
    + intros [= <- <-] _ fu Hf. rewrite E in Hf. injection Hf as <-. by destruct s.
    + destruct t as [t|].
      * intros [= <- <-] [?|H]; [done |]. by specialize (H _ eq_refl).
      * intros [= <- <-] _ fu. simpl.
        rewrite list_lookup_insert_eq by (by eapply lookup_lt_Some). by intros [= <-].
  - intros [= <- <-] _ fu Hf. congruence.
Qed.

Lemma forget_done_working task future w :
  working (t_id task) future w →
  let w' := (forget_done (V := V) task future w).2 in
  working (t_id task) future w' ∧ (dead (p_futs w) future → idle (t_id task) w').
Proof.
  intros Hw. cbv zeta. unfold forget_done, m_bind. cbn [fut_done scripted_pool].
  pose proof (done_quiet future w) as Hq. pose proof (done_true future w) as Hd.
  pose proof (done_dead future w) as Hdd.
  destruct (p_done future w) as [[[]|e] w1]; cbn [snd] in *.
  - specialize (Hd eq_refl).
    destruct (pop_working (t_id task) future w1) as [H1 H2]; [by eapply quiet_working | done |].
    split; [exact H1 | intros _; exact H2].
  - split; [by eapply quiet_working |]. intros H. by destruct (Hdd H) as (? & ? & _).
  - split; [by eapply quiet_working |]. intros H. by destruct (Hdd H) as (? & ? & _).
Qed.

Lemma after_timeout_working task future w :
  working (t_id task) future w →
  let w' := (after_timeout (V := V) task future w).2 in
  working (t_id task) future w'
  ∧ ((t_round_timeout_join task ≤ 0)%Z → dead (p_futs w') future).
Proof.
  intros Hw. cbv zeta. unfold after_timeout, join_started, m_bind, m_except.
  cbn [fut_done fut_cancel fut_result scripted_pool].
  pose proof (done_quiet future w) as Hq. destruct (p_done future w) as [[[]|e] w1] eqn:E1.
  2: pose proof (cancel_quiet future w1) as Hq1;
     destruct (p_cancel future w1) as [[[]|e] w2] eqn:E2.
  3: pose proof (done_quiet future w2) as Hq2; destruct (p_done future w2) as [[[]|e] w3] eqn:E3.
  all: cbn [snd] in *; repeat match goal with
    | Hq : quiet ?a ?b, Hw : working ?i ?f ?a |- _ => apply (quiet_working i f a b Hq) in Hw end.
  - pose proof (result_quiet future None w1) as Hr.
    destruct (p_result future None w1) as [o w2] eqn:E2.
    split; [by eapply quiet_working | intros _; eapply result_dead; eauto].
  - apply cancel_true in E2. destruct (pop_working _ _ _ Hw E2) as [? ?]. split; [done |].
    intros _. exact E2.
  - pose proof (result_quiet future None w3) as Hr.
    destruct (p_result future None w3) as [o w4] eqn:E4.
    split; [by eapply quiet_working | intros _; eapply result_dead; eauto].
  - set (t := if (0 <? t_round_timeout_join task)%Z then _ else _).
    pose proof (result_quiet future t w3) as Hr.
    destruct (p_result future t w3) as [o w4] eqn:E4.
    assert (working (t_id task) future w4) as Hw4 by (by eapply quiet_working).
    assert ((t_round_timeout_join task ≤ 0)%Z → dead (p_futs w4) future) as Hd4.
    { intros Hj. eapply result_dead; [exact E4 |]. left. unfold t.
      destruct (Z.ltb_spec 0 (t_round_timeout_join task)); [lia | done]. }
    destruct o as [v|e]; [done |]. by destruct (is_exception e).
  - split; [done |]. unfold p_done in E3. congruence.
  - split; [done |]. unfold p_cancel in E2.
    destruct (p_futs (tick w1) !! future) as [[? []]|]; congruence.
  - split; [done |]. unfold p_done in E1. congruence.
Qed.

Lemma execute_once_ok task w :
  pool_ok w →
  let w' := (_execute_once (V := V) task w).2 in
  pool_ok w'
  ∧ ((t_round_timeout_join task ≤ 0)%Z → idle (t_id task) w → idle (t_id task) w').
Proof.
  intros Hok. cbv zeta. unfold _execute_once. destruct (t_executor task) as [x|]; [| done].
  destruct (_ <=? 0)%Z.
  { cbn [execute scripted_pool]. pose proof (execute_quiet x task w) as Hq.
    split; [by eapply quiet_ok | intros _; by apply quiet_idle]. }
  pose proof (check_previous_ok task w Hok) as Hc. rewrite !(bind_eq (check_previous task)).
  destruct (check_previous task w) as [[[]|e] w1];
    [| cbn [snd]; split; [by eapply quiet_ok | intros _ Hi; exact (quiet_idle _ _ _ Hc Hi)]].
  destruct Hc as [Hok1 Hidle1]. pose proof (submit_working task w1 Hok1 Hidle1) as Hw.
  unfold m_bind. cbn [submit scripted_pool]. unfold p_submit in Hw |- *. cbn [snd fst] in Hw.
  set (future := length _) in *. set (w2 := mkPool _ _ _ _ _ _) in *.
  destruct (inflight_set (V := V) (t_id task) future w2) as [o w3] eqn:E3.
  injection E3 as <- <-. cbn [snd] in Hw. set (w3 := mkPool _ (<[_ := _]> _) _ _ _ _) in *.
  unfold m_finally.
  assert (working (t_id task) future (m_except is_timeout (fut_result future
            (Some (t_round_timeout task))) (λ _, after_timeout (V := V) task future) w3).2
          ∧ ((t_round_timeout_join task ≤ 0)%Z → dead (p_futs (m_except is_timeout (fut_result future
            (Some (t_round_timeout task))) (λ _, after_timeout (V := V) task future) w3).2) future)) as [Hw4 Hd4].
  { unfold m_except. cbn [fut_result scripted_pool].
    pose proof (result_quiet future (Some (t_round_timeout task)) w3) as Hq.
    destruct (p_result future _ w3) as [o w4] eqn:E4. cbn [snd] in Hq.
    apply (quiet_working _ _ _ _ Hq) in Hw.
    destruct o as [v|e]; [split; [done | intros _; eapply result_dead; [exact E4 |];
      right; intros ? [=]] |].
    destruct (is_timeout e) eqn:He; [by apply after_timeout_working |].
    split; [done | intros _; eapply result_dead; [exact E4 |]; right; intros ? [= <-]; done]. }
  destruct (m_except _ _ _ w3) as [o w4]. cbn [snd] in Hw4, Hd4.
  pose proof (forget_done_working task future w4 Hw4) as [Hw5 Hd5].
  destruct (forget_done task future w4) as [[[]|e] w5]; cbn [snd] in *.
  all: split; [apply Hw5 | intros Hj _; auto].
Qed.

(** ** Whole workflows on the pool *)
Lemma sleep_ok d w : pool_ok w → pool_ok (p_sleep d w).2.
Proof. apply quiet_ok, sleep_quiet. Qed.

Definition keeps_ok (w w' : pool) : Prop := pool_ok w → pool_ok w'.
#[local] Instance keeps_ok_preorder : PreOrder keeps_ok.
Proof. split; [by intros w H | intros a b c H1 H2 H; auto]. Qed.

Lemma run_ok tasks : preserves keeps_ok (run (V := V) tasks).
Proof.
  apply run_preserves; [apply _ | |].
  - intros t w Hw. by apply execute_once_ok.
  - intros d w Hw. by apply sleep_ok.
Qed.

(** The state of a fresh process, and a sequence of runs in it. *)
Definition init_pool (moves : list (list move)) (direct : list (outcome (option V))) : pool :=
  mkPool [] ∅ moves direct [] false.
Definition run_all (workflows : list (list Task)) (w : pool) : pool :=
  fold_left (λ w tasks, (run (V := V) tasks w).2) workflows w.

Lemma run_all_ok workflows w : pool_ok w → pool_ok (run_all workflows w).
Proof.
  revert w. induction workflows as [|ts wfs IH]; intros w Hw; [done |]. apply IH.
  by apply run_ok.
Qed.

End Pool.

#[export] Existing Instance scripted_pool.

(** ** Properties *)

(** C8: in a process that runs any sequence of workflows, whatever the pool's
    workers do and however the waits end, work is never submitted for a task
    while earlier work of that task is still queued or running; at the end too,
    each task has at most one unfinished future. *)
Theorem no_overlapping_execute {V} (eventual : nat → outcome (option V)) moves direct workflows :
  let w := run_all eventual workflows (init_pool moves direct) in
  p_overlap w = false ∧ ∀ id f g, live_of id w f → live_of id w g → f = g.
Proof.
  destruct (run_all_ok eventual workflows (init_pool moves direct)) as [Hown Hov].
  { split; [intros id f (fu & Hf & _); by simpl in Hf; rewrite lookup_nil in Hf | done]. }
  split; [done |]. intros id f g Hf Hg. apply Hown in Hf, Hg. congruence.
Qed.

(** C24: without a bound on the join ([round_timeout_join] 0), an attempt that
    begins with no unfinished work of its task leaves none, however it ends:
    started work is joined and queued work is cancelled before the call returns
    or raises. *)
Theorem execute_once_leaves_nothing {V} (eventual : nat → outcome (option V)) task w :
  pool_ok w → idle (t_id task) w → (t_round_timeout_join task ≤ 0)%Z →
  idle (t_id task) (_execute_once (FuturePool0 := scripted_pool eventual) task w).2.
Proof. intros Hok Hi Hj. by apply execute_once_ok. Qed.

(** C23: the retry budget of a task.  On any pool, a task
    with valid settings, with a timeout or without, makes at most [round_times] rounds of [retry_count + 1]
    attempts, or of [retry_until_max] when it is to be retried until completed
    and has no retry count.  Attempts are made one after the other, with
    [retry_delay] slept after exactly the failures that do not close a round,
    and the run ends with the first attempt that returns, or raises something
    that is no [Exception], as that attempt did; when the whole budget failed,
    with [None] if the task is optional and else with the last error.  What an
    attempt is ([_execute_once]), the other properties of a pool say. *)
Theorem retry_budget {W V} `{!FuturePool W V} task w :
  task_ok task → (∀ d w, (0 < d)%Z → ∃ w', sleep d w = (Ret tt, w')) →
  let round := if decide (t_retry_until_completed task = true ∧ t_retry_count task = 0%Z)
               then t_retry_until_max task else (t_retry_count task + 1)%Z in
  let budget := (t_round_times task * round)%Z in
  round_size task = round
  ∧ ((∃ n last w1 o w', (Z.of_nat n < budget)%Z
        ∧ failing task n last w w1 ∧ _execute_once task w1 = (o, w')
        ∧ (∀ e, o = Raise e → is_exception e = false) ∧ _run_task task w = (o, w'))
     ∨ (∃ n e w', Z.of_nat n = budget ∧ failing task n (Some e) w w'
        ∧ _run_task task w = (if t_optional task then Ret None else Raise e, w'))).
Proof.
  intros Hok Hsleep. cbv zeta.
  assert (round_size task = if decide (t_retry_until_completed task = true ∧ t_retry_count task = 0%Z)
            then t_retry_until_max task else (t_retry_count task + 1)%Z) as Hr.
  { unfold round_size. destruct (t_retry_until_completed task), (decide (t_retry_count task = 0%Z));
      destruct (decide _) as [[? ?]|Hn]; done || by destruct Hn. }
  split; [exact Hr |]. rewrite <- Hr. by apply run_task_failing.
Qed.

Module SoftTimeoutExamples.
(** Two rounds of three attempts, five seconds of delay. *)
Definition retried : Task :=
  mkTask "ch" "dag" "fp" "name" "cat" "" [] (Some 0) None 0 0 2 1 2 5 false 1000 false "t1"
    (ctx_new None None).
(** A timed task whose join is unbounded. *)
Definition timed : Task :=
  mkTask "ch" "dag" "fp" "name" "cat" "" [] (Some 0) None 1 0 1 1 0 0 false 1000 false "t2"
    (ctx_new None None).

Definition boom : exn := OtherException "Exception" "boom".
Definition eventual0 : nat → outcome (option nat) := λ _, Ret (Some 7).

(** All six attempts fail: four delays, none at the end of a round. *)
Example retried_out :
  let w := init_pool [] (map Raise (replicate 6 boom)) in
  let '(o, w') := _run_task (FuturePool0 := scripted_pool eventual0) retried w in
  o = Raise boom ∧ p_sleeps w' = [5; 5; 5; 5]%Z ∧ p_direct w' = [].
Proof. by vm_compute. Qed.

(** The started work is joined and its late value dropped. *)
Example timed_run :
  let w := (init_pool [[]; [MStart 0]] []) in
  (_execute_once (FuturePool0 := scripted_pool eventual0) timed w).1
  = Raise (TimeoutError "Task execute exceeded round_timeout=1s (execute still running): id=t2, name=name").
Proof. reflexivity. Qed.

Lemma idle_init (moves : list (list (@move nat))) direct id :
  idle id (init_pool moves direct) ∧ pool_ok (init_pool moves direct).
Proof. split; [| split; [| done]]; intros ? (?&H&?) || intros ? ? (?&H&?); by destruct f. Qed.

Lemma execute_once_leaves_nothing_witness :
  idle "t2" (_execute_once (FuturePool0 := scripted_pool eventual0) timed
               (init_pool [[]; [MStart 0]] [])).2.
Proof.
  apply (execute_once_leaves_nothing eventual0 timed (init_pool [[]; [MStart 0]] []));
    [apply (idle_init _ _ "t2") | apply idle_init | simpl; lia].
Defined.

(** The settings of [retried] are valid, its pool sleeps, and the fifth of its
    attempts returns: the run gives what that attempt gave. *)
Lemma retry_budget_witness :
  task_ok retried
  ∧ (∀ d w, (0 < d)%Z → ∃ w', p_sleep d w = (Ret tt, w') :> outcome unit * @pool nat)
  ∧ (let w := init_pool [] (map Raise (replicate 4 boom) ++ [Ret (Some 3)]) in
     let run := _run_task (FuturePool0 := scripted_pool eventual0) retried w in
     run.1 = Ret (Some 3) ∧ p_sleeps run.2 = [5; 5; 5]%Z)
  ∧ round_size retried = 3%Z.
Proof.
  assert (task_ok retried) as Hok by (vm_compute; split_and!; discriminate).
  assert (∀ d w, (0 < d)%Z → ∃ w', p_sleep d w = (Ret tt, w') :> outcome unit * @pool nat) as Hsleep
    by (intros; eexists; reflexivity).
  split; [exact Hok |]. split; [exact Hsleep |]. split; [by vm_compute |].
  exact (proj1 (retry_budget (FuturePool0 := scripted_pool eventual0) retried (init_pool [] []) Hok Hsleep)).
Defined.
End SoftTimeoutExamples.
