(* ===== verification/Threads.v ===== *)
(** * Threads: interleaved threads and a lock

    A thread is a program counter; a step of thread [t] changes its counter and
    what the threads share, or is impossible ([None]): finished, or waiting for
    the lock.  A schedule names the threads that move.  The lemmas reduce facts
    about every schedule to facts about one step: the lock is held by the thread
    in the critical section, facts of one thread are stable under the steps of
    the others, sums over the threads change by the step's own summand. *)
From S2P Require Import Prelude.

Record Threads {P S : Type} : Type := mkThreads { shared : S; threads : list P }.
Arguments Threads : clear implicits.
Arguments mkThreads {P S}.

Section Threads.
Context {P S : Type} (act : nat → P → S → option (P * S)).
Implicit Types (s : Threads P S) (t : nat) (p q : P) (sh : S).

Definition step (t : nat) (s : Threads P S) : option (Threads P S) :=
  p ← threads s !! t; r ← act t p (shared s); Some (mkThreads r.2 (<[t := r.1]> (threads s))).
Fixpoint run (schedule : list nat) (s : Threads P S) : option (Threads P S) :=
  match schedule with
  | [] => Some s
  | t :: schedule => s' ← step t s; run schedule s'
  end.

Lemma step_inversion t s s' : step t s = Some s' →
  ∃ p p' sh', threads s !! t = Some p ∧ act t p (shared s) = Some (p', sh')
    ∧ s' = mkThreads sh' (<[t := p']> (threads s)).
Proof.
  unfold step. destruct (threads s !! t) as [p|] eqn:Hp; [| done]. cbn.
  destruct (act t p (shared s)) as [[p' sh']|] eqn:Hact; [| done]. intros [= <-]. by eexists _, _, _.
Qed.

(** What every step keeps, every schedule keeps. *)
Lemma schedule_preserves (I : Threads P S → Prop) schedule : (∀ t s s', I s → step t s = Some s' → I s') →
  ∀ s s', I s → run schedule s = Some s' → I s'.
Proof.
  intros Hstep. induction schedule as [|t schedule IH]; intros s s' Hs; cbn [run]; [by intros [= <-] |].
  destruct (step t s) as [s1|] eqn:E; [| done]. cbn. by eapply IH, Hstep.
Qed.

(** ** Sums *)
Lemma sum_insert {A} (f : A → nat) (l : list A) i x y :
  l !! i = Some x → (sum_list_with f (<[i := y]> l) + f x = sum_list_with f l + f y)%nat.
Proof.
  intros Hx. rewrite insert_take_drop by (by eapply lookup_lt_Some).
  rewrite <- (take_drop_middle _ _ _ Hx) at 3. rewrite !sum_list_with_app. cbn. lia.
Qed.
Lemma sum_lookup {A} (f : A → nat) (l : list A) i x : l !! i = Some x → (f x ≤ sum_list_with f l)%nat.
Proof. intros Hx. rewrite <- (take_drop_middle _ _ _ Hx), sum_list_with_app. cbn. lia. Qed.

(** A measure that every step of a thread decreases bounds every schedule. *)
Context (weight : P → nat).
Definition total_weight s : nat := sum_list_with weight (threads s).
Lemma run_bounded schedule :
  (∀ t p sh p' sh', act t p sh = Some (p', sh') → (weight p' < weight p)%nat) →
  ∀ s s', run schedule s = Some s' → (length schedule + total_weight s' ≤ total_weight s)%nat.
Proof.
  intros Hw. induction schedule as [|t schedule IH]; intros s s'; cbn [run]; [by intros [= <-] |].
  destruct (step t s) as [s1|] eqn:E; [| done]. intros H%IH.
  apply step_inversion in E as (p & p' & sh' & Hp & Hact & ->). apply Hw in Hact.
  pose proof (sum_insert weight (threads s) t p p' Hp). unfold total_weight in *. cbn [length threads] in *. lia.
Qed.

(** ** The lock *)
Context (critical : P → bool) (lock : S → option nat).
Definition lock_moves t sh sh' : Prop :=
  lock sh' = lock sh ∨ (lock sh' = None ∧ lock sh = Some t) ∨ (lock sh = None ∧ lock sh' = Some t).
Definition owns t p sh : Prop := critical p = true ↔ lock sh = Some t.
(** The lock is held by exactly the thread in the critical section. *)
Definition owned s : Prop :=
  (∀ t p, threads s !! t = Some p → owns t p (shared s))
  ∧ (∀ t, lock (shared s) = Some t → is_Some (threads s !! t)).

Context (act_lock : ∀ t p sh p' sh', act t p sh = Some (p', sh') → owns t p sh →
  owns t p' sh' ∧ lock_moves t sh sh').
Lemma step_owned t s s' : owned s → step t s = Some s' → owned s'.
Proof using act_lock.
  intros [Hown Hlock] (p & p' & sh' & Hp & Hact & ->)%step_inversion.
  destruct (act_lock _ _ _ _ _ Hact (Hown t p Hp)) as [Hp' Hlk]. cbn.
  assert (∀ u, u ≠ t → lock sh' = Some u ↔ lock (shared s) = Some u) as Hothers.
  { intros u Hu. destruct Hlk as [->|[[-> ->]|[-> ->]]]; [done | |]; split; congruence. }
  split; cbn [shared threads].
  - intros u q Hq. destruct (decide (u = t)) as [->|Hu].
    + rewrite list_lookup_insert_eq in Hq by (by eapply lookup_lt_Some). by injection Hq as <-.
    + rewrite list_lookup_insert_ne in Hq by done. unfold owns. rewrite Hothers by done. by apply Hown.
  - intros u Hu. destruct (decide (u = t)) as [->|Hne].
    + rewrite list_lookup_insert_eq by (by eapply lookup_lt_Some). by eexists.
    + rewrite list_lookup_insert_ne by done. by apply Hlock, Hothers.
Qed.

Lemma owned_exclusive s t u p q : owned s →
  threads s !! t = Some p → threads s !! u = Some q → critical p = true → critical q = true → t = u.
Proof using Type.
  intros [Hown _] Hp Hq Hcp Hcq. apply (Hown _ _ Hp) in Hcp. apply (Hown _ _ Hq) in Hcq. congruence.
Qed.

(** While a thread is not finished, some thread can move. *)
Lemma not_stuck (finished : P → bool) s :
  (∀ p, critical p = true → finished p = false) →
  (∀ t p sh, finished p = false → lock sh = None ∨ critical p = true → is_Some (act t p sh)) →
  owned s → (∃ t p, threads s !! t = Some p ∧ finished p = false) → ∃ t, is_Some (step t s).
Proof using Type.
  intros Hcf Hact [Hown Hlock] (t & p & Hp & Hnd).
  assert (∀ u q, threads s !! u = Some q → finished q = false →
    lock (shared s) = None ∨ critical q = true → ∃ u, is_Some (step u s)) as Hgo.
  { intros u q Hq Hf Hl. destruct (Hact u q (shared s) Hf Hl) as [r Hr].
    exists u. unfold step. rewrite Hq. cbn. rewrite Hr. by eexists. }
  destruct (lock (shared s)) as [h|] eqn:El; [| by eapply Hgo; [..| left]].
  destruct (Hlock h eq_refl) as [q Hq].
  assert (critical q = true) as Hcq by (by apply (Hown h q Hq)). eapply Hgo; [done | by apply Hcf | by right].
Qed.

(** ** Facts of one thread *)
Context (at_pc : P → S → Prop) (shape : S → Prop).
Definition local s : Prop := (∀ t p, threads s !! t = Some p → at_pc p (shared s)) ∧ shape (shared s).
Context (act_local : ∀ t p sh p' sh', act t p sh = Some (p', sh') → at_pc p sh → shape sh → owns t p sh →
  at_pc p' sh' ∧ shape sh' ∧ ∀ q, (critical p = true → critical q = false) → at_pc q sh → at_pc q sh').
Lemma step_local t s s' : owned s → local s → step t s = Some s' → local s'.
Proof using act_local.
  intros Hown [Hat Hshape] (p & p' & sh' & Hp & Hact & ->)%step_inversion.
  destruct (act_local _ _ _ _ _ Hact (Hat t p Hp) Hshape (proj1 Hown t p Hp)) as (Hat' & Hshape' & Hst).
  split; cbn [shared threads]; [| done]. intros u q Hq. destruct (decide (u = t)) as [->|Hu].
  - rewrite list_lookup_insert_eq in Hq by (by eapply lookup_lt_Some). by injection Hq as <-.
  - rewrite list_lookup_insert_ne in Hq by done. apply Hst; [| by eapply Hat].
    intros Hcp. destruct (critical q) eqn:Hcq; [| done]. by destruct Hu; eapply owned_exclusive.
Qed.
Lemma run_local schedule s s' : owned s → local s → run schedule s = Some s' → owned s' ∧ local s'.
Proof using act_lock act_local.
  intros Hown Hloc. apply (schedule_preserves (λ s, owned s ∧ local s)); [| done].
  intros t s1 s2 [Ho Hl] Hs. split; [by eapply step_owned | by eapply step_local].
Qed.
End Threads.
