(* ===== verification/Singleton.v ===== *)
(** * Singleton: one instance per process, whatever the threads do

    The registries of the program are made by a [__new__] that creates the
    instance on its first call, under a class-level lock: [Dispatcher]
    ([scheduler/job.py]), [ChannelManager] ([scheduler/channel.py]),
    [ExecutorRegistry] ([scheduler/executor.py]), [SSEConnectionManager]
    ([sse/connection.py]) and [SSESecurityManager] ([sse/security.py]).  The
    soft-timeout pool ([scheduler/workflow.py]) is made on first use, tested once
    before and once under its lock; [Loader] ([loader.py]) has no lock.  A thread
    is a program counter, a schedule the threads that move one after the other:
    every attribute access and every lock operation is a step. *)
From S2P Require Import Prelude Threads.

(** A place where a singleton is made: the attributes set before the instance
    is published, whether the reference is tested before the lock is taken, and
    whether there is a lock. *)
Record Site : Type := mkSite { attrs : list string; fast_path : bool; locked : bool }.

Definition Dispatcher_new : Site := mkSite ["_lock"; "_processors"] false true.
Definition ChannelManager_new : Site := mkSite ["_lock"; "_job_channel"] false true.
Definition ExecutorRegistry_new : Site := mkSite ["_lock"; "_factories"] false true.
Definition SSEConnectionManager_new : Site := mkSite ["_lock"; "_connections"; "_event_log"] false true.
Definition SSESecurityManager_new : Site := mkSite ["_rate_limit_cache"; "_rate_limit_lock"] false true.
Definition _soft_timeout_pool : Site := mkSite ["max_workers"] true true.
Definition Loader_new : Site := mkSite ["_module_loader_mapper"] false false.

(** ** Threads *)
(** What the threads share: the lock's holder, the reference, and the objects
    made, each with the attributes it has so far. *)
Record Shared : Type := mkShared {
  lock : option nat;
  instance : option nat;
  objects : list (list string);
}.
(** Where a thread is; [Done] carries what the call returned. *)
Inductive pc : Type :=
| Entry
| FastRead                                     (** the first test saw an instance *)
| Acquire                                      (** [with cls._init_lock] *)
| Test                                         (** [if cls._instance is None] *)
| Alloc                                        (** [super().__new__(cls)] *)
| Setting (obj : nat) (todo : list string)     (** [inst.attr = ...], then [cls._instance = inst] *)
| Read                                         (** [return cls._instance] *)
| Release (result : option nat)                (** leaving the [with] block *)
| Done (result : option nat).

(** One step of thread [t]; [None] when it is finished or waits for the lock. *)
Definition act (site : Site) (t : nat) (p : pc) (sh : Shared) : option (pc * Shared) :=
  match p with
  | Entry =>
      let slow := if locked site then Acquire else Test in
      Some (if fast_path site then match instance sh with Some _ => FastRead | None => slow end else slow, sh)
  | FastRead => Some (Done (instance sh), sh)
  | Acquire =>
      match lock sh with
      | None => Some (Test, mkShared (Some t) (instance sh) (objects sh))
      | Some _ => None
      end
  | Test => Some (match instance sh with None => Alloc | Some _ => Read end, sh)
  | Alloc => Some (Setting (length (objects sh)) (attrs site), mkShared (lock sh) (instance sh) (objects sh ++ [[]]))
  | Setting o (a :: todo) =>
      Some (Setting o todo, mkShared (lock sh) (instance sh) (alter (λ as_, as_ ++ [a]) o (objects sh)))
  | Setting o [] => Some (Read, mkShared (lock sh) (Some o) (objects sh))
  | Read => Some (if locked site then Release (instance sh) else Done (instance sh), sh)
  | Release r => Some (Done r, mkShared None (instance sh) (objects sh))
  | Done _ => None
  end.

Definition new_run (site : Site) : list nat → Threads pc Shared → option (Threads pc Shared) := run (act site).
(** [n] threads that call the constructor of a class without an instance. *)
Definition start (n : nat) : Threads pc Shared := mkThreads (mkShared None None []) (replicate n Entry).

(** ** The invariant *)
Definition critical (p : pc) : bool :=
  match p with Test | Alloc | Setting _ _ | Read | Release _ => true | _ => false end.
(** The steps a thread still has to make. *)
Definition weight (site : Site) (p : pc) : nat :=
  let k := length (attrs site) in
  match p with
  | Entry => 7 + k | Acquire => 6 + k | Test => 5 + k | Alloc => 4 + k
  | Setting _ todo => 3 + length todo | Read => 2 | Release _ => 1 | FastRead => 1 | Done _ => 0
  end.
Lemma act_weight site t p sh p' sh' :
  act site t p sh = Some (p', sh') → weight site p' < weight site p.
Proof.
  destruct p as [| | | | |o [|a todo]| | |]; cbn [act weight length]; intros H; repeat case_match;
    simplify_eq; cbn [weight length]; repeat case_match; simplify_eq; cbn [weight]; lia.
Qed.

Section Locked.
Context (site : Site) (Hlocked : locked site = true).

Definition published (sh : Shared) : Prop := instance sh = Some 0 ∧ objects sh = [attrs site].
Definition at_pc (p : pc) (sh : Shared) : Prop :=
  match p with
  | Entry | Acquire => True
  | Test => instance sh = None → objects sh = []
  | Alloc => instance sh = None ∧ objects sh = []
  | Setting o todo => instance sh = None ∧ o = 0 ∧ ∃ set, objects sh = [set] ∧ set ++ todo = attrs site
  | FastRead | Read => published sh
  | Release r | Done r => r = Some 0 ∧ published sh
  end.
Definition shape (sh : Shared) : Prop :=
  (instance sh = None ∨ published sh) ∧ (lock sh = None → instance sh = None → objects sh = []).

Ltac settle := unfold published, owns, lock_moves in *; cbn [lock instance objects critical] in *; intuition congruence.

Lemma act_lock t p sh p' sh' :
  act site t p sh = Some (p', sh') → owns critical lock t p sh →
  owns critical lock t p' sh' ∧ lock_moves lock t sh sh'.
Proof using Hlocked.
  destruct sh as [lk ins os]. intros Hact Ho.
  destruct p as [| | | | |o [|a todo]| | |]; cbn [act] in Hact; rewrite ?Hlocked in Hact; cbn in Hact;
    repeat case_match; simplify_eq; settle.
Qed.

Lemma at_pc_stable p sh sh' :
  critical p = false → (published sh → published sh') → at_pc p sh → at_pc p sh'.
Proof using Type. destruct p; cbn; try done; tauto. Qed.

(** A step keeps the thread's own facts and never unpublishes. *)
Lemma act_own t p sh p' sh' :
  act site t p sh = Some (p', sh') → at_pc p sh → shape sh → owns critical lock t p sh →
  at_pc p' sh' ∧ shape sh' ∧ (published sh → published sh').
Proof using Hlocked.
  destruct sh as [lk ins os]. unfold shape.
  destruct p as [| | | | |o [|a todo]| | |]; cbn [act at_pc]; rewrite ?Hlocked; cbn [lock instance objects];
    intros Hact Hp Hs Hc.
  - destruct (fast_path site); repeat case_match; simplify_eq; cbn [at_pc]; settle.
  - simplify_eq. cbn. settle.
  - case_match; simplify_eq. cbn. settle.
  - destruct ins; simplify_eq; cbn; settle.
  - destruct Hp as [-> ->]. simplify_eq. cbn. split_and!; try settle. by eexists.
  - destruct Hp as (-> & -> & set & -> & Hset). rewrite app_nil_r in Hset. simplify_eq. cbn. settle.
  - destruct Hp as (-> & -> & set & -> & Hset). simplify_eq. cbn. split_and!; try settle.
    eexists. split; [done |]. by rewrite <- app_assoc.
  - simplify_eq. cbn. settle.
  - simplify_eq. cbn. settle.
  - done.
Qed.
(** Outside the critical section a thread changes nothing but the lock. *)
Lemma act_outside t p sh p' sh' : act site t p sh = Some (p', sh') → critical p = false →
  instance sh' = instance sh ∧ objects sh' = objects sh.
Proof using Type. clear Hlocked. destruct p; cbn; intros H Hc; repeat case_match; by simplify_eq. Qed.

Lemma act_local t p sh p' sh' :
  act site t p sh = Some (p', sh') → at_pc p sh → shape sh → owns critical lock t p sh →
  at_pc p' sh' ∧ shape sh' ∧ ∀ q, (critical p = true → critical q = false) → at_pc q sh → at_pc q sh'.
Proof using Hlocked.
  intros Hact Hp Hs Ho. destruct (act_own _ _ _ _ _ Hact Hp Hs Ho) as (Hp' & Hs' & Hpub).
  split_and!; [done | done |]. intros q Hq. destruct (critical p) eqn:Hc.
  - apply at_pc_stable; [by apply Hq | done].
  - destruct (act_outside _ _ _ _ _ Hact Hc) as [Hi Hobj].
    destruct q; cbn; unfold published; rewrite ?Hi, ?Hobj; done.
Qed.

Lemma start_ok n : owned critical lock (start n) ∧ local at_pc shape (start n).
Proof using Type.
  split; split; cbn; [| done | | split; [by left | done]]; by intros t p [-> _]%lookup_replicate.
Qed.
Lemma objects_at_most_one s : owned critical lock s → local at_pc shape s →
  (length (objects (shared s)) ≤ 1)%nat.
Proof using Type.
  intros [Hown Hlock] [Hpc [[Hi|[_ ->]] Hs]]; [| cbn; lia]. destruct (lock (shared s)) as [h|] eqn:El.
  - destruct (Hlock h eq_refl) as [p Hp]. pose proof (Hpc h p Hp) as Hat.
    assert (critical p = true) as Hcp by (by apply (Hown h p Hp)).
    destruct p; cbn in Hat, Hcp; try done; unfold published in Hat.
    + rewrite (Hat Hi). cbn. lia.
    + rewrite (proj2 Hat). cbn. lia.
    + destruct Hat as (_ & _ & set & -> & _). cbn. lia.
    + destruct Hat. congruence.
    + destruct Hat as [_ [? _]]. congruence.
  - rewrite Hs by done. cbn. lia.
Qed.
End Locked.

Lemma start_weight site n : total_weight (weight site) (start n) = (n * (7 + length (attrs site)))%nat.
Proof. unfold total_weight, start. cbn [threads]. induction n as [|n IH]; [done |]. cbn in *. lia. Qed.
Definition finished (p : pc) : bool := match p with Done _ => true | _ => false end.
Lemma act_moves site t p sh : finished p = false → lock sh = None ∨ critical p = true → is_Some (act site t p sh).
Proof.
  intros Hf Hl. apply is_Some_alt.
  destruct p as [| | | | |o [|a todo]| | |]; cbn in *; try done. by destruct Hl as [->|?].
Qed.

(** ** Properties *)

(** C20: however the threads that construct it interleave, a singleton made
    under its lock - tested before the lock or not - is made at most once, and
    complete: at most one thread is between taking and giving back the lock,
    every call that returned got the same instance, with all its attributes
    set; no schedule is longer than the threads' steps, and one after which no
    thread can move has finished every call. *)
Theorem singleton_is_single (site : Site) (n : nat) (schedule : list nat) (s : Threads pc Shared) :
  locked site = true → new_run site schedule (start n) = Some s →
  (length schedule ≤ n * (7 + length (attrs site)))%nat
  ∧ (length (objects (shared s)) ≤ 1)%nat
  ∧ (∀ t u p q, threads s !! t = Some p → threads s !! u = Some q →
       critical p = true → critical q = true → t = u)
  ∧ (∀ t r, threads s !! t = Some (Done r) →
       r = Some 0 ∧ instance (shared s) = Some 0 ∧ objects (shared s) = [attrs site])
  ∧ ((∀ t, step (act site) t s = None) → ∀ t p, threads s !! t = Some p → p = Done (Some 0)).
Proof.
  intros Hl Hrun. pose proof (run_bounded (act site) (weight site) schedule (act_weight site) _ _ Hrun) as Hw.
  rewrite start_weight in Hw.
  destruct (run_local (act site) critical lock (act_lock site Hl) (at_pc site) (shape site) (act_local site Hl)
    schedule _ _ (proj1 (start_ok site n)) (proj2 (start_ok site n)) Hrun) as [Hown [Hpc Hshape]].
  assert (∀ t r, threads s !! t = Some (Done r) → r = Some 0 ∧ published site (shared s)) as Hdone
    by (intros t r Ht; exact (Hpc _ _ Ht)).
  split_and!; [lia | by eapply (objects_at_most_one site) | by intros *; apply (owned_exclusive critical lock) | exact Hdone |].
  intros Hstuck t p Hp. destruct (finished p) eqn:Hf.
  - destruct p as [| | | | | | | |r]; try done. by destruct (Hdone t r Hp) as [-> _].
  - destruct (not_stuck (act site) critical lock finished s) as [u [? Hu]];
      [by intros [] | apply act_moves | done | by eexists _, _ | by rewrite Hstuck in Hu].
Qed.

(** Once there is an instance - every module makes its own at import - the lock
    no longer matters: all calls return it, and no object is made. *)
Definition returns_it (o : nat) (p : pc) : Prop :=
  match p with
  | Entry | FastRead | Acquire | Test | Read => True
  | Release r | Done r => r = Some o
  | Alloc | Setting _ _ => False
  end.
Lemma published_stays site o os schedule : ∀ s s',
  instance (shared s) = Some o → objects (shared s) = os → Forall (returns_it o) (threads s) →
  new_run site schedule s = Some s' →
  instance (shared s') = Some o ∧ objects (shared s') = os ∧ Forall (returns_it o) (threads s').
Proof.
  intros s s' Hi Ho Hall Hrun.
  apply (schedule_preserves (act site)
    (λ s, instance (shared s) = Some o ∧ objects (shared s) = os ∧ Forall (returns_it o) (threads s))
    schedule) with (s := s); [| done | done].
  clear. intros t s s' (Hi & Ho & Hall) (p & p' & sh' & Hp & Hact & ->)%step_inversion.
  assert (returns_it o p) as Hrp by (by eapply Forall_lookup_1).
  assert (instance sh' = Some o ∧ objects sh' = os ∧ returns_it o p') as (Hi' & Ho' & Hrp').
  { destruct p; cbn in Hact, Hrp; rewrite ?Hi in Hact; repeat case_match; simplify_eq; cbn; done. }
  split_and!; [done | done |]. by apply Forall_insert.
Qed.

Module SingletonExamples.
(** Two threads construct the dispatcher; the second arrives while the first is
    setting the attributes. *)
Definition two_dispatchers : list nat := [0; 1; 0; 0; 0; 0; 0; 0; 0; 0; 1; 1; 1; 1].
Definition after_dispatchers : Threads pc Shared := default (start 0) (new_run Dispatcher_new two_dispatchers (start 2)).
Lemma singleton_is_single_witness :
  new_run Dispatcher_new two_dispatchers (start 2) = Some after_dispatchers
  ∧ threads after_dispatchers !! 1 = Some (Done (Some 0))
  ∧ objects (shared after_dispatchers) = [["_lock"; "_processors"]].
Proof.
  assert (new_run Dispatcher_new two_dispatchers (start 2) = Some after_dispatchers) as Hrun by reflexivity.
  destruct (singleton_is_single Dispatcher_new 2 two_dispatchers after_dispatchers eq_refl Hrun)
    as (_ & _ & _ & Hdone & _).
  split_and!; [done | done |]. by apply (Hdone 1 (Some 0)).
Defined.

(** The pool is found by the first test. *)
Example pool_found : shared <$> new_run _soft_timeout_pool [0; 0; 0; 0; 0; 0; 0; 0; 1; 1] (start 2)
  = Some (mkShared None (Some 0) [["max_workers"]]).
Proof. reflexivity. Qed.
(** Without a lock two first calls can return different instances: [Loader]
    relies on its first call being the one at import. *)
Example loader_race : threads <$> new_run Loader_new [0; 1; 0; 1; 0; 0; 0; 0; 1; 1; 1; 1] (start 2)
  = Some [Done (Some 0); Done (Some 1)].
Proof. reflexivity. Qed.
End SingletonExamples.
