(* ===== verification/OneShot.v ===== *)
(** * OneShot: warnings given once

    [_warn_durable_vs_memory_once] and its reset ([scheduler/store/__init__.py]),
    [_warn_auth_disabled_once], [_warn_auth_off_blocked_once] and their reset
    ([sse/security.py]): a flag tested and set under a lock, the warning logged
    after the lock is given back.  Threads warn and reset in any interleaving. *)
From S2P Require Import Prelude Threads.

Record Flag : Type := mkFlag {
  flag_lock : option nat;
  warned : bool;            (** [_mismatch_warned], ... *)
  logged : nat;             (** warnings logged *)
}.
Inductive pc : Type :=
| WarnEntry
| WarnTest                       (** [if _mismatch_warned: return] *)
| WarnSet                        (** [_mismatch_warned = True] *)
| WarnLeave (first : bool)       (** leaving the [with] block *)
| WarnLog                        (** [log.warn(...)] *)
| WarnDone
| ResetEntry
| ResetClear                     (** [_mismatch_warned = False] *)
| ResetLeave
| ResetDone.

Definition acquire (t : nat) (next : pc) (f : Flag) : option (pc * Flag) :=
  match flag_lock f with
  | None => Some (next, mkFlag (Some t) (warned f) (logged f))
  | Some _ => None
  end.
Definition act (t : nat) (p : pc) (f : Flag) : option (pc * Flag) :=
  match p with
  | WarnEntry => acquire t WarnTest f
  | WarnTest => Some (if warned f then WarnLeave false else WarnSet, f)
  | WarnSet => Some (WarnLeave true, mkFlag (flag_lock f) true (logged f))
  | WarnLeave first => Some (if first then WarnLog else WarnDone, mkFlag None (warned f) (logged f))
  | WarnLog => Some (WarnDone, mkFlag (flag_lock f) (warned f) (logged f + 1))
  | ResetEntry => acquire t ResetClear f
  | ResetClear => Some (ResetLeave, mkFlag (flag_lock f) false (logged f))
  | ResetLeave => Some (ResetDone, mkFlag None (warned f) (logged f))
  | WarnDone | ResetDone => None
  end.
Definition warn_run : list nat → Threads pc Flag → option (Threads pc Flag) := run act.
(** [m] threads that warn, [r] threads that reset. *)
Definition flag_start (m r : nat) : Threads pc Flag :=
  mkThreads (mkFlag None false 0) (replicate m WarnEntry ++ replicate r ResetEntry).

(** ** The invariant *)
Definition critical (p : pc) : bool :=
  match p with WarnTest | WarnSet | WarnLeave _ | ResetClear | ResetLeave => true | _ => false end.
Definition done_pc (p : pc) : bool := match p with WarnDone | ResetDone => true | _ => false end.
Definition at_flag (p : pc) (f : Flag) : Prop := match p with WarnSet => warned f = false | _ => True end.

Lemma flag_lock_ok t p f p' f' :
  act t p f = Some (p', f') → owns critical flag_lock t p f →
  owns critical flag_lock t p' f' ∧ lock_moves flag_lock t f f'.
Proof.
  destruct f as [lk w l]. unfold owns, lock_moves. intros Hact Ho.
  destruct p; cbn in Hact, Ho; unfold acquire in Hact; cbn in Hact; repeat case_match; simplify_eq; cbn in *;
    intuition congruence.
Qed.
Lemma flag_local_ok t p f p' f' :
  act t p f = Some (p', f') → at_flag p f → True → owns critical flag_lock t p f →
  at_flag p' f' ∧ True ∧ ∀ q, (critical p = true → critical q = false) → at_flag q f → at_flag q f'.
Proof.
  destruct f as [lk w l]. intros Hact Hp _ _. split_and!; [| done |].
  - destruct p; cbn in Hact; unfold acquire in Hact; cbn in Hact; repeat case_match; by simplify_eq.
  - intros q Hq Hat. destruct q; try done. cbn in *.
    destruct p; cbn in Hact, Hq; unfold acquire in Hact; cbn in Hact; repeat case_match; simplify_eq; try done.
    all: by specialize (Hq eq_refl).
Qed.

(** Counts over the threads: warnings due, warners past the flag, resets done. *)
Definition due (p : pc) : nat := match p with WarnLeave true | WarnLog => 1 | _ => 0 end.
Definition passed (p : pc) : nat := match p with WarnLeave _ | WarnLog | WarnDone => 1 | _ => 0 end.
Definition cleared (p : pc) : nat := match p with ResetLeave | ResetDone => 1 | _ => 0 end.
Definition resetter (p : pc) : nat :=
  match p with ResetEntry | ResetClear | ResetLeave | ResetDone => 1 | _ => 0 end.
Definition warner (p : pc) : nat := 1 - resetter p.
Abbreviation total f s := (sum_list_with f (threads s)).
Definition counted (s : Threads pc Flag) : Prop :=
  let n := logged (shared s) + total due s in
  (n ≤ total cleared s + (if warned (shared s) then 1 else 0)
   ∧ (warned (shared s) = true → 1 ≤ n) ∧ (1 ≤ total passed s → 1 ≤ n))%nat.

Lemma act_counted t s s' :
  local at_flag (λ _, True) s → counted s → step act t s = Some s' →
  counted s' ∧ total warner s' = total warner s ∧ total resetter s' = total resetter s.
Proof.
  intros [Hloc _] Hc (p & p' & f' & Hp & Hact & ->)%step_inversion.
  pose proof (Hloc t p Hp) as Hat. clear Hloc. unfold counted in *. cbn [shared threads].
  pose proof (sum_insert due _ t p p' Hp). pose proof (sum_insert cleared _ t p p' Hp).
  pose proof (sum_insert passed _ t p p' Hp). pose proof (sum_insert warner _ t p p' Hp).
  pose proof (sum_insert resetter _ t p p' Hp). pose proof (sum_lookup due _ t p Hp).
  pose proof (sum_lookup passed _ t p Hp).
  destruct (shared s) as [lk w l].
  destruct p as [| | |[]| | | | | |]; cbn [act] in *; unfold acquire in *; cbn [flag_lock warned logged] in *;
    repeat case_match; simplify_eq; cbn [due cleared passed warner resetter warned logged at_flag Nat.sub] in *;
    try (destruct w); simplify_eq; lia.
Qed.

Lemma flag_start_ok m r : let s := flag_start m r in
  (owned critical flag_lock s ∧ local at_flag (λ _, True) s)
  ∧ counted s ∧ total warner s = m ∧ total resetter s = r.
Proof.
  assert (∀ (f : pc → nat) n p, sum_list_with f (replicate n p) = (n * f p)%nat) as Hrep
    by (intros f n p; induction n as [|n IH]; cbn; [done |]; by rewrite IH).
  assert (∀ t p, threads (flag_start m r) !! t = Some p → p = WarnEntry ∨ p = ResetEntry) as Hpc.
  { intros t p [H|[_ H]]%lookup_app_Some; apply lookup_replicate in H as [-> _]; auto. }
  cbn zeta. split_and!.
  - split; [| done]. by intros t p [-> | ->]%Hpc.
  - split; [| done]. by intros t p [-> | ->]%Hpc.
  - unfold counted, flag_start. cbn [threads shared logged warned]. rewrite !sum_list_with_app. rewrite !Hrep. cbn. lia.
  - unfold flag_start. cbn [threads]. rewrite !sum_list_with_app, !Hrep. cbn. lia.
  - unfold flag_start. cbn [threads]. rewrite !sum_list_with_app, !Hrep. cbn. lia.
Qed.
Lemma sum_le (f g : pc → nat) l : (∀ p, p ∈ l → (f p ≤ g p)%nat) → (sum_list_with f l ≤ sum_list_with g l)%nat.
Proof.
  induction l as [|p l IH]; intros H; cbn; [done |].
  pose proof (H p (list_elem_of_here _ _)). assert (sum_list_with f l ≤ sum_list_with g l)%nat; [| lia].
  apply IH. intros q Hq. apply H. by apply list_elem_of_further.
Qed.
Lemma act_moves_flag t p f : done_pc p = false → flag_lock f = None ∨ critical p = true → is_Some (act t p f).
Proof.
  intros Hd Hl. apply is_Some_alt. destruct p; cbn in *; unfold acquire; try done; by destruct Hl as [->|?].
Qed.

(** ** Properties *)

(** A warning is given once: among threads that warn and threads that reset, in
    any interleaving, it is logged at most once more than it is reset - once
    when nobody resets - and at least once when all are done; threads that
    cannot move any further are done. *)
Theorem warned_once m r schedule s :
  warn_run schedule (flag_start m r) = Some s →
  (logged (shared s) ≤ r + 1)%nat
  ∧ (Forall (λ p, done_pc p = true) (threads s) → (1 ≤ m)%nat → (1 ≤ logged (shared s))%nat)
  ∧ ((∀ t, step act t s = None) → Forall (λ p, done_pc p = true) (threads s)).
Proof.
  intros Hrun. destruct (flag_start_ok m r) as [Hstart Hsums].
  pose (I s := (owned critical flag_lock s ∧ local at_flag (λ _, True) s)
               ∧ counted s ∧ total warner s = m ∧ total resetter s = r).
  assert (I s) as [[Hown _] [(Hle & _ & Hge) [Hm Hr]]].
  { apply (schedule_preserves act I schedule) with (s := flag_start m r); [| by split | done].
    intros t s1 s2 [[Ho Hl] (Hc & Hm & Hr)] Hs.
    destruct (act_counted t s1 s2 Hl Hc Hs) as (Hc' & Hm' & Hr'). split; [| by rewrite Hm', Hr'].
    split; [by eapply step_owned; [apply flag_lock_ok | ..] |].
    eapply (step_local act critical flag_lock); [apply flag_local_ok | done | done | done]. }
  split_and!.
  - assert (total cleared s ≤ total resetter s)%nat by (apply sum_le; intros [] _; cbn; lia).
    destruct (warned (shared s)); lia.
  - intros Hdone Hm1. rewrite Forall_forall in Hdone.
    assert (total warner s ≤ total passed s)%nat.
    { apply sum_le. intros p Hp. specialize (Hdone p Hp). destruct p; cbn in *; try done; lia. }
    assert (total due s ≤ sum_list_with (λ _, 0%nat) (threads s))%nat as Hdue.
    { apply sum_le. intros p Hp. specialize (Hdone p Hp). by destruct p. }
    assert (∀ l : list pc, sum_list_with (λ _, 0%nat) l = 0%nat) as Hz by (by induction l). rewrite Hz in Hdue. lia.
  - intros Hstuck. apply Forall_lookup_2. intros t p Hp. destruct (done_pc p) eqn:Hd; [done |].
    destruct (not_stuck act critical flag_lock done_pc s) as [u [? Hu]];
      [by intros [] | apply act_moves_flag | done | by eexists _, _ | by rewrite Hstuck in Hu].
Qed.

Module OneShotExamples.
(** Two threads warn; the second looks while the first holds the lock. *)
Example two_warners : (logged ∘ shared) <$> warn_run [0; 0; 0; 0; 1; 0; 1; 1] (flag_start 2 0) = Some 1.
Proof. reflexivity. Qed.
(** A reset between the two: both are logged. *)
Example reset_between :
  (logged ∘ shared) <$> warn_run [0; 0; 0; 0; 0; 2; 2; 2; 1; 1; 1; 1; 1] (flag_start 2 1) = Some 2.
Proof. reflexivity. Qed.
End OneShotExamples.
