(* ===== verification/PyValues.v ===== *)
(** * PyValues: Python's operations on JSON-like values

    What the program applies to values read from a document: truth tests,
    [str], [int], [dict.get], subscripts and iteration. *)
From S2P Require Import Prelude Dict Json.

Definition AttributeError (msg : string) : exn := OtherException "AttributeError" msg.
(** [json.JSONDecodeError], a [ValueError]. *)
Definition JSONDecodeError : exn := ValueError "JSONDecodeError".

Definition py_type_name (j : json) : string :=
  match j with
  | JNull => "NoneType" | JBool _ => "bool" | JInt _ => "int" | JStr _ => "str"
  | JArr _ => "list" | JObj _ => "dict"
  end.

(** [bool(x)]. *)
Definition py_truthy (j : json) : bool :=
  match j with
  | JNull => false
  | JBool b => b
  | JInt z => int_truthy z
  | JStr s => str_truthy s
  | JArr l => match l with [] => false | _ => true end
  | JObj l => match l with [] => false | _ => true end
  end.

(** [x or d], where [x] may be a missing key's [None]. *)
Definition py_or (x : option json) (d : json) : json :=
  match x with Some j => if py_truthy j then j else d | None => d end.

(** [repr] of a string: the quote is a double quote when the string has single
    quotes only. *)
Definition squote : ascii := "039".
Fixpoint str_has (c : ascii) (s : string) : bool :=
  match s with "" => false | String d s' => Ascii.eqb c d || str_has c s' end.
Definition printable (c : ascii) : bool :=
  let n := code c in
  ((32 <=? n) && (n <=? 126) || (161 <=? n) && negb (n =? 173))%nat.
Definition repr_char (q c : ascii) : string :=
  if Ascii.eqb c q || Ascii.eqb c bslash then String bslash (String c "")
  else if Ascii.eqb c "009" then "\t"
  else if Ascii.eqb c "010" then "\n"
  else if Ascii.eqb c "013" then "\r"
  else if printable c then String c ""
  else "\x" +:+ String (hex_digit (code c / 16)) (String (hex_digit (code c mod 16)) "").
Fixpoint repr_chars (q : ascii) (s : string) : string :=
  match s with "" => "" | String c s' => repr_char q c +:+ repr_chars q s' end.
Definition repr_str (s : string) : string :=
  let q := if str_has squote s && negb (str_has dquote s) then dquote else squote in
  String q "" +:+ repr_chars q s +:+ String q "".

Fixpoint py_repr (j : json) : string :=
  match j with
  | JNull => "None"
  | JBool b => if b then "True" else "False"
  | JInt z => str_of_Z z
  | JStr s => repr_str s
  | JArr l => "[" +:+ join ", " (map py_repr l) +:+ "]"
  | JObj l => "{" +:+ join ", " (map (λ kv, repr_str kv.1 +:+ ": " +:+ py_repr kv.2) l) +:+ "}"
  end.

(** [str(x)]. *)
Definition py_str (j : json) : string := match j with JStr s => s | _ => py_repr j end.

(** [str.strip()] with no argument. *)
Definition py_space (c : ascii) : bool :=
  let n := code c in
  ((9 <=? n) && (n <=? 13) || (28 <=? n) && (n <=? 32) || (n =? 133) || (n =? 160))%nat.
Fixpoint str_rev (s acc : string) : string :=
  match s with "" => acc | String c s' => str_rev s' (String c acc) end.
Fixpoint lstrip (s : string) : string :=
  match s with String c s' => if py_space c then lstrip s' else s | "" => "" end.
Definition strip (s : string) : string := str_rev (lstrip (str_rev (lstrip s) "")) "".

(** [str.lower()]. *)
Definition lower_char (c : ascii) : ascii :=
  let n := code c in
  if ((65 <=? n) && (n <=? 90) || (192 <=? n) && (n <=? 222) && negb (n =? 215))%nat
  then ascii_of_nat (n + 32) else c.
Fixpoint lower (s : string) : string :=
  match s with "" => "" | String c s' => String (lower_char c) (lower s') end.

(** [int(s)]: digits with single underscores between them. *)
Fixpoint int_digits (s : string) (acc : Z) (after_digit : bool) : option Z :=
  match s with
  | "" => if after_digit then Some acc else None
  | String c s' =>
      if is_digit c then int_digits s' (acc * 10 + Z.of_nat (code c - 48)) true
      else if Ascii.eqb c "_" && after_digit then int_digits s' acc false
      else None
  end.
Definition int_of_str (s : string) : option Z :=
  match strip s with
  | String "-" s' => Z.opp <$> int_digits s' 0 false
  | String "+" s' => int_digits s' 0 false
  | s' => int_digits s' 0 false
  end.

(** [int(x)]. *)
Definition py_int (j : json) : outcome Z :=
  match j with
  | JInt z => Ret z
  | JBool b => Ret (if b then 1 else 0)%Z
  | JStr s =>
      match int_of_str s with
      | Some z => Ret z
      | None => Raise (ValueError ("invalid literal for int() with base 10: " +:+ repr_str s))
      end
  | _ => Raise (TypeError ("int() argument must be a string, a bytes-like object or a real number, not '"
                 +:+ py_type_name j +:+ "'"))
  end.

(** [x.get(key)]: dicts only. *)
Definition py_get (j : json) (key : string) : outcome (option json) :=
  match j with
  | JObj l => Ret (dict_get key l)
  | _ => Raise (AttributeError ("'" +:+ py_type_name j +:+ "' object has no attribute 'get'"))
  end.

(** [x[key]] on a dict. *)
Definition py_item (j : json) (key : string) : outcome json :=
  match j with
  | JObj l => match dict_get key l with Some v => Ret v | None => Raise (KeyError key) end
  | _ => Raise (TypeError ("'" +:+ py_type_name j +:+ "' object is not subscriptable"))
  end.

(** [for y in x]. *)
Definition py_iter (j : json) : outcome (list json) :=
  match j with
  | JArr l => Ret l
  | JObj l => Ret (map (λ kv, JStr kv.1) l)
  | JStr s => Ret (map (λ c, JStr (String c "")) (String.list_ascii_of_string s))
  | _ => Raise (TypeError ("'" +:+ py_type_name j +:+ "' object is not iterable"))
  end.

Example repr_ex : py_repr (JArr [JBool true; JStr "a"; JObj [("k", JInt (-3)%Z)]])
  = "[True, 'a', {'k': -3}]".
Proof. reflexivity. Qed.
Example int_ex : int_of_str " -1_000 " = Some (-1000)%Z.
Proof. reflexivity. Qed.
