(* ===== verification/Payload.v ===== *)
(** * Payload: workflows as JSON data

    [Job._workflows_payload] and [Job._workflows_from_payload] of
    [src/pypepper/scheduler/job.py].  A workflow is the list of its tasks.
    Rebuilding draws ids and resolves executors, so it is a computation on a
    world [W]. *)
From S2P Require Import Prelude Dict Json PyValues Context Task.

Definition tag_payload (tag : Tag) : json :=
  JObj [("key", JStr (tag_key tag)); ("value", JStr (tag_value tag))].

(** The dict of one task, [None] when it has no [executor_id]. *)
Definition task_payload (task : Task) : option json :=
  match t_executor_id task with
  | Some executor_id =>
      if negb (str_truthy executor_id) then None
      else Some (JObj
        [("id", JStr (t_id task));
         ("channel_id", JStr (t_channel_id task));
         ("dag_id", JStr (t_dag_id task));
         ("fingerprint", JStr (t_fingerprint task));
         ("name", JStr (t_name task));
         ("category", JStr (t_category task));
         ("description", JStr (t_description task));
         ("tags", JArr (map tag_payload (t_tags task)));
         ("executor_id", JStr executor_id);
         ("round_timeout", JInt (t_round_timeout task));
         ("round_timeout_join", JInt (t_round_timeout_join task));
         ("round_times", JInt (t_round_times task));
         ("version", JInt (t_version task));
         ("retry_count", JInt (t_retry_count task));
         ("retry_delay", JInt (t_retry_delay task));
         ("retry_until_completed", JBool (t_retry_until_completed task));
         ("retry_until_max", JInt (t_retry_until_max task));
         ("optional", JBool (t_optional task))])
  | None => None
  end.

(** [Job._workflows_payload()]. *)
Definition _workflows_payload (workflows : list (list Task)) : option (dict json) :=
  match workflows with
  | [] => None
  | _ =>
      workflows_out ← mapM (λ workflow,
        tasks_out ← mapM task_payload workflow; Some (JObj [("tasks", JArr tasks_out)])) workflows;
      Some [("workflows", JArr workflows_out)]
  end.

(** [[f(x) for x in l]] for an [f] with effects. *)
Fixpoint m_map {W A B} (f : A → M W B) (l : list A) : M W (list B) :=
  match l with
  | [] => m_ret []
  | x :: l' => let* y := f x in let* ys := m_map f l' in m_ret (y :: ys)
  end.

Section Payload.
Context {W : Type} (next_uuid : M W string) (resolve : string → M W nat).

(** [str(spec[key])], [str(spec.get(key) or d)], [int(spec.get(key) or d)],
    [bool(spec.get(key) or False)]. *)
Definition item_str (spec : json) (key : string) : M W string :=
  let* v := m_of_outcome (py_item spec key) in m_ret (py_str v).
Definition get_or (spec : json) (key : string) (d : json) : M W json :=
  let* v := m_of_outcome (py_get spec key) in m_ret (py_or v d).
Definition get_int (spec : json) (key : string) (d : Z) : M W Z :=
  let* v := get_or spec key (JInt d) in m_of_outcome (py_int v).
Definition get_bool (spec : json) (key : string) : M W bool :=
  let* v := get_or spec key (JBool false) in m_ret (py_truthy v).

(** [Tag(key=str(t.get("key", "")), value=str(t.get("value", "")))]. *)
Definition tag_from (t : json) : M W Tag :=
  let* k := m_of_outcome (py_get t "key") in
  let* v := m_of_outcome (py_get t "value") in
  m_ret (mkTag (py_str (default (JStr "") k)) (py_str (default (JStr "") v))).

(** One task of the payload. *)
Definition task_from (spec : json) : M W Task :=
  let* executor_id := m_of_outcome (py_get spec "executor_id") in
  let executor_id := default JNull executor_id in
  if negb (py_truthy executor_id) then m_raise (ValueError "payload task missing executor_id")
  else
    let* tag_specs := get_or spec "tags" (JArr []) in
    let* tag_specs := m_of_outcome (py_iter tag_specs) in
    let* tags := m_map tag_from tag_specs in
    let* channel_id := item_str spec "channel_id" in
    let* dag_id := item_str spec "dag_id" in
    let* fingerprint := item_str spec "fingerprint" in
    let* name := item_str spec "name" in
    let* category := item_str spec "category" in
    let* description := get_or spec "description" (JStr "") in
    let* executor := resolve (py_str executor_id) in
    let* round_timeout := get_int spec "round_timeout" 0 in
    let* round_timeout_join := get_int spec "round_timeout_join" 0 in
    let* round_times := get_int spec "round_times" 1 in
    let* version := get_int spec "version" 1 in
    let* retry_count := get_int spec "retry_count" 0 in
    let* retry_delay := get_int spec "retry_delay" 0 in
    let* retry_until_completed := get_bool spec "retry_until_completed" in
    let* retry_until_max := get_int spec "retry_until_max" 1000 in
    let* optional := get_bool spec "optional" in
    let* task := Task_new next_uuid channel_id dag_id fingerprint name category
        (py_str description) tags (Some executor) round_timeout round_times version retry_count
        retry_delay retry_until_completed retry_until_max optional (Some (py_str executor_id))
        round_timeout_join in
    let* id := m_of_outcome (py_get spec "id") in
    let id := default JNull id in
    if py_truthy id then m_ret (with_id (py_str id) task) else m_ret task.

(** One workflow of the payload. *)
Definition workflow_from (wf_spec : json) : M W (list Task) :=
  let* specs := get_or wf_spec "tasks" (JArr []) in
  let* specs := m_of_outcome (py_iter specs) in
  m_map task_from specs.

(** [Job._workflows_from_payload(payload)]. *)
Definition _workflows_from_payload (payload : dict json) : M W (list (list Task)) :=
  let* specs := get_or (JObj payload) "workflows" (JArr []) in
  let* specs := m_of_outcome (py_iter specs) in
  m_map workflow_from specs.

(** ** Round trip *)

(** What a task is after the round trip: everything but the executor object
    and the context, which are the resolved and a fresh one; a [version] of 0,
    which the constructor allows, comes back as 1. *)
Definition rebuilt (t t' : Task) : Prop :=
  ∃ executor c,
    t' = mkTask (t_channel_id t) (t_dag_id t) (t_fingerprint t) (t_name t) (t_category t)
      (t_description t) (t_tags t) (Some executor) (t_executor_id t) (t_round_timeout t)
      (t_round_timeout_join t) (t_round_times t)
      (if int_truthy (t_version t) then t_version t else 1) (t_retry_count t) (t_retry_delay t)
      (t_retry_until_completed t) (t_retry_until_max t) (t_optional t) (t_id t) c.

Definition with_task_version (v : Z) (t : Task) : Task :=
  mkTask (t_channel_id t) (t_dag_id t) (t_fingerprint t) (t_name t) (t_category t)
    (t_description t) (t_tags t) (t_executor t) (t_executor_id t) (t_round_timeout t)
    (t_round_timeout_join t) (t_round_times t) v (t_retry_count t) (t_retry_delay t)
    (t_retry_until_completed t) (t_retry_until_max t) (t_optional t) (t_id t) (t_context t).
(** The same task but for the executor object and the context. *)
Definition same_task (t t' : Task) : Prop :=
  ∃ executor c,
    t' = mkTask (t_channel_id t) (t_dag_id t) (t_fingerprint t) (t_name t) (t_category t)
      (t_description t) (t_tags t) (Some executor) (t_executor_id t) (t_round_timeout t)
      (t_round_timeout_join t) (t_round_times t) (t_version t) (t_retry_count t) (t_retry_delay t)
      (t_retry_until_completed t) (t_retry_until_max t) (t_optional t) (t_id t) c.

Lemma rebuilt_same t t' : rebuilt t t' → t_version t ≠ 0%Z → same_task t t'.
Proof.
  intros (x & c & ->) Hv. exists x, c. unfold int_truthy.
  by destruct (Z.eqb_spec (t_version t) 0).
Qed.
Lemma rebuilt_zero t t' :
  rebuilt t t' → t_version t = 0%Z → t_version t' = 1%Z ∧ same_task t (with_task_version 0 t').
Proof.
  intros (x & c & ->) Hv. rewrite Hv. split; [done |]. exists x, c. by rewrite Hv.
Qed.
Lemma rebuilt_all_same wfs wfs' :
  Forall2 (Forall2 rebuilt) wfs wfs' → Forall (Forall (λ t, t_version t ≠ 0%Z)) wfs →
  Forall2 (Forall2 same_task) wfs wfs'.
Proof.
  induction 1 as [|ts ts' wfs wfs' Hts _ IH]; intros Hv; [constructor |].
  apply Forall_cons in Hv as [Hv Hv']. constructor; [| by apply IH]. clear IH Hv'.
  induction Hts as [|t t' ts ts' Ht _ IH]; [constructor |]. apply Forall_cons in Hv as [Hv Hv'].
  constructor; [by apply rebuilt_same | by apply IH].
Qed.

(** A task that a payload can carry: the constructor accepted its settings, its
    id is not empty and it names an executor. *)
Definition portable (t : Task) : Prop :=
  task_ok t ∧ t_id t ≠ "" ∧ ∃ e, t_executor_id t = Some e ∧ e ≠ "".

Lemma task_payload_portable t : portable t → ∃ j, task_payload t = Some j.
Proof.
  intros (_ & _ & e & He & Hne). unfold task_payload. rewrite He.
  destruct (str_truthy e) eqn:E; [by eexists |]. by apply str_truthy_false in E.
Qed.

Lemma m_map_ret {A B} (f : A → M W B) (g : A → B) l w :
  (∀ x w, x ∈ l → f x w = (Ret (g x), w)) → m_map f l w = (Ret (map g l), w).
Proof.
  induction l as [|x l IH]; intros H; [done |]. cbn [m_map]. unfold m_bind.
  rewrite (H x w) by left. rewrite IH; [done |]. intros y w' Hy. apply H. by right.
Qed.

Lemma m_map_Forall2 {A B} (I : W → Prop) (R : A → B → Prop) (f : A → M W B) l w :
  I w → (∀ x w, x ∈ l → I w → ∃ y w', f x w = (Ret y, w') ∧ I w' ∧ R x y) →
  ∃ ys w', m_map f l w = (Ret ys, w') ∧ I w' ∧ Forall2 R l ys.
Proof.
  revert w. induction l as [|x l IH]; intros w Hw H; [by exists [], w |]. cbn [m_map].
  destruct (H x w) as (y & w1 & Hy & Hw1 & HR); [by left | done |].
  destruct (IH w1 Hw1) as (ys & w2 & Hys & Hw2 & HRs); [intros z wz Hz; apply H; by right |].
  exists (y :: ys), w2. unfold m_bind. rewrite Hy, Hys. split_and!; [done | done | by constructor].
Qed.

Lemma tags_from tags w : m_map tag_from (map tag_payload tags) w = (Ret tags, w).
Proof.
  induction tags as [|[k v] tags IH]; [done |]. cbn [map m_map]. unfold m_bind at 1.
  change (tag_from (tag_payload (mkTag k v)) w) with (@Ret Tag (mkTag k v), w).
  unfold m_bind. by rewrite IH.
Qed.

Lemma or_int (z d : Z) : (z = 0 → d = 0)%Z → py_or (Some (JInt z)) (JInt d) = JInt z.
Proof. unfold py_or, py_truthy, int_truthy. destruct (Z.eqb_spec z 0) as [->|]; cbn; [| done]. by intros ->. Qed.
Lemma or_bool b : py_truthy (py_or (Some (JBool b)) (JBool false)) = b.
Proof. by destruct b. Qed.
Lemma or_str s : py_str (py_or (Some (JStr s)) (JStr "")) = s.
Proof. by destruct s. Qed.
Lemma or_tags tags :
  py_iter (py_or (Some (JArr (map tag_payload tags))) (JArr [])) = Ret (map tag_payload tags).
Proof. by destruct tags. Qed.
Lemma py_item_of_get j k v : py_get j k = Ret (Some v) → py_item j k = Ret v.
Proof. destruct j; simpl; try done. by intros [= ->]. Qed.
Lemma or_version z :
  py_int (py_or (Some (JInt z)) (JInt 1)) = Ret (if int_truthy z then z else 1%Z).
Proof. unfold py_or. cbn [py_truthy]. by destruct (int_truthy z). Qed.

(** Drawing ids and resolving the registered executors [E] succeed in the
    worlds [I], and stay there. *)
Context (I : W → Prop) (E : string → Prop).
Context (uuid_total : ∀ w, I w → ∃ s w', next_uuid w = (Ret s, w') ∧ I w').
Context (resolve_total : ∀ e w, I w → E e → ∃ x w', resolve e w = (Ret x, w') ∧ I w').

Lemma task_new_total a b c d e f tags x rt rn v rc rd ru rm o eid rj w :
  I w → task_check rt rj rn rc rd rm = None →
  ∃ id cid w', Task_new next_uuid a b c d e f tags x rt rn v rc rd ru rm o eid rj w
    = (Ret (mkTask a b c d e f tags x eid rt rj rn v rc rd ru rm o id (ctx_new (Some cid) None)), w')
    ∧ I w'.
Proof.
  intros Hw H. unfold Task_new. rewrite H. unfold m_bind.
  destruct (uuid_total w Hw) as (id & w1 & E1 & Hw1). rewrite E1.
  destruct (uuid_total w1 Hw1) as (cid & w2 & E2 & Hw2). rewrite E2. by exists id, cid, w2.
Qed.

(** The fields of a task's dict, by computation. *)
Ltac pose_fields spec t e :=
  let go k v := (assert (py_get spec k = Ret (Some v)) by reflexivity) in
  go "id" (JStr (t_id t)); go "channel_id" (JStr (t_channel_id t));
  go "dag_id" (JStr (t_dag_id t)); go "fingerprint" (JStr (t_fingerprint t));
  go "name" (JStr (t_name t)); go "category" (JStr (t_category t));
  go "description" (JStr (t_description t)); go "tags" (JArr (map tag_payload (t_tags t)));
  go "executor_id" (JStr e); go "round_timeout" (JInt (t_round_timeout t));
  go "round_timeout_join" (JInt (t_round_timeout_join t));
  go "round_times" (JInt (t_round_times t)); go "version" (JInt (t_version t));
  go "retry_count" (JInt (t_retry_count t)); go "retry_delay" (JInt (t_retry_delay t));
  go "retry_until_completed" (JBool (t_retry_until_completed t));
  go "retry_until_max" (JInt (t_retry_until_max t)); go "optional" (JBool (t_optional t)).
Ltac rewrite_fields :=
  repeat match goal with
  | H : py_get ?spec ?k = Ret (Some ?v), Hi : ∀ k v, py_get ?spec k = _ → _ |- _ =>
      try rewrite H; try rewrite (Hi k v H); clear H
  end.

Lemma task_from_payload t j w :
  I w → portable t → task_payload t = Some j → (∀ e, t_executor_id t = Some e → E e) →
  ∃ t' w', task_from j w = (Ret t', w') ∧ I w' ∧ rebuilt t t'.
Proof.
  intros Hw (Hok & Hid & e & He & Hne) Hj Hres. unfold task_payload in Hj. rewrite He in Hj.
  assert (str_truthy e = true) as Het by by apply str_truthy_true.
  rewrite Het in Hj. injection Hj as <-.
  destruct (resolve_total e w Hw (Hres e He)) as (x & w1 & Ex & Hw1).
  match goal with |- context [task_from (JObj ?l)] => set (spec := JObj l) end.
  assert (∀ k v, py_get spec k = Ret (Some v) → py_item spec k = Ret v) as Hitem.
  { intros k v. apply py_item_of_get. }
  pose_fields spec t e; clearbody spec.
  unfold task_from, item_str, get_int, get_bool, get_or, m_bind, m_of_outcome, m_ret.
  rewrite_fields. unfold default, from_option, id.
  cbn [py_truthy py_str negb]. rewrite Het. cbn [negb].
  rewrite or_tags, tags_from, Ex, or_str, !or_bool, !or_version.
  destruct Hok as (H1 & H2 & H3 & H4 & H5 & H6).
  rewrite !or_int by lia. cbn [py_int].
  replace (if int_truthy (t_round_times t) then t_round_times t else 1%Z) with (t_round_times t)
    by (unfold int_truthy; by destruct (Z.eqb_spec (t_round_times t) 0); [lia |]).
  match goal with |- context [Task_new _ ?a ?b ?c ?d ?e ?f ?tags ?x ?rt ?rn ?v ?rc ?rd ?ru ?rm ?o ?eid ?rj ?w] =>
    destruct (task_new_total a b c d e f tags x rt rn v rc rd ru rm o eid rj w) as (id & cid & w2 & E2 & Hw2); [exact Hw1 | apply task_check_None; lia |] end.
  rewrite E2. assert (str_truthy (t_id t) = true) as -> by by apply str_truthy_true.
  eexists _, w2. split; [done |]. split; [done |]. unfold rebuilt. exists x, (ctx_new (Some cid) None).
  unfold with_id. cbn. by rewrite He.
Qed.

Definition registered (t : Task) : Prop := ∀ e, t_executor_id t = Some e → E e.

Lemma m_map_payload {A} (pl : A → option json) (f : json → M W A) (R : A → A → Prop) l js w :
  mapM pl l = Some js → I w →
  (∀ x j w, x ∈ l → pl x = Some j → I w → ∃ y w', f j w = (Ret y, w') ∧ I w' ∧ R x y) →
  ∃ ys w', m_map f js w = (Ret ys, w') ∧ I w' ∧ Forall2 R l ys.
Proof.
  revert js w. induction l as [|x l IH]; intros js w Hjs Hw H; cbn in Hjs.
  { injection Hjs as <-. by exists [], w. }
  destruct (pl x) as [j|] eqn:Hj; [| done]. cbn in Hjs.
  destruct (mapM pl l) as [js'|] eqn:Hl; [| done]. cbn in Hjs. injection Hjs as <-.
  destruct (H x j w) as (y & w1 & Hy & Hw1 & HR); [by left | done.. |].
  destruct (IH js' w1 eq_refl Hw1) as (ys & w2 & Hys & Hw2 & HRs).
  { intros z jz wz Hz. apply H. by right. }
  exists (y :: ys), w2. cbn [m_map]. unfold m_bind. rewrite Hy, Hys.
  split_and!; [done | done | by constructor].
Qed.

Definition workflow_payload (workflow : list Task) : option json :=
  tasks_out ← mapM task_payload workflow; Some (JObj [("tasks", JArr tasks_out)]).

Lemma or_list l : py_iter (py_or (Some (JArr l)) (JArr [])) = Ret l.
Proof. by destruct l. Qed.

Lemma workflow_from_payload wf j w :
  I w → Forall portable wf → Forall registered wf → workflow_payload wf = Some j →
  ∃ wf' w', workflow_from j w = (Ret wf', w') ∧ I w' ∧ Forall2 rebuilt wf wf'.
Proof.
  intros Hw Hp Hr Hj. unfold workflow_payload in Hj.
  destruct (mapM task_payload wf) as [js|] eqn:Hjs; [| done]. injection Hj as <-.
  unfold workflow_from, get_or, m_bind, m_of_outcome, m_ret.
  change (py_get (JObj [("tasks", JArr js)]) "tasks") with (@Ret (option json) (Some (JArr js))).
  cbv beta iota. rewrite or_list. eapply m_map_payload; [done.. |]. intros t j w1 Ht Hj Hw1.
  rewrite Forall_forall in Hp, Hr. exact (task_from_payload t j w1 Hw1 (Hp t Ht) Hj (Hr t Ht)).
Qed.

(** A job's workflows come back from their payload. *)
Lemma workflows_from_payload wfs payload w :
  I w → Forall (Forall portable) wfs → Forall (Forall registered) wfs →
  _workflows_payload wfs = Some payload →
  ∃ wfs' w', _workflows_from_payload payload w = (Ret wfs', w') ∧ I w'
    ∧ Forall2 (Forall2 rebuilt) wfs wfs'.
Proof.
  intros Hw Hp Hr Hpl. unfold _workflows_payload in Hpl. destruct wfs as [|wf wfs]; [done |].
  fold workflow_payload in Hpl.
  destruct (mapM workflow_payload (wf :: wfs)) as [js|] eqn:Hjs; [| done]. injection Hpl as <-.
  unfold _workflows_from_payload, get_or, m_bind, m_of_outcome, m_ret.
  change (py_get (JObj [("workflows", JArr js)]) "workflows")
    with (@Ret (option json) (Some (JArr js))).
  cbv beta iota. rewrite or_list. eapply m_map_payload; [done.. |]. intros wf1 j w1 Hin Hj Hw1.
  rewrite Forall_forall in Hp, Hr. exact (workflow_from_payload wf1 j w1 Hw1 (Hp _ Hin) (Hr _ Hin) Hj).
Qed.
End Payload.

(** ** The payload is JSON *)
Lemma dicts_ok_arr l : Forall dicts_ok l → dicts_ok (JArr l).
Proof. simpl. induction 1; simpl; auto. Qed.
Lemma mapM_Forall {A B} (f : A → option B) (P : B → Prop) l ys :
  mapM f l = Some ys → (∀ x y, f x = Some y → P y) → Forall P ys.
Proof.
  intros H%mapM_Some Hf. induction H; constructor; eauto.
Qed.

Lemma task_payload_ok t j : task_payload t = Some j → dicts_ok j.
Proof.
  unfold task_payload. destruct (t_executor_id t) as [e|]; [| done].
  destruct (negb _); [done |]. intros [= <-]. simpl. split.
  - by apply (bool_decide_unpack _).
  - split_and!; try done. induction (t_tags t) as [|[k v] tags IH]; simpl; [done |].
    split; [| done]. split; [by apply (bool_decide_unpack _) | done].
Qed.

Lemma workflows_payload_ok wfs payload :
  _workflows_payload wfs = Some payload → dicts_ok (JObj payload).
Proof.
  unfold _workflows_payload. destruct wfs as [|wf wfs]; [done |]. fold workflow_payload.
  destruct (mapM workflow_payload (wf :: wfs)) as [js|] eqn:Hjs; [| done]. intros [= <-].
  split; [by apply (bool_decide_unpack _) |]. split; [| done].
  apply dicts_ok_arr. eapply mapM_Forall; [done |]. intros w j.
  unfold workflow_payload. destruct (mapM task_payload w) as [js'|] eqn:Hjs'; [| done].
  intros [= <-]. split; [by apply (bool_decide_unpack _) |]. split; [| done].
  apply dicts_ok_arr. eapply mapM_Forall; [done |]. apply task_payload_ok.
Qed.

Lemma workflows_payload_Some wfs :
  wfs ≠ [] → Forall (Forall portable) wfs → is_Some (_workflows_payload wfs).
Proof.
  intros Hne Hp. unfold _workflows_payload. destruct wfs as [|wf wfs]; [done |].
  fold workflow_payload. set (l := wf :: wfs) in *. clearbody l.
  destruct (mapM_is_Some_2 workflow_payload l) as [js ->]; [| by eexists].
  eapply Forall_impl; [exact Hp |]. intros ts Hts. unfold compose, workflow_payload.
  destruct (mapM_is_Some_2 task_payload ts) as [js' ->]; [| by eexists].
  eapply Forall_impl; [exact Hts |]. intros t Ht. by apply task_payload_portable.
Qed.

(** A workflow with a task that names no executor has no snapshot. *)
Definition nameless (t : Task) : Prop := default "" (t_executor_id t) = "".
Lemma task_payload_nameless t : nameless t → task_payload t = None.
Proof. unfold nameless, task_payload. by destruct (t_executor_id t) as [e|]; cbn; [intros -> |]. Qed.
Lemma mapM_None {A B} (f : A → option B) l : Exists (λ x, f x = None) l → mapM f l = None.
Proof.
  induction 1 as [x l H|x l _ IH]; cbn [mapM]; [by rewrite H |]. rewrite IH. by destruct (f x).
Qed.
Lemma workflows_payload_nameless wfs :
  Exists (Exists nameless) wfs → _workflows_payload wfs = None.
Proof.
  intros H. unfold _workflows_payload. fold workflow_payload.
  rewrite (mapM_None workflow_payload wfs); [by destruct wfs |].
  eapply Exists_impl; [exact H |]. intros ts Hts. unfold workflow_payload.
  rewrite mapM_None; [done |]. eapply Exists_impl; [exact Hts | apply task_payload_nameless].
Qed.

(** The snapshot of the same data is the same snapshot. *)
Lemma same_payload wfs wfs' :
  Forall2 (Forall2 same_task) wfs wfs' → _workflows_payload wfs' = _workflows_payload wfs.
Proof.
  intros H. unfold _workflows_payload. fold workflow_payload.
  assert (mapM workflow_payload wfs' = mapM workflow_payload wfs) as Hm.
  { induction H as [|wf wf' l l' Hwf _ IH]; [done |]. cbn [mapM]. rewrite IH.
    enough (workflow_payload wf' = workflow_payload wf) as -> by done. unfold workflow_payload.
    enough (mapM task_payload wf' = mapM task_payload wf) as -> by done.
    induction Hwf as [|t t' ts ts' (x & c & ->) _ IHt]; [done |]. cbn [mapM]. by rewrite IHt. }
  rewrite Hm. by destruct H.
Qed.

(** ** Properties *)

(** C25: a job's workflows survive their snapshot, up to a task version of 0.
    Workflows whose tasks all have an [executor_id] and an id have a payload; the
    payload is unchanged by writing it as JSON text and reading it back; and
    rebuilding from it, in any world where the executors are registered, gives
    as many workflows of as many tasks, in order.  Each task is the one it was,
    field by field, but for the executor object (the resolved one), the context
    (a fresh one) and a [version] of 0, which comes back as 1.  When no task has
    version 0 nothing is lost at all: the rebuilt workflows have the very
    payload they were rebuilt from. *)
Theorem payload_roundtrip {W} (next_uuid : M W string) (resolve : string → M W nat)
    (I : W → Prop) (E : string → Prop) wfs w :
  (∀ w, I w → ∃ s w', next_uuid w = (Ret s, w') ∧ I w') →
  (∀ e w, I w → E e → ∃ x w', resolve e w = (Ret x, w') ∧ I w') →
  I w → wfs ≠ [] → Forall (Forall portable) wfs → Forall (Forall (registered E)) wfs →
  ∃ payload wfs' w',
    _workflows_payload wfs = Some payload
    ∧ (∀ o, opts_ok o → loads (dump o (JObj payload)) = Some (JObj payload))
    ∧ _workflows_from_payload next_uuid resolve payload w = (Ret wfs', w')
    ∧ Forall2 (Forall2 (λ t t', t_version t ≠ 0%Z → same_task t t')) wfs wfs'
    ∧ Forall2 (Forall2 (λ t t', t_version t = 0%Z →
        t_version t' = 1%Z ∧ same_task t (with_task_version 0 t'))) wfs wfs'
    ∧ (Forall (Forall (λ t, t_version t ≠ 0%Z)) wfs → _workflows_payload wfs' = Some payload).
Proof.
  intros Hu Hr Hw Hne Hp Hreg. destruct (workflows_payload_Some wfs Hne Hp) as [payload Hpl].
  destruct (workflows_from_payload next_uuid resolve I E Hu Hr wfs payload w Hw Hp Hreg Hpl)
    as (wfs' & w' & Hfrom & _ & HF).
  exists payload, wfs', w'. split_and!; [done | | done | | |].
  - intros o Ho. apply loads_dump; [done |]. by eapply workflows_payload_ok.
  - eapply Forall2_impl; [exact HF |]. intros ts ts' Hts. eapply Forall2_impl; [exact Hts |].
    apply rebuilt_same.
  - eapply Forall2_impl; [exact HF |]. intros ts ts' Hts. eapply Forall2_impl; [exact Hts |].
    apply rebuilt_zero.
  - intros Hv. rewrite <- Hpl. by apply same_payload, rebuilt_all_same.
Qed.

Module PayloadExamples.
(** A world with a counter for ids and a registry. *)
Definition world : Type := nat * Registry.
Definition fresh : M world string := λ w, (Ret (pretty w.1), (S w.1, w.2)).
Definition resolve0 : string → M world nat :=
  resolve (λ f, m_ret (f + 100)) snd.
Definition reg : Registry := {[ "mail" := SInstance 3; "build" := SFactory 4 ]}.

Definition task (id executor_id : string) (version : Z) : Task :=
  mkTask "ch" "dag" "fp" "name" "cat" "" [mkTag "k" "v"] None (Some executor_id) 2 0 1 version 3 0
    false 1000 true id (ctx_new None None).
Definition wfs : list (list Task) := [[task "t1" "mail" 1; task "t2" "build" 0]; []].

(** One task has version 1, the other version 0. *)
Lemma payload_roundtrip_witness :
  ∃ payload wfs' w',
    _workflows_payload wfs = Some payload
    ∧ (∀ o, opts_ok o → loads (dump o (JObj payload)) = Some (JObj payload))
    ∧ _workflows_from_payload fresh resolve0 payload (7, reg) = (Ret wfs', w')
    ∧ Forall2 (Forall2 (λ t t', t_version t ≠ 0%Z → same_task t t')) wfs wfs'
    ∧ Forall2 (Forall2 (λ t t', t_version t = 0%Z →
        t_version t' = 1%Z ∧ same_task t (with_task_version 0 t'))) wfs wfs'
    ∧ (Forall (Forall (λ t, t_version t ≠ 0%Z)) wfs → _workflows_payload wfs' = Some payload).
Proof.
  apply (payload_roundtrip fresh resolve0 (λ w, w.2 = reg) (λ e, e = "mail" ∨ e = "build")).
  - intros [n r] H. eexists _, _. split; [reflexivity | exact H].
  - intros e [n r] H [->| ->]; simpl in H; subst r; eexists _, _; (split; [vm_compute; reflexivity |]; reflexivity).
  - reflexivity.
  - discriminate.
  - repeat (apply List.Forall_cons || apply List.Forall_nil); repeat split; simpl; try lia; try discriminate; eexists; (split; [reflexivity | discriminate]).
  - repeat (apply List.Forall_cons || apply List.Forall_nil); intros e [= <-]; auto.
Defined.
End PayloadExamples.
