(* ===== verification/PayloadTyped.v ===== *)
(** * PayloadTyped: what is rebuilt from data nobody checked

    A payload may come from another program's row: any JSON object.
    [Job._workflows_from_payload] of [src/pypepper/scheduler/job.py] coerces it
    field by field; what it returns, when it returns, is well typed. *)
From S2P Require Import Prelude Dict Json PyValues Context Task Payload.

Lemma py_str_truthy j : py_truthy j = true → py_str j ≠ "".
Proof.
  destruct j as [|b|z|s|l|l]; cbn; try done.
  - by destruct b.
  - intros _. destruct (str_of_Z_head z) as (c & s & -> & _). done.
  - by destruct s.
Qed.

Section Typed.
Context {W : Type} (next_uuid : M W string) (resolve : string → M W nat).
Context (uuid_nonempty : ∀ w s w', next_uuid w = (Ret s, w') → s ≠ "").

(** A rebuilt task keeps the constructor's bounds, has an id, and has the executor
    that its executor id, which is not empty, was resolved to. *)
Definition typed (t : Task) : Prop :=
  portable t ∧ ∃ e x w1 w2, t_executor_id t = Some e ∧ t_executor t = Some x ∧ resolve e w1 = (Ret x, w2).

Lemma m_map_inv {A B} (f : A → M W B) (P : B → Prop) l w ys w' :
  m_map f l w = (Ret ys, w') → (∀ x w y w', f x w = (Ret y, w') → P y) → Forall P ys.
Proof.
  intros H Hf. revert w ys w' H. induction l as [|x l IH]; intros w ys w' H.
  - injection H as <- _. by apply Forall_nil.
  - apply bind_ret_inv in H as (y & w1 & H1 & H). apply bind_ret_inv in H as (ys' & w2 & H2 & H).
    injection H as <- _. apply Forall_cons. split; [by eapply Hf | by eapply IH].
Qed.

Lemma Task_new_inv a b c d e f tags x rt rn v rc rd ru rm o eid rj w t w' :
  Task_new next_uuid a b c d e f tags x rt rn v rc rd ru rm o eid rj w = (Ret t, w') →
  task_ok t ∧ t_id t ≠ "" ∧ t_executor_id t = eid ∧ t_executor t = x.
Proof using uuid_nonempty.
  unfold Task_new. destruct (task_check _ _ _ _ _ _) eqn:Hc; [done |]. apply task_check_None in Hc.
  intros (id & w1 & H1 & H)%bind_ret_inv. apply bind_ret_inv in H as (cid & w2 & _ & H).
  injection H as <- _. split_and!; [unfold task_ok; cbn; lia | by eapply uuid_nonempty | done | done].
Qed.

Lemma task_from_typed spec w t w' : task_from next_uuid resolve spec w = (Ret t, w') → typed t.
Proof using uuid_nonempty.
  unfold task_from. intros (eid & w1 & _ & H)%bind_ret_inv.
  destruct (py_truthy (default JNull eid)) eqn:He; [| done]. cbn [negb] in H.
  do 8 (apply bind_ret_inv in H as (? & ? & _ & H)).
  apply bind_ret_inv in H as (d & wr & _ & H). apply bind_ret_inv in H as (ex & w2 & Hx & H).
  do 9 (apply bind_ret_inv in H as (? & ? & _ & H)).
  apply bind_ret_inv in H as (t0 & w3 & Ht & H). apply bind_ret_inv in H as (id & w4 & _ & H).
  apply Task_new_inv in Ht as (Hok & Hid & Heid & Hex). apply py_str_truthy in He.
  assert (∀ i, i ≠ "" → typed (with_id i t0)) as Hw.
  { intros i Hi. split; [split_and!; [done | done |]; by exists (py_str (default JNull eid)) |].
    by exists (py_str (default JNull eid)), ex, wr, w2. }
  destruct (py_truthy (default JNull id)) eqn:Hi; injection H as <- _.
  - by apply Hw, py_str_truthy.
  - split; [split_and!; [done | done |]; by exists (py_str (default JNull eid)) |].
    by exists (py_str (default JNull eid)), ex, wr, w2.
Qed.

Lemma workflows_typed payload w wfs w' :
  _workflows_from_payload next_uuid resolve payload w = (Ret wfs, w') → Forall (Forall typed) wfs.
Proof using uuid_nonempty.
  unfold _workflows_from_payload. intros (specs & w1 & _ & H)%bind_ret_inv.
  apply bind_ret_inv in H as (l & w2 & _ & H). eapply m_map_inv; [exact H |].
  intros spec u wf u' (? & ? & _ & Hwf)%bind_ret_inv. apply bind_ret_inv in Hwf as (? & ? & _ & Hwf).
  eapply m_map_inv; [exact Hwf | apply task_from_typed].
Qed.
End Typed.

Definition versioned (t : Task) : Prop := t_version t ≠ 0%Z.

(** C26: data nobody checked comes back well typed.  Whatever JSON object a
    payload is, if workflows are rebuilt from it then every task satisfies the
    bounds its constructor promises, has an id, and runs the executor that its
    non-empty executor id was resolved to; and unless there are none, the
    workflows have a payload of their own, which survives JSON text and, where
    the executors are registered and no version is 0, is its own snapshot after
    any further rebuild. *)
Theorem foreign_payload_typed {W} (next_uuid : M W string) (resolve : string → M W nat)
    (I : W → Prop) (E : string → Prop) payload w wfs w' :
  (∀ w s w', next_uuid w = (Ret s, w') → s ≠ "") →
  (∀ w, I w → ∃ s w', next_uuid w = (Ret s, w') ∧ I w') →
  (∀ e w, I w → E e → ∃ x w', resolve e w = (Ret x, w') ∧ I w') →
  _workflows_from_payload next_uuid resolve payload w = (Ret wfs, w') →
  Forall (Forall (typed resolve)) wfs
  ∧ (wfs ≠ [] → ∃ own, _workflows_payload wfs = Some own
     ∧ (∀ o, opts_ok o → loads (dump o (JObj own)) = Some (JObj own))
     ∧ (Forall (Forall (registered E)) wfs → Forall (Forall versioned) wfs →
        ∀ w1, I w1 → ∃ wfs' w2, _workflows_from_payload next_uuid resolve own w1 = (Ret wfs', w2)
          ∧ _workflows_payload wfs' = Some own)).
Proof.
  intros Hne Hu Hr H. pose proof (workflows_typed _ _ Hne _ _ _ _ H) as Ht. split; [exact Ht |].
  intros Hwfs. assert (Forall (Forall portable) wfs) as Hp.
  { eapply Forall_impl; [exact Ht |]. intros wf Hwf. eapply Forall_impl; [exact Hwf |]. by intros t []. }
  destruct (workflows_payload_Some wfs Hwfs Hp) as [own Hown]. exists own. split_and!; [done | |].
  - intros o Ho. apply loads_dump; [done |]. by eapply workflows_payload_ok.
  - intros Hreg Hv w1 Hw1.
    destruct (workflows_from_payload next_uuid resolve I E Hu Hr wfs own w1 Hw1 Hp Hreg Hown)
      as (wfs' & w2 & E2 & _ & HF).
    exists wfs', w2. split; [done |]. by rewrite (same_payload _ _ (rebuilt_all_same _ _ HF Hv)).
Qed.

(** ** A row of another program *)
Module PayloadTypedExamples.
Import PayloadExamples.
(** Texts for numbers, a number for a name, an executor id that is a number. *)
Definition foreign : dict json :=
  [("workflows", JArr [JObj [("tasks", JArr [JObj
     [("channel_id", JStr "ch"); ("dag_id", JInt 7); ("fingerprint", JNull); ("name", JBool true);
      ("category", JStr "c"); ("executor_id", JStr "mail"); ("retry_count", JStr " 1_0 ");
      ("round_times", JBool true); ("optional", JStr "no"); ("tags", JArr [JObj [("key", JInt 1)]])]])]])].
Definition next_id : M world string := λ w, (Ret ("id-" +:+ pretty w.1), (S w.1, w.2)).
Definition rebuilt_foreign : list (list Task) :=
  [[mkTask "ch" "7" "None" "True" "c" "" [mkTag "1" ""] (Some 3) (Some "mail") 0 0 1 1 10 0 false 1000 true
     "id-5" (ctx_new (Some "id-6") None)]].

Lemma foreign_payload_typed_witness :
  Forall (Forall (typed resolve0)) rebuilt_foreign
  ∧ ∃ own, _workflows_payload rebuilt_foreign = Some own
    ∧ ∃ wfs' w2, _workflows_from_payload next_id resolve0 own (9, reg) = (Ret wfs', w2)
        ∧ _workflows_payload wfs' = Some own.
Proof.
  destruct (foreign_payload_typed next_id resolve0 (λ w, w.2 = reg) (λ e, e = "mail") foreign (5, reg)
    rebuilt_foreign (7, reg)) as [Ht H].
  - by intros w s w' [= <- _].
  - intros [n r] H. eexists _, _. split; [reflexivity | exact H].
  - intros e [n r] H ->. simpl in H. subst r. eexists _, _. split; [vm_compute; reflexivity | reflexivity].
  - vm_compute. reflexivity.
  - split; [exact Ht |]. destruct H as (own & Hown & _ & H); [done |]. exists own. split; [exact Hown |].
    apply H; [| | reflexivity].
    + repeat (apply List.Forall_cons || apply List.Forall_nil). by intros e [= <-].
    + repeat (apply List.Forall_cons || apply List.Forall_nil). done.
Defined.
End PayloadTypedExamples.
