(* ===== verification/World.v ===== *)
(** * World: the objects the scheduler shares

    A process of the scheduler: its [Job] objects and the [threading.Event]s of
    their cancellation (by reference: a channel holds references to jobs, and
    an executor can reach the job it works for), the channel registry, the
    dispatcher's processors, the installed store, the deferred-store flag of the
    configuration, and everything else ([w_env]: clocks, ids, the pool, what
    executors touch).  References below [w_next] are in use; what a map holds at
    other references is never read. *)
From stdpp Require Import functions.
From S2P Require Import Prelude Dict Json Lifecycle Fsm SchedulerFsm JobStore Channel Context.
From S2P Require Import Task.

(** [class Job]: the attributes its constructor sets. *)
Record Job : Type := mkJob {
  j_id : string;
  j_category : option string;
  j_channel_id : string;
  j_context : context ctx_value;
  j_workflows : list (list Task);
  j_fsm : SFSM;
  j_status : string;
  j_created : string;
  j_updated : string;
  j_version : Z;
  j_cancel_event : nat;
}.

Definition with_fsm (f : SFSM) (j : Job) : Job :=
  mkJob (j_id j) (j_category j) (j_channel_id j) (j_context j) (j_workflows j) f (j_status j)
    (j_created j) (j_updated j) (j_version j) (j_cancel_event j).
Definition with_status (s : string) (j : Job) : Job :=
  mkJob (j_id j) (j_category j) (j_channel_id j) (j_context j) (j_workflows j) (j_fsm j) s
    (j_created j) (j_updated j) (j_version j) (j_cancel_event j).
Definition with_version (v : Z) (j : Job) : Job :=
  mkJob (j_id j) (j_category j) (j_channel_id j) (j_context j) (j_workflows j) (j_fsm j)
    (j_status j) (j_created j) (j_updated j) v (j_cancel_event j).
Definition with_updated (u : string) (j : Job) : Job :=
  mkJob (j_id j) (j_category j) (j_channel_id j) (j_context j) (j_workflows j) (j_fsm j)
    (j_status j) (j_created j) u (j_version j) (j_cancel_event j).
Definition with_contexts (c : context ctx_value) (wfs : list (list Task)) (j : Job) : Job :=
  mkJob (j_id j) (j_category j) (j_channel_id j) c wfs (j_fsm j) (j_status j)
    (j_created j) (j_updated j) (j_version j) (j_cancel_event j).
Definition with_record (id created updated : string) (version : Z) (wfs : list (list Task))
    (j : Job) : Job :=
  mkJob id (j_category j) (j_channel_id j) (j_context j) wfs (j_fsm j) (j_status j)
    created updated version (j_cancel_event j).

Record World (S X : Type) : Type := mkWorld {
  w_jobs : nat → Job;
  w_events : nat → bool;
  w_next : nat;
  w_manager : ChannelManager nat;
  w_processors : gset string;
  w_store : S;
  w_deferred : option string;
  w_in_loop : bool;
  w_env : X;
}.
#[global] Arguments mkWorld {S X}.
#[global] Arguments w_jobs {S X}.
#[global] Arguments w_events {S X}.
#[global] Arguments w_next {S X}.
#[global] Arguments w_manager {S X}.
#[global] Arguments w_processors {S X}.
#[global] Arguments w_store {S X}.
#[global] Arguments w_deferred {S X}.
#[global] Arguments w_in_loop {S X}.
#[global] Arguments w_env {S X}.

(** The clock ([arrow.utcnow]) and the id generator ([uuid.uuid4]). *)
Class Env (X : Type) : Type := {
  utcnow : X → string * X;
  uuid4 : X → string * X;
}.

Section World.
Context {S X : Type}.
Implicit Types (w : World S X).

Definition set_jobs (jobs : nat → Job) w : World S X :=
  mkWorld jobs (w_events w) (w_next w) (w_manager w) (w_processors w) (w_store w) (w_deferred w)
    (w_in_loop w) (w_env w).
Definition set_events (ev : nat → bool) w : World S X :=
  mkWorld (w_jobs w) ev (w_next w) (w_manager w) (w_processors w) (w_store w) (w_deferred w)
    (w_in_loop w) (w_env w).
Definition set_manager (m : ChannelManager nat) w : World S X :=
  mkWorld (w_jobs w) (w_events w) (w_next w) m (w_processors w) (w_store w) (w_deferred w)
    (w_in_loop w) (w_env w).
Definition set_processors (p : gset string) w : World S X :=
  mkWorld (w_jobs w) (w_events w) (w_next w) (w_manager w) p (w_store w) (w_deferred w)
    (w_in_loop w) (w_env w).
Definition set_store (s : S) w : World S X :=
  mkWorld (w_jobs w) (w_events w) (w_next w) (w_manager w) (w_processors w) s (w_deferred w)
    (w_in_loop w) (w_env w).
Definition set_deferred (d : option string) w : World S X :=
  mkWorld (w_jobs w) (w_events w) (w_next w) (w_manager w) (w_processors w) (w_store w) d
    (w_in_loop w) (w_env w).
Definition set_env (x : X) w : World S X :=
  mkWorld (w_jobs w) (w_events w) (w_next w) (w_manager w) (w_processors w) (w_store w)
    (w_deferred w) (w_in_loop w) x.

(** A computation on a part of the world. *)
Definition on_store {A} (m : M S A) : M (World S X) A :=
  λ w, let '(o, s) := m (w_store w) in (o, set_store s w).
Definition on_env {A} (m : X → A * X) : M (World S X) A :=
  λ w, let '(a, x) := m (w_env w) in (Ret a, set_env x w).
Definition on_manager {A} (m : M (ChannelManager nat) A) : M (World S X) A :=
  λ w, let '(o, c) := m (w_manager w) in (o, set_manager c w).

(** A computation on the channel object [ref]. *)
Definition on_channel {A} (ref : nat) (m : M (Channel nat) A) : M (World S X) A :=
  on_manager (λ cm,
    let '(o, c) := m (default (channel_new 0) (channels cm !! ref)) in
    (o, mkManager (<[ref := c]> (channels cm)) (next_ref cm) (_job_channel cm))).

(** Reading and updating a job object. *)
Definition get_job (j : nat) : M (World S X) Job := m_get (λ w, w_jobs w j).
Definition upd_job (j : nat) (f : Job → Job) : M (World S X) unit :=
  m_modify (λ w, set_jobs (<[j := f (w_jobs w j)]> (w_jobs w)) w).

(** The worlds [R] relates when their stores are related. *)
Definition store_rel (R : S → S → Prop) (w w' : World S X) : Prop := R (w_store w) (w_store w').
#[global] Instance store_rel_preorder R `{!PreOrder R} : PreOrder (store_rel R).
Proof.
  split; [intros w; unfold store_rel; reflexivity |].
  intros a b c. unfold store_rel. apply transitivity.
Qed.

(** Nothing changed but the object of job [j]. *)
Definition job_only (j : nat) (w w' : World S X) : Prop :=
  (∀ k, k ≠ j → w_jobs w' k = w_jobs w k) ∧ w' = set_jobs (w_jobs w') w.
#[global] Instance job_only_preorder j : PreOrder (job_only j).
Proof.
  split; [intros w; split; [done | by destruct w] |].
  intros a b c [H1 E1] [H2 E2]. split.
  - intros k Hk. by rewrite H2, H1.
  - rewrite E2, E1. done.
Qed.

Lemma upd_job_only j f w : job_only j w (upd_job j f w).2.
Proof. split; [| done]. intros k Hk. simpl. by rewrite fn_lookup_insert_ne. Qed.
Lemma upd_job_at j f w : w_jobs (upd_job j f w).2 j = f (w_jobs w j).
Proof. simpl. by rewrite fn_lookup_insert. Qed.

Section StoreRel.
Context (R : S → S → Prop) `{!PreOrder R}.
Lemma on_store_rel {A} (m : M S A) : preserves R m → preserves (store_rel R) (on_store m).
Proof. intros H w. specialize (H (w_store w)). unfold on_store. by destruct (m _). Qed.
Lemma on_env_rel {A} (m : X → A * X) : preserves (store_rel R) (on_env m).
Proof. intros w. unfold on_env. destruct (m _). unfold store_rel. simpl. reflexivity. Qed.
Lemma on_manager_rel {A} (m : M (ChannelManager nat) A) : preserves (store_rel R) (on_manager m).
Proof. intros w. unfold on_manager. destruct (m _). unfold store_rel. simpl. reflexivity. Qed.
Lemma on_channel_rel {A} ref (m : M (Channel nat) A) : preserves (store_rel R) (on_channel ref m).
Proof. apply on_manager_rel. Qed.
Lemma upd_job_rel j f : preserves (store_rel R) (upd_job j f).
Proof. intros w. unfold store_rel. simpl. reflexivity. Qed.
Lemma get_job_rel j : preserves (store_rel R) (get_job j).
Proof. intros w. unfold store_rel. simpl. reflexivity. Qed.
End StoreRel.
End World.
#[export] Hint Resolve on_store_rel on_env_rel on_manager_rel on_channel_rel upd_job_rel
  get_job_rel : preserves.
