(* ===== verification/Job.v ===== *)
(** * Job: jobs, their lifecycle and their snapshots

    [class Job] of [src/pypepper/scheduler/job.py], and
    [Config.ensure_scheduler_job_store_applied] of
    [src/pypepper/common/config.py], which guards every snapshot.  A method
    takes the reference of its job; a [Job] in another definition is the object
    itself. *)
From stdpp Require Import functions.
From S2P Require Import Prelude Dict Json PyValues Lifecycle Fsm SchedulerFsm JobStore Channel.
From S2P Require Import Context Task Payload World.

Definition CANCEL_EVENT_KEY : string := "pypepper.scheduler.cancel_event".

(** [Job._current_status()] and [Job.is_cancelled()], on the object. *)
Definition _current_status (job : Job) : string :=
  match current (j_fsm job) with
  | None => status_value UNKNOWN
  | Some st => value st
  end.
Definition is_cancelled (job : Job) : bool :=
  bool_decide (_current_status job = status_value CANCELLED).

(** [Job.to_record()], and the record [save] builds, which differs in
    [updated]. *)
Definition record_of (updated : string) (job : Job) : JobRecord :=
  mkRecord (j_id job) (j_category job) (j_channel_id job) (_current_status job) (j_created job)
    updated (Z.of_nat (length (j_workflows job))) (j_version job)
    (_workflows_payload (j_workflows job)).
Definition to_record (job : Job) : JobRecord := record_of (j_updated job) job.

Section Job.
Context {S X : Type} `{!JobStore S, !Env X}.
Abbreviation W := (World S X).

(** [Config.mark_scheduler_job_store_applied] and
    [Config.ensure_scheduler_job_store_applied]. *)
Definition mark_scheduler_job_store_applied : M W unit := m_modify (set_deferred None).
Definition not_applied_msg (backend : string) : string :=
  "scheduler.jobStore.backend=" +:+ repr_str backend
  +:+ " is present in YAML but not applied by load_config; call pypepper.scheduler.store."
  +:+ "setup_from_config(...) after load before persisting jobs".
Definition ensure_scheduler_job_store_applied (using_default_memory_store : bool) : M W unit :=
  let* backend := m_get w_deferred in
  match backend with
  | None => m_ret tt
  | Some b =>
      if negb using_default_memory_store then mark_scheduler_job_store_applied
      else m_raise (ValueError (not_applied_msg b))
  end.

(** [isinstance(get_job_store(), InMemoryJobStore)]. *)
Definition using_memory : M W bool := m_get (λ w, is_in_memory (w_store w)).

(** [Job(category, channel_id)]: a fresh object with a fresh event. *)
Definition Job_new (category : option string) (channel_id : string) : M W nat :=
  let* now := on_env utcnow in
  let* id := on_env uuid4 in
  let* context_id := on_env uuid4 in
  λ w,
    let j := w_next w in
    let event := Datatypes.S j in
    let job := mkJob id category channel_id
      (with_value CANCEL_EVENT_KEY (CEvent event) (ctx_new (Some context_id) None)) []
      build_scheduler_fsm (status_value UNKNOWN) now now 1 event in
    (Ret j, mkWorld (<[j := job]> (w_jobs w)) (<[event := false]> (w_events w))
              (Datatypes.S event) (w_manager w) (w_processors w) (w_store w) (w_deferred w)
              (w_in_loop w) (w_env w)).

(** [Job.share_cancel_event()]. *)
Definition share_token (token : nat) (c : context ctx_value) : context ctx_value :=
  with_value CANCEL_EVENT_KEY (CEvent token) c.
Definition share_task (token : nat) (task : Task) : Task :=
  with_context (share_token token (t_context task)) task.
Definition shared (job : Job) : Job :=
  let token := j_cancel_event job in
  with_contexts (share_token token (j_context job))
    (map (map (share_task token)) (j_workflows job)) job.
Definition share_cancel_event (j : nat) : M W unit := upd_job j shared.

(** [Job.restore_lifecycle(state, status)]. *)
Definition restore_lifecycle (j : nat) (state : option State) (status : string) : M W unit :=
  let* _ := upd_job j (λ job, with_fsm (restore state (j_fsm job)) job) in
  upd_job j (with_status status).

(** [_raise_if_transition_failed(resp_error)]. *)
Definition _raise_if_transition_failed (resp_error : option exn) : M W unit :=
  match resp_error with None => m_ret tt | Some e => m_raise e end.

(** [Job.apply_event(event)]. *)
Definition apply_event (j : nat) (event : SchedEvent) : M W unit :=
  let* job := get_job j in
  let '(o, f) := sched_on event (j_fsm job) in
  let* _ := upd_job j (with_fsm f) in
  let* resp := m_of_outcome o in
  let* _ := _raise_if_transition_failed (rs_error resp) in
  upd_job j (λ job, with_status (_current_status job) job).

(** [Job.save()]. *)
Definition save (j : nat) : M W bool :=
  let* mem := using_memory in
  let* _ := ensure_scheduler_job_store_applied mem in
  let* updated := on_env utcnow in
  let* job := get_job j in
  let* applied := on_store (put (record_of updated job)) in
  if negb applied then m_ret false
  else
    let* durable := on_store (get (j_id job)) in
    let* _ := match durable with
              | Some d => upd_job j (with_version (r_version d))
              | None => m_ret tt
              end in
    let* _ := upd_job j (with_updated updated) in
    m_ret true.

(** [Job.get_saved(job_id)]. *)
Definition get_saved (job_id : string) : M W (option JobRecord) :=
  let* mem := using_memory in
  let* _ := ensure_scheduler_job_store_applied mem in
  on_store (get job_id).

(** [Job.cancel()]. *)
Definition set_event (event : nat) : M W unit :=
  m_modify (λ w, set_events (<[event := true]> (w_events w)) w).
Definition cancel (j : nat) : M W unit :=
  let* _ := share_cancel_event j in
  let* job := get_job j in
  let* _ := set_event (j_cancel_event job) in
  let* _ := apply_event j CANCEL in
  let* _ := save j in
  m_ret tt.

(** [Job.from_record(record)]; [if record.payload:] is false of an empty dict
    too. *)
Definition from_record (call_factory : nat → M W nat) (reg : W → Registry) (record : JobRecord)
  : M W nat :=
  let* j := Job_new (r_category record) (r_channel_id record) in
  let identity wfs :=
    upd_job j (with_record (r_id record) (r_created record) (r_updated record)
                 (r_version record) wfs) in
  let* _ := identity [] in
  let* _ := match r_payload record with
            | None | Some [] => m_ret tt
            | Some payload =>
                let* wfs := _workflows_from_payload (on_env uuid4) (resolve call_factory reg)
                              payload in
                identity wfs
            end in
  m_ret j.

(** ** Facts *)

(** [apply_event] follows the diagram on a job whose machine is in a status. *)
Definition at_status (s : Status) (job : Job) : Prop := j_fsm job = fsm_at s.
Definition moved (s : Status) (job : Job) : Job := with_status (status_value s) (with_fsm (fsm_at s) job).

Lemma current_status_at s job : at_status s job → _current_status job = status_value s.
Proof. unfold at_status, _current_status. by intros ->. Qed.
Lemma is_cancelled_at s job : at_status s job → is_cancelled job = bool_decide (s = CANCELLED).
Proof.
  intros H. unfold is_cancelled. rewrite (current_status_at s) by done. by destruct s.
Qed.

(** [apply_event] on a job whose machine is in status [s]. *)
Lemma apply_event_at j ev s (w : W) :
  at_status s (w_jobs w j) →
  let '(o, w') := apply_event j ev w in
  job_only j w w'
  ∧ match sched_next ev s with
    | Some s' => o = Ret tt ∧ w_jobs w' j = moved s' (w_jobs w j)
    | None => o = Raise (InternalException ERROR_INVALID_EVENT) ∧ w_jobs w' j = w_jobs w j
    end.
Proof.
  intros Hs. unfold apply_event. erewrite bind_ret_run by reflexivity.
  rewrite Hs, sched_on_at. destruct (sched_next ev s) as [s'|].
  - unfold m_bind, m_of_outcome. cbn. rewrite !fn_lookup_insert. split; [| done].
    split; [| done]. intros k Hk. cbn. by rewrite !fn_lookup_insert_ne.
  - unfold m_bind, m_of_outcome. cbn. rewrite !fn_lookup_insert. split.
    + split; [| done]. intros k Hk. cbn. by rewrite !fn_lookup_insert_ne.
    + split; [done |]. rewrite <- Hs. by destruct (w_jobs w j).
Qed.

(** The part of a job [save] leaves alone. *)
Definition saved_as (job job' : Job) : Prop :=
  ∃ updated version, job' = with_updated updated (with_version version job).

#[global] Instance saved_as_preorder : PreOrder saved_as.
Proof.
  split; [intros job; exists (j_updated job), (j_version job); by destruct job |].
  intros a b c (u & v & ->) (u' & v' & ->). by exists u', v'.
Qed.

(** The clock was read any number of times. *)
Definition env_le : X → X → Prop := rtc (λ x y, y = (utcnow x).2).

(** Nothing changed but job [j], the store, the clock and the deferred flag,
    which is never set. *)
Definition save_only (j : nat) (w w' : W) : Prop :=
  (∀ k, k ≠ j → w_jobs w' k = w_jobs w k) ∧ w_events w' = w_events w ∧ w_next w' = w_next w
  ∧ w_manager w' = w_manager w ∧ w_processors w' = w_processors w ∧ w_in_loop w' = w_in_loop w
  ∧ (w_deferred w = None → w_deferred w' = None) ∧ env_le (w_env w) (w_env w').
#[global] Instance save_only_preorder j : PreOrder (save_only j).
Proof.
  split; [intros w; by split_and! |].
  intros a b c (Ha & ? & ? & ? & ? & ? & ? & ?) (Hb & ? & ? & ? & ? & ? & ? & ?).
  split_and!; try congruence; auto; [| by etransitivity]. intros k Hk. by rewrite Hb, Ha.
Qed.
Lemma job_only_save_only j (w w' : W) : job_only j w w' → save_only j w w'.
Proof. intros [H1 H2]. rewrite H2. by split_and!. Qed.

Context `{!JobStoreLaws S}.

(** What [save] does, on every branch. *)
Definition save_post (j : nat) (w : W) (o : outcome bool) (w' : W) : Prop :=
  let job := w_jobs w j in
  let m := rows (w_store w) in
  let m' := rows (w_store w') in
  save_only j w w'
  ∧ match o with
    | Ret true =>
        ∃ updated, let r := record_of updated job in
        may_write r m = true ∧ m' = write_row r m
        ∧ w_jobs w' j = with_updated updated
            (with_version (from_option r_version (j_version job) (m' !! j_id job)) job)
    | Ret false =>
        m' = m ∧ w_jobs w' j = job ∧ ∃ updated, may_write (record_of updated job) m = false
    | Raise e =>
        is_exception e = true ∧ w_jobs w' j = job
        ∧ (m' = m ∨ ∃ updated, let r := record_of updated job in
                    may_write r m = true ∧ m' = write_row r m)
    end.

Lemma ensure_cases b (w : W) :
  (∃ w0, ensure_scheduler_job_store_applied b w = (Ret tt, w0)
     ∧ (w0 = w ∨ w0 = set_deferred None w))
  ∨ ∃ e, ensure_scheduler_job_store_applied b w = (Raise e, w) ∧ is_exception e = true.
Proof.
  unfold ensure_scheduler_job_store_applied, m_bind, m_get.
  destruct (w_deferred w); [| by left; exists w; auto].
  destruct (negb _); [left; eexists; by auto | right; by eexists].
Qed.

Lemma save_spec j (w : W) : let '(o, w') := save j w in save_post j w o w'.
Proof.
  unfold save. erewrite bind_ret_run by reflexivity.
  destruct (ensure_cases (is_in_memory (w_store w)) w) as [(w0 & E & Hw0)|(e & E & He)].
  2:{ rewrite (bind_raise_run _ _ _ _ _ E). split; [reflexivity |]. auto. }
  rewrite (bind_ret_run _ _ _ _ _ E). set (job := w_jobs w j).
  assert (w_jobs w0 j = job) as Hj by (by destruct Hw0 as [-> | ->]).
  assert (w_store w0 = w_store w) as Hst by (by destruct Hw0 as [-> | ->]).
  assert (save_only j w w0) as Ho
    by (destruct Hw0 as [-> | ->]; [reflexivity | by split_and!]).
  clear E Hw0. unfold m_bind, on_env. destruct (utcnow (w_env w0)) as [updated x] eqn:Eu.
  assert (env_le (w_env w0) x) as Hx by (apply rtc_once; by rewrite Eu).
  unfold get_job, m_get, on_store. cbn [w_jobs set_env w_store set_store]. rewrite Hj, Hst.
  destruct (put (record_of updated job) (w_store w)) as [[[]|e] s1] eqn:Ep; cbn [negb w_store set_store].
  - apply put_ret in Ep as [Hw Hr]. symmetry in Hw. unfold put_spec in Hr. rewrite Hw in Hr.
    cbn [snd] in Hr. destruct (get (j_id job) s1) as [[d|e] s2] eqn:Eg.
    + apply get_ret in Eg as [-> Hr2].
      assert (∀ w', save_only j w0 w' → w_store w' = s2 →
                w_jobs w' j = with_updated updated
                  (with_version (from_option r_version (j_version job) (rows s1 !! j_id job)) job) →
                save_post j w (Ret true) w') as Hpost.
      { intros w' H1 H2 H3. split; [by etransitivity |]. exists updated.
        split_and!; [done | by rewrite H2, Hr2 | by rewrite H2, Hr2]. }
      destruct (rows s1 !! j_id job) as [row|]; apply Hpost; try done;
        try (split_and!; try done; cbn; try done; intros k Hk; by rewrite !fn_lookup_insert_ne by done);
        cbn; rewrite !fn_lookup_insert; rewrite ?Hj; [done | by destruct job].
    + apply get_raise in Eg as [He Hr2]. split; [etransitivity; [exact Ho |]; split_and!; done |]. split_and!; try done.
      right. exists updated. cbn. by rewrite Hr2, Hr.
  - apply put_ret in Ep as [Hw Hr]. symmetry in Hw. unfold put_spec in Hr. rewrite Hw in Hr.
    split; [etransitivity; [exact Ho |]; split_and!; done |]. split_and!; try done. by exists updated.
  - apply put_raise in Ep as [He Hr]. split; [etransitivity; [exact Ho |]; split_and!; done |]. split_and!; try done.
    destruct Hr as [Hr|Hr]; [by left | right; by exists updated].
Qed.

Lemma save_post_saved_as j w o w' : save_post j w o w' → saved_as (w_jobs w j) (w_jobs w' j).
Proof.
  intros [_ H]. destruct o as [[]|e].
  - destruct H as (u & _ & _ & ->). by eexists _, _.
  - by destruct H as (_ & -> & _).
  - by destruct H as (_ & -> & _).
Qed.

(** What [get_saved] does. *)
Lemma get_saved_spec id (w : W) :
  let '(o, w') := get_saved id w in
  (∀ j, save_only j w w') ∧ w_jobs w' = w_jobs w ∧ rows (w_store w') = rows (w_store w)
  ∧ match o with
    | Ret row => row = rows (w_store w) !! id
    | Raise e => is_exception e = true
    end.
Proof.
  unfold get_saved. erewrite bind_ret_run by reflexivity.
  destruct (ensure_cases (is_in_memory (w_store w)) w) as [(w0 & E & Hw0)|(e & E & He)].
  2:{ rewrite (bind_raise_run _ _ _ _ _ E). split; [intros; reflexivity | done]. }
  rewrite (bind_ret_run _ _ _ _ _ E).
  assert (w_store w0 = w_store w) as Hst by (by destruct Hw0 as [-> | ->]).
  assert (w_jobs w0 = w_jobs w) as Hj by (by destruct Hw0 as [-> | ->]).
  assert (∀ j, save_only j w w0) as Ho
    by (intros j; destruct Hw0 as [-> | ->]; [reflexivity | by split_and!]).
  unfold on_store. rewrite Hst. destruct (get id (w_store w)) as [[d|e] s] eqn:Eg.
  - apply get_ret in Eg as [-> Hr]. split_and!; try done.
  - apply get_raise in Eg as [He Hr]. split_and!; try done.
Qed.

(** ** Store rows only move forward, whatever a job does *)
Abbreviation forward := (store_rel (S := S) (X := X) store_step).

Lemma ensure_forward b : preserves forward (ensure_scheduler_job_store_applied b).
Proof.
  intros w. destruct (ensure_cases b w) as [(w0 & -> & [-> | ->])|(e & -> & _)];
    unfold store_rel; simpl; reflexivity.
Qed.
#[local] Hint Resolve ensure_forward : preserves.
Lemma save_forward j : preserves forward (save j).
Proof. unfold save, using_memory. prove_preserves. Qed.
Lemma get_saved_forward id : preserves forward (get_saved id).
Proof. unfold get_saved, using_memory. prove_preserves. Qed.
Lemma apply_event_forward j ev : preserves forward (apply_event j ev).
Proof. unfold apply_event, _raise_if_transition_failed. prove_preserves. Qed.
Lemma restore_lifecycle_forward j st s : preserves forward (restore_lifecycle j st s).
Proof. unfold restore_lifecycle. prove_preserves. Qed.
Lemma share_cancel_event_forward j : preserves forward (share_cancel_event j).
Proof. unfold share_cancel_event. prove_preserves. Qed.
End Job.
#[export] Hint Resolve save_forward get_saved_forward apply_event_forward
  restore_lifecycle_forward share_cancel_event_forward : preserves.
