(* ===== verification/Demo.v ===== *)
(** * Demo: concrete stores, clocks and jobs for the witnesses

    A store with scripted failures (an in-memory store behind an unreliable
    connection), an environment with a counting clock and a log, and a process
    with one job. *)
From stdpp Require Import functions.
From S2P Require Import Prelude Dict Json Lifecycle Fsm SchedulerFsm JobStore Channel Context.
From S2P Require Import Task World Job.

(** ** A store that fails on command *)
Module FlakyStore.
Inductive fault : Type := Fine | FailBefore | FailAfter.
Record t : Type := mk { inner : InMemoryJobStore.t; script : list fault }.

Definition lost : exn := OtherException "OperationalError" "connection lost".

Definition next (s : t) : fault * list fault :=
  match script s with [] => (Fine, []) | f :: fs => (f, fs) end.

Definition put (r : JobRecord) : M t bool :=
  λ s,
    let '(f, fs) := next s in
    let '(o, i) := InMemoryJobStore.put r (inner s) in
    match f with
    | Fine => (o, mk i fs)
    | FailBefore => (Raise lost, mk (inner s) fs)
    | FailAfter =>
        match o with
        | Ret true => (Raise lost, mk i fs)
        | _ => (Raise lost, mk (inner s) fs)
        end
    end.

Definition get (id : string) : M t (option JobRecord) :=
  λ s,
    let '(f, fs) := next s in
    match f with
    | Fine => let '(o, i) := InMemoryJobStore.get id (inner s) in (o, mk i fs)
    | _ => (Raise lost, mk (inner s) fs)
    end.

Definition on_inner {A} (m : M InMemoryJobStore.t A) : M t A :=
  λ s, let '(o, i) := m (inner s) in (o, mk i (script s)).

#[export] Instance store : JobStore t := {
  JobStore.put := put;
  JobStore.get := get;
  delete_row i := on_inner (InMemoryJobStore.delete i);
  list_rows c := on_inner (InMemoryJobStore.list_ c);
  clear_rows := on_inner InMemoryJobStore.clear;
  rows s := rows (inner s);
  is_in_memory _ := false;
}.

#[export] Instance laws : JobStoreLaws t.
Proof.
  split.
  - intros r s. cbn [JobStore.put store]. unfold put. destruct (next s) as [f fs].
    pose proof (put_law r (inner s)) as H. cbn [JobStore.put InMemoryJobStore.store] in H.
    destruct (InMemoryJobStore.put r (inner s)) as [[b|e] i]; destruct f; try done.
    + split; [done | by left].
    + unfold put_spec in H. cbn [rows store inner] in *.
      destruct b; (split; [done |]); [right | by left].
      destruct (may_write r (rows (inner s))); by simplify_eq/=.
    + split; [done | by left].
    + split; [done | by left].
  - intros i s. cbn [JobStore.get store]. unfold get. destruct (next s) as [[] fs]; try done.
    exact (get_law i (inner s)).
Qed.
End FlakyStore.
#[export] Existing Instances FlakyStore.store FlakyStore.laws.

(** ** An environment: a counter and a log of the workflows that ran *)
Record demo_env : Type := mkEnv { d_count : nat; d_log : list (list Task) }.
#[export] Instance demo_env_ops : Env demo_env := {
  utcnow x := (pretty (d_count x), mkEnv (Datatypes.S (d_count x)) (d_log x));
  uuid4 x := ("id-" +:+ pretty (d_count x), mkEnv (Datatypes.S (d_count x)) (d_log x));
}.

Definition demo_task (id executor_id : string) : Task :=
  mkTask "ch" "dag" "fp" "name" "cat" "" [] (Some 0) (Some executor_id) 0 0 1 1 0 0 false 1000
    false id (ctx_new None None).

Definition blank_job : Job :=
  mkJob "" None "" (ctx_new None None) [] build_scheduler_fsm "" "" "" 1 0.

Section Demo.
Context {S : Type} `{!JobStore S}.
Abbreviation W := (World S demo_env).

Definition init_world (s : S) : W :=
  mkWorld (λ _, blank_job) (λ _, false) 0 manager_init ∅ s None false (mkEnv 0 []).

Definition set_workflows (wfs : list (list Task)) (job : Job) : Job :=
  with_contexts (j_context job) wfs job.

(** A process with job 0, of two workflows, in the given lifecycle state. *)
Definition demo_workflows : list (list Task) :=
  [[demo_task "t1" "mail"; demo_task "t2" "build"]; [demo_task "t3" "mail"]].
Definition with_job (s : Status) (store : S) : W :=
  let w := (Job_new (Some "demo") "ch" (init_world store)).2 in
  (upd_job 0 (λ job, set_workflows demo_workflows (moved s job)) w).2.

(** A runner that logs the workflow and ends as [res] says. *)
Definition logged_run (res : list Task → option exn) (wf : list Task)
  : M W (list (option nat)) :=
  λ w,
    let x := w_env w in
    (match res wf with None => Ret (map (λ _, Some 1) wf) | Some e => Raise e end,
     set_env (mkEnv (d_count x) (d_log x ++ [wf])) w).
End Demo.

Definition id0 : string := "id-1".
Definition row0 (s : Status) (v : Z) : JobRecord :=
  mkRecord id0 (Some "demo") "ch" (status_value s) "0" "0" 2 v None.
Definition memory_with (r : JobRecord) : InMemoryJobStore.t := InMemoryJobStore.mk [(r_id r, r)].
