(* ===== verification/JobSpec.v ===== *)
(** * JobSpec: jobs and their records

    [Job.to_record] and [Job.from_record] are inverse up to what a record does
    not carry. *)
From stdpp Require Import functions.
From S2P Require Import Prelude Dict Json PyValues Lifecycle Fsm SchedulerFsm JobStore Channel.
From S2P Require Import Context Task Payload World Job Demo.

Section Records.
Context {S X : Type} `{!JobStore S, !Env X}.
Abbreviation W := (World S X).
(** The executor registry is in the environment; clocks and ids leave it alone;
    factories build their executor without other effects. *)
Context (registry : X → Registry) (call_factory : nat → M W nat).
Context (utcnow_reg : ∀ x, registry (utcnow x).2 = registry x).
Context (uuid4_reg : ∀ x, registry (uuid4 x).2 = registry x).
Context (factory_pure : ∀ f w, ∃ x, call_factory f w = (Ret x, w)).

Definition reg (w : W) : Registry := registry (w_env w).

Lemma resolve_registered e (w : W) :
  e ≠ "" → is_Some (reg w !! e) → ∃ x, resolve call_factory reg e w = (Ret x, w).
Proof.
  intros He [spec Hs]. unfold resolve. apply str_truthy_true in He as ->. cbn [negb].
  unfold m_bind, m_get. rewrite Hs. destruct spec as [x|f]; [by eexists | apply factory_pure].
Qed.

Definition identity_of (job job' : Job) : Prop :=
  j_id job' = j_id job ∧ j_category job' = j_category job ∧ j_channel_id job' = j_channel_id job
  ∧ j_created job' = j_created job ∧ j_updated job' = j_updated job
  ∧ j_version job' = j_version job.

(** What [from_record] makes of [job]'s record: a new object, and no other
    object touched. *)
Definition comes_back job (w : W) (wfs_ok : list (list Task) → Prop) : Prop :=
  ∃ j w', from_record call_factory reg (to_record job) w = (Ret j, w')
    ∧ j = w_next w ∧ (∀ k, k ≠ j → w_jobs w' k = w_jobs w k)
    ∧ identity_of job (w_jobs w' j)
    ∧ wfs_ok (j_workflows (w_jobs w' j))
    ∧ at_status UNKNOWN (w_jobs w' j) ∧ j_status (w_jobs w' j) = status_value UNKNOWN.

Lemma from_record_run job (w : W) :
  (is_Some (_workflows_payload (j_workflows job)) →
   Forall (Forall portable) (j_workflows job)
   ∧ Forall (Forall (registered (λ e, e ≠ "" ∧ is_Some (reg w !! e)))) (j_workflows job)) →
  comes_back job w (λ wfs, match _workflows_payload (j_workflows job) with
                           | Some _ => Forall2 (Forall2 rebuilt) (j_workflows job) wfs
                           | None => wfs = []
                           end).
Proof.
  intros Hpr. unfold comes_back. set (r0 := reg w). unfold from_record.
  assert (∃ x job0 ev, Job_new (j_category job) (j_channel_id job) w
            = (Ret (w_next w), mkWorld (<[w_next w := job0]> (w_jobs w)) ev
                 (Datatypes.S (Datatypes.S (w_next w))) (w_manager w) (w_processors w) (w_store w)
                 (w_deferred w) (w_in_loop w) x)
          ∧ registry x = r0 ∧ j_category job0 = j_category job
          ∧ j_channel_id job0 = j_channel_id job
          ∧ at_status UNKNOWN job0 ∧ j_status job0 = status_value UNKNOWN)
    as (x & job0 & ev & E1 & Hx & Hc & Hch & Hs & Hst).
  { unfold Job_new, m_bind, on_env. pose proof (utcnow_reg (w_env w)) as H1.
    destruct (utcnow (w_env w)) as [now x1]. cbn [w_env set_env].
    pose proof (uuid4_reg x1) as H2. destruct (uuid4 x1) as [id x2]. cbn [w_env set_env].
    pose proof (uuid4_reg x2) as H3. destruct (uuid4 x2) as [cid x3]. cbn in *.
    eexists _, _, _. split; [reflexivity |]. split_and!; try done.
    unfold r0, reg. congruence. }
  rewrite (bind_ret_run _ _ _ _ _ E1).
  set (j := w_next w) in *. set (w1 := mkWorld _ _ _ _ _ _ _ _ x).
  set (w2 := set_jobs (<[j := with_record (j_id job) (j_created job) (j_updated job)
               (j_version job) [] (w_jobs w1 j)]> (w_jobs w1)) w1).
  match goal with |- context [m_bind (upd_job j ?f) ?k w1] =>
    assert (upd_job j f w1 = (Ret tt, w2)) as E2 by reflexivity end.
  rewrite (bind_ret_run _ _ _ _ _ E2). clear E2.
  assert (w_jobs w2 j = with_record (j_id job) (j_created job) (j_updated job)
               (j_version job) [] job0) as Hj2.
  { cbn. by rewrite !fn_lookup_insert. }
  assert (∀ k, k ≠ j → w_jobs w2 k = w_jobs w k) as Hk2.
  { intros k Hk. cbn. by rewrite !fn_lookup_insert_ne. }
  assert (reg w2 = r0) as Hreg2 by done.
  clearbody w2. cbn [r_payload to_record record_of].
  destruct (_workflows_payload (j_workflows job)) as [pl|] eqn:Hpl.
  - destruct Hpr as [Hp Hreg]; [by eexists |]. destruct pl as [|kv pl].
    { exfalso. unfold _workflows_payload in Hpl. destruct (j_workflows job); [done |].
      destruct (mapM _ _); done. }
    assert (∀ w', reg w' = r0 ∧ w' = set_env (w_env w') w2 →
      ∃ id w'', on_env uuid4 w' = (Ret id, w'') ∧ reg w'' = r0 ∧ w'' = set_env (w_env w'') w2) as Hu.
    { intros w' [Hr Hw']. unfold on_env. pose proof (uuid4_reg (w_env w')) as H.
      destruct (uuid4 (w_env w')) as [id x']. eexists _, _. split; [done |]. split.
      - unfold reg in *. cbn in *. congruence.
      - by rewrite Hw'. }
    assert (∀ e w', reg w' = r0 ∧ w' = set_env (w_env w') w2 → e ≠ "" ∧ is_Some (r0 !! e) →
      ∃ x w'', resolve call_factory reg e w' = (Ret x, w'') ∧ reg w'' = r0
        ∧ w'' = set_env (w_env w'') w2) as Hres.
    { intros e w' [Hr Hw'] [He Hse].
      destruct (resolve_registered e w' He) as [x' Ex]; [by rewrite Hr |].
      by exists x', w'. }
    assert (reg w2 = r0 ∧ w2 = set_env (w_env w2) w2) as HI by (split; [done | by destruct w2]).
    destruct (workflows_from_payload _ _ _ _ Hu Hres (j_workflows job) (kv :: pl) w2 HI Hp Hreg Hpl)
      as (wfs' & w3 & E3 & [_ Hw3] & HF).
    assert (w_jobs w3 = w_jobs w2) as Hj3 by (by rewrite Hw3).
    exists j. eexists. split.
    { erewrite bind_ret_run; [reflexivity |]. rewrite (bind_ret_run _ _ _ _ _ E3). reflexivity. }
    split; [done |]. cbn. rewrite !Hj3, !fn_lookup_insert, Hj2. split_and!; try done.
    intros k Hk. rewrite fn_lookup_insert_ne by done. by apply Hk2.
  - exists j. eexists. split; [erewrite bind_ret_run by reflexivity; reflexivity |].
    split; [done |]. split; [done |]. rewrite Hj2. split_and!; try done.
Qed.
End Records.

(** ** Properties *)

(** C27: what a record gives back of its job.  [Job.from_record] of a job's own
    snapshot makes a new object with the job's identity, category, channel,
    timestamps and version, in the status Unknown, from which it can be
    scheduled again.  When every task has an id and names a registered executor
    (its settings being ones the constructor accepts), the workflows are the
    job's, task for task and field for field, with the resolved executors and
    fresh contexts; a task version of 0 comes back as 1.  When a single task of
    the job names no executor, which is the constructor's default, or the job
    has no workflows, the record has no payload and the job comes back without
    any workflows (as [docs/guides/scheduler.md] says). *)
Theorem from_record_inverts_to_record {S X} `{!JobStore S, !Env X} (registry : X → Registry)
    (call_factory : nat → M (World S X) nat) job (w : World S X) :
  (∀ x, registry (utcnow x).2 = registry x) → (∀ x, registry (uuid4 x).2 = registry x) →
  (∀ f w, ∃ x, call_factory f w = (Ret x, w)) →
  (Forall (Forall portable) (j_workflows job) →
   Forall (Forall (registered (λ e, e ≠ "" ∧ is_Some (registry (w_env w) !! e)))) (j_workflows job) →
   comes_back registry call_factory job w (λ wfs,
     Forall2 (Forall2 (λ t t', t_version t ≠ 0%Z → same_task t t')) (j_workflows job) wfs
     ∧ Forall2 (Forall2 (λ t t', t_version t = 0%Z →
         t_version t' = 1%Z ∧ same_task t (with_task_version 0 t'))) (j_workflows job) wfs))
  ∧ (Exists (Exists nameless) (j_workflows job) ∨ j_workflows job = [] →
     comes_back registry call_factory job w (λ wfs, wfs = [])).
Proof.
  intros H1 H2 H3. split.
  - intros Hp Hr.
    destruct (from_record_run registry call_factory H1 H2 H3 job w)
      as (j & w' & E & Hj & Hk & Hid & HF & Hs); [done |].
    exists j, w'. split_and!; [done.. | | | apply Hs | apply Hs].
    all: destruct (j_workflows job) as [|wf wfs] eqn:Ew; [by rewrite HF; constructor |]; rewrite <- Ew in *.
    all: destruct (workflows_payload_Some (j_workflows job)) as [pl Hpl]; [by rewrite Ew | done |].
    all: rewrite Hpl in HF; eapply Forall2_impl; [exact HF |]; intros ts ts' Hts;
      eapply Forall2_impl; [exact Hts |].
    + apply rebuilt_same.
    + apply rebuilt_zero.
  - intros Hn. assert (_workflows_payload (j_workflows job) = None) as Hpl
      by (destruct Hn as [Hn| ->]; [by apply workflows_payload_nameless | done]).
    pose proof (from_record_run registry call_factory H1 H2 H3 job w) as H. rewrite Hpl in H.
    apply H. by intros [? [=]].
Qed.

Module JobSpecExamples.
Definition w0 : World InMemoryJobStore.t demo_env := with_job COMPLETED InMemoryJobStore.init.
Definition executors : Registry := {[ "mail" := SInstance 3; "build" := SFactory 4 ]}.
Definition factory : nat → M (World InMemoryJobStore.t demo_env) nat := λ f, m_ret (100 + f).

(** A job whose tasks name executors, and the same job with a task that names none. *)
Definition anonymous : Task :=
  mkTask "ch" "dag" "fp" "name" "cat" "" [] (Some 3) None 0 0 1 1 0 0 false 1000 false "t9"
    (ctx_new None None).
Definition job_anonymous : Job :=
  set_workflows (j_workflows (w_jobs w0 0) ++ [[anonymous]]) (w_jobs w0 0).

Lemma from_record_inverts_to_record_witness :
  (∃ j w', from_record factory (λ _, executors) (to_record (w_jobs w0 0)) w0 = (Ret j, w')
     ∧ j_id (w_jobs w' j) = id0 ∧ length (j_workflows (w_jobs w' j)) = 2
     ∧ at_status UNKNOWN (w_jobs w' j))
  ∧ (∃ j w', from_record factory (λ _, executors) (to_record job_anonymous) w0 = (Ret j, w')
     ∧ j_workflows (w_jobs w' j) = []).
Proof.
  assert (∀ x, (λ _ : demo_env, executors) (utcnow x).2 = executors) as H1 by reflexivity.
  assert (∀ x, (λ _ : demo_env, executors) (uuid4 x).2 = executors) as H2 by reflexivity.
  assert (∀ f w, ∃ x, factory f w = (Ret x, w)) as H3 by (intros f w; by eexists).
  split.
  - destruct (from_record_inverts_to_record (λ _, executors) factory (w_jobs w0 0) w0 H1 H2 H3)
      as [Hback _].
    destruct Hback as (j & w' & E & _ & _ & (Hid & _) & [HF _] & Hs & _).
    + repeat (apply List.Forall_cons || apply List.Forall_nil);
        (split; [apply (task_check_None 0 0 1 0 0 1000); reflexivity
                | split; [discriminate | eexists; split; [reflexivity | discriminate]]]).
    + repeat (apply List.Forall_cons || apply List.Forall_nil); intros e [= <-];
        (split; [discriminate | by eexists]).
    + exists j, w'. split; [exact E |]. split; [exact Hid |]. split; [| exact Hs].
      by rewrite <- (Forall2_length _ _ _ HF).
  - destruct (from_record_inverts_to_record (λ _, executors) factory job_anonymous w0 H1 H2 H3)
      as [_ Hback].
    destruct Hback as (j & w' & E & _ & _ & _ & Hnil & _).
    + left. apply Exists_app. right. apply List.Exists_cons_hd, List.Exists_cons_hd. reflexivity.
    + exists j, w'. split; [exact E | exact Hnil].
Defined.
End JobSpecExamples.
