(* ===== verification/Dispatcher.v ===== *)
(** * Dispatcher: scheduling a job onto its channel

    [Processor] and [Dispatcher] of [src/pypepper/scheduler/job.py], and
    [Job.scheduled]. *)
From stdpp Require Import functions.
From S2P Require Import Prelude Json Lifecycle Fsm SchedulerFsm JobStore Channel Context Task.
From S2P Require Import World Job.

Definition _DISPATCH_SAVE_ATTEMPTS : nat := 3.

Section Dispatcher.
Context {S X : Type} `{!JobStore S, !Env X}.
Abbreviation W := (World S X).

(** A computation on the world, run where there is also the local variable
    [enqueued] of [Dispatcher.dispatch]. *)
Definition with_local {A} (m : M W A) : M (W * bool) A :=
  λ wb, let '(o, w) := m wb.1 in (o, (w, wb.2)).

Definition stopped_msg (job : Job) : string :=
  "channel stopped: channel_id=" +:+ j_channel_id job +:+ ", job_id=" +:+ j_id job.
Definition full_msg (job : Job) : string :=
  "channel full: channel_id=" +:+ j_channel_id job +:+ ", job_id=" +:+ j_id job.

(** [Processor.async_run(job, chan, on_enqueued=...)]. *)
Definition async_run (j chan : nat) (on_enqueued : option (M (W * bool) unit))
  : M (W * bool) unit :=
  let* result := with_local (on_channel chan (send j)) in
  let* job := with_local (get_job j) in
  if decide (result = SEND_STOPPED) then m_raise (ChannelStoppedError (stopped_msg job))
  else if decide (result ≠ SEND_OK) then m_raise (ChannelFullError (full_msg job))
  else match on_enqueued with Some f => f | None => m_ret tt end.

(** [Processor.run]: [asyncio.run] when no loop is running in this thread. *)
Definition sync_context_msg : string :=
  "Processor.run / Job.scheduled() must be called from a sync context (no running event loop); "
  +:+ "from async code apply INIT→SCHEDULE, await Channel.send(job) (returns ok/full/stopped), "
  +:+ "then job.save(), and consume with Worker".
Definition processor_run (j chan : nat) (on_enqueued : option (M (W * bool) unit))
  : M (W * bool) unit :=
  let* running := m_get (λ wb, w_in_loop wb.1) in
  if negb running then async_run j chan on_enqueued
  else m_raise (RuntimeError sync_context_msg).

(** [Dispatcher._put_processor], [_get_processor], [_new_processor],
    [_available_processor]: a processor has no state of its own. *)
Definition _put_processor (key : string) : M W unit :=
  if negb (str_truthy key) then m_raise (ValueError "invalid key")
  else m_modify (λ w, set_processors ({[ key ]} ∪ w_processors w) w).
Definition _get_processor (key : string) : M W (option unit) :=
  if negb (str_truthy key) then m_raise (ValueError "invalid key")
  else m_get (λ w, if decide (key ∈ w_processors w) then Some tt else None).
Definition _new_processor (key : string) : M W unit :=
  let* processor := _get_processor key in
  match processor with
  | None => _put_processor key
  | Some _ => m_ret tt
  end.
Definition _available_processor (key : string) : M W unit := _new_processor key.

(** The loop over [_DISPATCH_SAVE_ATTEMPTS]: [applied] and [last_save_exc]. *)
Fixpoint save_attempts (n : nat) (j : nat) (last_save_exc : option exn)
  : M W (bool * option exn) :=
  match n with
  | O => m_ret (false, last_save_exc)
  | Datatypes.S n' =>
      let* r := m_try (let* b := save j in m_ret (inl b)) (λ save_exc, m_ret (inr save_exc)) in
      match r with
      | inl true => m_ret (true, None)
      | inl false => save_attempts n' j last_save_exc
      | inr save_exc => save_attempts n' j (Some save_exc)
      end
  end.

Definition skipped_msg (job : Job) : string :=
  "Job Scheduled persist skipped after enqueue: id=" +:+ j_id job +:+ ", channel_id="
  +:+ j_channel_id job.

(** The body of the second [try] of [dispatch]. *)
Definition enqueue_and_save (j : nat) : M (W * bool) unit :=
  let mark_enqueued := m_modify (λ wb : W * bool, (wb.1, true)) in
  let* job := with_local (get_job j) in
  let* chan := with_local (on_manager (available (j_channel_id job) 0)) in
  let* _ := with_local (_available_processor (j_channel_id job)) in
  let* _ := processor_run j chan (Some mark_enqueued) in
  let* r := with_local (save_attempts _DISPATCH_SAVE_ATTEMPTS j None) in
  if r.1 then m_ret tt
  else match r.2 with
       | Some e => m_raise e
       | None => m_raise (RuntimeError (skipped_msg job))
       end.

(** [Dispatcher.dispatch(job)] ([Job.scheduled()]). *)
Definition dispatch (j : nat) : M W unit :=
  let* prev_state := m_get (λ w, current (j_fsm (w_jobs w j))) in
  let* prev_status := m_get (λ w, j_status (w_jobs w j)) in
  let* _ :=
    m_try (let* _ := apply_event j INIT in apply_event j SCHEDULE)
      (λ exc, let* _ := restore_lifecycle j prev_state prev_status in m_raise exc) in
  λ w,
    let '(o, (w1, enqueued)) := enqueue_and_save j (w, false) in
    match o with
    | Ret _ => (Ret tt, w1)
    | Raise enqueue_exc =>
        if negb (is_exception enqueue_exc) then (Raise enqueue_exc, w1)
        else if (enqueued : bool) then (Raise enqueue_exc, w1)
        else (let* _ := restore_lifecycle j prev_state prev_status in m_raise enqueue_exc) w1
    end.
Definition scheduled (j : nat) : M W unit := dispatch j.
End Dispatcher.
