(* ===== verification/Worker.v ===== *)
(** * Worker: consuming a channel

    [src/pypepper/scheduler/worker.py].  [run_workflow] is [Workflow.run] in a
    worker thread; it may do anything to the world, which also stands for what
    other threads and tasks do while it runs. *)
From stdpp Require Import functions.
From S2P Require Import Prelude Json PyValues Lifecycle Fsm SchedulerFsm JobStore Channel Context Task.
From S2P Require Import Workflow World Job.

(** [_FOLLOW_WITHOUT_RUN]. *)
Definition _FOLLOW_WITHOUT_RUN : gset string :=
  {[ status_value IN_PROGRESS; status_value FAILED; status_value COMPLETED;
     status_value CANCELLED ]}.

Section Worker.
Context {S X : Type} `{!JobStore S, !Env X}.
Abbreviation W := (World S X).

(** [_follow_durable_status(job, status)]. *)
Definition _follow_durable_status (j : nat) (status : string) : M W unit :=
  let* s := m_of_outcome (Status_of status) in
  let* _ := upd_job j (λ job, with_fsm (restore (Some (state_of s)) (j_fsm job)) job) in
  upd_job j (with_status status).

(** [_force_failed_lifecycle(job)]. *)
Definition _force_failed_lifecycle (j : nat) : M W unit :=
  let* job := get_job j in
  if decide (_current_status job = status_value FAILED) then m_ret tt
  else
    m_try (apply_event j FAIL)
      (λ _,
         let* _ := upd_job j (λ job, with_fsm (restore (Some (state_of FAILED)) (j_fsm job)) job) in
         upd_job j (with_status (status_value FAILED))).

Definition id_of (j : nat) : M W string := m_get (λ w, j_id (w_jobs w j)).
Definition cancelled (j : nat) : M W bool := m_get (λ w, is_cancelled (w_jobs w j)).

(** [_persist_failed_snapshot(job)]. *)
Definition _persist_failed_snapshot (j : nat) : M W unit :=
  let* _ := _force_failed_lifecycle j in
  let* saved := save j in
  let* id := id_of j in
  if negb saved then m_raise (RuntimeError ("Job Failed persist skipped: id=" +:+ id))
  else m_ret tt.

(** [_mark_undeliverable_failed(job)]. *)
Definition _mark_undeliverable_failed (j : nat) : M W unit :=
  let* _ := _force_failed_lifecycle j in
  m_try (let* _ := save j in m_ret tt) (λ _, m_ret tt).

(** [_transition_and_save_terminal(job, event)]. *)
Definition _transition_and_save_terminal (j : nat) (event : SchedEvent) : M W unit :=
  let* _ := apply_event j event in
  let* _ := save j in
  m_ret tt.

(** [_ensure_cancelled_persisted(job)] and its logged form, which only adds the
    [__cause__] of what it raises. *)
Definition _ensure_cancelled_persisted (j : nat) : M W unit :=
  let* id := id_of j in
  let* saved := get_saved id in
  let persisted := match saved with
                   | Some r => bool_decide (r_status r = status_value CANCELLED)
                   | None => false
                   end in
  if persisted then m_ret tt else let* _ := save j in m_ret tt.
Definition _ensure_cancelled_persisted_logged (j : nat) : M W unit :=
  m_try (_ensure_cancelled_persisted j) (λ save_exc, m_raise save_exc).

Definition requeued_msg (job : Job) : string :=
  "Job re-enqueued after RUN persist restore: id=" +:+ j_id job +:+ ", channel_id="
  +:+ j_channel_id job.
Definition redelivery_msg (reason : string) (job : Job) : string :=
  "Job RUN persist restore could not re-enqueue (channel " +:+ reason +:+ "): id=" +:+ j_id job
  +:+ ", channel_id=" +:+ j_channel_id job.

(** [JobRedeliveryError(message, reason=reason, job=job)]. *)
Definition JobRedeliveryError_init (message reason : string) (job : option nat) : exn :=
  if String.eqb reason "full" || String.eqb reason "stopped" then JobRedeliveryError message reason job
  else ValueError ("JobRedeliveryError.reason must be 'full' or 'stopped', got " +:+ repr_str reason).

Context (channel : nat).

(** [Worker._requeue_after_run_restore(job, save_exc)]. *)
Definition _requeue_after_run_restore (j : nat) : M W unit :=
  let* result := on_channel channel (send j) in
  let* job := get_job j in
  if decide (result = SEND_OK) then m_raise (JobRequeuedError (requeued_msg job))
  else
    let reason := if decide (result = SEND_FULL) then "full" else "stopped" in
    let* _ := _mark_undeliverable_failed j in
    m_raise (JobRedeliveryError_init (redelivery_msg reason job) reason (Some j)).

(** [Worker._fail_or_restore_after_run_persist(job, prev_state, prev_status, save_exc)]. *)
Definition _fail_or_restore_after_run_persist (j : nat) (prev_state : option State)
    (prev_status : string) (save_exc : exn) : M W unit :=
  let* _ :=
    m_try
      (let* c := cancelled j in
       let* id := id_of j in
       if (c : bool) then m_raise (RuntimeError ("Job already cancelled: id=" +:+ id))
       else _persist_failed_snapshot j)
      (λ fail_save_exc,
         let* c := cancelled j in
         if (c : bool) then
           let* _ := m_try (_ensure_cancelled_persisted j)
                       (λ cancel_save_exc, m_raise cancel_save_exc) in
           m_raise save_exc
         else
           let* _ := restore_lifecycle j prev_state prev_status in
           _requeue_after_run_restore j) in
  m_raise save_exc.

Context {V : Type} (run_workflow : list Task → M W (list (option V))).

(** [asyncio.to_thread(workflow.run)]: no loop runs in that thread. *)
Definition set_in_loop (b : bool) (w : W) : W :=
  mkWorld (w_jobs w) (w_events w) (w_next w) (w_manager w) (w_processors w) (w_store w)
    (w_deferred w) b (w_env w).
Definition to_thread (workflow : list Task) : M W unit :=
  λ w,
    let '(o, w1) := run_workflow workflow (set_in_loop false w) in
    (match o with Ret _ => Ret tt | Raise e => Raise e end, set_in_loop (w_in_loop w) w1).

(** The loop over the job's workflows; [true] when it returned early because the
    job was cancelled between workflows. *)
Fixpoint run_workflows (j : nat) (workflows : list (list Task)) : M W bool :=
  match workflows with
  | [] => m_ret false
  | workflow :: rest =>
      let* c := cancelled j in
      if (c : bool) then let* _ := _ensure_cancelled_persisted_logged j in m_ret true
      else let* _ := to_thread workflow in run_workflows j rest
  end.

(** The healing of a missing Scheduled snapshot, before RUN. *)
Definition heal_snapshot (j : nat) : M W unit :=
  let* id := id_of j in
  let* row := get_saved id in
  match row with
  | Some _ => m_ret tt
  | None =>
      let* saved := save j in
      if (saved : bool) then m_ret tt
      else
        let* row2 := get_saved id in
        match row2 with
        | Some _ => m_ret tt
        | None => m_raise (RuntimeError ("Job Scheduled persist failed before RUN: id=" +:+ id))
        end
  end.

Definition durable_repr (status : option string) : string := default "None" status.

(** What [_process] does when the RUN snapshot was refused. *)
Definition run_refused (j : nat) (prev_state : option State) (prev_status : string) : M W unit :=
  let* id := id_of j in
  let* durable := get_saved id in
  let durable_status := r_status <$> durable in
  if decide (durable_status = Some (status_value CANCELLED)) then
    let* c := cancelled j in
    let* _ := if (c : bool) then m_ret tt else apply_event j CANCEL in
    _ensure_cancelled_persisted_logged j
  else
    match durable_status with
    | Some s =>
        if decide (s ∈ _FOLLOW_WITHOUT_RUN) then _follow_durable_status j s
        else _fail_or_restore_after_run_persist j prev_state prev_status
               (RuntimeError ("Job RUN persist skipped: id=" +:+ id +:+ ", durable="
                              +:+ durable_repr durable_status))
    | None =>
        _fail_or_restore_after_run_persist j prev_state prev_status
          (RuntimeError ("Job RUN persist skipped: id=" +:+ id +:+ ", durable="
                         +:+ durable_repr durable_status))
    end.

(** The [try] around the workflows, and what follows it.  The list the loop goes
    through was read before [share_cancel_event], which updates its task objects
    in place. *)
Definition run_body (j : nat) : M W unit :=
  let* early :=
    m_try
      (let* _ := share_cancel_event j in
       let* workflows := m_get (λ w, j_workflows (w_jobs w j)) in
       run_workflows j workflows)
      (λ e,
         let* c := cancelled j in
         if (c : bool) then let* _ := _ensure_cancelled_persisted_logged j in m_ret true
         else
           let* _ := m_try (_transition_and_save_terminal j FAIL) (λ save_exc, m_raise e) in
           m_raise e) in
  if (early : bool) then m_ret tt
  else
    let* c := cancelled j in
    if (c : bool) then _ensure_cancelled_persisted_logged j
    else m_try (_transition_and_save_terminal j COMPLETE) (λ save_exc, m_raise save_exc).

(** [Worker._process(job)]. *)
Definition _process (j : nat) : M W unit :=
  let* c := cancelled j in
  if (c : bool) then _ensure_cancelled_persisted_logged j
  else
    let* prev_state := m_get (λ w, current (j_fsm (w_jobs w j))) in
    let* prev_status := m_get (λ w, j_status (w_jobs w j)) in
    let* healed :=
      m_try (let* _ := heal_snapshot j in m_ret true)
        (λ heal_exc,
           let* _ := _fail_or_restore_after_run_persist j prev_state prev_status heal_exc in
           m_ret false) in
    if negb healed then m_ret tt
    else
      let* _ := apply_event j RUN in
      let* applied :=
        m_try (let* b := save j in m_ret (Some b))
          (λ save_exc,
             let* _ := _fail_or_restore_after_run_persist j prev_state prev_status save_exc in
             m_ret None) in
      match applied with
      | None => m_ret tt
      | Some false => run_refused j prev_state prev_status
      | Some true => run_body j
      end.

(** [Worker.run_once()]; [None] is a [receive] that still waits. *)
Inductive once : Type := Processed (job : option nat) | Blocked.
Definition run_once : M W once :=
  let* raw := on_channel channel receive in
  match raw with
  | Waiting => m_ret Blocked
  | Received None => m_ret (Processed None)
  | Received (Some j) => let* _ := _process j in m_ret (Processed (Some j))
  end.

(** [Worker.run_forever()]: how it leaves after at most [fuel] turns. *)
Inductive exit : Type := Left (o : outcome unit) | Waits | OutOfFuel.
Fixpoint run_forever (fuel : nat) (stopped_redelivery : option exn) (w : W) : exit * W :=
  match fuel with
  | O => (OutOfFuel, w)
  | Datatypes.S fuel' =>
      match run_once w with
      | (Ret Blocked, w1) => (Waits, w1)
      | (Ret (Processed (Some _)), w1) => run_forever fuel' stopped_redelivery w1
      | (Ret (Processed None), w1) =>
          (Left (match stopped_redelivery with Some e => Raise e | None => Ret tt end), w1)
      | (Raise (JobRequeuedError m), w1) => (Left (Raise (JobRequeuedError m)), w1)
      | (Raise (JobRedeliveryError m reason job), w1) =>
          if decide (reason = "stopped") then
            run_forever fuel'
              (Some (default (JobRedeliveryError m reason job) stopped_redelivery)) w1
          else (Left (Raise (JobRedeliveryError m reason job)), w1)
      | (Raise e, w1) =>
          if is_exception e then run_forever fuel' stopped_redelivery w1 else (Left (Raise e), w1)
      end
  end.
End Worker.
