(* ===== verification/WorkerSpec.v ===== *)
(** * WorkerSpec: what a worker does with a job

    The properties of [Worker._process], [run_once] and [run_forever], against
    any lawful store and any behaviour of the workflows. *)
From stdpp Require Import functions.
From S2P Require Import Prelude Json Lifecycle Fsm SchedulerFsm JobStore Channel Context Task.
From S2P Require Import Workflow World Job Worker Demo.

Section Forward.
Context {S X V : Type} `{!JobStore S, !JobStoreLaws S, !Env X}.
Abbreviation W := (World S X).
Abbreviation forward := (store_rel (S := S) (X := X) store_step).
Context (run_workflow : list Task → M W (list (option V))).
Context (Hrun : ∀ wf, preserves forward (run_workflow wf)).

(** ** Store rows only move forward *)
Lemma to_thread_forward wf : preserves forward (to_thread run_workflow wf).
Proof.
  intros w. unfold to_thread. pose proof (Hrun wf (set_in_loop false w)) as H.
  by destruct (run_workflow wf _) as [[]].
Qed.
#[local] Hint Resolve to_thread_forward : preserves.

Lemma follow_forward j s : preserves forward (_follow_durable_status j s).
Proof. unfold _follow_durable_status. prove_preserves. Qed.
Lemma force_failed_forward j : preserves forward (_force_failed_lifecycle j).
Proof. unfold _force_failed_lifecycle. prove_preserves. Qed.
#[local] Hint Resolve follow_forward force_failed_forward : preserves.
Lemma persist_failed_forward j : preserves forward (_persist_failed_snapshot j).
Proof. unfold _persist_failed_snapshot, id_of. prove_preserves. Qed.
Lemma mark_undeliverable_forward j : preserves forward (_mark_undeliverable_failed j).
Proof. unfold _mark_undeliverable_failed. prove_preserves. Qed.
Lemma transition_forward j ev : preserves forward (_transition_and_save_terminal j ev).
Proof. unfold _transition_and_save_terminal. prove_preserves. Qed.
Lemma ensure_cancelled_forward j : preserves forward (_ensure_cancelled_persisted j).
Proof. unfold _ensure_cancelled_persisted, id_of. prove_preserves. Qed.
#[local] Hint Resolve persist_failed_forward mark_undeliverable_forward transition_forward
  ensure_cancelled_forward : preserves.
Lemma ensure_cancelled_logged_forward j : preserves forward (_ensure_cancelled_persisted_logged j).
Proof. unfold _ensure_cancelled_persisted_logged. prove_preserves. Qed.
Lemma requeue_forward ch j : preserves forward (_requeue_after_run_restore ch j).
Proof. unfold _requeue_after_run_restore. prove_preserves. Qed.
#[local] Hint Resolve ensure_cancelled_logged_forward requeue_forward : preserves.
Lemma fail_or_restore_forward ch j st s e :
  preserves forward (_fail_or_restore_after_run_persist ch j st s e).
Proof. unfold _fail_or_restore_after_run_persist, cancelled, id_of. prove_preserves. Qed.
Lemma run_workflows_forward j wfs : preserves forward (run_workflows run_workflow j wfs).
Proof.
  induction wfs as [|wf wfs IH]; cbn [run_workflows]; unfold cancelled; prove_preserves; apply IH.
Qed.
Lemma heal_forward j : preserves forward (heal_snapshot (X := X) j).
Proof. unfold heal_snapshot, id_of. prove_preserves. Qed.
#[local] Hint Resolve fail_or_restore_forward run_workflows_forward heal_forward : preserves.
Lemma run_refused_forward ch j st s : preserves forward (run_refused ch j st s).
Proof. unfold run_refused, id_of, cancelled. prove_preserves. Qed.
Lemma run_body_forward j : preserves forward (run_body run_workflow j).
Proof. unfold run_body, cancelled. prove_preserves. Qed.
#[local] Hint Resolve run_refused_forward run_body_forward : preserves.
Lemma process_forward ch j : preserves forward (_process ch run_workflow j).
Proof. unfold _process, cancelled. prove_preserves. Qed.
#[local] Hint Resolve process_forward : preserves.
(** So whatever calls fail, no row disappears, goes back in status or version, or
    loses its [created] in the course of a turn. *)
Lemma run_once_forward ch : preserves forward (run_once ch run_workflow).
Proof. unfold run_once. prove_preserves. Qed.
End Forward.

(** ** Rewriting two computations that agree *)
Lemma bind_agree {W A B} (m1 m2 : M W A) (k1 k2 : A → M W B) w :
  m1 w = m2 w → (∀ a w', m1 w = (Ret a, w') → k1 a w' = k2 a w') →
  m_bind m1 k1 w = m_bind m2 k2 w.
Proof.
  intros Hm Hk. rewrite !bind_eq, <- Hm. destruct (m1 w) as [[a|e] w']; [by apply Hk | done].
Qed.
Lemma try_agree {W A} (m1 m2 : M W A) h1 h2 w :
  m1 w = m2 w → (∀ e w', m1 w = (Raise e, w') → h1 e w' = h2 e w') →
  m_try m1 h1 w = m_try m2 h2 w.
Proof.
  intros Hm Hh. unfold m_try. rewrite <- Hm. destruct (m1 w) as [[a|e] w'] eqn:E; [done |].
  destruct (is_exception e); [by apply Hh | done].
Qed.

(** ** Workflows start only when InProgress is durable *)
Section Started.
Context {S X V : Type} `{!JobStore S, !JobStoreLaws S, !Env X}.
Abbreviation W := (World S X).
Abbreviation forward := (store_rel (S := S) (X := X) store_step).

(** The store has the job in progress, or in a status that follows it. *)
Definition started (id : string) (w : W) : Prop :=
  rows_ok (rows (w_store w)) ∧
  ∃ row, rows (w_store w) !! id = Some row ∧ status_le (status_value IN_PROGRESS) (r_status row).

Lemma forward_started id (w w' : W) : forward w w' → started id w → started id w'.
Proof.
  intros H [Hok (row & Hrow & Hs)]. destruct (H Hok) as [Hok' Hle]. split; [done |].
  destruct (Hle id row Hrow) as (row' & Hrow' & Hs' & _). exists row'. split; [done |].
  by eapply put_applies_trans.
Qed.

Context (run1 run2 : list Task → M W (list (option V))) (id : string).
Context (Hrun : ∀ wf, preserves forward (run1 wf)).
Context (Hagree : ∀ wf w, started id w → run1 wf w = run2 wf w).

Lemma to_thread_agree wf w : started id w → to_thread run1 wf w = to_thread run2 wf w.
Proof. intros H. unfold to_thread. by rewrite Hagree. Qed.

Lemma run_workflows_agree j wfs w :
  started id w → run_workflows run1 j wfs w = run_workflows run2 j wfs w.
Proof.
  revert w. induction wfs as [|wf wfs IH]; intros w Hw; [done |]. cbn [run_workflows].
  apply bind_agree; [done |]. intros c w1 [= <- <-]. destruct (is_cancelled _); [done |].
  apply bind_agree; [by apply to_thread_agree |]. intros [] w2 E. apply IH.
  eapply forward_started; [| done].
  pose proof (to_thread_forward run1 Hrun wf w) as H. by rewrite E in H.
Qed.

Lemma run_body_agree j w : started id w → run_body run1 j w = run_body run2 j w.
Proof.
  intros Hw. unfold run_body. apply bind_agree; [| done].
  apply try_agree; [| done]. apply bind_agree; [done |]. intros [] w1 [= <-].
  apply bind_agree; [done |]. intros wfs w2 [= <- <-]. by apply run_workflows_agree.
Qed.

(** The healing step and the RUN save leave the machine as it is. *)
Lemma get_saved_jobs i (w : W) j : saved_as (w_jobs w j) (w_jobs (get_saved i w).2 j).
Proof.
  pose proof (get_saved_spec i w) as H. destruct (get_saved i w) as [o w'].
  destruct H as (_ & Hj & _). simpl. rewrite Hj. reflexivity.
Qed.
Lemma save_jobs j (w : W) : saved_as (w_jobs w j) (w_jobs (save j w).2 j).
Proof.
  pose proof (save_spec j w) as H. destruct (save j w) as [o w'].
  by apply save_post_saved_as in H.
Qed.
End Started.

(** What a step does to the object of job [j], up to what [save] changes. *)
Definition keeps_job {S X} (j : nat) (w w' : World S X) : Prop :=
  saved_as (w_jobs w j) (w_jobs w' j).
#[export] Instance keeps_job_preorder {S X} j : PreOrder (@keeps_job S X j).
Proof.
  split; [intros w; unfold keeps_job; reflexivity |].
  intros a b c. unfold keeps_job. apply transitivity.
Qed.

Section Keeps.
Context {S X V : Type} `{!JobStore S, !JobStoreLaws S, !Env X}.
Abbreviation W := (World S X).

Lemma save_keeps j : preserves (keeps_job (S := S) (X := X) j) (save j).
Proof. intros w. apply save_jobs. Qed.
Lemma get_saved_keeps i j : preserves (keeps_job (S := S) (X := X) j) (get_saved i).
Proof. intros w. apply get_saved_jobs. Qed.
#[local] Hint Resolve save_keeps get_saved_keeps : preserves.
Lemma heal_keeps j : preserves (keeps_job (S := S) (X := X) j) (heal_snapshot j).
Proof. unfold heal_snapshot, id_of. prove_preserves. Qed.

Lemma at_status_saved s job job' : saved_as job job' → at_status s job → at_status s job'.
Proof. by intros (u & v & ->). Qed.
Lemma id_saved job job' : saved_as job job' → j_id job' = j_id job.
Proof. by intros (u & v & ->). Qed.

(** A [save] that is applied makes the job's status durable. *)
Lemma save_applied j (w w' : W) :
  rows_ok (rows (w_store w)) → save j w = (Ret true, w') →
  rows_ok (rows (w_store w')) ∧
  ∃ row, rows (w_store w') !! j_id (w_jobs w j) = Some row
    ∧ r_status row = _current_status (w_jobs w j)
    ∧ j_version (w_jobs w' j) = r_version row.
Proof.
  intros Hok E. pose proof (save_spec j w) as H. rewrite E in H.
  destruct H as [_ (u & Hw & Hr & Hj)]. split; [rewrite Hr; by apply write_row_ok |].
  set (r := record_of u (w_jobs w j)) in *.
  assert (∃ row, rows (w_store w') !! j_id (w_jobs w j) = Some row
            ∧ r_status row = _current_status (w_jobs w j)) as (row & Hrow & Hs).
  { rewrite Hr. unfold write_row. change (j_id (w_jobs w j)) with (r_id r).
    destruct (rows (w_store w) !! r_id r); rewrite lookup_insert_eq; by eexists. }
  exists row. split_and!; [done | done |]. by rewrite Hj, Hrow.
Qed.

Context (run1 run2 : list Task → M W (list (option V))).

Lemma process_agree ch j s (w : W) :
  rows_ok (rows (w_store w)) → at_status s (w_jobs w j) →
  (∀ wf, preserves (store_rel store_step) (run1 wf)) →
  (∀ wf w', started (j_id (w_jobs w j)) w' → run1 wf w' = run2 wf w') →
  _process ch run1 j w = _process ch run2 j w.
Proof.
  intros Hok Hs Hf Hagree. unfold _process. apply bind_agree; [done |]. intros c w0 [= <- <-].
  destruct (is_cancelled _); [done |].
  apply bind_agree; [done |]. intros st w0 [= <- <-]. apply bind_agree; [done |].
  intros st w0 [= <- <-]. apply bind_agree; [done |]. intros healed w1 E1.
  destruct healed; cbn [negb]; [| done].
  assert (saved_as (w_jobs w j) (w_jobs w1 j) ∧ rows_ok (rows (w_store w1))) as [Hj1 Hok1].
  { unfold m_try in E1. rewrite bind_eq in E1.
    pose proof (heal_keeps j w) as Hk. pose proof (heal_forward j w Hok) as [Hf1 _].
    destruct (heal_snapshot j w) as [[[]|e] w2]; [by injection E1 as <- |].
    destruct (is_exception e); [| done]. apply bind_ret_inv in E1 as (? & ? & _ & [=]). }
  apply bind_agree; [done |]. intros [] w2 E2.
  pose proof (apply_event_at j RUN s w1 (at_status_saved _ _ _ Hj1 Hs)) as H2. rewrite E2 in H2.
  destruct H2 as [[Hjo Hw2] H2].
  assert (sched_next RUN s = Some IN_PROGRESS ∧ w_jobs w2 j = moved IN_PROGRESS (w_jobs w1 j)) as [_ Hj2].
  { destruct s; simpl in H2; destruct H2 as [? ?]; done. }
  apply bind_agree; [done |]. intros applied w3 E3.
  destruct applied as [[]|]; [| done..].
  assert (save j w2 = (Ret true, w3)) as E4.
  { unfold m_try in E3. rewrite bind_eq in E3. destruct (save j w2) as [[b|e] w4]; [by simplify_eq/= |].
    destruct (is_exception e); [| done]. apply bind_ret_inv in E3 as (? & ? & _ & [=]). }
  assert (rows_ok (rows (w_store w2))) as Hok2 by (by rewrite Hw2).
  destruct (save_applied j w2 w3 Hok2 E4) as [Hok3 (row & Hrow & Hst & _)].
  apply (run_body_agree run1 run2 (j_id (w_jobs w j)) Hf Hagree).
  split; [done |]. exists row. rewrite Hj2 in Hrow, Hst. split.
  - rewrite <- Hrow. f_equal. exact (eq_sym (id_saved _ _ Hj1)).
  - rewrite Hst. apply put_applies_refl.
Qed.
End Keeps.

(** ** Properties *)

(** C3: no workflow starts before InProgress is durable.  Two behaviours of the
    workflows that agree in every world where the store has the job InProgress,
    or in a status that follows it, give the same result of [_process] and the
    same world: the worker does not call a workflow anywhere else, in
    particular not when the RUN snapshot was refused or could not be written. *)
Theorem workflows_start_in_progress {S X V} `{!JobStore S, !JobStoreLaws S, !Env X}
    (run1 run2 : list Task → M (World S X) (list (option V))) ch j s (w : World S X) :
  rows_ok (rows (w_store w)) → at_status s (w_jobs w j) →
  (∀ wf, preserves (store_rel store_step) (run1 wf)) →
  (∀ wf w', started (j_id (w_jobs w j)) w' → run1 wf w' = run2 wf w') →
  _process ch run1 j w = _process ch run2 j w.
Proof. intros Hok Hs Hf Hagree. by eapply process_agree. Qed.

Module WorkerSpecExamples.
(** The connection is lost when the RUN snapshot is written. *)
Definition store0 : FlakyStore.t :=
  FlakyStore.mk (memory_with (row0 SCHEDULED 1)) [FlakyStore.Fine; FlakyStore.FailBefore].
Definition w0 : World FlakyStore.t demo_env := with_job SCHEDULED store0.

Definition run1 : list Task → M (World FlakyStore.t demo_env) (list (option nat)) :=
  logged_run (λ _, None).
(** A runner that refuses to work for a job that is not in progress. *)
Definition run2 (wf : list Task) : M (World FlakyStore.t demo_env) (list (option nat)) :=
  λ w, match rows (w_store w) !! id0 with
       | Some r =>
           if put_applies (Some (status_value IN_PROGRESS)) (r_status r) then run1 wf w
           else (Raise (RuntimeError "not in progress"), w)
       | None => (Raise (RuntimeError "no row"), w)
       end.

Lemma rows0_ok : rows_ok (rows store0).
Proof.
  intros i r H. change (rows store0) with ({[ id0 := row0 SCHEDULED 1 ]} : Rows) in H.
  by apply lookup_singleton_Some in H as [<- <-].
Qed.
Lemma run1_forward wf : preserves (store_rel store_step) (run1 wf).
Proof. intros w. unfold store_rel. cbn. reflexivity. Qed.

Lemma workflows_start_in_progress_witness :
  _process 0 run1 0 w0 = _process 0 run2 0 w0 ∧ d_log (w_env (_process 0 run1 0 w0).2) = [].
Proof.
  split.
  - apply (workflows_start_in_progress run1 run2 0 0 SCHEDULED w0 rows0_ok).
    + reflexivity.
    + exact run1_forward.
    + intros wf w' [_ (row & Hrow & Hs)]. unfold run2.
      change (j_id (w_jobs w0 0)) with id0 in Hrow. by rewrite Hrow, Hs.
  - vm_compute. reflexivity.
Defined.
End WorkerSpecExamples.
