(* ===== verification/WorkerRun.v ===== *)
(** * WorkerRun: a job's run from Scheduled to its final status

    The full course of [Worker._process] over a store whose calls return. *)
From stdpp Require Import functions.
From S2P Require Import Prelude Json Lifecycle Fsm SchedulerFsm JobStore Channel Context Task.
From S2P Require Import Workflow World Job Worker WorkerSpec Demo Dict.

Section Calm.
Context {S X : Type} `{!JobStore S, !JobStoreLaws S, !Env X}.
Abbreviation W := (World S X).
Implicit Types (w : W).

(** No call of the store raises. *)
Definition calm : Prop :=
  (∀ r s, ∃ b s', put r s = (Ret b, s')) ∧ (∀ i s, ∃ o s', get i s = (Ret o, s')).

(** In the states [P], which the store does not leave, no call raises. *)
Definition calm_on (P : S → Prop) : Prop :=
  (∀ r s, P s → ∃ b s', put r s = (Ret b, s') ∧ P s')
  ∧ (∀ i s, P s → ∃ o s', get i s = (Ret o, s') ∧ P s').
Lemma calm_everywhere : calm → calm_on (λ _, True).
Proof.
  intros [Hput Hget]. split.
  - intros r s _. destruct (Hput r s) as (b & s' & E). by exists b, s'.
  - intros i s _. destruct (Hget i s) as (o & s' & E). by exists o, s'.
Qed.

Lemma ensure_none b w :
  w_deferred w = None → ensure_scheduler_job_store_applied b w = (Ret tt, w).
Proof. intros H. unfold ensure_scheduler_job_store_applied, m_bind, m_get. by rewrite H. Qed.

Lemma save_returns_on P j w :
  calm_on P → P (w_store w) → w_deferred w = None →
  ∃ b w', save j w = (Ret b, w') ∧ P (w_store w').
Proof.
  intros [Hput Hget] HP Hd. unfold save. erewrite bind_ret_run by reflexivity.
  rewrite (bind_ret_run _ _ _ _ _ (ensure_none _ w Hd)). unfold m_bind, on_env.
  destruct (utcnow (w_env w)) as [u x]. unfold get_job, m_get, on_store.
  destruct (Hput (record_of u (w_jobs (set_env x w) j)) (w_store (set_env x w)) HP)
    as (b & s1 & -> & HP1).
  destruct b; cbn [negb]; [| by eexists _, _].
  destruct (Hget (j_id (w_jobs (set_env x w) j)) (w_store (set_store s1 (set_env x w))) HP1)
    as (d & s2 & -> & HP2).
  destruct d; by eexists _, _.
Qed.

Lemma get_saved_returns_on P i w :
  calm_on P → P (w_store w) → w_deferred w = None →
  ∃ w', get_saved i w = (Ret (rows (w_store w) !! i), w') ∧ P (w_store w').
Proof.
  intros [_ Hget] HP Hd. pose proof (get_saved_spec i w) as H. unfold get_saved in *.
  erewrite bind_ret_run in * by reflexivity.
  rewrite (bind_ret_run _ _ _ _ _ (ensure_none _ w Hd)) in *. unfold on_store in *.
  destruct (Hget i (w_store w) HP) as (o & s & E & HP'). rewrite E in *.
  destruct H as (_ & _ & _ & ->). by eexists.
Qed.
Context (Hcalm : calm).

Lemma save_returns j w : w_deferred w = None → ∃ b w', save j w = (Ret b, w').
Proof.
  intros Hd. destruct (save_returns_on _ j w (calm_everywhere Hcalm) I Hd) as (b & w' & E & _).
  by exists b, w'.
Qed.
Lemma get_saved_returns i w :
  w_deferred w = None → ∃ w', get_saved i w = (Ret (rows (w_store w) !! i), w').
Proof.
  intros Hd. destruct (get_saved_returns_on _ i w (calm_everywhere Hcalm) I Hd) as (w' & E & _).
  by exists w'.
Qed.

(** The durable row of job [j] is [row], and [save] may replace it. *)
Definition current_row (j : nat) (row : JobRecord) w : Prop :=
  w_deferred w = None ∧ rows (w_store w) !! j_id (w_jobs w j) = Some row
  ∧ r_version row = j_version (w_jobs w j).

Lemma save_advances j row w :
  current_row j row w → put_applies (Some (r_status row)) (_current_status (w_jobs w j)) = true →
  ∃ u w', let job' := with_updated u (with_version (r_version row + 1) (w_jobs w j)) in
    let row' := replace_row (record_of u (w_jobs w j)) (r_created row) (r_version row + 1) in
    save j w = (Ret true, w') ∧ save_only j w w' ∧ w_jobs w' j = job' ∧ current_row j row' w'
    ∧ rows (w_store w') = <[j_id (w_jobs w j) := row']> (rows (w_store w)).
Proof.
  intros (Hd & Hrow & Hv) Hs. destruct (save_returns j w Hd) as (b & w' & E).
  pose proof (save_spec j w) as H. rewrite E in H. destruct H as [Ho H].
  assert (∀ u, may_write (record_of u (w_jobs w j)) (rows (w_store w)) = true) as Hmw.
  { intros u. by apply (may_write_Some (record_of u (w_jobs w j)) _ row Hrow). }
  destruct b; [| destruct H as (_ & _ & u & H); by rewrite Hmw in H].
  destruct H as (u & _ & Hr & Hj). exists u, w'. cbv zeta.
  assert (rows (w_store w') = <[j_id (w_jobs w j) := replace_row (record_of u (w_jobs w j))
            (r_created row) (r_version row + 1)]> (rows (w_store w))) as Hr'.
  { rewrite Hr. unfold write_row. cbn [r_id record_of]. by rewrite Hrow. }
  rewrite Hr', lookup_insert_eq in Hj. cbn in Hj.
  split_and!; try done.
  unfold current_row. rewrite Hj, Hr'. split_and!; [by apply Ho | apply lookup_insert_eq | done].
Qed.

(** An accepted event, then [save]. *)
Lemma event_then_save j ev s s' row w :
  current_row j row w → at_status s (w_jobs w j) → r_status row = status_value s →
  sched_next ev s = Some s' →
  ∃ u w1 w', let job' := with_updated u (with_version (r_version row + 1) (moved s' (w_jobs w j))) in
    let row' := replace_row (record_of u (moved s' (w_jobs w j))) (r_created row) (r_version row + 1) in
    apply_event j ev w = (Ret tt, w1) ∧ save j w1 = (Ret true, w') ∧ save_only j w w'
    ∧ w_jobs w1 j = moved s' (w_jobs w j)
    ∧ w_jobs w' j = job' ∧ current_row j row' w'
    ∧ rows (w_store w') = <[j_id (w_jobs w j) := row']> (rows (w_store w)).
Proof.
  intros Hcur Hs Hrs Hn. pose proof (apply_event_at j ev s w Hs) as H.
  destruct (apply_event j ev w) as [o w1]. rewrite Hn in H. destruct H as (Hjo & -> & Hj1).
  pose proof Hjo as [_ Hw1].
  assert (current_row j row w1) as Hcur1.
  { destruct Hcur as (H1 & H2 & H3). unfold current_row. rewrite Hj1, Hw1. done. }
  destruct (save_advances j row w1 Hcur1) as (u & w' & Hsave & Ho & Hj' & Hc' & Hr').
  { rewrite Hj1, Hrs. exact (sched_step_fence s s' (sched_step_intro ev s s' Hn)). }
  exists u, w1, w'. cbv zeta. rewrite Hj1 in *. split_and!; try done.
  - etransitivity; [by apply job_only_save_only | done].
  - rewrite Hr'. rewrite Hw1. done.
Qed.

Lemma heal_present j row w :
  current_row j row w →
  ∃ w', heal_snapshot j w = (Ret tt, w') ∧ save_only j w w' ∧ w_jobs w' = w_jobs w
    ∧ rows (w_store w') = rows (w_store w).
Proof.
  intros (Hd & Hrow & _). destruct (get_saved_returns (j_id (w_jobs w j)) w Hd) as [w' E].
  pose proof (get_saved_spec (j_id (w_jobs w j)) w) as H. rewrite E in H.
  destruct H as (Ho & Hj & Hr & _). exists w'. split_and!; try done.
  unfold heal_snapshot, id_of. erewrite bind_ret_run by reflexivity.
  rewrite (bind_ret_run _ _ _ _ _ E), Hrow. done.
Qed.

Lemma current_row_keep j row w w' :
  current_row j row w → save_only j w w' → w_jobs w' = w_jobs w →
  rows (w_store w') = rows (w_store w) → current_row j row w'.
Proof.
  intros (Hd & Hrow & Hv) Ho Hj Hr. unfold current_row. rewrite Hj, Hr.
  split_and!; [by apply Ho | done | done].
Qed.

(** ** Workflows that mind their own business *)
Context {V : Type} (run_workflow : list Task → M W (list (option V))).
Context (res : list Task → option exn) (trace : X → list (list Task)).
Context (Htrace : ∀ x, trace (utcnow x).2 = trace x).

(** Workflow [wf] ends as [res wf] says and is recorded in the [trace]; it does
    not touch job [j], the rows or the configuration. *)
Definition well_behaved (j : nat) : Prop :=
  (∀ wf e, res wf = Some e → is_exception e = true) ∧
  ∀ wf w, ∃ rs w',
    run_workflow wf w = (match res wf with None => Ret rs | Some e => Raise e end, w')
    ∧ w_jobs w' j = w_jobs w j ∧ rows (w_store w') = rows (w_store w)
    ∧ w_deferred w' = w_deferred w ∧ trace (w_env w') = trace (w_env w) ++ [wf].

(** What else stays as it is, is stated by a relation [F] that [save] and the
    workflows keep. *)
Context (F : W → W → Prop) `{!PreOrder F}.
Definition framed (j : nat) : Prop :=
  (∀ w w', save_only j w w' → F w w') ∧ ∀ wf, preserves F (to_thread run_workflow wf).

(** The workflows that are started, and the error of the last one. *)
Fixpoint until_failure (wfs : list (list Task)) : list (list Task) * option exn :=
  match wfs with
  | [] => ([], None)
  | wf :: rest =>
      match res wf with
      | Some e => ([wf], Some e)
      | None => let '(ran, e) := until_failure rest in (wf :: ran, e)
      end
  end.

Lemma trace_env_le x y : env_le x y → trace y = trace x.
Proof. induction 1 as [x|x y z -> _ IH]; [done |]. by rewrite IH, Htrace. Qed.

(** The states the run of the workflows goes through. *)
Definition same_job (j : nat) (ran : list (list Task)) w w' : Prop :=
  w_jobs w' j = w_jobs w j ∧ rows (w_store w') = rows (w_store w)
  ∧ w_deferred w' = w_deferred w ∧ trace (w_env w') = trace (w_env w) ++ ran ∧ F w w'.

Lemma to_thread_run j wf w :
  well_behaved j → framed j →
  ∃ w', to_thread run_workflow wf w
        = (match res wf with None => Ret tt | Some e => Raise e end, w')
      ∧ same_job j [wf] w w'.
Proof.
  intros [_ Hrun] [_ HF]. specialize (HF wf w).
  destruct (Hrun wf (set_in_loop false w)) as (rs & w' & E & Hj & Hr & Hd & Ht).
  unfold to_thread in *. rewrite E in *. eexists. split; [by destruct (res wf) | by split_and!].
Qed.

Lemma run_workflows_run j wfs w :
  well_behaved j → framed j → is_cancelled (w_jobs w j) = false →
  ∃ w', run_workflows run_workflow j wfs w
        = (match (until_failure wfs).2 with None => Ret false | Some e => Raise e end, w')
      ∧ same_job j (until_failure wfs).1 w w'.
Proof.
  intros Hw HF. revert w. induction wfs as [|wf wfs IH]; intros w Hc.
  { exists w. split; [done |]. unfold same_job. rewrite app_nil_r. by split_and!. }
  cbn [run_workflows until_failure]. unfold cancelled. erewrite bind_ret_run by reflexivity.
  rewrite Hc. destruct (to_thread_run j wf w Hw HF) as (w1 & E1 & Hj1 & Hr1 & Hd1 & Ht1 & HF1).
  destruct (res wf) as [e|].
  - rewrite (bind_raise_run _ _ _ _ _ E1). by exists w1.
  - rewrite (bind_ret_run _ _ _ _ _ E1). destruct (IH w1) as (w2 & E2 & Hj2 & Hr2 & Hd2 & Ht2 & HF2).
    { by rewrite Hj1. }
    destruct (until_failure wfs) as [ran err]. cbn [fst snd] in *. exists w2. split; [done |].
    split_and!; try congruence; [by rewrite Ht2, Ht1, <- app_assoc | by etransitivity].
Qed.

Lemma until_failure_exn j wfs e :
  well_behaved j → (until_failure wfs).2 = Some e → is_exception e = true.
Proof.
  intros [He _]. induction wfs as [|wf wfs IH]; cbn; [done |].
  destruct (res wf) eqn:Hr; [intros [= <-]; by eapply He |].
  destruct (until_failure wfs). auto.
Qed.

(** The whole [run_body] from InProgress. *)
Lemma run_body_run j row w :
  well_behaved j → framed j → current_row j row w → at_status IN_PROGRESS (w_jobs w j) →
  r_status row = status_value IN_PROGRESS →
  let wfs := j_workflows (shared (w_jobs w j)) in
  let err := (until_failure wfs).2 in
  let final := match err with None => COMPLETED | Some _ => FAILED end in
  ∃ w' row', run_body run_workflow j w = (match err with None => Ret tt | Some e => Raise e end, w')
    ∧ at_status final (w_jobs w' j) ∧ j_status (w_jobs w' j) = status_value final
    ∧ current_row j row' w' ∧ r_status row' = status_value final
    ∧ r_version row' = (r_version row + 1)%Z ∧ r_created row' = r_created row
    ∧ j_id (w_jobs w' j) = j_id (w_jobs w j)
    ∧ rows (w_store w') = <[j_id (w_jobs w j) := row']> (rows (w_store w))
    ∧ trace (w_env w') = trace (w_env w) ++ (until_failure wfs).1 ∧ F w w'.
Proof.
  intros Hwb HF (Hd & Hrow & Hv) Hs Hrs. cbv zeta.
  set (wfs := j_workflows (shared (w_jobs w j))).
  unfold run_body, share_cancel_event.
  destruct (upd_job j shared w) as [o w0] eqn:E0.
  assert (o = Ret tt ∧ w_jobs w0 j = shared (w_jobs w j) ∧ w_store w0 = w_store w
          ∧ w_deferred w0 = w_deferred w ∧ w_env w0 = w_env w) as (-> & Hj0 & Hst0 & Hd0 & Hx0).
  { injection E0 as <- <-. split_and!; try done. cbn. by rewrite fn_lookup_insert. }
  assert (F w w0) as HF0.
  { apply HF, job_only_save_only. pose proof (upd_job_only j shared w) as H. by rewrite E0 in H. }
  assert (is_cancelled (w_jobs w0 j) = false) as Hc0.
  { rewrite Hj0. by rewrite (is_cancelled_at IN_PROGRESS). }
  destruct (run_workflows_run j wfs w0 Hwb HF Hc0) as (w1 & E1 & Hj1 & Hr1 & Hd1 & Ht1 & HF1).
  assert ((let* _ := upd_job j shared in
           let* workflows := m_get (λ w, j_workflows (w_jobs w j)) in
           run_workflows run_workflow j workflows) w
          = (match (until_failure wfs).2 with None => Ret false | Some e => Raise e end, w1)) as E2.
  { rewrite (bind_ret_run _ _ _ _ _ E0). erewrite bind_ret_run by reflexivity. by rewrite Hj0. }
  assert (current_row j row w1) as Hcur1.
  { unfold current_row. rewrite Hj1, Hj0, Hr1, Hst0, Hd1, Hd0. done. }
  assert (at_status IN_PROGRESS (w_jobs w1 j)) as Hs1 by (by rewrite Hj1, Hj0).
  assert (is_cancelled (w_jobs w1 j) = false) as Hc1 by (by rewrite (is_cancelled_at IN_PROGRESS)).
  set (ev := match (until_failure wfs).2 with None => COMPLETE | Some _ => FAIL end).
  set (final := match (until_failure wfs).2 with None => COMPLETED | Some _ => FAILED end).
  destruct (event_then_save j ev IN_PROGRESS final row w1 Hcur1 Hs1 Hrs)
    as (u & w2 & w3 & E3 & E4 & Ho & _ & Hj3 & Hcur3 & Hr3).
  { subst ev final. by destruct (until_failure wfs).2. }
  set (row' := replace_row _ _ _) in *.
  assert (_transition_and_save_terminal j ev w1 = (Ret tt, w3)) as E5.
  { unfold _transition_and_save_terminal. rewrite (bind_ret_run _ _ _ _ _ E3).
    by rewrite (bind_ret_run _ _ _ _ _ E4). }
  exists w3, row'. split.
  - destruct (until_failure wfs).2 as [e|] eqn:He; subst ev.
    + rewrite (bind_raise_run _ _ w e w3); [done |].
      rewrite (try_raise_run _ _ _ _ _ E2) by (by eapply until_failure_exn).
      unfold cancelled. erewrite bind_ret_run by reflexivity. rewrite Hc1.
      by rewrite (bind_ret_run _ _ _ _ _ (try_ret_run _ _ _ _ _ E5)).
    + rewrite (bind_ret_run _ _ _ _ _ (try_ret_run _ _ _ _ _ E2)).
      unfold cancelled. erewrite bind_ret_run by reflexivity. rewrite Hc1.
      by rewrite (try_ret_run _ _ _ _ _ E5).
  - rewrite Hj3, Hr3, Hr1, Hst0. rewrite Hj1, Hj0. split_and!; try done.
    + rewrite (trace_env_le _ _ (proj2 (proj2 (proj2 (proj2 (proj2 (proj2 (proj2 Ho)))))))).
      by rewrite Ht1, Hx0.
    + etransitivity; [exact HF0 |]. etransitivity; [exact HF1 | by apply HF].
Qed.

Lemma process_run ch j row w :
  well_behaved j → framed j → current_row j row w → at_status SCHEDULED (w_jobs w j) →
  r_status row = status_value SCHEDULED →
  let wfs := j_workflows (shared (w_jobs w j)) in
  let err := (until_failure wfs).2 in
  let final := match err with None => COMPLETED | Some _ => FAILED end in
  ∃ w' row', _process ch run_workflow j w
        = (match err with None => Ret tt | Some e => Raise e end, w')
    ∧ at_status final (w_jobs w' j) ∧ j_status (w_jobs w' j) = status_value final
    ∧ current_row j row' w' ∧ r_status row' = status_value final
    ∧ r_version row' = (r_version row + 2)%Z ∧ r_created row' = r_created row
    ∧ rows (w_store w') = <[j_id (w_jobs w j) := row']> (rows (w_store w))
    ∧ trace (w_env w') = trace (w_env w) ++ (until_failure wfs).1
    ∧ j_id (w_jobs w' j) = j_id (w_jobs w j) ∧ F w w'.
Proof.
  intros Hwb HF Hcur Hs Hrs. cbv zeta. unfold _process, cancelled.
  erewrite bind_ret_run by reflexivity. rewrite (is_cancelled_at SCHEDULED _ Hs). cbn [bool_decide].
  destruct (heal_present j row w Hcur) as (w1 & E1 & Ho1 & Hj1 & Hr1).
  pose proof (current_row_keep _ _ _ _ Hcur Ho1 Hj1 Hr1) as Hcur1.
  assert (at_status SCHEDULED (w_jobs w1 j)) as Hs1 by (by rewrite Hj1).
  destruct (event_then_save j RUN SCHEDULED IN_PROGRESS row w1 Hcur1 Hs1 Hrs eq_refl)
    as (u & w2 & w3 & E2 & E3 & Ho3 & _ & Hj3 & Hcur3 & Hr3).
  set (row1 := replace_row _ _ _) in *.
  assert (at_status IN_PROGRESS (w_jobs w3 j)) as Hs3 by (by rewrite Hj3).
  destruct (run_body_run j row1 w3 Hwb HF Hcur3 Hs3 eq_refl)
    as (w4 & row' & E4 & H1 & H2 & H3 & H4 & H5 & H6 & H7 & H8 & H9 & H10).
  assert (j_workflows (shared (w_jobs w3 j)) = j_workflows (shared (w_jobs w j))) as Hwf
    by (by rewrite Hj3, Hj1).
  rewrite Hwf in *. exists w4, row'. split_and!; try done.
  - rewrite bool_decide_false by done.
    do 2 erewrite bind_ret_run by reflexivity.
    rewrite (bind_ret_run _ _ _ _ _ (try_ret_run _ _ _ _ _ (bind_ret_run _ _ _ _ _ E1))).
    cbn [negb]. rewrite (bind_ret_run _ _ _ _ _ E2).
    by rewrite (bind_ret_run _ _ _ _ _ (try_ret_run _ _ _ _ _ (bind_ret_run _ _ _ _ _ E3))).
  - rewrite H5. cbn. lia.
  - rewrite H8, Hr3, Hj3, Hr1, Hj1. cbn. by rewrite insert_insert_eq.
  - rewrite H9. f_equal. rewrite (trace_env_le (w_env w1) (w_env w3)) by apply Ho3.
    apply trace_env_le, Ho1.
  - by rewrite H7, Hj3, Hj1.
  - etransitivity; [exact (proj1 HF _ _ Ho1) |]. etransitivity; [exact (proj1 HF _ _ Ho3) | exact H10].
Qed.
End Calm.

(** ** Properties *)

(** C4: a scheduled job runs to completion, once.  On a store whose calls return,
    a job that is Scheduled in memory and in its current durable row has its
    workflows started in order, each once, up to the first that raises.  If none
    did the worker returns and the job and its row are Completed; else the error
    comes out and both are Failed.  The row was written twice, keeps its
    [created], and no other row changed. *)
Theorem process_runs_job {S X V} `{!JobStore S, !JobStoreLaws S, !Env X}
    (run_workflow : list Task → M (World S X) (list (option V)))
    (res : list Task → option exn) (trace : X → list (list Task)) ch j row w :
  calm (S := S) → (∀ x, trace (utcnow x).2 = trace x) → well_behaved run_workflow res trace j →
  current_row j row w → at_status SCHEDULED (w_jobs w j) → r_status row = status_value SCHEDULED →
  let wfs := j_workflows (shared (w_jobs w j)) in
  let err := (until_failure res wfs).2 in
  let final := match err with None => COMPLETED | Some _ => FAILED end in
  ∃ w' row', _process ch run_workflow j w
        = (match err with None => Ret tt | Some e => Raise e end, w')
    ∧ at_status final (w_jobs w' j) ∧ j_status (w_jobs w' j) = status_value final
    ∧ current_row j row' w' ∧ r_status row' = status_value final
    ∧ r_version row' = (r_version row + 2)%Z ∧ r_created row' = r_created row
    ∧ rows (w_store w') = <[j_id (w_jobs w j) := row']> (rows (w_store w))
    ∧ trace (w_env w') = trace (w_env w) ++ (until_failure res wfs).1.
Proof.
  intros Hcalm Htrace Hwb Hcur Hs Hrs.
  assert (PreOrder (λ _ _ : World S X, True)) as Hpre by by split.
  destruct (process_run Hcalm run_workflow res trace Htrace (λ _ _, True) ch j row w Hwb)
    as (w' & row' & E & H1 & H2 & H3 & H4 & H5 & H6 & H7 & H8 & _);
    [by split | done | done | done |].
  exists w', row'. exact (conj E (conj H1 (conj H2 (conj H3 (conj H4 (conj H5 (conj H6 (conj H7 H8)))))))).
Qed.

Module WorkerRunExamples.
Lemma calm_memory : calm (S := InMemoryJobStore.t).
Proof.
  split.
  - intros r s. cbn. unfold InMemoryJobStore.put.
    destruct (dict_get _ _); [destruct (negb _) |]; by eexists _, _.
  - intros i s. by eexists _, _.
Qed.

(** The second workflow fails. *)
Definition boom : exn := OtherException "Exception" "boom".
Definition res (wf : list Task) : option exn :=
  match wf with [_] => Some boom | _ => None end.
Definition w0 : World InMemoryJobStore.t demo_env := with_job SCHEDULED (memory_with (row0 SCHEDULED 1)).

Lemma process_runs_job_witness :
  ∃ w' row', _process 0 (logged_run res) 0 w0 = (Raise boom, w')
    ∧ rows (w_store w') !! id0 = Some row' ∧ r_status row' = "Failed" ∧ r_version row' = 3%Z
    ∧ length (d_log (w_env w')) = 2.
Proof.
  destruct (process_runs_job (logged_run res) res d_log 0 0 (row0 SCHEDULED 1) w0)
    as (w' & row' & E & _ & _ & (_ & Hr & _) & Hs & Hv & _ & Hrows & Ht).
  - exact calm_memory.
  - reflexivity.
  - split; [intros wf e; unfold res; destruct wf as [|? [|]]; intros [= <-]; reflexivity |].
    intros wf w. eexists _, _. split; [reflexivity |]. split_and!; reflexivity.
  - split_and!; vm_compute; reflexivity.
  - reflexivity.
  - reflexivity.
  - exists w', row'. split; [exact E |]. split_and!.
    + rewrite Hrows. apply lookup_insert_eq.
    + exact Hs.
    + exact Hv.
    + rewrite Ht. vm_compute. reflexivity.
Defined.
End WorkerRunExamples.
