(* ===== verification/WorkerCancel.v ===== *)
(** * WorkerCancel: cancellation

    [Job.cancel] while a worker runs the job, and the worker's side of it. *)
From stdpp Require Import functions.
From S2P Require Import Prelude Dict Json Lifecycle Fsm SchedulerFsm JobStore Channel Context.
From S2P Require Import Task Workflow World Job Worker WorkerSpec WorkerRun Demo.

(** [c'] is [c] with event [e] under the cancellation key. *)
Definition carries (e : nat) (c c' : context ctx_value) : Prop :=
  ctx_values c' !! CANCEL_EVENT_KEY = Some (CEvent e)
  ∧ (∀ k, k ≠ CANCEL_EVENT_KEY → ctx_values c' !! k = ctx_values c !! k)
  ∧ ctx_index c' = ctx_index c ∧ ctx_id c' = ctx_id c ∧ ctx_parent c' = ctx_parent c.
(** [job'] is [job] with event [e] in its context and in the context of every
    task of every workflow, and nothing else changed. *)
Definition given_event (e : nat) (job job' : Job) : Prop :=
  carries e (j_context job) (j_context job')
  ∧ Forall2 (Forall2 (λ t t', carries e (t_context t) (t_context t')
                              ∧ with_context (t_context t) t' = t))
      (j_workflows job) (j_workflows job')
  ∧ with_contexts (j_context job) (j_workflows job) job' = job.

Lemma share_token_carries e c : carries e c (share_token e c).
Proof.
  split_and!; cbn; [by rewrite lookup_insert_eq | | done..].
  intros k Hk. by rewrite lookup_insert_ne.
Qed.
Lemma shared_given job : given_event (j_cancel_event job) job (shared job).
Proof.
  split_and!; [apply share_token_carries | | by destruct job].
  cbn. apply Forall2_fmap_r, Forall_Forall2_diag, Forall_true. intros ts.
  apply Forall2_fmap_r, Forall_Forall2_diag, Forall_true. intros t.
  split; [apply share_token_carries | by destruct t].
Qed.

Section Cancel.
Context {S X : Type} `{!JobStore S, !JobStoreLaws S, !Env X}.
Abbreviation W := (World S X).
Implicit Types (w : W).
Context (Hcalm : calm (S := S)).

(** [cancel] of a job that is Scheduled or InProgress. *)
Lemma cancel_run j s row w :
  current_row j row w → at_status s (w_jobs w j) → r_status row = status_value s →
  sched_next CANCEL s = Some CANCELLED →
  ∃ u w' row', cancel j w = (Ret tt, w')
    ∧ w_jobs w' j = with_updated u (with_version (r_version row + 1) (moved CANCELLED (shared (w_jobs w j))))
    ∧ current_row j row' w' ∧ r_status row' = status_value CANCELLED
    ∧ r_version row' = (r_version row + 1)%Z
    ∧ rows (w_store w') = <[j_id (w_jobs w j) := row']> (rows (w_store w))
    ∧ w_events w' = <[j_cancel_event (w_jobs w j) := true]> (w_events w)
    ∧ env_le (w_env w) (w_env w').
Proof.
  intros (Hd & Hrow & Hv) Hs Hrs Hn. unfold cancel, share_cancel_event, set_event, get_job.
  set (w1 := set_jobs (<[j := shared (w_jobs w j)]> (w_jobs w)) w).
  set (w2 := set_events (<[j_cancel_event (w_jobs w1 j) := true]> (w_events w1)) w1).
  assert (w_jobs w1 j = shared (w_jobs w j)) as Hj1 by (cbn; by rewrite fn_lookup_insert).
  assert (w_jobs w2 j = shared (w_jobs w j)) as Hj2 by exact Hj1.
  assert (current_row j row w2) as Hc2.
  { unfold current_row. rewrite Hj2. done. }
  assert (at_status s (w_jobs w2 j)) as Hs2 by (by rewrite Hj2).
  destruct (event_then_save Hcalm j CANCEL s CANCELLED row w2 Hc2 Hs2 Hrs Hn)
    as (u & w3 & w4 & E3 & E4 & Ho & _ & Hj4 & Hc4 & Hr4).
  rewrite Hj2 in Hj4, Hr4, Hc4. eexists u, w4, _. split; [| split; [exact Hj4 | split; [exact Hc4 |]]].
  - erewrite (bind_ret_run (upd_job j shared)) by reflexivity.
    erewrite (bind_ret_run (m_get _)) by reflexivity.
    erewrite (bind_ret_run (m_modify _)) by reflexivity.
    rewrite (bind_ret_run _ _ _ _ _ E3). by rewrite (bind_ret_run _ _ _ _ _ E4).
  - split_and!; try done.
    + destruct Ho as (_ & -> & _). cbn. by rewrite fn_lookup_insert.
    + apply Ho.
Qed.

(** A cancelled job whose row says so needs nothing more. *)
Lemma ensure_cancelled_done j row w :
  current_row j row w → r_status row = status_value CANCELLED →
  ∃ w', _ensure_cancelled_persisted_logged j w = (Ret tt, w') ∧ save_only j w w'
    ∧ w_jobs w' = w_jobs w ∧ rows (w_store w') = rows (w_store w).
Proof.
  intros (Hd & Hrow & _) Hs.
  destruct (get_saved_returns Hcalm (j_id (w_jobs w j)) w Hd) as [w' E].
  pose proof (get_saved_spec (j_id (w_jobs w j)) w) as H. rewrite E in H.
  destruct H as (Ho & Hj & Hr & _). exists w'. split_and!; try done.
  unfold _ensure_cancelled_persisted_logged, _ensure_cancelled_persisted, id_of.
  erewrite try_ret_run; [done |]. erewrite bind_ret_run by reflexivity.
  rewrite (bind_ret_run _ _ _ _ _ E), Hrow. cbn. rewrite Hs. done.
Qed.

Context {V : Type} (run_workflow : list Task → M W (list (option V))).
Context (trace : X → list (list Task)) (Htrace : ∀ x, trace (utcnow x).2 = trace x).

(** Workflows in the course of which the job is cancelled: each is recorded, and
    what it returns or raises is arbitrary. *)
Definition cancels (j : nat) : Prop :=
  ∀ wf w, ∃ o w0, run_workflow wf w = (o, (cancel j w0).2)
    ∧ (∀ e, o = Raise e → is_exception e = true)
    ∧ w0 = set_env (w_env w0) w ∧ trace (w_env w0) = trace (w_env w) ++ [wf].

(** The first workflow, in the course of which the job is cancelled. *)
Lemma to_thread_cancels j row wf w :
  cancels j → current_row j row w → at_status IN_PROGRESS (w_jobs w j) →
  r_status row = status_value IN_PROGRESS →
  ∃ o w' row', to_thread run_workflow wf w = (o, w')
    ∧ (∀ e, o = Raise e → is_exception e = true)
    ∧ at_status CANCELLED (w_jobs w' j) ∧ j_status (w_jobs w' j) = status_value CANCELLED
    ∧ current_row j row' w' ∧ r_status row' = status_value CANCELLED
    ∧ rows (w_store w') = <[j_id (w_jobs w j) := row']> (rows (w_store w))
    ∧ w_events w' (j_cancel_event (w_jobs w j)) = true
    ∧ trace (w_env w') = trace (w_env w) ++ [wf].
Proof.
  intros Hc Hcur Hs Hrs. destruct (Hc wf (set_in_loop false w)) as (o & w0 & E & He & Hw0 & Ht0).
  assert (current_row j row w0) as Hcur0 by (by rewrite Hw0).
  assert (at_status IN_PROGRESS (w_jobs w0 j)) as Hs0 by (by rewrite Hw0).
  destruct (cancel_run j IN_PROGRESS row w0 Hcur0 Hs0 Hrs eq_refl)
    as (u & w1 & row' & E1 & Hj1 & Hc1 & Hr1 & Hv1 & Hrows1 & Hev1 & Henv1).
  unfold to_thread. rewrite E, E1. cbn [snd].
  eexists _, _, row'. split; [reflexivity |]. split.
  { intros e. destruct o; [done |]. intros [= <-]. by apply He. }
  cbn. rewrite Hj1, Hrows1, Hev1, Hw0. cbn. rewrite fn_lookup_insert. split_and!; try done.
  rewrite (trace_env_le trace Htrace _ _ Henv1). exact Ht0.
Qed.

Lemma body_cancelled j row wf rest w :
  cancels j → current_row j row w → at_status IN_PROGRESS (w_jobs w j) →
  r_status row = status_value IN_PROGRESS →
  j_workflows (shared (w_jobs w j)) = wf :: rest →
  ∃ w' row', run_body run_workflow j w = (Ret tt, w')
    ∧ at_status CANCELLED (w_jobs w' j) ∧ j_status (w_jobs w' j) = status_value CANCELLED
    ∧ current_row j row' w' ∧ r_status row' = status_value CANCELLED
    ∧ w_events w' (j_cancel_event (w_jobs w j)) = true
    ∧ trace (w_env w') = trace (w_env w) ++ [wf].
Proof.
  intros Hc Hcur Hs Hrs Hwfs. unfold run_body, share_cancel_event.
  set (w1 := set_jobs (<[j := shared (w_jobs w j)]> (w_jobs w)) w).
  assert (w_jobs w1 j = shared (w_jobs w j)) as Hj1 by (cbn; by rewrite fn_lookup_insert).
  assert (current_row j row w1) as Hcur1 by (unfold current_row; by rewrite Hj1).
  assert (at_status IN_PROGRESS (w_jobs w1 j)) as Hs1 by (by rewrite Hj1).
  destruct (to_thread_cancels j row wf w1 Hc Hcur1 Hs1 Hrs)
    as (o & w2 & row' & E2 & He & Hs2 & Hst2 & Hcur2 & Hr2 & _ & Hev2 & Ht2).
  destruct (ensure_cancelled_done j row' w2 Hcur2 Hr2) as (w3 & E3 & Ho3 & Hj3 & Hrows3).
  assert (is_cancelled (w_jobs w2 j) = true) as Hc2 by (by rewrite (is_cancelled_at CANCELLED)).
  exists w3, row'. split.
  - assert ((let* _ := upd_job j shared in
             let* workflows := m_get (λ w, j_workflows (w_jobs w j)) in
             run_workflows run_workflow j workflows) w
            = match o with
              | Ret _ => run_workflows run_workflow j rest w2
              | Raise e => (Raise e, w2)
              end) as E4.
    { erewrite (bind_ret_run (upd_job j shared)) by reflexivity.
      erewrite (bind_ret_run (m_get _)) by reflexivity. fold w1. rewrite Hj1, Hwfs.
      cbn [run_workflows]. unfold cancelled.
      erewrite bind_ret_run by reflexivity. rewrite (is_cancelled_at IN_PROGRESS _ Hs1).
      rewrite bool_decide_false by done. unfold m_bind. rewrite E2. by destruct o. }
    destruct o as [[]|e].
    + destruct rest as [|wf' rest].
      * rewrite (bind_ret_run _ _ _ _ _ (try_ret_run _ _ _ _ _ E4)). unfold cancelled.
        erewrite bind_ret_run by reflexivity. by rewrite Hc2.
      * assert (run_workflows run_workflow j (wf' :: rest) w2 = (Ret true, w3)) as E5.
        { cbn [run_workflows]. unfold cancelled. erewrite bind_ret_run by reflexivity.
          rewrite Hc2. by rewrite (bind_ret_run _ _ _ _ _ E3). }
        rewrite E5 in E4. by rewrite (bind_ret_run _ _ _ _ _ (try_ret_run _ _ _ _ _ E4)).
    + assert (is_exception e = true) as Hexn by by apply He.
      unfold m_bind at 1. rewrite (try_raise_run _ _ _ _ _ E4 Hexn). unfold cancelled.
      erewrite bind_ret_run by reflexivity. rewrite Hc2.
      by rewrite (bind_ret_run _ _ _ _ _ E3).
  - rewrite Hj3, (trace_env_le trace Htrace (w_env w2) (w_env w3)) by apply Ho3.
    split_and!; try done.
    + by apply (current_row_keep j row' w2).
    + destruct Ho3 as (_ & -> & _). rewrite <- Hev2. by rewrite Hj1.

Qed.

Lemma process_cancelled ch j row wf rest w :
  cancels j → current_row j row w → at_status SCHEDULED (w_jobs w j) →
  r_status row = status_value SCHEDULED →
  j_workflows (shared (w_jobs w j)) = wf :: rest →
  ∃ w' row', _process ch run_workflow j w = (Ret tt, w')
    ∧ at_status CANCELLED (w_jobs w' j) ∧ j_status (w_jobs w' j) = status_value CANCELLED
    ∧ current_row j row' w' ∧ r_status row' = status_value CANCELLED
    ∧ w_events w' (j_cancel_event (w_jobs w j)) = true
    ∧ trace (w_env w') = trace (w_env w) ++ [wf].
Proof.
  intros Hc Hcur Hs Hrs Hwfs.
  destruct (heal_present Hcalm j row w Hcur) as (w1 & E1 & Ho1 & Hj1 & Hr1).
  pose proof (current_row_keep _ _ _ _ Hcur Ho1 Hj1 Hr1) as Hcur1.
  assert (at_status SCHEDULED (w_jobs w1 j)) as Hs1 by (by rewrite Hj1).
  destruct (event_then_save Hcalm j RUN SCHEDULED IN_PROGRESS row w1 Hcur1 Hs1 Hrs eq_refl)
    as (u & w2 & w3 & E2 & E3 & Ho3 & _ & Hj3 & Hcur3 & Hr3).
  set (row1 := replace_row _ _ _) in *.
  assert (at_status IN_PROGRESS (w_jobs w3 j)) as Hs3 by (by rewrite Hj3).
  destruct (body_cancelled j row1 wf rest w3 Hc Hcur3 Hs3 eq_refl)
    as (w4 & row' & E4 & H1 & H2 & H3 & H4 & H5 & H6).
  { by rewrite Hj3, Hj1. }
  exists w4, row'. split_and!; try done.
  - unfold _process, cancelled. erewrite bind_ret_run by reflexivity.
    rewrite (is_cancelled_at SCHEDULED _ Hs), bool_decide_false by done.
    do 2 erewrite bind_ret_run by reflexivity.
    rewrite (bind_ret_run _ _ _ _ _ (try_ret_run _ _ _ _ _ (bind_ret_run _ _ _ _ _ E1))).
    cbn [negb]. rewrite (bind_ret_run _ _ _ _ _ E2).
    by rewrite (bind_ret_run _ _ _ _ _ (try_ret_run _ _ _ _ _ (bind_ret_run _ _ _ _ _ E3))).
  - rewrite <- H5. by rewrite Hj3, Hj1.
  - rewrite H6, (trace_env_le trace Htrace (w_env w1) (w_env w3)) by apply Ho3.
    rewrite (trace_env_le trace Htrace (w_env w) (w_env w1)); [done |]. apply Ho1.
Qed.
End Cancel.

(** ** Properties *)

(** C2: cancel wins over the run it interrupts.  When a job is cancelled with
    [Job.cancel] in the course of its first workflow, then whether that workflow
    returns or raises, the worker returns normally, starts no other workflow,
    and the job and its durable row are Cancelled (never Completed or Failed);
    the cancellation event that every task context carries is set. *)
Theorem cancel_wins {S X V} `{!JobStore S, !JobStoreLaws S, !Env X}
    (run_workflow : list Task → M (World S X) (list (option V)))
    (trace : X → list (list Task)) ch j row wf rest w :
  calm (S := S) → (∀ x, trace (utcnow x).2 = trace x) → cancels run_workflow trace j →
  current_row j row w → at_status SCHEDULED (w_jobs w j) → r_status row = status_value SCHEDULED →
  j_workflows (shared (w_jobs w j)) = wf :: rest →
  ∃ w' row', _process ch run_workflow j w = (Ret tt, w')
    ∧ at_status CANCELLED (w_jobs w' j) ∧ j_status (w_jobs w' j) = status_value CANCELLED
    ∧ current_row j row' w' ∧ r_status row' = status_value CANCELLED
    ∧ w_events w' (j_cancel_event (w_jobs w j)) = true
    ∧ trace (w_env w') = trace (w_env w) ++ [wf].
Proof. intros Hcalm Htrace Hc Hcur Hs Hrs Hwfs. by eapply process_cancelled. Qed.

(** C28: [Job.cancel] of a job whose row is current and says what the job says, on
    a store that works.  Whatever the status, the job's event is set and stands
    under the cancellation key in the job's context and in the context of every
    task of every workflow, whose other values are as before.  In a status that
    can be cancelled, the job and its row are Cancelled, the row at the next
    version with every other row left alone; in any other it raises and writes
    nothing. *)
Theorem cancel_persists {S X} `{!JobStore S, !JobStoreLaws S, !Env X} j s row (w : World S X) :
  calm (S := S) → current_row j row w → at_status s (w_jobs w j) → r_status row = status_value s →
  let event := j_cancel_event (w_jobs w j) in
  match sched_next CANCEL s with
  | Some _ =>
      ∃ u w' row' job', cancel j w = (Ret tt, w')
        ∧ given_event event (w_jobs w j) job'
        ∧ w_jobs w' j = with_updated u (with_version (r_version row + 1) (moved CANCELLED job'))
        ∧ current_row j row' w' ∧ r_status row' = status_value CANCELLED
        ∧ r_version row' = (r_version row + 1)%Z
        ∧ rows (w_store w') = <[j_id (w_jobs w j) := row']> (rows (w_store w))
        ∧ w_events w' = <[event := true]> (w_events w)
  | None =>
      ∃ w', cancel j w = (Raise (InternalException ERROR_INVALID_EVENT), w')
        ∧ given_event event (w_jobs w j) (w_jobs w' j) ∧ w_store w' = w_store w
        ∧ w_events w' = <[event := true]> (w_events w)
  end.
Proof.
  intros Hcalm Hcur Hs Hrs event. pose proof (shared_given (w_jobs w j)) as Hg.
  destruct (sched_next CANCEL s) as [s'|] eqn:Hn.
  - assert (s' = CANCELLED) as -> by (by destruct s; simplify_eq/=).
    destruct (cancel_run Hcalm j s row w Hcur Hs Hrs Hn)
      as (u & w' & row' & ? & ? & ? & ? & ? & ? & ? & _).
    exists u, w', row', (shared (w_jobs w j)). by split_and!.
  - unfold cancel, share_cancel_event, set_event, get_job.
    erewrite (bind_ret_run (upd_job j shared)) by reflexivity.
    erewrite (bind_ret_run (m_get _)) by reflexivity.
    erewrite (bind_ret_run (m_modify _)) by reflexivity.
    match goal with |- context [m_bind (apply_event j CANCEL) _ ?w2] => set (w2' := w2) end.
    assert (w_jobs w2' j = shared (w_jobs w j)) as Hj2 by (cbn; by rewrite fn_lookup_insert).
    pose proof (apply_event_at j CANCEL s w2') as H. rewrite Hj2 in H. specialize (H Hs).
    unfold m_bind. destruct (apply_event j CANCEL w2') as [o w3]. rewrite Hn in H.
    destruct H as ([_ Hw3] & -> & Hj3). exists w3. split; [done |]. split; [by rewrite Hj3 |].
    rewrite Hw3. cbn. by rewrite fn_lookup_insert.
Qed.

Module WorkerCancelExamples.
Definition run (wf : list Task) : M (World InMemoryJobStore.t demo_env) (list (option nat)) :=
  λ w, let x := w_env w in
       (Raise (OtherException "Exception" "interrupted"),
        (cancel 0 (set_env (mkEnv (d_count x) (d_log x ++ [wf])) w)).2).
Definition w0 : World InMemoryJobStore.t demo_env := with_job SCHEDULED (memory_with (row0 SCHEDULED 1)).

Lemma current_row0 : current_row 0 (row0 SCHEDULED 1) w0.
Proof. split_and!; vm_compute; reflexivity. Qed.

Lemma cancel_wins_witness :
  ∃ w' row', _process 0 run 0 w0 = (Ret tt, w')
    ∧ rows (w_store w') !! j_id (w_jobs w' 0) = Some row' ∧ r_status row' = "Cancelled".
Proof.
  destruct (cancel_wins run d_log 0 0 (row0 SCHEDULED 1)
              (hd [] (j_workflows (shared (w_jobs w0 0)))) (tl (j_workflows (shared (w_jobs w0 0)))) w0)
    as (w' & row' & E & _ & _ & (_ & Hr & _) & Hs & _ & _).
  - exact WorkerRunExamples.calm_memory.
  - reflexivity.
  - intros wf w. eexists _, (set_env _ w). split; [reflexivity |].
    split; [by intros e [= <-] |]. split; [reflexivity |]. reflexivity.
  - exact current_row0.
  - reflexivity.
  - reflexivity.
  - reflexivity.
  - exists w', row'. split; [exact E |]. split; [exact Hr | exact Hs].
Defined.

(** One scheduled job, two of whose tasks get the event. *)
Lemma cancel_persists_witness :
  ∃ w' row', cancel 0 w0 = (Ret tt, w')
    ∧ rows (w_store w') !! j_id (w_jobs w' 0) = Some row' ∧ r_status row' = "Cancelled"
    ∧ Forall2 (Forall2 (λ t t', carries (j_cancel_event (w_jobs w0 0)) (t_context t) (t_context t')
                                ∧ with_context (t_context t) t' = t))
        (j_workflows (w_jobs w0 0)) (j_workflows (w_jobs w' 0)).
Proof.
  destruct (cancel_persists 0 SCHEDULED (row0 SCHEDULED 1) w0 WorkerRunExamples.calm_memory
              current_row0 eq_refl eq_refl)
    as (u & w' & row' & job' & E & (_ & Hg & _) & Hj & (_ & Hr & _) & Hs & _).
  exists w', row'. rewrite Hj in *. split; [exact E |]. split; [exact Hr |]. split; [exact Hs | exact Hg].
Defined.
End WorkerCancelExamples.
