(* ===== verification/WorkerFail.v ===== *)
(** * WorkerFail: when the snapshot of a starting job cannot be written

    The restore, re-enqueue and redelivery paths of [Worker._process], and the
    loop of [run_forever] on a stopped channel. *)
From stdpp Require Import functions.
From S2P Require Import Prelude Dict Json Lifecycle Fsm SchedulerFsm JobStore Channel Context.
From S2P Require Import Task Workflow World Job Worker WorkerSpec WorkerRun Demo.

Section Outage.
Context {S X : Type} `{!JobStore S, !JobStoreLaws S, !Env X}.
Abbreviation W := (World S X).
Implicit Types (w : W).

(** The store can be read and not written. *)
Definition read_only : Prop :=
  (∀ r s, ∃ e s', put r s = (Raise e, s') ∧ rows s' = rows s)
  ∧ (∀ i s, ∃ o s', get i s = (Ret o, s')).
Context (Hro : read_only).

(** A step that leaves jobs, channels and rows alone. *)
Definition idle_step w w' : Prop :=
  w_jobs w' = w_jobs w ∧ w_manager w' = w_manager w ∧ rows (w_store w') = rows (w_store w)
  ∧ (w_deferred w = None → w_deferred w' = None).

Lemma save_fails j w :
  w_deferred w = None →
  ∃ e w', save j w = (Raise e, w') ∧ is_exception e = true ∧ idle_step w w'.
Proof.
  intros Hd. pose proof (save_spec j w) as H. unfold save in *.
  erewrite bind_ret_run in * by reflexivity.
  rewrite (bind_ret_run _ _ _ _ _ (ensure_none _ w Hd)) in *.
  unfold m_bind, on_env in *. destruct (utcnow (w_env w)) as [u x].
  unfold get_job, m_get, on_store in *. destruct Hro as [Hput _].
  destruct (Hput (record_of u (w_jobs (set_env x w) j)) (w_store (set_env x w)))
    as (e & s1 & E & Hr). rewrite E in *.
  destruct H as [_ (He & _ & _)]. by eexists _, _.
Qed.

Lemma heal_outage j row w :
  w_deferred w = None → rows (w_store w) !! j_id (w_jobs w j) = Some row →
  ∃ w', heal_snapshot j w = (Ret tt, w') ∧ idle_step w w'.
Proof.
  intros Hd Hrow. pose proof (get_saved_spec (j_id (w_jobs w j)) w) as H.
  assert (∃ o w', get_saved (j_id (w_jobs w j)) w = (Ret o, w')) as (o & w' & E).
  { unfold get_saved. erewrite bind_ret_run by reflexivity.
    rewrite (bind_ret_run _ _ _ _ _ (ensure_none _ w Hd)). unfold on_store.
    destruct Hro as [_ Hget]. destruct (Hget (j_id (w_jobs w j)) (w_store w)) as (o & s & ->).
    by eexists _, _. }
  rewrite E in H. destruct H as (Ho & Hj & Hr & ->). exists w'. split.
  - unfold heal_snapshot, id_of. erewrite bind_ret_run by reflexivity.
    by rewrite (bind_ret_run _ _ _ _ _ E), Hrow.
  - destruct (Ho j) as (_ & _ & _ & Hm & _ & _ & Hdd & _). by split_and!.
Qed.

(** [_force_failed_lifecycle] ends in Failed from any status, moving nothing but
    the job. *)
Lemma force_failed_run j s w :
  at_status s (w_jobs w j) →
  ∃ w', _force_failed_lifecycle j w = (Ret tt, w') ∧ job_only j w w'
    ∧ at_status FAILED (w_jobs w' j) ∧ (s ≠ FAILED → w_jobs w' j = moved FAILED (w_jobs w j)).
Proof.
  intros Hs. unfold _force_failed_lifecycle. erewrite bind_ret_run by reflexivity.
  rewrite (current_status_at s) by done. case_decide as Hd.
  { apply (inj status_value) in Hd as ->. exists w. split_and!; try done. }
  pose proof (apply_event_at j FAIL s w Hs) as H. unfold m_try.
  destruct (apply_event j FAIL w) as [o w1]. destruct H as [Hjo H].
  destruct (sched_next FAIL s) as [s'|] eqn:Hn.
  - assert (s' = FAILED) as -> by (by destruct s; simplify_eq/=).
    destruct H as [-> Hj]. exists w1. rewrite Hj. by split_and!.
  - destruct H as [-> Hj]. cbn [is_exception]. erewrite bind_ret_run by reflexivity.
    set (w2 := (upd_job j (λ job, with_fsm (restore (Some (state_of FAILED)) (j_fsm job)) job) w1).2).
    destruct (upd_job j (with_status (status_value FAILED)) w2) as [o w3] eqn:E3.
    pose proof (upd_job_only j (λ job, with_fsm (restore (Some (state_of FAILED)) (j_fsm job)) job) w1)
      as H2. fold w2 in H2.
    pose proof (upd_job_only j (with_status (status_value FAILED)) w2) as H3. rewrite E3 in H3.
    assert (w_jobs w3 j = moved FAILED (w_jobs w j)) as Hj3.
    { replace w3 with (upd_job j (with_status (status_value FAILED)) w2).2 by (by rewrite E3).
      rewrite upd_job_at. subst w2. rewrite upd_job_at, Hj. unfold moved.
      unfold at_status in Hs. rewrite Hs, restore_fsm_at. done. }
    exists w3. split; [injection E3 as <- <-; reflexivity |]. split; [| rewrite Hj3; by split].
    by do 2 (etransitivity; [done |]).
Qed.

(** The job goes back to the channel, or is Failed in memory. *)
Lemma mark_undeliverable_run j s w :
  w_deferred w = None → at_status s (w_jobs w j) →
  ∃ w', _mark_undeliverable_failed j w = (Ret tt, w')
    ∧ at_status FAILED (w_jobs w' j) ∧ w_manager w' = w_manager w
    ∧ rows (w_store w') = rows (w_store w) ∧ w_deferred w' = None.
Proof.
  intros Hd Hs. destruct (force_failed_run j s w Hs) as (w1 & E1 & [_ Hw1] & Hs1 & _).
  destruct (save_fails j w1) as (e & w2 & E2 & He & Hj2 & Hm2 & Hr2 & Hd2); [by rewrite Hw1 |].
  exists w2. unfold _mark_undeliverable_failed. rewrite (bind_ret_run _ _ _ _ _ E1).
  rewrite (try_raise_run _ _ _ _ _ (bind_raise_run _ _ _ _ _ E2) He).
  split; [done |]. rewrite Hj2, Hm2, Hr2, Hw1. split_and!; try done. apply Hd2. by rewrite Hw1.
Qed.

Context {V : Type} (ch : nat) (run_workflow : list Task → M W (list (option V))).

(** The channel object the worker consumes. *)
Definition chan_of w : Channel nat := default (channel_new 0) (channels (w_manager w) !! ch).

Lemma on_channel_send j w :
  on_channel ch (send j) w =
    (Ret (if _stop (chan_of w) then SEND_STOPPED
          else if queue_full (chan_of w) then SEND_FULL else SEND_OK),
     set_manager (mkManager
       (<[ch := if _stop (chan_of w) then chan_of w
                else if queue_full (chan_of w) then chan_of w
                else with_queue (_queue (chan_of w) ++ [j]) (chan_of w)]> (channels (w_manager w)))
       (next_ref (w_manager w)) (_job_channel (w_manager w))) w).
Proof.
  unfold on_channel, on_manager, send. fold (chan_of w).
  destruct (_stop (chan_of w)); [done |]. by destruct (queue_full (chan_of w)).
Qed.
Lemma chan_of_set w w' c :
  w_manager w' = mkManager (<[ch := c]> (channels (w_manager w))) (next_ref (w_manager w))
                   (_job_channel (w_manager w)) → chan_of w' = c.
Proof. intros H. unfold chan_of. rewrite H. cbn. by rewrite lookup_insert_eq. Qed.

Lemma restore_lifecycle_run j st s w :
  ∃ w', restore_lifecycle j st s w = (Ret tt, w') ∧ job_only j w w'
    ∧ w_jobs w' j = with_status s (with_fsm (restore st (j_fsm (w_jobs w j))) (w_jobs w j)).
Proof.
  unfold restore_lifecycle. erewrite bind_ret_run by reflexivity.
  eexists. split; [reflexivity |]. split.
  - etransitivity; apply upd_job_only.
  - cbn. by rewrite !fn_lookup_insert.
Qed.

Lemma idle_job_only j w w' w'' : idle_step w w' → job_only j w' w'' →
  w_manager w'' = w_manager w ∧ rows (w_store w'') = rows (w_store w)
  ∧ (w_deferred w = None → w_deferred w'' = None).
Proof. intros (_ & Hm & Hr & Hd) [_ ->]. by split_and!. Qed.

(** Giving the job back, or not. *)
Definition given_back (j : nat) w (o : outcome unit) w' : Prop :=
  let c := chan_of w in
  rows (w_store w') = rows (w_store w) ∧
  if _stop c then
    o = Raise (JobRedeliveryError (redelivery_msg "stopped" (w_jobs w j)) "stopped" (Some j))
    ∧ at_status FAILED (w_jobs w' j) ∧ chan_of w' = c
  else if queue_full c then
    o = Raise (JobRedeliveryError (redelivery_msg "full" (w_jobs w j)) "full" (Some j))
    ∧ at_status FAILED (w_jobs w' j) ∧ chan_of w' = c
  else
    o = Raise (JobRequeuedError (requeued_msg (w_jobs w j)))
    ∧ w_jobs w' j = w_jobs w j ∧ chan_of w' = with_queue (_queue c ++ [j]) c.

Lemma requeue_run j w :
  w_deferred w = None → at_status SCHEDULED (w_jobs w j) →
  let '(o, w') := _requeue_after_run_restore ch j w in given_back j w o w'.
Proof.
  intros Hd Hs. unfold _requeue_after_run_restore, given_back.
  rewrite (bind_ret_run _ _ _ _ _ (on_channel_send j w)).
  erewrite (bind_ret_run (get_job j)) by reflexivity.
  match goal with |- context [set_manager ?m w] => set (w1 := set_manager m w) end.
  change (w_jobs w1 j) with (w_jobs w j).
  assert (chan_of w1 = if _stop (chan_of w) then chan_of w
                else if queue_full (chan_of w) then chan_of w
                else with_queue (_queue (chan_of w) ++ [j]) (chan_of w)) as Hc.
  { by apply (chan_of_set w). }
  destruct (mark_undeliverable_run j SCHEDULED w1 Hd Hs) as (w2 & E2 & Hf & Hm & Hr & _).
  destruct (_stop (chan_of w)).
  - rewrite !decide_False by done. rewrite (bind_ret_run _ _ _ _ _ E2). cbn.
    split_and!; try done. unfold chan_of in *. by rewrite Hm.
  - destruct (queue_full (chan_of w)).
    + rewrite decide_False, decide_True by done. rewrite (bind_ret_run _ _ _ _ _ E2). cbn.
      split_and!; try done. unfold chan_of in *. by rewrite Hm.
    + rewrite decide_True by done. cbn. by split_and!.
Qed.

Lemma process_outage j row w :
  w_deferred w = None → rows (w_store w) !! j_id (w_jobs w j) = Some row →
  at_status SCHEDULED (w_jobs w j) →
  let '(o, w') := _process ch run_workflow j w in given_back j w o w'.
Proof.
  intros Hd Hrow Hs. destruct (heal_outage j row w Hd Hrow) as (w1 & E1 & Hi1).
  pose proof Hi1 as (Hj1 & _ & _ & Hd1).
  assert (at_status SCHEDULED (w_jobs w1 j)) as Hs1 by (by rewrite Hj1).
  pose proof (apply_event_at j RUN SCHEDULED w1 Hs1) as H2.
  destruct (apply_event j RUN w1) as [o2 w2] eqn:E2. destruct H2 as (Hjo2 & -> & Hj2).
  destruct (idle_job_only j _ _ _ Hi1 Hjo2) as (Hm2 & Hr2 & Hd2).
  destruct (save_fails j w2 (Hd2 Hd)) as (e3 & w3 & E3 & He3 & Hj3 & Hm3 & Hr3 & Hd3).
  assert (at_status IN_PROGRESS (w_jobs w3 j)) as Hs3 by (by rewrite Hj3, Hj2).
  destruct (force_failed_run j IN_PROGRESS w3 Hs3) as (w4 & E4 & [_ Hw4] & Hs4 & Hj4).
  specialize (Hj4 ltac:(done)).
  destruct (save_fails j w4) as (e5 & w5 & E5 & He5 & Hj5 & Hm5 & Hr5 & Hd5).
  { rewrite Hw4. cbn. by apply Hd3, Hd2. }
  destruct (restore_lifecycle_run j (current (j_fsm (w_jobs w j))) (j_status (w_jobs w j)) w5)
    as (w6 & E6 & [_ Hw6] & Hj6).
  assert (w_jobs w6 j = w_jobs w j) as Hj6'.
  { rewrite Hj6, Hj5, Hj4, Hj3, Hj2, Hj1. unfold moved. destruct (w_jobs w j) as [? ? ? ? ? f].
    cbn in *. unfold at_status in Hs. cbn in Hs. subst f. unfold with_status, with_fsm. cbn.
    by rewrite restore_fsm_at. }
  assert (w_manager w6 = w_manager w) as Hm6.
  { rewrite Hw6. cbn. rewrite Hm5, Hw4. cbn. by rewrite Hm3. }
  assert (rows (w_store w6) = rows (w_store w)) as Hr6.
  { rewrite Hw6. cbn. rewrite Hr5, Hw4. cbn. by rewrite Hr3. }
  assert (w_deferred w6 = None) as Hd6.
  { rewrite Hw6. cbn. apply Hd5. rewrite Hw4. cbn. by apply Hd3, Hd2. }
  assert (_process ch run_workflow j w
          = match _requeue_after_run_restore ch j w6 with
            | (Raise e, w7) => (Raise e, w7)
            | (Ret _, w7) => (Raise e3, w7)
            end) as ->.
  { unfold _process, cancelled. erewrite bind_ret_run by reflexivity.
    rewrite (is_cancelled_at SCHEDULED _ Hs), bool_decide_false by done.
    do 2 erewrite bind_ret_run by reflexivity.
    rewrite (bind_ret_run _ _ _ _ _ (try_ret_run _ _ _ _ _ (bind_ret_run _ _ _ _ _ E1))).
    cbn [negb]. rewrite (bind_ret_run _ _ _ _ _ E2).
    unfold m_bind at 1. rewrite (try_raise_run _ _ _ _ _ (bind_raise_run _ _ _ _ _ E3) He3).
    unfold _fail_or_restore_after_run_persist, cancelled, id_of.
    assert ((let* c := m_get (λ w, is_cancelled (w_jobs w j)) in
             let* id := m_get (λ w, j_id (w_jobs w j)) in
             if (c : bool) then m_raise (RuntimeError ("Job already cancelled: id=" +:+ id))
             else _persist_failed_snapshot j) w3 = (Raise e5, w5)) as E7.
    { do 2 erewrite bind_ret_run by reflexivity.
      rewrite (is_cancelled_at IN_PROGRESS _ Hs3), bool_decide_false by done.
      unfold _persist_failed_snapshot. rewrite (bind_ret_run _ _ _ _ _ E4).
      by rewrite (bind_raise_run _ _ _ _ _ E5). }
    rewrite !bind_eq. rewrite (try_raise_run _ _ _ _ _ E7 He5).
    erewrite bind_ret_run by reflexivity.
    rewrite (is_cancelled_at FAILED) by (by rewrite Hj5). rewrite bool_decide_false by done.
    rewrite (bind_ret_run _ _ _ _ _ E6).
    by destruct (_requeue_after_run_restore ch j w6) as [[]]. }
  pose proof (requeue_run j w6 Hd6) as H7. rewrite Hj6' in H7. specialize (H7 Hs).
  destruct (_requeue_after_run_restore ch j w6) as [o7 w7].
  assert (given_back j w o7 w7) as H8.
  { unfold given_back in *. rewrite Hj6', Hr6 in H7.
    assert (chan_of w6 = chan_of w) as Hc by (unfold chan_of; by rewrite Hm6).
    by rewrite Hc in H7. }
  destruct o7 as [u|e]; [| done]. exfalso. destruct H8 as [_ H8].
  destruct (_stop _); [by destruct H8 |]. destruct (queue_full _); by destruct H8.
Qed.
End Outage.

(** ** Draining a stopped channel *)
Section Drain.
Context {S X V : Type} `{!JobStore S, !JobStoreLaws S, !Env X}.
Abbreviation W := (World S X).
Context (ch : nat) (run_workflow : list Task → M W (list (option V))).

Definition queue_of (w : W) : list nat := _queue (chan_of ch w).

(** Once stopped, channel [ch] stays stopped and its queue does not grow. *)
Definition draining (w w' : W) : Prop :=
  _stop (chan_of ch w) = true →
  _stop (chan_of ch w') = true ∧ (length (queue_of w') ≤ length (queue_of w))%nat.
#[local] Instance draining_preorder : PreOrder draining.
Proof.
  split; [by intros w H |]. intros a b c H1 H2 H.
  destruct (H1 H) as [Hb Hl]. destruct (H2 Hb) as [Hc Hl']. split; [done | lia].
Qed.
Context (Hrun : ∀ wf, preserves draining (run_workflow wf)).

Lemma same_manager_draining w w' : w_manager w' = w_manager w → draining w w'.
Proof. intros H Hs. unfold queue_of, chan_of in *. by rewrite H. Qed.
Lemma save_draining j : preserves draining (save j).
Proof.
  intros w. pose proof (save_spec j w) as H. destruct (save j w) as [o w'].
  destruct H as [(_ & _ & _ & Hm & _) _]. by apply same_manager_draining.
Qed.
Lemma get_saved_draining i : preserves draining (get_saved i).
Proof.
  intros w. pose proof (get_saved_spec i w) as H. destruct (get_saved i w) as [o w'].
  destruct H as [Ho _]. apply same_manager_draining, (Ho 0).
Qed.
Lemma get_job_draining j : preserves draining (get_job j).
Proof. intros w. by apply same_manager_draining. Qed.
Lemma upd_job_draining j f : preserves draining (upd_job j f).
Proof. intros w. by apply same_manager_draining. Qed.
Lemma send_draining j : preserves draining (on_channel ch (send j)).
Proof.
  intros w Hs. rewrite on_channel_send, Hs. cbn [snd].
  unfold queue_of. rewrite (chan_of_set ch w _ (chan_of ch w)); [done |].
  done.
Qed.
Lemma to_thread_draining wf : preserves draining (to_thread run_workflow wf).
Proof.
  intros w. unfold to_thread. pose proof (Hrun wf (set_in_loop false w)) as H.
  destruct (run_workflow wf _) as [o w1]. exact H.
Qed.
#[local] Hint Resolve save_draining get_saved_draining get_job_draining upd_job_draining
  send_draining to_thread_draining draining_preorder : preserves.

Lemma apply_event_draining j ev : preserves draining (apply_event j ev).
Proof. unfold apply_event, _raise_if_transition_failed. prove_preserves. Qed.
Lemma share_draining j : preserves draining (share_cancel_event j).
Proof. unfold share_cancel_event. prove_preserves. Qed.
#[local] Hint Resolve apply_event_draining share_draining : preserves.
Lemma ensure_draining j : preserves draining (_ensure_cancelled_persisted_logged j).
Proof. unfold _ensure_cancelled_persisted_logged, _ensure_cancelled_persisted, id_of. prove_preserves. Qed.
Lemma force_draining j : preserves draining (_force_failed_lifecycle j).
Proof. unfold _force_failed_lifecycle. prove_preserves. Qed.
#[local] Hint Resolve ensure_draining force_draining : preserves.
Lemma fail_or_restore_draining j st s e :
  preserves draining (_fail_or_restore_after_run_persist ch j st s e).
Proof.
  unfold _fail_or_restore_after_run_persist, _requeue_after_run_restore, _persist_failed_snapshot,
    _mark_undeliverable_failed, _ensure_cancelled_persisted, restore_lifecycle, cancelled, id_of.
  prove_preserves.
Qed.
Lemma run_workflows_draining j wfs : preserves draining (run_workflows run_workflow j wfs).
Proof.
  induction wfs as [|wf wfs IH]; cbn [run_workflows]; unfold cancelled; prove_preserves; apply IH.
Qed.
#[local] Hint Resolve fail_or_restore_draining run_workflows_draining : preserves.
Lemma process_draining j : preserves draining (_process ch run_workflow j).
Proof.
  unfold _process, heal_snapshot, run_refused, _follow_durable_status, run_body,
    _transition_and_save_terminal, cancelled, id_of.
  prove_preserves.
Qed.

(** One turn on a stopped channel: nothing left, or one job less. *)
Lemma run_once_stopped (w : W) :
  _stop (chan_of ch w) = true →
  let '(o, w') := run_once ch run_workflow w in
  match queue_of w with
  | [] => o = Ret (Processed None) ∧ queue_of w' = []
  | _ :: q =>
      _stop (chan_of ch w') = true ∧ (length (queue_of w') ≤ length q)%nat
      ∧ (∀ r, o = Ret r → ∃ j, r = Processed (Some j))
  end.
Proof.
  intros Hs. unfold run_once, queue_of. set (c := chan_of ch w) in *.
  pose proof (receive_stopped c Hs) as Hr.
  unfold m_bind, on_channel, on_manager. fold (chan_of ch w). fold c. rewrite Hr.
  set (w1 := set_manager _ w).
  assert (chan_of ch w1 = with_queue (tail (_queue c)) c) as Hc1 by (by apply (chan_of_set ch w)).
  destruct (_queue c) as [|j q] eqn:Hq; cbn [hd_error tail].
  - split; [done |]. by rewrite Hc1.
  - pose proof (process_draining j w1) as Hd. unfold draining, queue_of in Hd. rewrite Hc1 in Hd.
    specialize (Hd Hs). destruct (_process ch run_workflow j w1) as [[u|e] w2]; cbn [snd] in Hd.
    + destruct Hd as [H1 H2]. split_and!; [done | done |]. intros r [= <-]. by eexists.
    + destruct Hd as [H1 H2]. by split_and!.
Qed.

Definition early_exit (e : exn) : Prop :=
  is_exception e = false ∨ (∃ m, e = JobRequeuedError m)
  ∨ ∃ m r j, e = JobRedeliveryError m r j ∧ r ≠ "stopped".

Lemma run_forever_stopped fuel sr (w : W) :
  _stop (chan_of ch w) = true → (length (queue_of w) < fuel)%nat →
  let '(x, w') := run_forever ch run_workflow fuel sr w in
  ∃ o, x = Left o ∧ (queue_of w' = [] ∨ ∃ e, o = Raise e ∧ early_exit e).
Proof.
  revert sr w. induction fuel as [|fuel IH]; intros sr w Hs Hlen; [lia |].
  cbn [run_forever]. pose proof (run_once_stopped w Hs) as H1.
  destruct (run_once ch run_workflow w) as [o w1]. destruct (queue_of w) as [|j q].
  { destruct H1 as [-> Hq]. eexists. split; [done | by left]. }
  destruct H1 as (Hs1 & Hl & Hret). cbn in Hlen.
  assert (∀ sr', let '(x, w') := run_forever ch run_workflow fuel sr' w1 in
    ∃ o, x = Left o ∧ (queue_of w' = [] ∨ ∃ e, o = Raise e ∧ early_exit e)) as Hnext.
  { intros sr'. apply IH; [done | lia]. }
  destruct o as [r|e].
  - destruct (Hret r eq_refl) as [j' ->]. apply Hnext.
  - destruct e; try apply Hnext.
    + case_decide; [apply Hnext |]. eexists. split; [done |]. right. eexists. split; [done |].
      right. right. by eexists _, _, _.
    + eexists. split; [done |]. right. eexists. split; [done |]. right. left. by eexists.
    + eexists. split; [done |]. right. eexists. split; [done |]. by left.
Qed.
End Drain.

(** ** Properties *)

(** C12: a job whose start cannot be recorded is given back unchanged.  When the
    store can be read and not written, a Scheduled job taken from the channel is
    not run: if the channel accepts it, it is at the end of the channel again,
    its object exactly as it was, and [JobRequeuedError] is raised; if the
    channel is stopped or full, the job is Failed in memory, [JobRedeliveryError]
    names the reason and carries the job, and the channel is as it was.  No row
    changes. *)
Theorem unrecorded_start_gives_job_back {S X V} `{!JobStore S, !JobStoreLaws S, !Env X} ch
    (run_workflow : list Task → M (World S X) (list (option V))) j row (w : World S X) :
  read_only (S := S) → w_deferred w = None → rows (w_store w) !! j_id (w_jobs w j) = Some row →
  at_status SCHEDULED (w_jobs w j) →
  let '(o, w') := _process ch run_workflow j w in given_back ch j w o w'.
Proof. intros Hro Hd Hrow Hs. by apply (process_outage Hro ch run_workflow j row). Qed.

(** C19: [run_forever] ends once the channel is stopped.  From a stopped channel,
    with workflows that do not add to it, the loop leaves after at most one turn
    per queued job and one more, whatever the jobs, the store and the workflows
    do; and it has emptied the queue, unless it left early by an exception
    outside [Exception], a [JobRequeuedError] or a redelivery error whose reason
    is not [stopped]. *)
Theorem run_forever_drains {S X V} `{!JobStore S, !JobStoreLaws S, !Env X} ch
    (run_workflow : list Task → M (World S X) (list (option V))) (w : World S X) :
  (∀ wf, preserves (draining ch) (run_workflow wf)) → _stop (chan_of ch w) = true →
  let '(x, w') := run_forever ch run_workflow (Datatypes.S (length (queue_of ch w))) None w in
  ∃ o, x = Left o ∧ (queue_of ch w' = [] ∨ ∃ e, o = Raise e ∧ early_exit e).
Proof. intros Hrun Hs. apply (run_forever_stopped ch run_workflow Hrun); [done | lia]. Qed.

Module WorkerFailExamples.
(** A store that can only be read. *)
Definition ro_store : JobStore InMemoryJobStore.t := {|
  put _ s := (Raise FlakyStore.lost, s);
  get := get;
  delete_row _ := m_raise FlakyStore.lost;
  list_rows := list_rows;
  clear_rows := m_raise FlakyStore.lost;
  rows := rows;
  is_in_memory _ := false;
|}.
Lemma ro_laws : @JobStoreLaws InMemoryJobStore.t ro_store.
Proof.
  split.
  - intros r s. cbn. split; [done | by left].
  - intros i s. exact (get_law i s).
Qed.
Definition w0 : World InMemoryJobStore.t demo_env := with_job SCHEDULED (memory_with (row0 SCHEDULED 1)).
Definition run : list Task → M (World InMemoryJobStore.t demo_env) (list (option nat)) :=
  logged_run (λ _, None).

Lemma unrecorded_start_gives_job_back_witness :
  let '(o, w') := @_process _ _ ro_store _ 0 _ run 0 w0 in
  (∃ m, o = Raise (JobRequeuedError m)) ∧ _queue (chan_of 0 w') = [0] ∧ d_log (w_env w') = [].
Proof.
  pose proof (@unrecorded_start_gives_job_back _ _ nat ro_store ro_laws _ 0 run 0 (row0 SCHEDULED 1) w0)
    as H.
  destruct (@_process _ _ ro_store _ 0 _ run 0 w0) as [o w'] eqn:E.
  assert (given_back 0 0 w0 o w') as [_ (Ho & _ & Hc)].
  { apply H; [| reflexivity | vm_compute; reflexivity | reflexivity].
    split; [intros r s; by eexists _, _ | intros i s; by eexists _, _]. }
  split; [by eexists |]. split; [by rewrite Hc |].
  assert ((@_process _ _ ro_store _ 0 _ run 0 w0).2 = w') as <- by (by rewrite E).
  vm_compute. reflexivity.
Defined.

(** Two queued jobs behind a stop; the store cannot record the second's run. *)
Definition stopped_world : World FlakyStore.t demo_env :=
  let w := with_job SCHEDULED (FlakyStore.mk (memory_with (row0 SCHEDULED 1)) []) in
  (on_channel 0 (let* _ := send 0 in let* _ := send 0 in request_stop) w).2.
Definition run_flaky : list Task → M (World FlakyStore.t demo_env) (list (option nat)) :=
  logged_run (λ _, None).

Lemma run_forever_drains_witness :
  let '(x, w') := run_forever 0 run_flaky 3 None stopped_world in
  x = Left (Ret tt) ∧ queue_of 0 w' = [] ∧ length (d_log (w_env w')) = 2.
Proof.
  pose proof (run_forever_drains 0 run_flaky stopped_world) as H.
  assert (length (queue_of 0 stopped_world) = 2) as Hq by (vm_compute; reflexivity).
  rewrite Hq in H. destruct (run_forever 0 run_flaky 3 None stopped_world) as [x w'] eqn:E.
  destruct H as (o & Hx & Hd); [intros wf w Hs; split; [exact Hs | apply Nat.le_refl] | vm_compute; reflexivity |].
  assert ((run_forever 0 run_flaky 3 None stopped_world).1 = Left (Ret tt)) as Hx'
    by (vm_compute; reflexivity).
  rewrite E in Hx'. cbn in Hx'. rewrite Hx' in Hx. injection Hx as <-.
  split; [exact Hx' |]. split.
  - destruct Hd as [Hd|(e & He & _)]; [exact Hd | discriminate He].
  - assert ((run_forever 0 run_flaky 3 None stopped_world).2 = w') as <- by (by rewrite E).
    vm_compute. reflexivity.
Defined.
End WorkerFailExamples.
