(* ===== verification/WorkerFollow.v ===== *)
(** * WorkerFollow: a job another worker has taken, or lost track of

    What [Worker._process] does when the store refuses its RUN snapshot, and how
    a failed read of the store strands a job. *)
From stdpp Require Import functions.
From S2P Require Import Prelude Dict Json Lifecycle Fsm SchedulerFsm JobStore Channel Context.
From S2P Require Import Task Workflow World Job Worker WorkerSpec WorkerRun WorkerCancel WorkerFail Demo.

Section Follow.
Context {S X V : Type} `{!JobStore S, !JobStoreLaws S, !Env X}.
Abbreviation W := (World S X).
Context (P : S → Prop) (Hcalm : calm_on P).
Context (ch : nat).
Implicit Types (run_workflow : list Task → M W (list (option V))).

(** The row is one that RUN may not replace: it is final, or it has moved on
    since the job read it. *)
Definition taken (j : nat) (s : Status) (row : JobRecord) (w : W) : Prop :=
  w_deferred w = None ∧ rows (w_store w) !! j_id (w_jobs w j) = Some row
  ∧ r_status row = status_value s ∧ status_value s ∈ _FOLLOW_WITHOUT_RUN
  ∧ (s = IN_PROGRESS → r_version row ≠ j_version (w_jobs w j)).

Lemma follow_run j s s0 (w : W) :
  at_status s0 (w_jobs w j) →
  ∃ w', _follow_durable_status j (status_value s) w = (Ret tt, w')
    ∧ at_status s (w_jobs w' j) ∧ j_status (w_jobs w' j) = status_value s
    ∧ w_store w' = w_store w ∧ w_manager w' = w_manager w.
Proof.
  intros Hs. unfold _follow_durable_status. rewrite Status_of_value.
  erewrite (bind_ret_run (m_of_outcome _)) by reflexivity.
  erewrite (bind_ret_run (upd_job _ _)) by reflexivity.
  eexists. split; [reflexivity |]. cbn. rewrite !fn_lookup_insert. split_and!; try done.
  unfold at_status in *. cbn. by rewrite Hs, restore_fsm_at.
Qed.

Lemma process_taken j s row (w : W) :
  P (w_store w) → taken j s row w → at_status SCHEDULED (w_jobs w j) →
  ∃ w', (∀ run_workflow, _process ch run_workflow j w = (Ret tt, w'))
    ∧ at_status s (w_jobs w' j) ∧ j_status (w_jobs w' j) = status_value s
    ∧ rows (w_store w') = rows (w_store w) ∧ w_manager w' = w_manager w.
Proof.
  intros HP (Hd & Hrow & Hrs & Hin & Hv) Hs.
  destruct (get_saved_returns_on P (j_id (w_jobs w j)) w Hcalm HP Hd) as (w1 & E1 & HP1).
  pose proof (get_saved_spec (j_id (w_jobs w j)) w) as H1. rewrite E1 in H1.
  destruct H1 as (Ho1 & Hj1 & Hr1 & _). rewrite Hrow in E1.
  assert (heal_snapshot j w = (Ret tt, w1)) as Eh.
  { unfold heal_snapshot, id_of. erewrite bind_ret_run by reflexivity.
    by rewrite (bind_ret_run _ _ _ _ _ E1). }
  assert (w_deferred w1 = None) as Hd1 by (by apply (Ho1 j)).
  assert (w_manager w1 = w_manager w) as Hm1 by apply (Ho1 j).
  assert (at_status SCHEDULED (w_jobs w1 j)) as Hs1 by (by rewrite Hj1).
  pose proof (apply_event_at j RUN SCHEDULED w1 Hs1) as H2.
  destruct (apply_event j RUN w1) as [o2 w2] eqn:E2. destruct H2 as ([_ Hw2] & -> & Hj2).
  assert (at_status IN_PROGRESS (w_jobs w2 j)) as Hs2 by (by rewrite Hj2).
  assert (w_deferred w2 = None) as Hd2 by (by rewrite Hw2).
  assert (rows (w_store w2) = rows (w_store w)) as Hr2 by (by rewrite Hw2).
  assert (j_id (w_jobs w2 j) = j_id (w_jobs w j)) as Hid2 by (by rewrite Hj2, Hj1).
  assert (P (w_store w2)) as HP2 by (by rewrite Hw2).
  destruct (save_returns_on P j w2 Hcalm HP2 Hd2) as (b & w3 & E3 & HP3).
  pose proof (save_spec j w2) as H3. rewrite E3 in H3. destruct H3 as [Ho3 H3].
  assert (b = false ∧ rows (w_store w3) = rows (w_store w) ∧ w_jobs w3 j = w_jobs w2 j)
    as (-> & Hr3 & Hj3).
  { destruct b; [| by destruct H3 as (-> & -> & _)]. destruct H3 as (u & Hmw & _). exfalso.
    rewrite Hr2 in Hmw.
    assert (rows (w_store w) !! r_id (record_of u (w_jobs w2 j)) = Some row) as Hrow2
      by (cbn; by rewrite Hid2).
    apply (may_write_Some _ _ _ Hrow2) in Hmw as [Hp Hver].
    cbn [r_status r_version record_of] in Hp, Hver. rewrite (current_status_at IN_PROGRESS), Hrs in Hp by done.
    assert (s = IN_PROGRESS) as ->.
    { change (fence s IN_PROGRESS = true) in Hp. destruct s; try done; vm_compute in Hin, Hp; naive_solver. }
    apply Hv; [done |]. by rewrite Hver, Hj2, Hj1. }
  assert (w_deferred w3 = None) as Hd3 by (by apply Ho3).
  assert (w_manager w3 = w_manager w) as Hm3.
  { destruct Ho3 as (_ & _ & _ & -> & _). by rewrite Hw2. }
  assert (at_status IN_PROGRESS (w_jobs w3 j)) as Hs3 by (by rewrite Hj3).
  assert (j_id (w_jobs w3 j) = j_id (w_jobs w j)) as Hid3 by (by rewrite Hj3).
  destruct (get_saved_returns_on P (j_id (w_jobs w j)) w3 Hcalm HP3 Hd3) as (w4 & E4 & HP4).
  pose proof (get_saved_spec (j_id (w_jobs w j)) w3) as H4. rewrite E4 in H4.
  destruct H4 as (Ho4 & Hj4 & Hr4 & _). rewrite Hr3, Hrow in E4.
  assert (at_status IN_PROGRESS (w_jobs w4 j)) as Hs4 by (by rewrite Hj4).
  assert (w_manager w4 = w_manager w) as Hm4 by (destruct (Ho4 j) as (_ & _ & _ & -> & _); done).
  assert (∀ run_workflow, _process ch run_workflow j w
          = run_refused ch j (current (j_fsm (w_jobs w j))) (j_status (w_jobs w j)) w3) as Hproc.
  { intros run_workflow. unfold _process, cancelled. erewrite bind_ret_run by reflexivity.
    rewrite (is_cancelled_at SCHEDULED _ Hs), bool_decide_false by done.
    do 2 erewrite bind_ret_run by reflexivity.
    rewrite (bind_ret_run _ _ _ _ _ (try_ret_run _ _ _ _ _ (bind_ret_run _ _ _ _ _ Eh))).
    cbn [negb]. rewrite (bind_ret_run _ _ _ _ _ E2).
    by rewrite (bind_ret_run _ _ _ _ _ (try_ret_run _ _ _ _ _ (bind_ret_run _ _ _ _ _ E3))). }
  enough (∃ w', run_refused ch j (current (j_fsm (w_jobs w j))) (j_status (w_jobs w j)) w3 = (Ret tt, w')
    ∧ at_status s (w_jobs w' j) ∧ j_status (w_jobs w' j) = status_value s
    ∧ rows (w_store w') = rows (w_store w) ∧ w_manager w' = w_manager w) as (w' & E & H).
  { exists w'. split; [| exact H]. intros run_workflow. by rewrite Hproc. }
  clear Hproc.
  unfold run_refused, id_of. erewrite bind_ret_run by reflexivity. rewrite Hid3.
  rewrite (bind_ret_run _ _ _ _ _ E4). cbn [fmap option_fmap option_map]. rewrite Hrs.
  destruct (decide (Some (status_value s) = Some (status_value CANCELLED))) as [Hc|Hc].
  - injection Hc as Hc. assert (s = CANCELLED) as -> by (by apply (inj status_value)).
    unfold cancelled. erewrite bind_ret_run by reflexivity.
    rewrite (is_cancelled_at IN_PROGRESS _ Hs4), bool_decide_false by done.
    pose proof (apply_event_at j CANCEL IN_PROGRESS w4 Hs4) as H5.
    destruct (apply_event j CANCEL w4) as [o5 w5] eqn:E5. destruct H5 as ([_ Hw5] & -> & Hj5).
    rewrite (bind_ret_run _ _ _ _ _ E5).
    assert (w_deferred w5 = None) as Hd5 by (rewrite Hw5; by apply (Ho4 j)).
    assert (rows (w_store w5) = rows (w_store w)) as Hr5 by (rewrite Hw5; cbn; by rewrite Hr4).
    assert (j_id (w_jobs w5 j) = j_id (w_jobs w j)) as Hid5 by (by rewrite Hj5, Hj4).
    assert (P (w_store w5)) as HP5 by (by rewrite Hw5).
    destruct (get_saved_returns_on P (j_id (w_jobs w j)) w5 Hcalm HP5 Hd5) as (w6 & E6 & _).
    pose proof (get_saved_spec (j_id (w_jobs w j)) w5) as H6. rewrite E6 in H6.
    destruct H6 as (Ho6 & Hj6 & Hr6 & _). rewrite Hr5, Hrow in E6.
    assert (w_manager w6 = w_manager w) as Hm6.
    { destruct (Ho6 j) as (_ & _ & _ & -> & _). by rewrite Hw5. }
    exists w6. rewrite Hj6, Hr6. split_and!; [| by rewrite Hj5 | by rewrite Hj5 | done | done].
    unfold _ensure_cancelled_persisted_logged, _ensure_cancelled_persisted, id_of.
    erewrite try_ret_run; [done |]. erewrite bind_ret_run by reflexivity. rewrite Hid5.
    rewrite (bind_ret_run _ _ _ _ _ E6). cbn. by rewrite Hrs.
  - rewrite decide_True by done.
    destruct (follow_run j s IN_PROGRESS w4 Hs4) as (w5 & E5 & H5 & H6 & H7 & H8).
    exists w5. split_and!; try done; [by rewrite H7, Hr4 | by rewrite H8].
Qed.

(** ** One failed read *)

(** The store answers a read of [i] and applies a write; the read of [i] that
    follows raises, and from then on no call does. *)
Definition one_read_fails (i : string) (s : S) : Prop :=
  ∃ o s1, get i s = (Ret o, s1)
    ∧ ∀ r, ∃ b s2 e s3, put r s1 = (Ret b, s2) ∧ get i s2 = (Raise e, s3) ∧ P s3.

(** A [save] that is written and cannot be read back. *)
Lemma save_unread j row (w : W) :
  current_row j row w → put_applies (Some (r_status row)) (_current_status (w_jobs w j)) = true →
  (∀ r, ∃ b s2 e s3, put r (w_store w) = (Ret b, s2) ∧ get (j_id (w_jobs w j)) s2 = (Raise e, s3) ∧ P s3) →
  ∃ u e w', let row' := replace_row (record_of u (w_jobs w j)) (r_created row) (r_version row + 1) in
    save j w = (Raise e, w') ∧ is_exception e = true ∧ w_jobs w' = w_jobs w
    ∧ w_manager w' = w_manager w ∧ w_deferred w' = None ∧ P (w_store w')
    ∧ rows (w_store w') = <[j_id (w_jobs w j) := row']> (rows (w_store w)).
Proof.
  intros (Hd & Hrow & Hv) Hp Hfail. unfold save. erewrite bind_ret_run by reflexivity.
  rewrite (bind_ret_run _ _ _ _ _ (ensure_none _ w Hd)). unfold m_bind, on_env.
  destruct (utcnow (w_env w)) as [u x]. unfold get_job, m_get, on_store. cbn [w_jobs set_env w_store].
  destruct (Hfail (record_of u (w_jobs w j))) as (b & s2 & e & s3 & Ep & Eg & HP). rewrite Ep.
  apply put_ret in Ep as [Hb Hr]. unfold put_spec in Hr.
  assert (may_write (record_of u (w_jobs w j)) (rows (w_store w)) = true) as Hmw
    by (by apply (may_write_Some (record_of u (w_jobs w j)) _ row Hrow)).
  rewrite Hmw in Hb, Hr. subst b. cbn [negb w_store set_store]. rewrite Eg.
  apply get_raise in Eg as [He Hr3]. exists u, e. eexists. split; [reflexivity |].
  split_and!; try done. cbn. rewrite Hr3, Hr. cbn. unfold write_row. cbn [r_id record_of].
  by rewrite Hrow.
Qed.

(** A [save] of a job whose row has another version. *)
Lemma save_stale j row (w : W) :
  P (w_store w) → w_deferred w = None → rows (w_store w) !! j_id (w_jobs w j) = Some row →
  r_version row ≠ j_version (w_jobs w j) →
  ∃ w', save j w = (Ret false, w') ∧ w_jobs w' j = w_jobs w j ∧ w_manager w' = w_manager w
    ∧ w_deferred w' = None ∧ P (w_store w') ∧ rows (w_store w') = rows (w_store w).
Proof.
  intros HP Hd Hrow Hv. destruct (save_returns_on P j w Hcalm HP Hd) as (b & w' & E & HP').
  pose proof (save_spec j w) as H. rewrite E in H. destruct H as [Ho H].
  destruct b.
  - destruct H as (u & Hmw & _). exfalso.
    apply (may_write_Some (record_of u (w_jobs w j)) _ row Hrow) in Hmw as [_ Hver]. by apply Hv.
  - destruct H as (Hr & Hj & _). exists w'. split_and!; try done; [| by apply Ho].
    by destruct Ho as (_ & _ & _ & -> & _).
Qed.

(** The worker's attempt to record a failure: the job's row is not its own any
    more, so the job is restored and goes back to the channel. *)
Lemma stale_goes_back j job row e (w : W) :
  P (w_store w) → w_deferred w = None → at_status SCHEDULED job →
  w_jobs w j = moved IN_PROGRESS job → rows (w_store w) !! j_id job = Some row →
  r_version row ≠ j_version job →
  _stop (chan_of ch w) = false → queue_full (chan_of ch w) = false →
  ∃ w', _fail_or_restore_after_run_persist ch j (current (j_fsm job)) (j_status job) e w
        = (Raise (JobRequeuedError (requeued_msg job)), w')
    ∧ w_jobs w' j = job ∧ chan_of ch w' = with_queue (_queue (chan_of ch w) ++ [j]) (chan_of ch w)
    ∧ w_deferred w' = None ∧ P (w_store w') ∧ rows (w_store w') = rows (w_store w).
Proof.
  intros HP Hd Hs Hj Hrow Hv Hstop Hfull.
  assert (at_status IN_PROGRESS (w_jobs w j)) as Hs0 by (by rewrite Hj).
  destruct (force_failed_run j IN_PROGRESS w Hs0) as (w1 & E1 & [_ Hw1] & Hs1 & Hj1).
  specialize (Hj1 ltac:(done)). rewrite Hj in Hj1.
  destruct (save_stale j row w1) as (w2 & E2 & Hj2 & Hm2 & Hd2 & HP2 & Hr2);
    [by rewrite Hw1 | by rewrite Hw1 | rewrite Hj1, Hw1; exact Hrow | by rewrite Hj1 |].
  destruct (restore_lifecycle_run j (current (j_fsm job)) (j_status job) w2) as (w3 & E3 & [_ Hw3] & Hj3).
  assert (w_jobs w3 j = job) as Hj3'.
  { rewrite Hj3, Hj2, Hj1. unfold at_status in Hs. destruct job. cbn in *. subst.
    unfold with_status, with_fsm. cbn. by rewrite restore_fsm_at. }
  assert (chan_of ch w3 = chan_of ch w) as Hc3.
  { unfold chan_of. rewrite Hw3. cbn. by rewrite Hm2, Hw1. }
  pose proof (on_channel_send ch j w3) as E4. rewrite Hc3, Hstop, Hfull in E4.
  match type of E4 with _ = (_, ?w') => set (w4 := w') in * end.
  exists w4. split.
  - unfold _fail_or_restore_after_run_persist, cancelled, id_of. rewrite bind_eq.
    erewrite (try_raise_run _ _ _ (RuntimeError _)); [| | reflexivity].
    2:{ do 2 erewrite bind_ret_run by reflexivity.
        rewrite (is_cancelled_at IN_PROGRESS _ Hs0), bool_decide_false by done.
        unfold _persist_failed_snapshot. rewrite (bind_ret_run _ _ _ _ _ E1).
        rewrite (bind_ret_run _ _ _ _ _ E2). reflexivity. }
    erewrite bind_ret_run by reflexivity.
    rewrite (is_cancelled_at FAILED), bool_decide_false by (done || by rewrite Hj2).
    rewrite (bind_ret_run _ _ _ _ _ E3). unfold _requeue_after_run_restore.
    rewrite (bind_ret_run _ _ _ _ _ E4). erewrite (bind_ret_run (get_job j)) by reflexivity.
    rewrite decide_True by done. change (w_jobs w4 j) with (w_jobs w3 j). by rewrite Hj3'.
  - split_and!.
    + exact Hj3'.
    + by apply (chan_of_set ch w3).
    + cbn. by rewrite Hw3.
    + cbn. by rewrite Hw3.
    + cbn. rewrite Hw3. cbn. by rewrite Hr2, Hw1.
Qed.

(** The turn in which the read fails. *)
Lemma process_unread j row (w : W) :
  one_read_fails (j_id (w_jobs w j)) (w_store w) → current_row j row w →
  at_status SCHEDULED (w_jobs w j) → r_status row = status_value SCHEDULED →
  _stop (chan_of ch w) = false → queue_full (chan_of ch w) = false →
  ∃ u w', let row' := replace_row (record_of u (moved IN_PROGRESS (w_jobs w j))) (r_created row)
                        (r_version row + 1) in
    (∀ run_workflow, _process ch run_workflow j w
                     = (Raise (JobRequeuedError (requeued_msg (w_jobs w j))), w'))
    ∧ w_jobs w' j = w_jobs w j
    ∧ chan_of ch w' = with_queue (_queue (chan_of ch w) ++ [j]) (chan_of ch w)
    ∧ w_deferred w' = None ∧ P (w_store w')
    ∧ rows (w_store w') = <[j_id (w_jobs w j) := row']> (rows (w_store w)).
Proof.
  intros (o & s1 & Eg & Hput) (Hd & Hrow & Hv) Hs Hrs Hstop Hfull.
  set (w1 := set_store s1 w).
  assert (rows s1 = rows (w_store w) ∧ o = Some row) as [Hr1 ->].
  { apply get_ret in Eg as [-> ->]. by rewrite Hrow. }
  assert (heal_snapshot j w = (Ret tt, w1)) as Eh.
  { unfold heal_snapshot, id_of. erewrite bind_ret_run by reflexivity.
    assert (get_saved (j_id (w_jobs w j)) w = (Ret (Some row), w1)) as E.
    { unfold get_saved. erewrite bind_ret_run by reflexivity.
      rewrite (bind_ret_run _ _ _ _ _ (ensure_none _ w Hd)). unfold on_store. by rewrite Eg. }
    by rewrite (bind_ret_run _ _ _ _ _ E). }
  pose proof (apply_event_at j RUN SCHEDULED w1 Hs) as H2.
  destruct (apply_event j RUN w1) as [o2 w2] eqn:E2. destruct H2 as ([_ Hw2] & -> & Hj2).
  change (w_jobs w1 j) with (w_jobs w j) in Hj2.
  assert (current_row j row w2) as Hc2.
  { unfold current_row. rewrite Hj2, Hw2. cbn. by rewrite Hr1. }
  destruct (save_unread j row w2 Hc2) as (u & e & w3 & E3 & He & Hj3 & Hm3 & Hd3 & HP3 & Hr3).
  { rewrite Hj2, Hrs. reflexivity. }
  { rewrite Hj2, Hw2. exact Hput. }
  rewrite Hj2 in Hr3.
  assert (rows (w_store w2) = rows (w_store w)) as Hr2 by (by rewrite Hw2).
  rewrite Hr2 in Hr3. set (row' := replace_row _ _ _) in Hr3.
  assert (chan_of ch w3 = chan_of ch w) as Hc3 by (unfold chan_of; by rewrite Hm3, Hw2).
  destruct (stale_goes_back j (w_jobs w j) row' e w3) as (w4 & E4 & Hj4 & Hc4 & Hd4 & HP4 & Hr4);
    [done | done | done | by rewrite Hj3 | | | by rewrite Hc3 | by rewrite Hc3 |].
  { rewrite Hr3. apply lookup_insert_eq. }
  { cbn. lia. }
  exists u, w4. cbv zeta. split_and!; [| done | by rewrite Hc4, Hc3 | done | done | by rewrite Hr4].
  intros run_workflow. unfold _process, cancelled. erewrite bind_ret_run by reflexivity.
  rewrite (is_cancelled_at SCHEDULED _ Hs), bool_decide_false by done.
  do 2 erewrite bind_ret_run by reflexivity.
  rewrite (bind_ret_run _ _ _ _ _ (try_ret_run _ _ _ _ _ (bind_ret_run _ _ _ _ _ Eh))).
  cbn [negb]. rewrite (bind_ret_run _ _ _ _ _ E2). rewrite bind_eq.
  rewrite (try_raise_run _ _ _ _ _ (bind_raise_run _ _ _ _ _ E3) He).
  by rewrite (bind_raise_run _ _ _ _ _ E4).
Qed.
End Follow.

(** ** Properties *)

(** C13: a job the store says is taken is not run.  When the job's durable row is
    InProgress at another version than the job's (another worker started it) or
    final, the worker starts no workflow, writes nothing, returns, and leaves
    the job object in the durable status. *)
Theorem taken_job_follows_store {S X V} `{!JobStore S, !JobStoreLaws S, !Env X} ch
    (run_workflow : list Task → M (World S X) (list (option V))) j s row (w : World S X) :
  calm (S := S) → taken j s row w → at_status SCHEDULED (w_jobs w j) →
  ∃ w', _process ch run_workflow j w = (Ret tt, w')
    ∧ at_status s (w_jobs w' j) ∧ j_status (w_jobs w' j) = status_value s
    ∧ rows (w_store w') = rows (w_store w).
Proof.
  intros Hcalm Ht Hs.
  destruct (process_taken (V := V) _ (calm_everywhere Hcalm) ch j s row w I Ht Hs)
    as (w' & E & H1 & H2 & H3 & _). exists w'. by split_and!.
Qed.

(** C29: one failed read strands a job.  [Job.save] writes the InProgress row and
    then reads it back for its version.  Whatever store, scheduled job and
    workflows: when only that read raises, the worker takes the RUN snapshot for
    unwritten, cannot record Failed either (the job's version is stale), restores
    the job and puts it back on the channel ([JobRequeuedError]), its row one
    version ahead of it and InProgress.  The turn that takes it from there, on a
    store that works, is refused as if another worker had the job: it follows the
    row, writes nothing, puts nothing back and returns.  Neither turn starts a
    workflow (both end in the same world whatever workflows do), though no worker
    ever ran the job. *)
Theorem failed_read_strands_job {S X V} `{!JobStore S, !JobStoreLaws S, !Env X} (P : S → Prop)
    ch j row (w : World S X) :
  calm_on P → one_read_fails P (j_id (w_jobs w j)) (w_store w) →
  current_row j row w → at_status SCHEDULED (w_jobs w j) → r_status row = status_value SCHEDULED →
  _stop (chan_of ch w) = false → queue_full (chan_of ch w) = false →
  ∃ row' w1 w2,
    (∀ run : list Task → M (World S X) (list (option V)),
       _process ch run j w = (Raise (JobRequeuedError (requeued_msg (w_jobs w j))), w1))
    ∧ w_jobs w1 j = w_jobs w j
    ∧ chan_of ch w1 = with_queue (_queue (chan_of ch w) ++ [j]) (chan_of ch w)
    ∧ rows (w_store w1) = <[j_id (w_jobs w j) := row']> (rows (w_store w))
    ∧ r_status row' = status_value IN_PROGRESS ∧ r_version row' = (r_version row + 1)%Z
    ∧ (∀ run : list Task → M (World S X) (list (option V)), _process ch run j w1 = (Ret tt, w2))
    ∧ at_status IN_PROGRESS (w_jobs w2 j) ∧ rows (w_store w2) = rows (w_store w1)
    ∧ w_manager w2 = w_manager w1.
Proof.
  intros Hcalm Hfail Hcur Hs Hrs Hstop Hfull. pose proof Hcur as (_ & _ & Hv).
  destruct (process_unread (V := V) P Hcalm ch j row w Hfail Hcur Hs Hrs Hstop Hfull)
    as (u & w1 & E1 & Hj1 & Hc1 & Hd1 & HP1 & Hr1).
  set (row' := replace_row _ _ _) in Hr1.
  destruct (process_taken (V := V) P Hcalm ch j IN_PROGRESS row' w1 HP1)
    as (w2 & E2 & Hs2 & _ & Hr2 & Hm2).
  { split_and!; [done | rewrite Hj1, Hr1; apply lookup_insert_eq | done | |].
    - by apply (bool_decide_unpack _).
    - intros _. rewrite Hj1. cbn. lia. }
  { by rewrite Hj1. }
  exists row', w1, w2. by split_and!.
Qed.

Module WorkerFollowExamples.
Definition w0 : World InMemoryJobStore.t demo_env := with_job SCHEDULED (memory_with (row0 COMPLETED 3)).
Definition run : list Task → M (World InMemoryJobStore.t demo_env) (list (option nat)) :=
  logged_run (λ _, None).

Lemma taken_job_follows_store_witness :
  ∃ w', _process 0 run 0 w0 = (Ret tt, w') ∧ j_status (w_jobs w' 0) = "Completed".
Proof.
  destruct (taken_job_follows_store 0 run 0 COMPLETED (row0 COMPLETED 3) w0) as (w' & E & _ & Hst & _).
  - exact WorkerRunExamples.calm_memory.
  - split_and!; [reflexivity | vm_compute; reflexivity | reflexivity | set_solver | discriminate].
  - reflexivity.
  - exists w'. split; [exact E | exact Hst].
Defined.

(** The third call of the store fails: the read after the InProgress write. *)
Definition flaky : FlakyStore.t :=
  FlakyStore.mk (memory_with (row0 SCHEDULED 1))
    [FlakyStore.Fine; FlakyStore.Fine; FlakyStore.FailBefore].
Definition w1 : World FlakyStore.t demo_env :=
  (on_channel 0 (m_ret tt) (with_job SCHEDULED flaky)).2.

(** With no fault left, the store works. *)
Lemma calm_healed : calm_on (λ s, FlakyStore.script s = []).
Proof.
  split.
  - intros r s Hs. cbn. unfold FlakyStore.put, FlakyStore.next. rewrite Hs.
    destruct (InMemoryJobStore.put_run r (FlakyStore.inner s)) as [H _].
    destruct (InMemoryJobStore.put r (FlakyStore.inner s)) as [o i]. cbn in H. subst o. by eexists _, _.
  - intros i s Hs. cbn. unfold FlakyStore.get, FlakyStore.next. rewrite Hs. by eexists _, _.
Qed.

Lemma failed_read_strands_job_witness :
  ∃ m w' w'', _process 0 (logged_run (λ _, None)) 0 w1 = (Raise (JobRequeuedError m), w')
    ∧ _process 0 (logged_run (λ _, None)) 0 w' = (Ret tt, w'')
    ∧ _queue (chan_of 0 w') = [0]
    ∧ (r_status <$> rows (w_store w'') !! id0) = Some "InProgress".
Proof.
  destruct (failed_read_strands_job (V := nat) (λ s, FlakyStore.script s = []) 0 0
              (row0 SCHEDULED 1) w1 calm_healed)
    as (row' & w' & w'' & E1 & _ & Hc & Hr & Hst & _ & E2 & _ & Hr2 & _).
  - eexists _, _. split; [reflexivity |]. intros r. cbn. unfold FlakyStore.put. cbn.
    destruct (InMemoryJobStore.put_run r (memory_with (row0 SCHEDULED 1))) as [H _].
    destruct (InMemoryJobStore.put r (memory_with (row0 SCHEDULED 1))) as [o i]. cbn in H. subst o.
    eexists _, _, _, _. split; [reflexivity |]. split; reflexivity.
  - split_and!; vm_compute; reflexivity.
  - reflexivity.
  - reflexivity.
  - reflexivity.
  - reflexivity.
  - eexists _, w', w''. split; [apply E1 |]. split; [apply E2 |]. rewrite Hc. split; [reflexivity |].
    rewrite Hr2, Hr. change (j_id (w_jobs w1 0)) with id0. rewrite lookup_insert_eq. cbn [fmap option_fmap option_map]. by rewrite Hst.
Defined.
End WorkerFollowExamples.
