(* ===== verification/WorkerRan.v ===== *)
(** * WorkerRan: Completed means that every workflow ran

    What [Worker._process] may do to a job that is not Completed yet, whatever
    the store, the channel and the workflows do. *)
From stdpp Require Import functions.
From S2P Require Import Prelude Dict Json Lifecycle Fsm SchedulerFsm JobStore Channel Context.
From S2P Require Import Task Workflow World Job Worker WorkerSpec WorkerRun WorkerFail WorkerFollow Demo.

Section Ran.
Context {S X V : Type} `{!JobStore S, !JobStoreLaws S, !Env X}.
Abbreviation W := (World S X).
Implicit Types (w : W).
(** The job, its id, and the record the environment keeps of the workflows that
    were run and whether they returned; reading the clock adds nothing to it. *)
Context (j : nat) (id : string) (log : X → list (list Task * bool)).
Context (log_clock : ∀ x, log (utcnow x).2 = log x).

(** Neither the job nor its durable row is Completed. *)
Definition unfinished w : Prop :=
  j_id (w_jobs w j) = id
  ∧ (∃ s, s ≠ COMPLETED ∧ at_status s (w_jobs w j))
  ∧ ∀ row, rows (w_store w) !! id = Some row → r_status row ≠ status_value COMPLETED.

(** A step on an unfinished job that runs nothing and does not finish it. *)
Definition aside w w' : Prop := unfinished w → unfinished w' ∧ log (w_env w') = log (w_env w).
#[local] Instance aside_preorder : PreOrder aside.
Proof.
  split; [by intros w H |]. intros a b c Hab Hbc Ha. destruct (Hab Ha) as [Hb E].
  destruct (Hbc Hb) as [Hc E']. split; [done | congruence].
Qed.

Lemma log_env_le x y : env_le x y → log y = log x.
Proof. induction 1 as [x|x y z -> _ IH]; [done |]. by rewrite IH, log_clock. Qed.

Lemma upd_aside f :
  (∀ job, j_id (f job) = j_id job) →
  (∀ job s, at_status s job → s ≠ COMPLETED → ∃ s', s' ≠ COMPLETED ∧ at_status s' (f job)) →
  preserves aside (upd_job j f).
Proof.
  intros Hid Hf w (Hi & (s & Hs & Hat) & Hrow). split; [| done].
  pose proof (upd_job_at j f w) as E. split_and!; [by rewrite E, Hid | rewrite E; by eapply Hf | done].
Qed.
Lemma on_channel_aside {A} ref (m : M (Channel nat) A) : preserves aside (on_channel ref m).
Proof. intros w Hw. unfold on_channel, on_manager. by destruct (m _). Qed.
Lemma on_status_value s : s ≠ COMPLETED → status_value s ≠ status_value COMPLETED.
Proof. intros Hs H. by apply Hs, (inj status_value). Qed.

(** What a snapshot of an unfinished job writes is not Completed. *)
Lemma unfinished_row u w :
  unfinished w → ∀ row, write_row (record_of u (w_jobs w j)) (rows (w_store w)) !! id = Some row →
  r_status row ≠ status_value COMPLETED.
Proof.
  intros (<- & (s & Hs & Hat) & Hrow) row. unfold write_row. cbn [r_id record_of].
  destruct (rows (w_store w) !! j_id (w_jobs w j)); rewrite lookup_insert_eq; intros [= <-];
    cbn; rewrite (current_status_at s) by done; by apply on_status_value.
Qed.

Lemma save_aside : preserves aside (save j).
Proof.
  intros w Hw. pose proof (save_spec j w) as H. destruct (save j w) as [o w']. cbn.
  pose proof (save_post_saved_as j w o w' H) as (u & v & Hj).
  destruct H as [Ho H]. split; [| apply log_env_le, Ho].
  pose proof (λ u, unfinished_row u w Hw) as Hwr. destruct Hw as (Hi & Hs & Hrow).
  unfold unfinished. rewrite Hj. split; [exact Hi |]. split; [exact Hs |].
  destruct o as [[]|e]; [destruct H as (u' & _ & -> & _); apply Hwr | by destruct H as (-> & _) |].
  destruct H as (_ & _ & [->|(u' & _ & ->)]); [done | apply Hwr].
Qed.
Lemma get_saved_aside i : preserves aside (get_saved i).
Proof.
  intros w (Hi & Hs & Hrow). pose proof (get_saved_spec i w) as H. destruct (get_saved i w) as [o w'].
  destruct H as (Ho & Hj & Hr & _). cbn. unfold unfinished. rewrite Hj, Hr.
  split; [done | apply log_env_le, (Ho j)].
Qed.
#[local] Hint Resolve save_aside get_saved_aside : preserves.

(** A step that changes nothing but the job, to a status that is not Completed. *)
Lemma job_only_aside s w w' :
  job_only j w w' → j_id (w_jobs w' j) = j_id (w_jobs w j) → at_status s (w_jobs w' j) →
  s ≠ COMPLETED → aside w w'.
Proof.
  intros [_ Hw] Hid Hat Hs (Hi & _ & Hrow). rewrite Hw. split; [| done].
  split; [by cbn; rewrite Hid |]. split; [by exists s | done].
Qed.

Lemma apply_event_aside ev : ev ≠ COMPLETE → preserves aside (apply_event j ev).
Proof.
  intros Hev w Hw. pose proof Hw as (_ & (s & Hs & Hat) & _).
  pose proof (apply_event_at j ev s w Hat) as H. destruct (apply_event j ev w) as [o w']. cbn.
  destruct H as [Hjo H]. revert Hw. destruct (sched_next ev s) as [s'|] eqn:Hn; destruct H as [_ Hj].
  - apply (job_only_aside s'); [done | by rewrite Hj | by rewrite Hj |].
    intros ->. destruct s, ev; simplify_eq/=.
  - by apply (job_only_aside s); [done | by rewrite Hj | by rewrite Hj | done].
Qed.
Lemma force_failed_aside : preserves aside (_force_failed_lifecycle j).
Proof.
  intros w Hw. pose proof Hw as (_ & (s & Hs & Hat) & _).
  destruct (force_failed_run j s w Hat) as (w' & E & Hjo & Hf & Hm). rewrite E. cbn. revert Hw.
  apply (job_only_aside FAILED); [done | | done | done].
  destruct (decide (s = FAILED)) as [->|Hne]; [| by rewrite Hm].
  unfold _force_failed_lifecycle in E. rewrite (bind_ret_run _ _ _ (w_jobs w j) w) in E by done.
  rewrite (current_status_at FAILED), decide_True in E by done. by injection E as <-.
Qed.
Lemma restore_aside s st : s ≠ COMPLETED → preserves aside (restore_lifecycle j (Some (state_of s)) st).
Proof.
  intros Hs w Hw. pose proof Hw as (_ & (s0 & Hs0 & Hat) & _).
  destruct (restore_lifecycle_run j (Some (state_of s)) st w) as (w' & E & Hjo & Hj).
  rewrite E. cbn. revert Hw. apply (job_only_aside s); [done | by rewrite Hj | | done].
  rewrite Hj. unfold at_status in *. cbn. by rewrite Hat, restore_fsm_at.
Qed.
Lemma share_aside : preserves aside (share_cancel_event j).
Proof. apply upd_aside; [done |]. intros job s Hs Hne. by exists s. Qed.
#[local] Hint Resolve force_failed_aside restore_aside share_aside on_channel_aside : preserves.
#[local] Hint Extern 1 (preserves aside (apply_event j _)) => by apply apply_event_aside : preserves.
#[local] Hint Extern 1 (preserves aside (get_job _)) => apply preserves_get, _ : preserves.

Lemma ensure_aside : preserves aside (_ensure_cancelled_persisted_logged j).
Proof.
  unfold _ensure_cancelled_persisted_logged, _ensure_cancelled_persisted, id_of. prove_preserves.
Qed.
Lemma transition_fail_aside : preserves aside (_transition_and_save_terminal j FAIL).
Proof. unfold _transition_and_save_terminal. prove_preserves. Qed.
Lemma heal_aside : preserves aside (heal_snapshot j).
Proof. unfold heal_snapshot, id_of. prove_preserves. Qed.
#[local] Hint Resolve ensure_aside transition_fail_aside heal_aside : preserves.
Lemma fail_or_restore_aside ch s st e :
  s ≠ COMPLETED →
  preserves aside (_fail_or_restore_after_run_persist ch j (Some (state_of s)) st e).
Proof.
  intros Hs. unfold _fail_or_restore_after_run_persist, _persist_failed_snapshot,
    _requeue_after_run_restore, _mark_undeliverable_failed, _ensure_cancelled_persisted, cancelled, id_of.
  prove_preserves.
Qed.

(** The durable status of a refused run. *)
Lemma run_refused_aside ch s prev :
  s ≠ COMPLETED → preserves aside (run_refused ch j (Some (state_of s)) prev).
Proof.
  intros Hs w Hw. unfold run_refused, id_of. erewrite bind_ret_run by reflexivity.
  pose proof (get_saved_spec (j_id (w_jobs w j)) w) as H.
  pose proof (get_saved_aside (j_id (w_jobs w j)) w Hw) as [Hw1 Hl1].
  destruct (get_saved (j_id (w_jobs w j)) w) as [[row|e] w1] eqn:E;
    [| by rewrite (bind_raise_run _ _ _ _ _ E)].
  rewrite (bind_ret_run _ _ _ _ _ E). destruct H as (_ & _ & _ & Hrow).
  assert (∀ st, r_status <$> row = Some st → st ≠ status_value COMPLETED) as Hst.
  { intros st. destruct Hw as (Hi & _ & Hrow0). rewrite Hi in Hrow.
    destruct (rows (w_store w) !! id) as [r|] eqn:Er; subst row; [| done]. cbn. intros [= <-].
    by apply Hrow0. }
  cbn [snd] in *. enough (∀ m : M W unit, preserves aside m →
    unfinished (m w1).2 ∧ log (w_env (m w1).2) = log (w_env w)) as Hgo.
  2:{ intros m Hm. rewrite <- Hl1. by apply Hm. }
  destruct (decide _); [apply Hgo; unfold cancelled; prove_preserves |].
  destruct (r_status <$> row) as [st|] eqn:Est; [| by apply Hgo, fail_or_restore_aside].
  destruct (decide _) as [Hin|]; [| by apply Hgo, fail_or_restore_aside].
  specialize (Hst st eq_refl).
  assert (∃ s', st = status_value s' ∧ s' ≠ COMPLETED) as (s' & -> & Hs').
  { assert (∃ s', st = status_value s') as (s' & ->).
    { unfold _FOLLOW_WITHOUT_RUN in Hin. rewrite !elem_of_union, !elem_of_singleton in Hin.
      destruct Hin as [[[-> | ->] | ->] | ->]; by eexists. }
    exists s'. split; [done |]. by intros ->. }
  apply Hgo. intros w2 Hw2. pose proof Hw2 as (Hi2 & (s2 & _ & Hat2) & Hrow2).
  unfold _follow_durable_status. rewrite Status_of_value.
  erewrite (bind_ret_run (m_of_outcome _)) by reflexivity.
  erewrite (bind_ret_run (upd_job _ _)) by reflexivity.
  split; [| done]. split_and!; [by cbn; rewrite !fn_lookup_insert | | done].
  exists s'. split; [done |]. cbn. rewrite !fn_lookup_insert. unfold at_status in *. cbn.
  by rewrite Hat2, restore_fsm_at.
Qed.

(** ** The workflows *)
Context (run_workflow : list Task → M W (list (option V))).

(** A workflow enters the record with how it ended.  It may do anything to the
    world, cancelling or failing the job included, but does not complete it. *)
Definition recorded : Prop :=
  ∀ wf w, let '(o, w') := run_workflow wf w in
    log (w_env w') = log (w_env w) ++ [(wf, match o with Ret _ => true | Raise _ => false end)]
    ∧ (unfinished w → unfinished w').
Context (Hrun : recorded).

(** The workflows [wfs] of the job were run one after the other: those that
    returned, and at most one after them, which raised; [rest] are those that
    did not return. *)
Definition ran (wfs : list (list Task)) w w' (rest : list (list Task)) : Prop :=
  ∃ returned raised, wfs = returned ++ rest ∧ raised `prefix_of` take 1 rest
    ∧ log (w_env w') = log (w_env w) ++ map (λ wf, (wf, true)) returned
                       ++ map (λ wf, (wf, false)) raised.

Lemma ran_none wfs w w' : log (w_env w') = log (w_env w) → ran wfs w w' wfs.
Proof. intros H. exists [], []. split_and!; [done | apply prefix_nil | by rewrite H, app_nil_r]. Qed.
Lemma ran_env wfs w w1 w1' w' rest :
  ran wfs w1 w1' rest → log (w_env w1) = log (w_env w) → log (w_env w') = log (w_env w1') →
  ran wfs w w' rest.
Proof. intros (re & ra & H1 & H2 & H3) E E'. exists re, ra. by rewrite E', <- E. Qed.

Lemma run_workflows_ran wfs : ∀ w, unfinished w →
  let '(o, w') := run_workflows run_workflow j wfs w in
  unfinished w' ∧ ∃ rest, ran wfs w w' rest ∧ (o = Ret false → rest = []).
Proof.
  induction wfs as [|wf wfs IH]; intros w Hw; cbn [run_workflows].
  { split; [done |]. exists []. split; [by apply ran_none | done]. }
  unfold cancelled. erewrite bind_ret_run by reflexivity. destruct (is_cancelled _).
  { rewrite bind_eq. destruct (ensure_aside w Hw) as [Hw' Hl].
    destruct (_ensure_cancelled_persisted_logged j w) as [[[]|e] w']; cbn in *;
      (split; [done | exists (wf :: wfs); split; [by apply ran_none | done]]). }
  pose proof (Hrun wf (set_in_loop false w)) as H. rewrite bind_eq. unfold to_thread.
  destruct (run_workflow wf (set_in_loop false w)) as [o w1]. destruct H as [Hl Hun].
  set (w2 := set_in_loop (w_in_loop w) w1).
  assert (unfinished w2) as Hw2 by exact (Hun Hw).
  destruct o as [rs|e].
  - specialize (IH w2 Hw2). destruct (run_workflows run_workflow j wfs w2) as [o w3].
    destruct IH as (Hw3 & rest & (re & ra & -> & Hra & Hl3) & Ho). split; [done |].
    exists rest. split; [| done]. exists (wf :: re), ra. split_and!; [done | done |].
    rewrite Hl3. change (w_env w2) with (w_env w1). rewrite Hl. by rewrite <- app_assoc.
  - split; [done |]. exists (wf :: wfs). split; [| done]. exists [], [wf].
    split_and!; [done | done |]. exact Hl.
Qed.

Lemma complete_log w :
  unfinished w →
  log (w_env (m_try (_transition_and_save_terminal j COMPLETE) (λ e, m_raise e) w).2) = log (w_env w).
Proof.
  intros (_ & (s & _ & Hat) & _). pose proof (apply_event_at j COMPLETE s w Hat) as H.
  unfold m_try, _transition_and_save_terminal. rewrite bind_eq.
  destruct (apply_event j COMPLETE w) as [[[]|e] w1]; destruct H as [[_ Hw1] _].
  - rewrite bind_eq. pose proof (save_spec j w1) as H. destruct (save j w1) as [[b|e] w2].
    all: destruct H as ((_ & _ & _ & _ & _ & _ & _ & Henv) & _); apply log_env_le in Henv.
    + cbn. by rewrite Henv, Hw1.
    + assert (log (w_env w2) = log (w_env w)) as Hl by (by rewrite Henv, Hw1).
      by destruct (is_exception e).
  - assert (log (w_env w1) = log (w_env w)) as Hl by (by rewrite Hw1). by destruct (is_exception e).
Qed.

Lemma run_body_ran w :
  unfinished w →
  let w' := (run_body run_workflow j w).2 in
  ∃ rest, ran (j_workflows (shared (w_jobs w j))) w w' rest ∧ (rest = [] ∨ unfinished w').
Proof.
  intros Hw. cbv zeta. destruct (run_body run_workflow j w) as [o' w'] eqn:E. cbn [snd].
  revert E. unfold run_body. rewrite bind_eq.
  set (wfs := j_workflows (shared (w_jobs w j))).
  match goal with |- context [m_try _ ?h w] => set (handler := h) end.
  assert (m_try (let* _ := share_cancel_event j in
      let* workflows := m_get (λ w, j_workflows (w_jobs w j)) in
      run_workflows run_workflow j workflows) handler w
    = m_try (run_workflows run_workflow j wfs) handler (share_cancel_event j w).2) as ->.
  { unfold m_try, wfs. rewrite (bind_ret_run (share_cancel_event j) _ _ _ _ eq_refl).
    erewrite bind_ret_run by reflexivity. cbn. by rewrite fn_lookup_insert. }
  destruct (share_aside w Hw) as [Hw1 Hl1]. set (w1 := (share_cancel_event j w).2) in *.
  pose proof (run_workflows_ran wfs w1 Hw1) as H. unfold m_try at 1.
  destruct (run_workflows run_workflow j wfs w1) as [o w2]. destruct H as (Hw2 & rest & Hran & Ho).
  assert (∀ w', log (w_env w') = log (w_env w2) → ran wfs w w' rest) as Hran'.
  { intros u Hl. by apply (ran_env _ _ w1 w2). }
  assert (∀ A (m : M W A) o w', m w2 = (o, w') → preserves aside m →
    ran wfs w w' rest ∧ (rest = [] ∨ unfinished w')) as Hgo.
  { intros A m o0 u E Hm. destruct (Hm w2 Hw2) as [Hu Hl]. rewrite E in Hu, Hl.
    split; [by apply Hran' | by right]. }
  destruct o as [early|e].
  - destruct early; [intros [= <- <-]; exists rest; by split; [apply Hran' | right] |].
    specialize (Ho eq_refl). unfold cancelled. erewrite bind_ret_run by reflexivity.
    destruct (is_cancelled _); intros E; exists rest; [by eapply Hgo, ensure_aside |].
    split; [| by left]. apply Hran'. pose proof (complete_log w2 Hw2) as H. by rewrite E in H.
  - destruct (is_exception e); [| intros [= <- <-]; exists rest; by split; [apply Hran' | right]].
    subst handler. cbv beta. unfold cancelled at 1. erewrite bind_ret_run by reflexivity.
    destruct (is_cancelled _); rewrite bind_eq.
    + destruct (_ensure_cancelled_persisted_logged j w2) as [[[]|e'] w3] eqn:E3;
        intros [= <- <-]; exists rest; by eapply Hgo, ensure_aside.
    + set (m := m_try _ _). assert (preserves aside m) as Hm by (subst m; prove_preserves).
      clearbody m. destruct (m w2) as [[[]|e'] w3] eqn:E3; intros [= <- <-]; exists rest; by eapply Hgo.
Qed.

(** A guarded step that came out as it does when nothing raised. *)
Lemma guarded_ret {A B} (m : M W A) (f : A → B) (h : exn → M W unit) (d : B) w b w' :
  m_try (let* a := m in m_ret (f a)) (λ e, let* _ := h e in m_ret d) w = (Ret b, w') → b ≠ d →
  ∃ a, m w = (Ret a, w') ∧ b = f a.
Proof.
  intros E Hb. unfold m_try in E. rewrite bind_eq in E. destruct (m w) as [[a|e] u].
  - injection E as <- <-. by exists a.
  - destruct (is_exception e); [| done]. apply bind_ret_inv in E as (? & ? & _ & [= <- _]). done.
Qed.

(** From [w] to [w'], as much of [wfs] ran as [ran] says, and the job is not
    Completed unless all of it did. *)
Definition ends wfs w w' : Prop := ∃ rest, ran wfs w w' rest ∧ (rest = [] ∨ unfinished w').

Lemma ends_aside {A} wfs (m : M W A) w : unfinished w → preserves aside m → ends wfs w (m w).2.
Proof. intros Hw Hm. destruct (Hm w Hw). exists wfs. by split; [apply ran_none | right]. Qed.
Lemma ends_bind {A B} wfs (m : M W A) (k : A → M W B) w :
  unfinished w → preserves aside m →
  (∀ a w1, m w = (Ret a, w1) → unfinished w1 → ends wfs w1 (k a w1).2) →
  ends wfs w (m_bind m k w).2.
Proof.
  intros Hw Hm Hk. pose proof (ends_aside wfs m w Hw Hm) as He. destruct (Hm w Hw) as [Hw1 Hl1].
  rewrite bind_eq. destruct (m w) as [[a|e] w1]; cbn [snd] in *; [| done].
  destruct (Hk a w1 eq_refl Hw1) as (rest & Hran & Hend). exists rest.
  split; [| done]. by apply (ran_env _ _ w1 (k a w1).2).
Qed.

(** The job [run_body] finds: the one of the beginning, InProgress and saved. *)
Lemma shared_workflows ev s w1 w2 w3 o w :
  saved_as (w_jobs w j) (w_jobs w1 j) → at_status s (w_jobs w1 j) → apply_event j ev w1 = (o, w2) →
  saved_as (w_jobs w2 j) (w_jobs w3 j) →
  j_workflows (shared (w_jobs w3 j)) = j_workflows (shared (w_jobs w j)).
Proof.
  intros (u & v & H1) Hat E (u' & v' & H3). pose proof (apply_event_at j ev s w1 Hat) as H2.
  rewrite E in H2. destruct H2 as [_ H2]. rewrite H3.
  destruct (sched_next ev s); destruct H2 as [_ ->]; by rewrite H1.
Qed.

(** The whole turn. *)
Lemma process_ran ch w :
  unfinished w → ends (j_workflows (shared (w_jobs w j))) w (_process ch run_workflow j w).2.
Proof.
  intros Hw. pose proof Hw as (_ & (s & Hs & Hat) & _). unfold _process, cancelled.
  apply ends_bind; [done | prove_preserves | intros c ? [= <- <-] _].
  destruct (is_cancelled _); [by apply ends_aside, ensure_aside |].
  apply ends_bind; [done | prove_preserves | intros st0 ? [= <- <-] _].
  apply ends_bind; [done | prove_preserves | intros st ? [= _ <-] _].
  rewrite Hat. change (current (fsm_at s)) with (Some (state_of s)).
  pose proof (λ e, fail_or_restore_aside ch s st e Hs) as Hfail.
  apply ends_bind; [done | prove_preserves | intros healed w1 E1 Hw1].
  destruct healed; cbn [negb]; [| by apply ends_aside; [| prove_preserves]].
  destruct (guarded_ret (heal_snapshot j) (λ _, true) _ false w true w1 E1) as ([] & E & _); [done |].
  clear E1. rename E into E1.
  pose proof (heal_keeps j w) as Hj1. unfold keeps_job in Hj1. rewrite E1 in Hj1.
  apply ends_bind; [done | by apply apply_event_aside | intros [] w2 E2 Hw2].
  apply ends_bind; [done | prove_preserves | intros applied w3 E3 Hw3].
  destruct applied as [[]|]; [| by apply ends_aside, run_refused_aside
                              | by apply ends_aside; [| prove_preserves]].
  destruct (guarded_ret (save j) Some _ None w2 (Some true) w3 E3) as (b & E & _); [done |].
  clear E3. rename E into E3.
  pose proof (save_keeps j w2) as Hj3. unfold keeps_job in Hj3. rewrite E3 in Hj3.
  pose proof Hw1 as (_ & (s1 & _ & Hat1) & _).
  rewrite <- (shared_workflows RUN s1 w1 w2 w3 _ w Hj1 Hat1 E2 Hj3). by apply run_body_ran.
Qed.
End Ran.

(** ** Properties *)

(** C1: Completed means that every workflow ran.  Whatever calls of the store
    fail, whatever its rows say, whatever the channel does and whatever the
    workflows do to the world short of completing the job themselves: in the turn
    of an unfinished job the worker runs the job's workflows in order, each at
    most once and none after one that raised; and if at the end the job, or its
    durable row, is Completed, then all of them ran and returned. *)
Theorem completed_means_ran {S X V} `{!JobStore S, !JobStoreLaws S, !Env X} j id
    (log : X → list (list Task * bool)) (run_workflow : list Task → M (World S X) (list (option V)))
    ch (w : World S X) :
  (∀ x, log (utcnow x).2 = log x) → recorded j id log run_workflow → unfinished j id w →
  let w' := (_process ch run_workflow j w).2 in
  ∃ returned raised rest, j_workflows (shared (w_jobs w j)) = returned ++ rest
    ∧ raised `prefix_of` take 1 rest
    ∧ log (w_env w') = log (w_env w) ++ map (λ wf, (wf, true)) returned
                       ++ map (λ wf, (wf, false)) raised
    ∧ (_current_status (w_jobs w' j) = status_value COMPLETED
       ∨ r_status <$> rows (w_store w') !! id = Some (status_value COMPLETED) →
       rest = [] ∧ raised = []).
Proof.
  intros Hclock Hrec Hw w'.
  destruct (process_ran j id log Hclock run_workflow Hrec ch w Hw)
    as (rest & (re & ra & H1 & H2 & H3) & Hend).
  exists re, ra, rest. split_and!; [done | done | done |]. intros Hdone.
  enough (rest = []) as -> by (split; [done | by apply prefix_nil_inv in H2]).
  destruct Hend as [|(_ & (s & Hs & Hat) & Hrow)]; [done |]. exfalso.
  destruct Hdone as [Hc|Hc].
  - subst w'. rewrite (current_status_at s) in Hc by done. by apply (on_status_value s Hs).
  - subst w'. destruct (rows _ !! id) as [row|] eqn:E; [| done]. injection Hc as Hc.
    by apply (Hrow row).
Qed.

Module WorkerRanExamples.
(** A store that loses its connection once the workflows have run: the Completed
    row is written, the answer is lost. *)
Definition store0 : FlakyStore.t :=
  FlakyStore.mk (memory_with (row0 SCHEDULED 1))
    [FlakyStore.Fine; FlakyStore.Fine; FlakyStore.Fine; FlakyStore.FailAfter].
Definition w0 : World FlakyStore.t demo_env := with_job SCHEDULED store0.
Definition run : list Task → M (World FlakyStore.t demo_env) (list (option nat)) :=
  logged_run (λ _, None).
Definition log (x : demo_env) : list (list Task * bool) := map (λ wf, (wf, true)) (d_log x).

Lemma completed_means_ran_witness :
  (_process 0 run 0 w0).1 = Raise FlakyStore.lost
  ∧ log (w_env (_process 0 run 0 w0).2)
    = map (λ wf, (wf, true)) (j_workflows (shared (w_jobs w0 0))).
Proof.
  split; [by vm_compute |].
  destruct (completed_means_ran 0 id0 log run 0 w0) as (re & ra & rest & H1 & H2 & H3 & H4).
  - reflexivity.
  - intros wf w. cbn. unfold log. cbn. split; [by rewrite map_app | intros H; exact H].
  - split; [reflexivity |]. split; [exists SCHEDULED; split; [discriminate | reflexivity] |].
    intros row Hrow. change (rows (w_store w0)) with ({[ id0 := row0 SCHEDULED 1 ]} : Rows) in Hrow.
    rewrite lookup_singleton_eq in Hrow. injection Hrow as <-. discriminate.
  - destruct H4 as [-> ->]; [right; vm_compute; reflexivity |].
    rewrite H3, H1, !app_nil_r. reflexivity.
Defined.
End WorkerRanExamples.
