(* ===== verification/DispatchSpec.v ===== *)
(** * DispatchSpec: what scheduling a job promises

    [Dispatcher.dispatch] rolls back when the job did not reach its channel and
    commits when it did. *)
From stdpp Require Import functions.
From S2P Require Import Prelude Dict Json Lifecycle Fsm SchedulerFsm JobStore Channel Context.
From S2P Require Import Task World Job Demo Dispatcher WorkerSpec WorkerRun.

Section Dispatch.
Context {S X : Type} `{!JobStore S, !JobStoreLaws S, !Env X}.
Abbreviation W := (World S X).
Implicit Types (w : W).

(** The channel of a key: the registered object, or a new unbounded one. *)
Definition target (m : ChannelManager nat) (key : string) : nat * Channel nat :=
  match _job_channel m !! key with
  | Some ref => (ref, default (channel_new 0) (channels m !! ref))
  | None => (next_ref m, channel_new 0)
  end.

(** Why a dispatch would be refused, in the order of the checks. *)
Definition refusal (j : nat) (s : Status) w : option exn :=
  let job := w_jobs w j in
  let c := (target (w_manager w) (j_channel_id job)).2 in
  if decide (s ≠ UNKNOWN) then Some (InternalException ERROR_INVALID_EVENT)
  else if decide (j_channel_id job = "") then Some (ValueError "invalid key")
  else if w_in_loop w then Some (RuntimeError sync_context_msg)
  else if _stop c then Some (ChannelStoppedError (stopped_msg job))
  else if queue_full c then Some (ChannelFullError (full_msg job))
  else None.

Lemma with_local_run {A} (m : M W A) w b :
  with_local m (w, b) = ((m w).1, ((m w).2, b)).
Proof. unfold with_local. cbn. by destruct (m w). Qed.
Lemma with_local_eq {A} (m : M W A) w b o w' :
  m w = (o, w') → with_local m (w, b) = (o, (w', b)).
Proof. intros H. by rewrite with_local_run, H. Qed.

Lemma available_processor_run key w :
  key ≠ "" → ∃ p, _available_processor key w = (Ret tt, set_processors p w).
Proof.
  intros Hk%str_truthy_true. unfold _available_processor, _new_processor, _get_processor,
    _put_processor. rewrite Hk. cbn [negb]. erewrite bind_ret_run by reflexivity.
  destruct (decide _); [exists (w_processors w); by destruct w | by eexists].
Qed.

(** The manager after [available], on a registry in order. *)
Lemma available_run key m :
  key ≠ "" → manager_ok m →
  let '(ref, c) := target m key in
  ∃ m', available key 0 m = (Ret ref, m') ∧ default (channel_new 0) (channels m' !! ref) = c
    ∧ (∀ r c', channels m !! r = Some c' → channels m' !! r = Some c')
    ∧ _job_channel m' !! key = Some ref.
Proof.
  intros Hk Hok. unfold target, available. rewrite manager_new_run by done.
  pose proof (manager_new_mono key 0 m) as Hmono. rewrite manager_new_run in Hmono by done.
  destruct (_job_channel m !! key) as [ref|] eqn:Hkey; eexists; (split; [reflexivity |]).
  - split; [done |]. split; [intros r c' H; exact H | done].
  - split; [cbn; by rewrite lookup_insert_eq |]. split; [| apply lookup_insert_eq].
    intros r c' H. by apply (Hmono r c' Hok).
Qed.

(** The two schedule events. *)
Lemma schedule_events j s w :
  at_status s (w_jobs w j) →
  let '(o, w') := (let* _ := apply_event j INIT in apply_event j SCHEDULE) w in
  job_only j w w' ∧
  if decide (s = UNKNOWN) then o = Ret tt ∧ w_jobs w' j = moved SCHEDULED (w_jobs w j)
  else o = Raise (InternalException ERROR_INVALID_EVENT) ∧ w_jobs w' j = w_jobs w j.
Proof.
  intros Hs. pose proof (apply_event_at j INIT s w Hs) as H1. rewrite bind_eq.
  destruct (apply_event j INIT w) as [o1 w1]. destruct H1 as [Hjo1 H1].
  destruct (decide (s = UNKNOWN)) as [->|Hne].
  - destruct H1 as [-> Hj1].
    assert (at_status INITIALIZING (w_jobs w1 j)) as Hs1 by (by rewrite Hj1).
    pose proof (apply_event_at j SCHEDULE INITIALIZING w1 Hs1) as H2.
    destruct (apply_event j SCHEDULE w1) as [o2 w2]. destruct H2 as (Hjo2 & -> & Hj2).
    split; [by etransitivity |]. split; [done |]. by rewrite Hj2, Hj1.
  - assert (sched_next INIT s = None) as Hn by (by destruct s).
    rewrite Hn in H1. destruct H1 as [-> Hj1]. by split.
Qed.

(** The saves after a successful enqueue. *)
Lemma save_attempts_spec n j last w :
  rows_ok (rows (w_store w)) →
  ∃ r w', save_attempts n j last w = (Ret r, w') ∧ save_only j w w'
    ∧ saved_as (w_jobs w j) (w_jobs w' j)
    ∧ (∀ e, r.2 = Some e → last = Some e ∨ is_exception e = true)
    ∧ (r.1 = true → ∃ row, rows (w_store w') !! j_id (w_jobs w j) = Some row
         ∧ r_status row = _current_status (w_jobs w j) ∧ r_version row = j_version (w_jobs w' j)).
Proof.
  revert last w. induction n as [|n IH]; intros last w Hok.
  { exists (false, last), w. split_and!; try done; naive_solver. }
  cbn [save_attempts]. pose proof (save_spec j w) as H1. pose proof (save_forward j w Hok) as [Hok1 _].
  pose proof (save_jobs j w) as Hsj. pose proof (save_applied j w) as Hap.
  destruct (save j w) as [[b|e] w1] eqn:E1; cbn [snd] in *.
  - rewrite (bind_ret_run _ _ _ _ _ (try_ret_run _ _ _ _ _ (bind_ret_run _ _ _ _ _ E1))).
    destruct b.
    + exists (true, None), w1. split_and!; try done; [by destruct H1 |].
      intros _. destruct (Hap _ Hok eq_refl) as [_ (row & ? & ? & ?)]. exists row. by split_and!.
    + destruct (IH last w1 Hok1) as (r & w2 & E2 & Ho2 & Hs2 & He2 & Hr2).
      exists r, w2. destruct H1 as [Ho1 (_ & Hj1 & _)]. rewrite Hj1 in *.
      split_and!; try done. by etransitivity.
  - destruct H1 as (Ho1 & He & Hj1 & _).
    unfold m_bind at 1. rewrite (try_raise_run _ _ _ _ _ (bind_raise_run _ _ _ _ _ E1) He).
    destruct (IH (Some e) w1 Hok1) as (r & w2 & E2 & Ho2 & Hs2 & He2 & Hr2).
    exists r, w2. rewrite Hj1 in *. split_and!; try done; [by etransitivity |].
    intros e' He'. right. destruct (He2 e' He') as [[= <-]|]; done.
Qed.

(** [n] saves of the job, one after the other, none of which reported that it
    was applied: each was refused or raised; and the last exception among them. *)
Inductive failed_saves (j : nat) : nat → option exn → W → W → Prop :=
| no_saves w : failed_saves j 0 None w w
| save_refused n last w0 w w' :
    failed_saves j n last w0 w → save j w = (Ret false, w') → failed_saves j (Datatypes.S n) last w0 w'
| save_raised n last w0 w w' e :
    failed_saves j n last w0 w → save j w = (Raise e, w') → failed_saves j (Datatypes.S n) (Some e) w0 w'.

Lemma save_attempts_exact n j : ∀ k last w0 w, failed_saves j k last w0 w →
  match save_attempts n j last w with
  | (Ret (true, _), w') => ∃ k' last' w1, (k' < k + n)%nat ∧ failed_saves j k' last' w0 w1 ∧ save j w1 = (Ret true, w')
  | (Ret (false, last'), w') => failed_saves j (k + n) last' w0 w'
  | (Raise _, _) => False
  end.
Proof.
  induction n as [|n IH]; intros k last w0 w Hf; [by rewrite Nat.add_0_r |]. cbn [save_attempts].
  pose proof (save_spec j w) as H1. rewrite Nat.add_succ_r. change (Datatypes.S (k + n)) with (Datatypes.S k + n)%nat.
  destruct (save j w) as [[[]|e] w1] eqn:E1.
  - rewrite (bind_ret_run _ _ _ _ _ (try_ret_run _ _ _ _ _ (bind_ret_run _ _ _ _ _ E1))).
    exists k, last, w. split_and!; [lia | done | done].
  - rewrite (bind_ret_run _ _ _ _ _ (try_ret_run _ _ _ _ _ (bind_ret_run _ _ _ _ _ E1))).
    apply IH. by eapply save_refused.
  - destruct H1 as (_ & He & _). unfold m_bind at 1.
    rewrite (try_raise_run _ _ _ _ _ (bind_raise_run _ _ _ _ _ E1) He). apply IH. by eapply save_raised.
Qed.

(** How [scheduled] ends once the job is on its channel, from the world [w1]
    where it is: it returns after the first of three saves that reports success,
    and raises when none did. *)
Definition saved_or_raised (j : nat) (job : Job) (o : outcome unit) w1 w' : Prop :=
  match o with
  | Ret _ => ∃ n last w2, (n < 3)%nat ∧ failed_saves j n last w1 w2 ∧ save j w2 = (Ret true, w')
  | Raise e => ∃ last, failed_saves j 3 last w1 w' ∧ e = default (RuntimeError (skipped_msg job)) last
  end.

(** A job the store does not know yet is saved at the first attempt. *)
Definition unsaved (j : nat) w : Prop :=
  w_deferred w = None ∧ rows (w_store w) !! j_id (w_jobs w j) = None.
Lemma save_attempts_unsaved n j last w :
  calm (S := S) → unsaved j w →
  ∃ w', save_attempts (Datatypes.S n) j last w = (Ret (true, None), w').
Proof.
  intros Hcalm [Hd Hrow]. destruct (save_returns Hcalm j w Hd) as (b & w1 & E1).
  pose proof (save_spec j w) as H1. rewrite E1 in H1. destruct H1 as [_ H1].
  destruct b.
  - exists w1. cbn [save_attempts].
    by rewrite (bind_ret_run _ _ _ _ _ (try_ret_run _ _ _ _ _ (bind_ret_run _ _ _ _ _ E1))).
  - destruct H1 as (_ & _ & u & H1). unfold may_write in H1. cbn [r_id record_of] in H1.
    by rewrite Hrow in H1.
Qed.

(** Sending to the channel object [ref]. *)
Lemma on_channel_send_run ref j w :
  let c := default (channel_new 0) (channels (w_manager w) !! ref) in
  ∃ m', on_channel ref (send j) w
        = (Ret (if _stop c then SEND_STOPPED else if queue_full c then SEND_FULL else SEND_OK),
           set_manager m' w)
    ∧ channels m' !! ref = Some (if _stop c then c else if queue_full c then c
                                 else with_queue (_queue c ++ [j]) c)
    ∧ (∀ r, r ≠ ref → channels m' !! r = channels (w_manager w) !! r)
    ∧ _job_channel m' = _job_channel (w_manager w) ∧ next_ref m' = next_ref (w_manager w).
Proof.
  cbv zeta. set (c := default _ _). unfold on_channel, on_manager, send. fold c.
  destruct (_stop c); [| destruct (queue_full c)]; eexists; (split; [reflexivity |]);
    (split; [apply lookup_insert_eq |]); (split; [| done]); intros r Hr; cbn;
    by rewrite lookup_insert_ne.
Qed.

(** Replacing a registered channel keeps the registry in order. *)
Lemma manager_replace_ok (m m' : ChannelManager nat) key ref c :
  manager_ok m → _job_channel m !! key = Some ref →
  channels m' !! ref = Some c → (∀ r, r ≠ ref → channels m' !! r = channels m !! r) →
  _job_channel m' = _job_channel m → next_ref m' = next_ref m → manager_ok m'.
Proof.
  intros [H1 H2] Hk%H1 Hc Hne Hj Hn.
  assert (∀ r, is_Some (channels m' !! r) ↔ is_Some (channels m !! r)) as Hs.
  { intros r. destruct (decide (r = ref)) as [->|Hr]; [| by rewrite Hne].
    rewrite Hc. split; [done | by eexists]. }
  split.
  - intros k r. rewrite Hj. intros Hr%H1. by apply Hs.
  - intros r Hr%Hs%H2. by rewrite Hn.
Qed.

(** Nothing but channel bookkeeping happened: every channel is as it was. *)
Definition untouched w w' : Prop :=
  w_jobs w' = w_jobs w ∧ w_store w' = w_store w ∧ w_events w' = w_events w
  ∧ ∀ r c, channels (w_manager w) !! r = Some c → channels (w_manager w') !! r = Some c.

(** What [enqueue_and_save] does before its saves. *)
Lemma enqueue_cases j w :
  manager_ok (w_manager w) → at_status SCHEDULED (w_jobs w j) →
  let key := j_channel_id (w_jobs w j) in
  let '(ref, c) := target (w_manager w) key in
  let refuse e := ∃ w', enqueue_and_save j (w, false) = (Raise e, (w', false)) ∧ untouched w w' in
  if decide (key = "") then refuse (ValueError "invalid key")
  else if w_in_loop w then refuse (RuntimeError sync_context_msg)
  else if _stop c then refuse (ChannelStoppedError (stopped_msg (w_jobs w j)))
  else if queue_full c then refuse (ChannelFullError (full_msg (w_jobs w j)))
  else ∃ w1, w_jobs w1 = w_jobs w ∧ w_store w1 = w_store w ∧ w_deferred w1 = w_deferred w
    ∧ channels (w_manager w1) !! ref = Some (with_queue (_queue c ++ [j]) c)
    ∧ _job_channel (w_manager w1) !! key = Some ref ∧ manager_ok (w_manager w1)
    ∧ enqueue_and_save j (w, false)
      = let '(o, w2) := save_attempts _DISPATCH_SAVE_ATTEMPTS j None w1 in
        (match o with
         | Ret (true, _) => Ret tt
         | Ret (false, Some e) => Raise e
         | Ret (false, None) => Raise (RuntimeError (skipped_msg (w_jobs w j)))
         | Raise e => Raise e
         end, (w2, true)).
Proof.
  intros Hok Hs. cbv zeta. set (key := j_channel_id (w_jobs w j)).
  destruct (target (w_manager w) key) as [ref c] eqn:Ht. unfold enqueue_and_save.
  rewrite (bind_ret_run (with_local (get_job j)) _ (w, false) (w_jobs w j) (w, false) eq_refl).
  fold key.
  destruct (decide (key = "")) as [Hk|Hk].
  { exists w. split; [| by split_and!]. rewrite Hk. unfold m_bind, with_local, on_manager. cbn.
    by destruct w. }
  pose proof (available_run key (w_manager w) Hk Hok) as Hav. rewrite Ht in Hav.
  destruct Hav as (m1 & Em & Hc & Hmono & Hreg).
  set (w1 := set_manager m1 w).
  assert (on_manager (available key 0) w = (Ret ref, w1)) as Ew1
    by (unfold on_manager; by rewrite Em).
  rewrite (bind_ret_run _ _ _ _ _ (with_local_eq _ _ _ _ _ Ew1)).
  destruct (available_processor_run key w1 Hk) as [p Ep].
  rewrite (bind_ret_run _ _ _ _ _ (with_local_eq _ _ _ _ _ Ep)).
  set (w2 := set_processors p w1). unfold processor_run.
  assert (untouched w w2) as Hun by (by split_and!).
  destruct (w_in_loop w) eqn:Hl.
  { exists w2. split; [| done]. erewrite bind_raise_run; [reflexivity |].
    erewrite bind_ret_run by reflexivity. cbn [fst w2 w1 w_in_loop set_processors set_manager].
    by rewrite Hl. }
  destruct (on_channel_send_run ref j w2) as (m3 & Es & Href & Hne & Hjc & Hnx).
  change (w_manager w2) with m1 in Es, Href, Hne, Hjc, Hnx. rewrite Hc in Es, Href.
  set (w3 := set_manager m3 w2) in *.
  assert (async_run j ref (Some (m_modify (λ wb : W * bool, (wb.1, true)))) (w2, false)
    = if _stop c then (Raise (ChannelStoppedError (stopped_msg (w_jobs w j))), (w3, false))
      else if queue_full c then (Raise (ChannelFullError (full_msg (w_jobs w j))), (w3, false))
      else (Ret tt, (w3, true))) as Ea.
  { unfold async_run. rewrite (bind_ret_run _ _ _ _ _ (with_local_eq _ _ _ _ _ Es)).
    rewrite (bind_ret_run (with_local (get_job j)) _ (w3, false) (w_jobs w j) (w3, false) eq_refl).
    destruct (_stop c); [by rewrite decide_True by done |]. rewrite decide_False by (by destruct (queue_full c)).
    destruct (queue_full c); [by rewrite decide_True by done | by rewrite decide_False by naive_solver]. }
  assert (_stop c = true ∨ queue_full c = true → untouched w w3) as Hun3.
  { intros Hsf. split_and!; try done. intros r c' Hr. apply Hmono in Hr. cbn.
    destruct (decide (r = ref)) as [->|]; [| by rewrite Hne].
    rewrite Hr in Hc. cbn in Hc. subst c'. rewrite Href.
    destruct (_stop c); [done |]. destruct (queue_full c); [done | by destruct Hsf as [[=]|[=]]]. }
  assert ((let* running := m_get (λ wb : W * bool, w_in_loop wb.1) in
           if negb running then async_run j ref (Some (m_modify (λ wb : W * bool, (wb.1, true))))
           else m_raise (RuntimeError sync_context_msg)) (w2, false)
          = async_run j ref (Some (m_modify (λ wb : W * bool, (wb.1, true)))) (w2, false)) as El.
  { erewrite bind_ret_run by reflexivity. cbn [fst w2 w1 w_in_loop set_processors set_manager].
    by rewrite Hl. }
  rewrite Ea in El.
  destruct (_stop c).
  { exists w3. split; [by rewrite (bind_raise_run _ _ _ _ _ El) | apply Hun3; by left]. }
  destruct (queue_full c).
  { exists w3. split; [by rewrite (bind_raise_run _ _ _ _ _ El) | apply Hun3; by right]. }
  assert (manager_ok m1) as Hok1.
  { pose proof (manager_new_ok key 0 (w_manager w) Hok) as H. unfold available in Em. by rewrite Em in H. }
  exists w3. split_and!; try done; [cbn; by rewrite Hjc | by eapply manager_replace_ok |]. rewrite (bind_ret_run _ _ _ _ _ El).
  unfold m_bind at 1. rewrite with_local_run.
  by destruct (save_attempts _ _ _ w3) as [[[[] [e|]]|e] w4].
Qed.

Lemma restore_lifecycle_back j s (job0 : Job) w :
  at_status s job0 → (∃ a, w_jobs w j = moved a job0) →
  ∃ w', restore_lifecycle j (current (j_fsm job0)) (j_status job0) w = (Ret tt, w')
    ∧ job_only j w w' ∧ w_jobs w' j = job0.
Proof.
  intros Hs [a Ha]. unfold restore_lifecycle. erewrite bind_ret_run by reflexivity.
  eexists. split; [reflexivity |]. split; [etransitivity; apply upd_job_only |].
  cbn. rewrite !fn_lookup_insert, Ha. unfold at_status in Hs. destruct job0 as [? ? ? ? ? f].
  cbn in Hs. subst f. unfold moved, with_status, with_fsm. cbn. by rewrite restore_fsm_at.
Qed.

Lemma moved_id s job : at_status s job → j_status job = status_value s → moved s job = job.
Proof. unfold at_status, moved. destruct job. cbn. by intros <- <-. Qed.

(** Dispatch, on every branch. *)
Lemma dispatch_cases j s w :
  rows_ok (rows (w_store w)) → manager_ok (w_manager w) → at_status s (w_jobs w j) →
  j_status (w_jobs w j) = status_value s →
  match refusal j s w with
  | Some e =>
      ∃ w', dispatch j w = (Raise e, w') ∧ w_jobs w' j = w_jobs w j ∧ w_store w' = w_store w
        ∧ ∀ r c, channels (w_manager w) !! r = Some c → channels (w_manager w') !! r = Some c
  | None =>
      let '(ref, c) := target (w_manager w) (j_channel_id (w_jobs w j)) in
      let '(o, w') := dispatch j w in
      channels (w_manager w') !! ref = Some (with_queue (_queue c ++ [j]) c)
      ∧ _job_channel (w_manager w') !! j_channel_id (w_jobs w j) = Some ref ∧ manager_ok (w_manager w')
      ∧ saved_as (moved SCHEDULED (w_jobs w j)) (w_jobs w' j)
      ∧ match o with
        | Ret _ => ∃ row, rows (w_store w') !! j_id (w_jobs w j) = Some row
            ∧ r_status row = status_value SCHEDULED ∧ r_version row = j_version (w_jobs w' j)
        | Raise e => is_exception e = true
        end
      ∧ (∃ w1, w_jobs w1 j = moved SCHEDULED (w_jobs w j) ∧ w_store w1 = w_store w
           ∧ saved_or_raised j (w_jobs w j) o w1 w')
      ∧ (calm (S := S) → unsaved j w → o = Ret tt)
  end.
Proof.
  intros Hrok Hok Hs Hst. pose proof (schedule_events j s w Hs) as H1.
  set (ps := current (j_fsm (w_jobs w j))). set (pst := j_status (w_jobs w j)).
  destruct ((let* _ := apply_event j INIT in apply_event j SCHEDULE) w) as [o1 w1] eqn:E1.
  destruct H1 as [Hjo1 H1]. unfold refusal.
  unfold dispatch. do 2 erewrite bind_ret_run by reflexivity. fold ps pst.
  destruct (decide (s = UNKNOWN)) as [->|Hne].
  - rewrite (decide_False (P := UNKNOWN ≠ UNKNOWN)) by congruence.
    destruct H1 as [-> Hj1]. rewrite (bind_ret_run _ _ _ _ _ (try_ret_run _ _ _ _ _ E1)).
    pose proof Hjo1 as [_ Hw1].
    assert (at_status SCHEDULED (w_jobs w1 j)) as Hs1 by (by rewrite Hj1).
    assert (w_manager w1 = w_manager w ∧ w_in_loop w1 = w_in_loop w ∧ w_store w1 = w_store w)
      as (Hm1 & Hl1 & Hst1) by (by rewrite Hw1).
    assert (j_channel_id (w_jobs w1 j) = j_channel_id (w_jobs w j)
            ∧ stopped_msg (w_jobs w1 j) = stopped_msg (w_jobs w j)
            ∧ full_msg (w_jobs w1 j) = full_msg (w_jobs w j)) as (Hk & Hsm & Hfm) by (by rewrite Hj1).
    pose proof (enqueue_cases j w1) as H2. rewrite Hm1, Hk, Hl1, Hsm, Hfm in H2.
    specialize (H2 Hok Hs1). cbv zeta in H2.
    destruct (target (w_manager w) (j_channel_id (w_jobs w j))) as [ref c]. cbn [snd].
    assert (∀ e, is_exception e = true →
      (∃ w', enqueue_and_save j (w1, false) = (Raise e, (w', false)) ∧ untouched w1 w') →
      ∃ w', (let '(o, (w1, enqueued)) := enqueue_and_save j (w1, false) in
        match o with
        | Ret _ => (Ret tt, w1)
        | Raise enqueue_exc =>
            if negb (is_exception enqueue_exc) then (Raise enqueue_exc, w1)
            else if (enqueued : bool) then (Raise enqueue_exc, w1)
            else (let* _ := restore_lifecycle j ps pst in m_raise enqueue_exc) w1
        end) = (Raise e, w') ∧ w_jobs w' j = w_jobs w j ∧ w_store w' = w_store w
        ∧ ∀ r c, channels (w_manager w) !! r = Some c → channels (w_manager w') !! r = Some c)
      as Hrefuse.
    { intros e He (w2 & E2 & Hj2 & Hst2 & _ & Hc2). rewrite E2, He. cbn [negb].
      destruct (restore_lifecycle_back j UNKNOWN (w_jobs w j) w2 Hs) as (w3 & E3 & [_ Hw3] & Hj3).
      { exists SCHEDULED. by rewrite Hj2. }
      exists w3. rewrite (bind_ret_run _ _ _ _ _ E3). split_and!; try done.
      - rewrite Hw3. cbn. by rewrite Hst2.
      - intros r c' Hr. rewrite Hw3. cbn. apply Hc2. by rewrite Hm1. }
    destruct (decide (_ = "")); [by apply Hrefuse |]. destruct (w_in_loop w); [by apply Hrefuse |].
    destruct (_stop c); [by apply Hrefuse |]. destruct (queue_full c); [by apply Hrefuse |].
    destruct H2 as (w2 & Hj2 & Hst2 & Hdf2 & Hc2 & Hreg & Hok2 & ->).
    assert (calm (S := S) → unsaved j w →
      ∃ w', save_attempts _DISPATCH_SAVE_ATTEMPTS j None w2 = (Ret (true, None), w')) as Hfresh.
    { intros Hcalm [Hd Hrow]. apply save_attempts_unsaved; [done |].
      unfold unsaved. rewrite Hdf2, Hj2, Hst2, Hst1, Hj1, Hw1. by split. }
    destruct (save_attempts_spec _DISPATCH_SAVE_ATTEMPTS j None w2) as (r & w3 & E3 & Ho3 & Hs3 & He3 & Hr3).
    { by rewrite Hst2, Hst1. }
    pose proof (save_attempts_exact _DISPATCH_SAVE_ATTEMPTS j 0 None w2 w2 (no_saves j w2)) as Hexact.
    assert (skipped_msg (w_jobs w1 j) = skipped_msg (w_jobs w j)) as Hkm by (by rewrite Hj1).
    assert (w_jobs w2 j = moved SCHEDULED (w_jobs w j) ∧ w_store w2 = w_store w) as Hw2
      by (split; [by rewrite Hj2, Hj1 | by rewrite Hst2, Hst1]).
    rewrite E3 in Hfresh, Hexact |- *. destruct Ho3 as (_ & _ & _ & Hm3 & _).
    assert (saved_as (moved SCHEDULED (w_jobs w j)) (w_jobs w3 j)) as Hsaved by (by rewrite <- Hj1, <- Hj2).
    destruct r as [[] oe]; cbn [fst snd] in *.
    + split; [by rewrite Hm3 |]. split; [by rewrite Hm3 |]. split; [by rewrite Hm3 |]. split; [done |]. rewrite Hj2, Hj1 in Hr3. split; [by apply Hr3 |].
      split; [| done]. exists w2. by split_and!; [apply Hw2 | apply Hw2 | exact Hexact].
    + assert (calm (S := S) → ¬ unsaved j w) as Hno.
      { intros Hcalm Hun. by destruct (Hfresh Hcalm Hun) as (? & [=]). }
      destruct oe as [e|].
      * destruct (He3 e eq_refl) as [[=]|He]. rewrite He. cbn [negb].
        split; [by rewrite Hm3 |]. split_and!; [by rewrite Hm3 | by rewrite Hm3 | done | done | |].
        { exists w2. split_and!; [apply Hw2 | apply Hw2 |]. by exists (Some e). }
        intros Hcalm Hun. by destruct (Hno Hcalm).
      * cbn [is_exception negb]. split; [by rewrite Hm3 |]. split_and!; [by rewrite Hm3 | by rewrite Hm3 | done | done | |].
        { exists w2. split_and!; [apply Hw2 | apply Hw2 |]. exists None. split; [exact Hexact |]. by rewrite <- Hkm. }
        intros Hcalm Hun. by destruct (Hno Hcalm).
  - rewrite decide_True by done. destruct H1 as [-> Hj1].
    destruct (restore_lifecycle_back j s (w_jobs w j) w1 Hs) as (w2 & E2 & [_ Hw2] & Hj2).
    { exists s. by rewrite Hj1, moved_id. }
    exists w2. split; [| split; [done |]].
    + rewrite bind_eq, (try_raise_run _ _ _ _ _ E1 eq_refl). by rewrite (bind_ret_run _ _ _ _ _ E2).
    + destruct Hjo1 as [_ Hw1]. rewrite Hw2, Hw1. split; [done |]. intros r c' Hr. exact Hr.
Qed.
End Dispatch.

(** ** Properties *)

(** C6: a job that does not reach its channel is as it was.  When the job is not
    in Unknown, has no channel id, is scheduled from inside an event loop, or its
    channel is stopped or full, [Job.scheduled] raises the error that says so
    (checked in that order) and leaves the job object, the store and every
    channel exactly as they were, so that it can be scheduled again. *)
Theorem refused_dispatch_rolls_back {S X} `{!JobStore S, !JobStoreLaws S, !Env X} j s e
    (w : World S X) :
  rows_ok (rows (w_store w)) → manager_ok (w_manager w) → at_status s (w_jobs w j) →
  j_status (w_jobs w j) = status_value s → refusal j s w = Some e →
  ∃ w', scheduled j w = (Raise e, w') ∧ w_jobs w' j = w_jobs w j ∧ w_store w' = w_store w
    ∧ ∀ r c, channels (w_manager w) !! r = Some c → channels (w_manager w') !! r = Some c.
Proof.
  intros Hrok Hok Hs Hst Hr. pose proof (dispatch_cases j s w Hrok Hok Hs Hst) as H.
  by rewrite Hr in H.
Qed.

(** C7: a job that reaches its channel stays there.  Otherwise [Job.scheduled]
    puts the job at the end of the channel registered under its id, once, and
    leaves it Scheduled whatever the store does.  It then saves the job, up to
    three times: it returns after the first save that reports success, and then
    a Scheduled row is durable at the version the job now carries (always so for
    a new job on a store whose calls return); when none of the three reported
    success it raises the last exception among them, or one of its own, without
    undoing the enqueue - the row may be durable all the same, when the store
    applied a write and failed before it said so. *)
Theorem accepted_dispatch_commits {S X} `{!JobStore S, !JobStoreLaws S, !Env X} j s
    (w : World S X) :
  rows_ok (rows (w_store w)) → manager_ok (w_manager w) → at_status s (w_jobs w j) →
  j_status (w_jobs w j) = status_value s → refusal j s w = None →
  let '(ref, c) := target (w_manager w) (j_channel_id (w_jobs w j)) in
  let '(o, w') := scheduled j w in
  channels (w_manager w') !! ref = Some (with_queue (_queue c ++ [j]) c)
  ∧ _job_channel (w_manager w') !! j_channel_id (w_jobs w j) = Some ref ∧ manager_ok (w_manager w')
  ∧ saved_as (moved SCHEDULED (w_jobs w j)) (w_jobs w' j)
  ∧ match o with
    | Ret _ => ∃ row, rows (w_store w') !! j_id (w_jobs w j) = Some row
        ∧ r_status row = status_value SCHEDULED ∧ r_version row = j_version (w_jobs w' j)
    | Raise e => is_exception e = true
    end
  ∧ (∃ w1, w_jobs w1 j = moved SCHEDULED (w_jobs w j) ∧ w_store w1 = w_store w
       ∧ saved_or_raised j (w_jobs w j) o w1 w')
  ∧ (calm (S := S) → unsaved j w → o = Ret tt).
Proof.
  intros Hrok Hok Hs Hst Hr. pose proof (dispatch_cases j s w Hrok Hok Hs Hst) as H.
  by rewrite Hr in H.
Qed.

Module DispatchExamples.
Definition w0 : World InMemoryJobStore.t demo_env := with_job UNKNOWN InMemoryJobStore.init.
(** The job's channel exists and holds one job, its bound. *)
Definition w_full : World InMemoryJobStore.t demo_env :=
  ((let* ref := on_manager (manager_new "ch" 1) in on_channel ref (send 7)) w0).2.

Lemma dispatch_rows0_ok : rows_ok (rows InMemoryJobStore.init).
Proof. intros i r H. change ((∅ : Rows) !! i = Some r) in H. by apply lookup_empty_Some in H. Qed.
Lemma manager_full_ok : manager_ok (w_manager w_full).
Proof.
  assert (w_manager w_full = mkManager {[ 0 := mkChannel false [7] 1 false ]} 1 {[ "ch" := 0 ]}) as ->
    by (vm_compute; reflexivity).
  split; cbn.
  - intros k ref [<- <-]%lookup_singleton_Some. rewrite lookup_singleton_eq. by eexists.
  - intros ref [c [<- _]%lookup_singleton_Some]. lia.
Qed.

Lemma refused_dispatch_rolls_back_witness :
  ∃ m w', scheduled 0 w_full = (Raise (ChannelFullError m), w') ∧ w_jobs w' 0 = w_jobs w_full 0.
Proof.
  destruct (refused_dispatch_rolls_back 0 UNKNOWN (ChannelFullError (full_msg (w_jobs w_full 0))) w_full)
    as (w' & E & Hj & _).
  - exact dispatch_rows0_ok.
  - exact manager_full_ok.
  - reflexivity.
  - reflexivity.
  - vm_compute. reflexivity.
  - eexists _, w'. split; [exact E | exact Hj].
Defined.

Lemma accepted_dispatch_commits_witness :
  (scheduled 0 w0).1 = Ret tt.
Proof.
  pose proof (accepted_dispatch_commits 0 UNKNOWN w0 dispatch_rows0_ok manager_init_ok eq_refl eq_refl) as H.
  specialize (H ltac:(vm_compute; reflexivity)).
  destruct (target _ _) as [ref c]. destruct (scheduled 0 w0) as [o w'] eqn:E.
  destruct H as (_ & _ & _ & _ & _ & _ & Ho). apply Ho; [exact WorkerRunExamples.calm_memory |].
  split; [reflexivity | vm_compute; reflexivity].
Defined.
(** The first save writes the row and fails to read it back: the next ones are
    refused or fail too, and [scheduled] raises with the row durable. *)
Example raised_yet_durable :
  let script := [FlakyStore.Fine; FlakyStore.FailBefore; FlakyStore.Fine; FlakyStore.FailBefore] in
  let '(o, w') := scheduled 0 (with_job UNKNOWN (FlakyStore.mk InMemoryJobStore.init script)) in
  o = Raise FlakyStore.lost ∧ r_status <$> rows (w_store w') !! id0 = Some "Scheduled".
Proof. vm_compute. by split. Qed.
End DispatchExamples.
