(* ===== verification/JobInterface.v ===== *)
(** * JobInterface: what a job promises to its owner

    [IJob] of [src/pypepper/scheduler/job.py] as an interface with laws: a
    cancelled job stays cancelled whatever is done to it and whatever its store
    does.  [Job] implements it; an owner that cancels and then saves until the
    store takes it is a client. *)
From stdpp Require Import functions.
From S2P Require Import Prelude Lifecycle Fsm SchedulerFsm JobStore Context Task World Job Demo.
From S2P Require Import Dispatcher DispatchSpec.

Class IJob (W J : Type) : Type := {
  i_save : J → M W bool;
  i_log : J → M W unit;
  i_scheduled : J → M W unit;
  i_cancel : J → M W unit;
  i_is_cancelled : J → W → bool;
}.
(** [ok j w]: the job's machine is in a status of the diagram. *)
Class IJobLaws (W J : Type) `{!IJob W J} (ok : J → W → Prop) : Prop := {
  i_log_law : ∀ j w, i_log j w = (Ret tt, w);
  i_save_law : ∀ j w, ok j w → let w' := (i_save j w).2 in
    ok j w' ∧ i_is_cancelled j w' = i_is_cancelled j w;
  i_cancel_law : ∀ j w, ok j w → let '(o, w') := i_cancel j w in
    ok j w' ∧ (o = Ret tt → i_is_cancelled j w' = true)
    ∧ (i_is_cancelled j w = true → i_is_cancelled j w' = true);
  i_scheduled_law : ∀ j w, ok j w → i_is_cancelled j w = true → let '(o, w') := i_scheduled j w in
    (∃ e, o = Raise e ∧ is_exception e = true) ∧ ok j w' ∧ i_is_cancelled j w' = true;
}.

(** ** [Job] implements it *)
Section Job.
Context {S X : Type} `{!JobStore S, !JobStoreLaws S, !Env X}.
Abbreviation W := (World S X).

(** [Job.log()] writes a line. *)
Definition log (j : nat) : M W unit := m_ret tt.
#[export] Instance Job_ijob : IJob W nat := {
  i_save := save;
  i_log := log;
  i_scheduled := scheduled;
  i_cancel := cancel;
  i_is_cancelled j w := is_cancelled (w_jobs w j);
}.
Definition in_diagram (j : nat) (w : W) : Prop :=
  ∃ s, at_status s (w_jobs w j) ∧ j_status (w_jobs w j) = status_value s.

Lemma saved_in_diagram j (w w' : W) s :
  at_status s (w_jobs w j) ∧ j_status (w_jobs w j) = status_value s → saved_as (w_jobs w j) (w_jobs w' j) →
  at_status s (w_jobs w' j) ∧ j_status (w_jobs w' j) = status_value s.
Proof using Type. by intros Hs (u & v & ->). Qed.

Lemma apply_event_in_diagram j ev (w : W) s :
  at_status s (w_jobs w j) ∧ j_status (w_jobs w j) = status_value s →
  match sched_next ev s with
  | Some s' => ∃ w', apply_event j ev w = (Ret tt, w')
      ∧ at_status s' (w_jobs w' j) ∧ j_status (w_jobs w' j) = status_value s'
  | None => ∃ w', apply_event j ev w = (Raise (InternalException ERROR_INVALID_EVENT), w')
      ∧ w_jobs w' j = w_jobs w j
  end.
Proof using Type.
  intros [Hs Hst]. pose proof (apply_event_at j ev s w Hs) as H.
  destruct (apply_event j ev w) as [o w']. destruct H as [_ H].
  destruct (sched_next ev s) as [s'|]; destruct H as [-> Hj]; exists w'; [| done]. by rewrite Hj.
Qed.

Lemma cancel_in_diagram j s (w : W) :
  at_status s (w_jobs w j) ∧ j_status (w_jobs w j) = status_value s →
  let '(o, w') := cancel j w in
  match sched_next CANCEL s with
  | Some s' => (at_status s' (w_jobs w' j) ∧ j_status (w_jobs w' j) = status_value s')
  | None => o = Raise (InternalException ERROR_INVALID_EVENT)
            ∧ at_status s (w_jobs w' j) ∧ j_status (w_jobs w' j) = status_value s
  end.
Proof using JobStoreLaws0.
  intros Hs. unfold cancel, share_cancel_event, set_event, get_job.
  set (w1 := set_jobs (<[j := shared (w_jobs w j)]> (w_jobs w)) w).
  set (w2 := set_events (<[j_cancel_event (w_jobs w1 j) := true]> (w_events w1)) w1).
  erewrite (bind_ret_run (upd_job j shared)) by reflexivity.
  erewrite (bind_ret_run (m_get _)) by reflexivity. erewrite (bind_ret_run (m_modify _)) by reflexivity.
  fold w1. fold w2.
  assert (at_status s (w_jobs w2 j) ∧ j_status (w_jobs w2 j) = status_value s) as Hs2.
  { assert (w_jobs w2 j = shared (w_jobs w j)) as -> by (cbn; by rewrite fn_lookup_insert). exact Hs. }
  pose proof (apply_event_in_diagram j CANCEL w2 s Hs2) as H.
  destruct (sched_next CANCEL s) as [s'|]; destruct H as (w3 & E & Hw3).
  - rewrite (bind_ret_run _ _ _ _ _ E), bind_eq. pose proof (save_post_saved_as j w3) as Hp.
    pose proof (save_spec j w3) as Hsp. destruct (save j w3) as [[b|e] w4]; cbn [m_ret];
      by apply (saved_in_diagram j w3), (Hp _ _ Hsp).
  - rewrite (bind_raise_run _ _ _ _ _ E). split; [done |]. rewrite Hw3. exact Hs2.
Qed.

#[export] Instance Job_ijob_laws : IJobLaws W nat in_diagram.
Proof.
  split; cbn [i_save i_log i_scheduled i_cancel i_is_cancelled Job_ijob].
  - done.
  - intros j w [s Hs]. pose proof (save_spec j w) as Hp. destruct (save j w) as [o w']. cbn.
    pose proof (saved_in_diagram j w w' s Hs (save_post_saved_as _ _ _ _ Hp)) as Hs'.
    split; [by exists s |]. by rewrite !(is_cancelled_at s) by (by apply Hs || apply Hs').
  - intros j w [s Hs]. pose proof (cancel_in_diagram j s w Hs) as H. destruct (cancel j w) as [o w'].
    destruct (sched_next CANCEL s) as [s'|] eqn:En.
    + assert (s' = CANCELLED) as -> by (destruct s; cbn in En; congruence).
      split; [by exists CANCELLED |]. by rewrite (is_cancelled_at CANCELLED) by apply H.
    + destruct H as [-> Hs']. split; [by exists s |]. split; [done |].
      by rewrite !(is_cancelled_at s) by (by apply Hs || apply Hs').
  - intros j w [s Hs]. rewrite (is_cancelled_at s) by apply Hs. intros Hc. apply bool_decide_eq_true in Hc as ->.
    unfold scheduled, dispatch. do 2 erewrite bind_ret_run by reflexivity.
    destruct (apply_event_in_diagram j INIT w CANCELLED Hs) as (w1 & E1 & Hw1).
    assert ((let* _ := apply_event j INIT in apply_event j SCHEDULE) w
      = (Raise (InternalException ERROR_INVALID_EVENT), w1)) as E by (by rewrite (bind_raise_run _ _ _ _ _ E1)).
    destruct (restore_lifecycle_back j CANCELLED (w_jobs w j) w1) as (w2 & E2 & _ & Hw2); [apply Hs | |].
    { exists CANCELLED. by rewrite Hw1, moved_id by apply Hs. }
    rewrite bind_eq, (try_raise_run _ _ _ _ _ E eq_refl), (bind_ret_run _ _ _ _ _ E2). cbn.
    split; [by eexists |]. split; [exists CANCELLED; by rewrite Hw2 |].
    rewrite (is_cancelled_at CANCELLED); [done | by rewrite Hw2; apply Hs].
Qed.
End Job.

(** ** Clients *)
Section Client.
Context {W J : Type} `{!IJob W J} (ok : J → W → Prop) `{!IJobLaws W J ok}.

(** [cancel], and as its doc comment says, only [save] again when the snapshot
    could not be written: at most [n] times. *)
Fixpoint save_again (n : nat) (j : J) : M W bool :=
  match n with
  | O => m_ret false
  | Datatypes.S n => m_try (i_save j) (λ _, save_again n j)
  end.
Definition cancel_for_good (n : nat) (j : J) : M W bool :=
  m_try (let* _ := i_cancel j in m_ret true) (λ _, save_again n j).

Inductive job_op : Type := OpSave | OpLog | OpScheduled | OpCancel | OpCancelForGood (n : nat).
Definition run_job_op (j : J) (op : job_op) (w : W) : W :=
  match op with
  | OpSave => (i_save j w).2 | OpLog => (i_log j w).2 | OpScheduled => (i_scheduled j w).2
  | OpCancel => (i_cancel j w).2 | OpCancelForGood n => (cancel_for_good n j w).2
  end.

Lemma save_again_law n j : ∀ w, ok j w →
  ok j (save_again n j w).2 ∧ i_is_cancelled j (save_again n j w).2 = i_is_cancelled j w.
Proof using IJobLaws0.
  induction n as [|n IH]; intros w Hw; [done |]. cbn [save_again]. unfold m_try.
  destruct (i_save_law j w Hw) as [H1 H2]. destruct (i_save j w) as [[b|e] w1]; cbn in *; [done |].
  destruct (is_exception e); [| done]. destruct (IH w1 H1) as [H3 H4]. by rewrite H4.
Qed.
(** A job that was cancelled stays so, through anything its owner may do and
    whatever its store does meanwhile; it cannot be scheduled again. *)
Lemma cancelled_stays j ops : ∀ w, ok j w → i_is_cancelled j w = true →
  let w' := fold_left (λ w op, run_job_op j op w) ops w in
  i_is_cancelled j w' = true ∧ ∃ e, (i_scheduled j w').1 = Raise e ∧ is_exception e = true.
Proof using IJobLaws0.
  induction ops as [|op ops IH]; intros w Hw Hc; cbn [fold_left].
  - split; [done |]. pose proof (i_scheduled_law j w Hw Hc) as H.
    destruct (i_scheduled j w) as [o w']. destruct H as [(e & -> & He) _]. by exists e.
  - assert (ok j (run_job_op j op w) ∧ i_is_cancelled j (run_job_op j op w) = true) as [H1 H2]; [| by apply IH].
    destruct op; cbn [run_job_op].
    + destruct (i_save_law j w Hw) as [H1 H2]. by rewrite H2.
    + by rewrite i_log_law.
    + pose proof (i_scheduled_law j w Hw Hc) as H. destruct (i_scheduled j w) as [o w']. by destruct H as (_ & ? & ?).
    + pose proof (i_cancel_law j w Hw) as H. destruct (i_cancel j w) as [o w']. destruct H as (H1 & _ & H2). auto.
    + unfold cancel_for_good, m_try. pose proof (i_cancel_law j w Hw) as H. rewrite bind_eq.
      destruct (i_cancel j w) as [[[]|e] w1]; destruct H as (H1 & _ & H2); cbn [m_ret snd]; [auto |].
      destruct (is_exception e); [| auto]. destruct (save_again_law n j w1 H1) as [H3 H4].
      split; [done |]. rewrite H4. auto.
Qed.
End Client.

(** [cancel] of a Scheduled or InProgress job never fails to cancel it: when the
    store cannot be written it raises, and the job is cancelled all the same. *)
Lemma cancel_despite_store {S X} `{!JobStore S, !JobStoreLaws S, !Env X} j s (w : World S X) :
  at_status s (w_jobs w j) → j_status (w_jobs w j) = status_value s → sched_next CANCEL s = Some CANCELLED →
  let w' := (cancel j w).2 in is_cancelled (w_jobs w' j) = true ∧ j_status (w_jobs w' j) = status_value CANCELLED.
Proof.
  intros Hs Hst Hn. pose proof (cancel_in_diagram j s w (conj Hs Hst)) as H. destruct (cancel j w) as [o w'].
  rewrite Hn in H. cbn. split; [| apply H]. by rewrite (is_cancelled_at CANCELLED) by apply H.
Qed.
