(* ===== verification/Pipeline.v ===== *)
(** * Pipeline: from [Job.scheduled] to the worker's last job

    What the dispatcher's, the channel's and the worker's theorems give together:
    jobs that are scheduled, one after the other, on one channel are run in that
    order, each once, and end durably in their final status. *)
From stdpp Require Import functions.
From S2P Require Import Prelude Json Lifecycle Fsm SchedulerFsm JobStore Channel Context Task.
From S2P Require Import Workflow World Job Worker WorkerSpec WorkerRun WorkerFail Demo.
From S2P Require Import Dispatcher DispatchSpec.

(** ** What scheduling a job leaves alone *)
Section Frame.
Context {S X : Type} `{!JobStore S, !JobStoreLaws S, !Env X}.
Abbreviation W := (World S X).
Implicit Types (w : W).

(** Other jobs, other rows and the loop flag; the clock may have been read. *)
Record dispatch_frame (j : nat) w w' : Prop := {
  df_jobs : ∀ k, k ≠ j → w_jobs w' k = w_jobs w k;
  df_id : j_id (w_jobs w' j) = j_id (w_jobs w j);
  df_rows : ∀ i, i ≠ j_id (w_jobs w j) → rows (w_store w') !! i = rows (w_store w) !! i;
  df_loop : w_in_loop w' = w_in_loop w;
  df_deferred : w_deferred w = None → w_deferred w' = None;
  df_env : env_le (w_env w) (w_env w');
  df_rows_ok : rows_ok (rows (w_store w)) → rows_ok (rows (w_store w'));
}.
#[export] Instance dispatch_frame_preorder j : PreOrder (dispatch_frame j).
Proof.
  split; [intros w; by split |].
  intros a b c [A1 A2 A3 A4 A5 A6 A7] [B1 B2 B3 B4 B5 B6 B7]. split; auto; try congruence.
  - intros k Hk. by rewrite B1, A1.
  - intros i Hi. by rewrite B3, A3 by congruence.
  - by etransitivity.
Qed.

(** Lifted to the local variable of [dispatch]. *)
Definition frame_local (j : nat) (a b : W * bool) : Prop := dispatch_frame j a.1 b.1.
#[export] Instance frame_local_preorder j : PreOrder (frame_local j).
Proof.
  split; [intros a; unfold frame_local; reflexivity |].
  intros a b c. unfold frame_local. apply transitivity.
Qed.
Lemma with_local_frame {A} j (m : M W A) :
  preserves (dispatch_frame j) m → preserves (frame_local j) (with_local m).
Proof. intros H [w b]. rewrite with_local_run. exact (H w). Qed.

Lemma upd_job_frame j f :
  (∀ job, j_id (f job) = j_id job) → preserves (dispatch_frame j) (upd_job (S := S) (X := X) j f).
Proof.
  intros Hf w. split; try done; cbn.
  - intros k Hk. by rewrite fn_lookup_insert_ne.
  - by rewrite fn_lookup_insert, Hf.
Qed.
Lemma get_job_frame j k : preserves (dispatch_frame j) (get_job (S := S) (X := X) k).
Proof. intros w. unfold get_job, m_get. cbn. reflexivity. Qed.
Lemma saved_as_id job job' : saved_as job job' → j_id job' = j_id job.
Proof. by intros (u & v & ->). Qed.
Lemma save_frame j : preserves (dispatch_frame j) (save j).
Proof.
  intros w. pose proof (save_spec j w) as H. pose proof (save_forward j w : store_step _ _) as Hf.
  destruct (save j w) as [o w']. pose proof (save_post_saved_as _ _ _ _ H) as Hs.
  destruct H as [(H1 & _ & _ & Hm & _ & Hl & Hd & He) H]. cbn [snd] in *.
  split; try done; [by apply saved_as_id | | by intros [? _]%Hf].
  intros i Hi. assert (∀ u, write_row (record_of u (w_jobs w j)) (rows (w_store w)) !! i
                            = rows (w_store w) !! i) as Hw.
  { intros u. unfold write_row. cbn [r_id record_of].
    destruct (rows (w_store w) !! _); by rewrite lookup_insert_ne. }
  destruct o as [[]|e].
  - destruct H as (u & _ & -> & _). apply Hw.
  - by destruct H as (-> & _).
  - destruct H as (_ & _ & [-> | (u & _ & ->)]); [done | apply Hw].
Qed.
Lemma on_manager_frame {A} j (m : M (ChannelManager nat) A) :
  preserves (dispatch_frame j) (on_manager (S := S) (X := X) m).
Proof. intros w. unfold on_manager. destruct (m _). by split. Qed.
Lemma on_channel_frame {A} j ref (m : M (Channel nat) A) :
  preserves (dispatch_frame j) (on_channel (S := S) (X := X) ref m).
Proof. apply on_manager_frame. Qed.
Lemma processors_frame j f : preserves (dispatch_frame j) (m_modify (λ w, set_processors (f w) w)).
Proof. intros w. by split. Qed.

End Frame.
#[export] Hint Resolve with_local_frame get_job_frame save_frame on_manager_frame on_channel_frame
  processors_frame
  : preserves.
#[export] Hint Extern 1 (preserves (dispatch_frame _) (upd_job _ _)) =>
  apply upd_job_frame; by intros [] : preserves.

Section Dispatch.
Context {S X : Type} `{!JobStore S, !JobStoreLaws S, !Env X}.
Abbreviation W := (World S X).

Lemma local_pure_frame j (f : W * bool → W * bool) :
  (∀ wb, (f wb).1 = wb.1) → preserves (frame_local j) (m_modify f).
Proof. intros Hf wb. unfold frame_local. cbn. rewrite Hf. reflexivity. Qed.
Lemma local_get_frame {A} j (f : W * bool → A) : preserves (frame_local j) (m_get f).
Proof. intros wb. unfold frame_local. cbn. reflexivity. Qed.
#[local] Hint Resolve local_get_frame : preserves.
#[local] Hint Extern 1 (preserves (frame_local _) (m_modify _)) => by apply local_pure_frame : preserves.

Lemma apply_event_frame j ev : preserves (dispatch_frame j) (apply_event (S := S) (X := X) j ev).
Proof. unfold apply_event, _raise_if_transition_failed. prove_preserves. Qed.
Lemma restore_lifecycle_frame j st s :
  preserves (dispatch_frame j) (restore_lifecycle (S := S) (X := X) j st s).
Proof. unfold restore_lifecycle. prove_preserves. Qed.
Lemma save_attempts_frame n j last : preserves (dispatch_frame j) (save_attempts n j last).
Proof. revert last. induction n as [|n IH]; intros last; cbn [save_attempts]; prove_preserves; apply IH. Qed.
Lemma available_processor_frame j key :
  preserves (dispatch_frame j) (_available_processor (S := S) (X := X) key).
Proof. unfold _available_processor, _new_processor, _get_processor, _put_processor. prove_preserves. Qed.
#[local] Hint Resolve apply_event_frame restore_lifecycle_frame save_attempts_frame
  available_processor_frame : preserves.
Lemma enqueue_and_save_frame j : preserves (frame_local j) (enqueue_and_save j).
Proof. unfold enqueue_and_save, processor_run, async_run. prove_preserves. Qed.
Lemma dispatch_framed j : preserves (dispatch_frame j) (dispatch j).
Proof.
  unfold dispatch. apply preserves_bind; [apply _ | prove_preserves | intros ps].
  apply preserves_bind; [apply _ | prove_preserves | intros pst].
  apply preserves_bind; [apply _ | prove_preserves | intros _ w].
  pose proof (enqueue_and_save_frame j (w, false)) as H. unfold frame_local in H.
  destruct (enqueue_and_save j (w, false)) as [[u|e] [w1 b]]; cbn [fst snd] in H; [exact H |].
  destruct (negb _); [exact H |]. destruct b; [exact H |]. etransitivity; [exact H |].
  assert (preserves (dispatch_frame j) (let* _ := restore_lifecycle j ps pst in m_raise (A := unit) e : M W unit))
    as Hr by prove_preserves. apply Hr.
Qed.
End Dispatch.

(** ** Scheduling jobs one after the other *)
Section Submit.
Context {S X : Type} `{!JobStore S, !JobStoreLaws S, !Env X}.
Abbreviation W := (World S X).
Implicit Types (w : W).
Context (Hcalm : calm (S := S)).

(** [for job in jobs: job.scheduled()]. *)
Fixpoint schedule_all (js : list nat) : M W unit :=
  match js with
  | [] => m_ret tt
  | j :: js' => let* _ := scheduled j in schedule_all js'
  end.

Definition job_ids (js : list nat) w : list string := map (λ j, j_id (w_jobs w j)) js.

(** New jobs for one channel, in a process that is in order. *)
Record fresh_jobs (key : string) (js : list nat) w : Prop := {
  fj_key : key ≠ "";
  fj_rows_ok : rows_ok (rows (w_store w));
  fj_manager_ok : manager_ok (w_manager w);
  fj_deferred : w_deferred w = None;
  fj_sync : w_in_loop w = false;
  fj_ids : NoDup (job_ids js w);
  fj_new : ∀ j, j ∈ js →
    at_status UNKNOWN (w_jobs w j) ∧ j_status (w_jobs w j) = status_value UNKNOWN
    ∧ j_channel_id (w_jobs w j) = key ∧ rows (w_store w) !! j_id (w_jobs w j) = None;
}.

(** A job that waits on the channel: Scheduled in memory and in its row, and
    otherwise as it was. *)
Definition waiting (w0 w : W) (j : nat) : Prop :=
  saved_as (moved SCHEDULED (w_jobs w0 j)) (w_jobs w j)
  ∧ ∃ row, current_row j row w ∧ r_status row = status_value SCHEDULED.

(** Nothing happened to jobs other than [js]. *)
Definition only_jobs (js : list nat) w w' : Prop :=
  (∀ k, k ∉ js → w_jobs w' k = w_jobs w k)
  ∧ (∀ i, i ∉ job_ids js w → rows (w_store w') !! i = rows (w_store w) !! i)
  ∧ (w_deferred w = None → w_deferred w' = None).

Definition room (c : Channel nat) (n : nat) : Prop :=
  _stop c = false ∧ ((0 < maxsize c)%Z → (Z.of_nat (length (_queue c) + n) ≤ maxsize c)%Z).

Lemma job_ids_NoDup js w : NoDup (job_ids js w) → NoDup js.
Proof. apply NoDup_fmap_1. Qed.
Lemma elem_of_job_ids j js w : j ∈ js → j_id (w_jobs w j) ∈ job_ids js w.
Proof. intros H. unfold job_ids. apply list_elem_of_fmap. by exists j. Qed.

Lemma fresh_jobs_tail key j js w w' :
  fresh_jobs key (j :: js) w → dispatch_frame j w w' → manager_ok (w_manager w') →
  fresh_jobs key js w' ∧ job_ids js w' = job_ids js w.
Proof.
  intros [Hk Hr _ Hd Hs Hids Hnew] [F1 F2 F3 F4 F5 F6 F7] Hm.
  pose proof (job_ids_NoDup _ _ Hids) as Hnd. apply NoDup_cons in Hnd as [Hj _].
  assert (∀ k, k ∈ js → w_jobs w' k = w_jobs w k) as Hjobs.
  { intros k Hin. apply F1. intros ->. done. }
  assert (job_ids js w' = job_ids js w) as Hjs.
  { unfold job_ids. apply map_ext_in. intros k Hin%list_elem_of_In. by rewrite Hjobs. }
  split; [| done]. apply NoDup_cons in Hids as [Hjid Hids]. split; auto; [congruence | by rewrite Hjs |].
  intros k Hin. rewrite Hjobs by done. destruct (Hnew k ltac:(by right)) as (H1 & H2 & H3 & H4).
  split_and!; try done. rewrite F3; [done |]. intros Heq. apply Hjid. rewrite <- Heq.
  by apply (elem_of_job_ids k js w).
Qed.

Lemma schedule_one key j js w ref c :
  fresh_jobs key (j :: js) w → target (w_manager w) key = (ref, c) → room c (Datatypes.S (length js)) →
  ∃ w', scheduled j w = (Ret tt, w') ∧ dispatch_frame j w w' ∧ manager_ok (w_manager w')
    ∧ target (w_manager w') key = (ref, with_queue (_queue c ++ [j]) c)
    ∧ _job_channel (w_manager w') !! key = Some ref ∧ waiting w w' j.
Proof.
  intros Hf Ht [Hstop Hroom]. pose proof Hf as [Hk Hr Hm Hd Hs _ Hnew].
  destruct (Hnew j ltac:(by left)) as (H1 & H2 & H3 & H4).
  pose proof (dispatch_cases j UNKNOWN w Hr Hm H1 H2) as H. pose proof (dispatch_framed j w) as Hdf.
  assert (refusal j UNKNOWN w = None) as Href.
  { unfold refusal. rewrite H3, Ht. cbn [snd]. rewrite (decide_False (P := UNKNOWN ≠ UNKNOWN)) by congruence.
    rewrite decide_False, Hs, Hstop by done. unfold queue_full.
    destruct (Z.ltb_spec 0 (maxsize c)); [| done]. cbn [andb].
    destruct (Z.leb_spec (maxsize c) (Z.of_nat (length (_queue c)))); [| done].
    specialize (Hroom ltac:(lia)). lia. }
  rewrite Href, H3, Ht in H. unfold scheduled.
  destruct (dispatch j w) as [o w']. cbn [snd] in Hdf.
  destruct H as (Hc & Hreg & Hm' & Hsaved & Ho & _ & Hret).
  rewrite Hret in * by done. exists w'. split_and!; try done.
  - unfold target. by rewrite Hreg, Hc.
  - split; [done |]. destruct Ho as (row & Hrow & Hst & Hv). exists row. split; [| done].
    split_and!; [by apply Hdf | | done]. by rewrite (df_id _ _ _ Hdf).
Qed.

Lemma waiting_keep js w0 w w' j :
  only_jobs js w w' → j ∉ js → j_id (w_jobs w j) ∉ job_ids js w → waiting w0 w j → waiting w0 w' j.
Proof.
  intros (Hj & Hr & Hd) Hin Hid (Hs & row & (H1 & H2 & H3) & H4). unfold waiting, current_row.
  rewrite Hj by done. split; [done |]. exists row. rewrite Hr by done. auto.
Qed.

(** All of them are queued, in order. *)
Lemma schedule_all_run key js : ∀ w ref c,
  fresh_jobs key js w → target (w_manager w) key = (ref, c) → room c (length js) →
  ∃ w', schedule_all js w = (Ret tt, w') ∧ only_jobs js w w' ∧ env_le (w_env w) (w_env w')
    ∧ manager_ok (w_manager w')
    ∧ target (w_manager w') key = (ref, with_queue (_queue c ++ js) c)
    ∧ ∀ j, j ∈ js → waiting w w' j.
Proof.
  induction js as [|j js IH]; intros w ref c Hf Ht Hroom.
  { exists w. split_and!; [done | by split_and! | reflexivity | by apply Hf | | intros j Hj; by apply elem_of_nil in Hj].
    rewrite app_nil_r. by destruct c. }
  destruct (schedule_one key j js w ref c Hf Ht Hroom) as (w1 & E1 & Hdf & Hm & Ht1 & _ & Hw1).
  destruct (fresh_jobs_tail key j js w w1 Hf Hdf Hm) as [Hf1 Hids1].
  destruct (IH w1 ref (with_queue (_queue c ++ [j]) c) Hf1 Ht1) as (w2 & E2 & Ho2 & He2 & Hm2 & Ht2 & Hw2).
  { destruct Hroom as [H1 H2]. split; [done |]. cbn. rewrite length_app. cbn in *. intros H%H2. lia. }
  pose proof (fj_ids _ _ _ Hf) as Hnd. pose proof (job_ids_NoDup _ _ Hnd) as Hnd'.
  apply NoDup_cons in Hnd as [Hjid _]. apply NoDup_cons in Hnd' as [Hj _].
  exists w2. cbn [schedule_all]. rewrite (bind_ret_run _ _ _ _ _ E1). split_and!; try done.
  - pose proof Ho2 as (A1 & A2 & A3). destruct Hdf as [F1 F2 F3 F4 F5 F6 F7]. split_and!.
    + intros k [Hk Hkjs]%not_elem_of_cons. by rewrite A1, F1.
    + intros i Hi. cbn in Hi. apply not_elem_of_cons in Hi as [Hi Hijs]. rewrite A2, F3; [done.. |].
      by rewrite Hids1.
    + auto.
  - etransitivity; [apply Hdf | done].
  - rewrite Ht2. cbn. by rewrite <- app_assoc.
  - intros k [-> | Hk]%elem_of_cons.
    + eapply waiting_keep; try done. by rewrite (df_id _ _ _ Hdf), Hids1.
    + destruct (Hw2 k Hk) as [H1 H2]. split; [| done]. rewrite <- (df_jobs _ _ _ Hdf k); [done |].
      intros ->. done.
Qed.
End Submit.

(** ** Draining the channel *)
Section Drain.
Context {S X V : Type} `{!JobStore S, !JobStoreLaws S, !Env X}.
Abbreviation W := (World S X).
Implicit Types (w : W).
Context (Hcalm : calm (S := S)).
Context (run_workflow : list Task → M W (list (option V))) (res : list Task → option exn).
Context (trace : X → list (list Task)) (Htrace : ∀ x, trace (utcnow x).2 = trace x).

(** Errors of workflows that are not the worker's own. *)
Definition ordinary (e : exn) : Prop :=
  is_exception e = true ∧ (∀ m, e ≠ JobRequeuedError m) ∧ ∀ m r j, e ≠ JobRedeliveryError m r j.
(** Workflows that end as [res] says and only leave a trace. *)
Definition only_traced : Prop :=
  (∀ wf e, res wf = Some e → ordinary e) ∧
  ∀ wf w, ∃ rs x', run_workflow wf w
                   = (match res wf with None => Ret rs | Some e => Raise e end, set_env x' w)
    ∧ trace x' = trace (w_env w) ++ [wf].
Context (Honly : only_traced).

Lemma only_traced_well_behaved j : well_behaved run_workflow res trace j.
Proof.
  destruct Honly as [Hr Hw]. split; [intros wf e He; by apply (Hr wf e He) |].
  intros wf w. destruct (Hw wf w) as (rs & x' & E & Ht). exists rs, (set_env x' w). by split_and!.
Qed.

Definition run_frame (j : nat) w w' : Prop :=
  (∀ k, k ≠ j → w_jobs w' k = w_jobs w k) ∧ w_manager w' = w_manager w
  ∧ (w_deferred w = None → w_deferred w' = None).
#[local] Instance run_frame_preorder j : PreOrder (run_frame j).
Proof.
  split; [intros w; by split_and! |]. intros a b c (A1 & A2 & A3) (B1 & B2 & B3). split_and!; [| congruence | auto].
  intros k Hk. by rewrite B1, A1.
Qed.
Lemma run_framed j : framed run_workflow (run_frame j) j.
Proof.
  split; [intros w w' (H1 & _ & _ & H2 & _ & _ & H3 & _); by split_and! |].
  intros wf w. destruct Honly as [_ Hw]. destruct (Hw wf (set_in_loop false w)) as (rs & x' & E & _).
  unfold to_thread. rewrite E. by split_and!.
Qed.

(** How a job's run goes: its workflows, its error, its final status. *)
Definition wfs_of (job : Job) : list (list Task) := j_workflows (shared job).
Definition final_status (job : Job) : Status :=
  match (until_failure res (wfs_of job)).2 with None => COMPLETED | Some _ => FAILED end.
Definition started (job : Job) : list (list Task) := (until_failure res (wfs_of job)).1.

Lemma wfs_of_saved job0 job : saved_as (moved SCHEDULED job0) job → wfs_of job = wfs_of job0.
Proof. by intros (u & v & ->). Qed.

(** A job whose run is over: in its final status, in memory and in its row. *)
Definition finished (w0 w : W) (j : nat) : Prop :=
  at_status (final_status (w_jobs w0 j)) (w_jobs w j)
  ∧ j_status (w_jobs w j) = status_value (final_status (w_jobs w0 j))
  ∧ j_id (w_jobs w j) = j_id (w_jobs w0 j)
  ∧ ∃ row, current_row j row w ∧ r_status row = status_value (final_status (w_jobs w0 j)).

Lemma finished_keep js w0 w w' j :
  only_jobs js w w' → j ∉ js → j_id (w_jobs w j) ∉ job_ids js w → finished w0 w j → finished w0 w' j.
Proof.
  intros (Hj & Hr & Hd) Hin Hid (Hs & Hst & Hi & row & (H1 & H2 & H3) & H4). unfold finished, current_row.
  rewrite Hj by done. do 3 (split; [done |]). exists row. rewrite Hr by done. auto.
Qed.

(** One turn: the first job of the queue. *)
Lemma run_once_job ch j js w0 w :
  queue_of ch w = j :: js → waiting w0 w j →
  ∃ w', run_once ch run_workflow w
        = (match (until_failure res (wfs_of (w_jobs w0 j))).2 with
           | None => Ret (Processed (Some j)) | Some e => Raise e end, w')
    ∧ _stop (chan_of ch w') = _stop (chan_of ch w) ∧ queue_of ch w' = js
    ∧ only_jobs [j] w w' ∧ finished w0 w' j
    ∧ trace (w_env w') = trace (w_env w) ++ started (w_jobs w0 j).
Proof.
  intros Hq (Hsaved & row & Hcur & Hst). unfold run_once. rewrite bind_eq.
  unfold on_channel, on_manager. fold (chan_of ch w). rewrite (receive_nonempty _ j js Hq).
  set (w1 := set_manager _ w).
  assert (chan_of ch w1 = with_queue js (chan_of ch w)) as Hc1 by (by apply (chan_of_set ch w)).
  assert (at_status SCHEDULED (w_jobs w j)) as Hat by (by destruct Hsaved as (u & v & ->)).
  destruct (process_run Hcalm run_workflow res trace Htrace (run_frame j) ch j row w1
    (only_traced_well_behaved j) (run_framed j) Hcur Hat Hst)
    as (w' & row' & E & H1 & H2 & H3 & H4 & H5 & H6 & H7 & H8 & H9 & F1 & F2 & F3).
  fold (wfs_of (w_jobs w1 j)) in *. change (w_jobs w1) with (w_jobs w) in *.
  rewrite (wfs_of_saved _ _ Hsaved) in *. exists w'. split_and!.
  - rewrite bind_eq, E. unfold wfs_of. by destruct (until_failure res _).2.
  - unfold chan_of in *. by rewrite F2, Hc1.
  - unfold queue_of, chan_of in *. by rewrite F2, Hc1.
  - split_and!; [| | exact F3].
    + intros k Hk. apply F1. intros ->. apply Hk. by left.
    + intros i Hi. rewrite H7. cbn in Hi. apply not_elem_of_cons in Hi as [Hi _].
      by rewrite lookup_insert_ne.
  - split_and!; [exact H1 | exact H2 | | by exists row'].
    rewrite H9. by destruct Hsaved as (u & v & ->).
  - exact H8.
Qed.

Lemma run_forever_one fuel ch sr w o w1 j :
  run_once ch run_workflow w = (o, w1) →
  o = Ret (Processed (Some j)) ∨ (∃ e, o = Raise e ∧ ordinary e) →
  run_forever ch run_workflow (Datatypes.S fuel) sr w = run_forever ch run_workflow fuel sr w1.
Proof.
  intros E Ho. cbn [run_forever]. rewrite E. destruct Ho as [-> | (e & -> & He & Hq & Hd)]; [done |].
  destruct e; try done; [by edestruct Hd | by edestruct Hq].
Qed.

Lemma until_failure_ordinary wfs e : (until_failure res wfs).2 = Some e → ordinary e.
Proof.
  induction wfs as [|wf wfs IH]; cbn; [done |]. destruct (res wf) eqn:Hr.
  - intros [= <-]. by apply (proj1 Honly wf).
  - by destruct (until_failure res wfs).
Qed.

Lemma drain_run ch js : ∀ w0 w,
  _stop (chan_of ch w) = true → queue_of ch w = js → NoDup (job_ids js w) →
  (∀ j, j ∈ js → waiting w0 w j) →
  ∃ w', run_forever ch run_workflow (Datatypes.S (length js)) None w = (Left (Ret tt), w')
    ∧ queue_of ch w' = [] ∧ only_jobs js w w' ∧ (∀ j, j ∈ js → finished w0 w' j)
    ∧ trace (w_env w') = trace (w_env w) ++ concat (map (λ j, started (w_jobs w0 j)) js).
Proof.
  induction js as [|j js IH]; intros w0 w Hs Hq Hnd Hw.
  - cbn [length run_forever]. unfold run_once. rewrite bind_eq. unfold on_channel, on_manager.
    fold (chan_of ch w). rewrite (receive_stopped _ Hs). unfold queue_of in Hq. rewrite Hq. cbn [hd_error tail].
    eexists. split; [reflexivity |]. split_and!.
    + unfold queue_of. erewrite (chan_of_set ch w) by reflexivity. done.
    + done.
    + by intros k Hk%elem_of_nil.
    + cbn. by rewrite app_nil_r.
  - destruct (run_once_job ch j js w0 w Hq (Hw j ltac:(by left)))
      as (w1 & E1 & Hs1 & Hq1 & Ho1 & Hf1 & Ht1).
    rewrite Hs in Hs1. pose proof (job_ids_NoDup _ _ Hnd) as Hnd'.
    apply NoDup_cons in Hnd as [Hjid Hnd]. apply NoDup_cons in Hnd' as [Hj _].
    pose proof Ho1 as (A1 & A2 & A3).
    assert (∀ k, k ∈ js → w_jobs w1 k = w_jobs w k) as Hjobs.
    { intros k Hk. apply A1. intros Heq%list_elem_of_singleton. by subst. }
    assert (job_ids js w1 = job_ids js w) as Hids.
    { unfold job_ids. apply map_ext_in. intros k Hk%list_elem_of_In. by rewrite Hjobs. }
    destruct (IH w0 w1 Hs1 Hq1) as (w2 & E2 & Hq2 & Ho2 & Hf2 & Ht2); [by rewrite Hids | |].
    { intros k Hk. eapply waiting_keep; [exact Ho1 | | | apply Hw; by right].
      - intros Heq%list_elem_of_singleton. by subst.
      - cbn. intros Heq%list_elem_of_singleton. apply Hjid. rewrite <- Heq.
        by apply (elem_of_job_ids k js w). }
    exists w2. split_and!; [| done | | |].
    + cbn [length]. rewrite (run_forever_one _ ch None w _ w1 j E1); [exact E2 |].
      destruct (until_failure res _).2 as [e|] eqn:He; [right | by left].
      exists e. split; [done | by eapply until_failure_ordinary].
    + destruct Ho2 as (B1 & B2 & B3). split_and!.
      * intros k [Hk Hkjs]%not_elem_of_cons. rewrite B1 by done. apply A1.
        by intros ?%list_elem_of_singleton.
      * intros i Hi. cbn in Hi. apply not_elem_of_cons in Hi as [Hi Hijs].
        rewrite B2 by (by rewrite Hids). apply A2. cbn. by intros ?%list_elem_of_singleton.
      * auto.
    + intros k [-> | Hk]%elem_of_cons; [| by apply Hf2]. eapply finished_keep; try done.
      rewrite Hids. destruct Hf1 as (_ & _ & -> & _).
      destruct (Hw j ltac:(by left)) as ((u & v & Hsv) & _). by rewrite Hsv in Hjid.
    + rewrite Ht2, Ht1. cbn [map concat]. by rewrite <- app_assoc.
Qed.
End Drain.

(** ** Properties *)

(** The channel a key would be given is the object the worker consumes. *)
Lemma target_chan {S X} (w : World S X) key ref c :
  manager_ok (w_manager w) → target (w_manager w) key = (ref, c) → chan_of ref w = c.
Proof.
  intros [_ H2]. unfold target, chan_of. destruct (_job_channel (w_manager w) !! key); intros [= <- <-]; [done |].
  destruct (channels (w_manager w) !! next_ref (w_manager w)) eqn:Hc; [| done].
  specialize (H2 (next_ref (w_manager w)) ltac:(by eexists)). lia.
Qed.

(** C5: what is scheduled is run.  New jobs scheduled one after the other on an
    open, empty channel with room for them are all accepted; once the channel is
    stopped, a worker that consumes it runs them in that order and returns with
    the queue empty.  Each job has had its workflows started in order, once, up
    to the first that raised, before those of the next job; it is Completed, or
    Failed if one raised, in memory and in its current durable row; no other job
    and no other row was touched. *)
Theorem scheduled_jobs_run_in_order {S X V} `{!JobStore S, !JobStoreLaws S, !Env X}
    (run_workflow : list Task → M (World S X) (list (option V)))
    (res : list Task → option exn) (trace : X → list (list Task)) key js ref c (w : World S X) :
  calm (S := S) → (∀ x, trace (utcnow x).2 = trace x) → only_traced run_workflow res trace →
  fresh_jobs key js w → target (w_manager w) key = (ref, c) → room c (length js) → _queue c = [] →
  let '(o, w1) := schedule_all js w in
  let '(_, w2) := on_channel ref request_stop w1 in
  let '(x, w3) := run_forever ref run_workflow (Datatypes.S (length js)) None w2 in
  o = Ret tt ∧ x = Left (Ret tt) ∧ queue_of ref w3 = [] ∧ only_jobs js w w3
  ∧ (∀ j, j ∈ js → finished res w w3 j)
  ∧ trace (w_env w3) = trace (w_env w) ++ concat (map (λ j, started res (w_jobs w j)) js).
Proof.
  intros Hcalm Htrace Honly Hf Ht Hroom Hq.
  destruct (schedule_all_run Hcalm key js w ref c Hf Ht Hroom)
    as (w1 & -> & Ho1 & He1 & Hm1 & Ht1 & Hw1).
  pose proof (target_chan w1 key ref _ Hm1 Ht1) as Hc1. rewrite Hq in Hc1. cbn [app] in Hc1.
  unfold on_channel, on_manager, request_stop. fold (chan_of ref w1). rewrite Hc1.
  cbn [_stop with_queue _queue maxsize]. rewrite (proj1 Hroom).
  set (w2 := set_manager _ w1).
  assert (chan_of ref w2 = mkChannel true js (maxsize c) true) as Hc2 by (by apply (chan_of_set ref w1)).
  destruct Ho1 as (A1 & A2 & A3).
  assert (job_ids js w2 = job_ids js w) as Hids.
  { apply map_ext_in. intros j Hj%list_elem_of_In. destruct (Hw1 j Hj) as [(u & v & Hs) _].
    change (w_jobs w2) with (w_jobs w1). by rewrite Hs. }
  destruct (drain_run Hcalm run_workflow res trace Htrace Honly ref js w w2)
    as (w3 & -> & Hq3 & (B1 & B2 & B3) & Hf3 & Ht3).
  - by rewrite Hc2.
  - unfold queue_of. by rewrite Hc2.
  - rewrite Hids. apply Hf.
  - exact Hw1.
  - split_and!; try done.
    + split_and!; [| | intros Hd; by apply B3, A3].
      * intros k Hk. rewrite B1 by done. by apply A1.
      * intros i Hi. rewrite B2 by (by rewrite Hids). by apply A2.
    + rewrite Ht3. f_equal. by apply (trace_env_le trace Htrace (w_env w) (w_env w2)).
Qed.

(** ** The scheduler example, [example/scheduler/app.py]

    Loading the configuration and installing the store come before: see
    [StoreConfig].  [work] is the executor object that wraps its function; [tags]
    stands for the list the example passes, which holds a plain string where the
    constructor expects a [Tag]; nothing in this run reads it. *)
Module SchedulerApp.
Section App.
Context {S X V : Type} `{!JobStore S, !Env X}.
Abbreviation W := (World S X).
Context (run_workflow : list Task → M W (list (option V))) (work : nat) (tags : list Tag).
Definition CHANNEL_ID : string := "example-scheduler".
Definition AssertionError : exn := OtherException "AssertionError" "".
Definition assert_ (b : bool) : M W unit := if b then m_ret tt else m_raise AssertionError.

(** [build_job()]. *)
Definition build_job : M W nat :=
  let* task := Task_new (on_env uuid4) CHANNEL_ID "dag-1" "fp-1" "step-1" "demo" "scheduler e2e step"
                 tags (Some work) 0 1 1 0 0 false DEFAULT_RETRY_UNTIL_MAX false None 0 in
  let* job := Job_new (Some "demo") CHANNEL_ID in
  let* _ := upd_job job (λ o, with_contexts (j_context o) (j_workflows o ++ [[task]]) o) in
  m_ret job.
(** [run_worker(job)]; [Blocked] is a worker left waiting. *)
Definition run_worker (job : nat) : M W once :=
  let* chan := on_manager (available CHANNEL_ID 0) in
  let* processed := run_once chan run_workflow in
  match processed with
  | Blocked => m_ret Blocked
  | Processed who =>
      let* _ := assert_ (bool_decide (who = Some job)) in
      let* status := m_get (λ w, j_status (w_jobs w job)) in
      let* _ := assert_ (bool_decide (status = status_value COMPLETED)) in
      let* id := id_of job in
      let* saved := get_saved id in
      let* _ := assert_ (bool_decide (saved ≠ None)) in
      let* _ := assert_ (bool_decide (r_status <$> saved = Some (status_value COMPLETED))) in
      m_ret processed
  end.
(** [main()]: [asyncio.run] is a loop around [run_worker]. *)
Definition main : M W once :=
  let* job := build_job in
  let* _ := scheduled job in
  let* _ := m_modify (set_in_loop true) in
  m_finally (run_worker job) (m_modify (set_in_loop false)).
End App.

Section Spec.
Context {S X V : Type} `{!JobStore S, !JobStoreLaws S, !Env X}.
Abbreviation W := (World S X).

(** The job [build_job] makes: new, and alone in its process. *)
Lemma build_job_run work tags (w : W) :
  ∃ w1, build_job work tags w = (Ret (w_next w), w1) ∧ w_store w1 = w_store w ∧ w_manager w1 = w_manager w
    ∧ w_deferred w1 = w_deferred w ∧ w_in_loop w1 = w_in_loop w
    ∧ at_status UNKNOWN (w_jobs w1 (w_next w)) ∧ j_status (w_jobs w1 (w_next w)) = status_value UNKNOWN
    ∧ j_channel_id (w_jobs w1 (w_next w)) = CHANNEL_ID.
Proof.
  unfold build_job, Task_new, Job_new, on_env. cbn -[build_scheduler_fsm].
  unfold m_bind, upd_job, m_modify, m_ret. cbn -[build_scheduler_fsm].
  repeat (destruct (uuid4 _) as [? ?] || destruct (utcnow _) as [? ?]; cbn -[build_scheduler_fsm]).
  eexists. split; [reflexivity |]. cbn -[build_scheduler_fsm]. rewrite !fn_lookup_insert.
  by split_and!.
Qed.

Lemma run_worker_completes (Hcalm : calm (S := S)) (run_workflow : list Task → M W (list (option V)))
    res (trace : X → list (list Task)) j ref (w0 w : W) :
  (∀ x, trace (utcnow x).2 = trace x) → only_traced run_workflow res trace → (∀ wf, res wf = None) →
  _job_channel (w_manager w) !! CHANNEL_ID = Some ref → queue_of ref w = [j] → waiting w0 w j →
  ∃ w', run_worker run_workflow j w = (Ret (Processed (Some j)), w').
Proof.
  intros Htrace Honly Hres Hreg Hq Hw. unfold run_worker.
  assert (on_manager (S := S) (X := X) (available CHANNEL_ID 0) w = (Ret ref, w)) as Ha.
  { unfold on_manager, available. rewrite manager_new_run, Hreg by done. by destruct w. }
  rewrite (bind_ret_run _ _ _ _ _ Ha).
  destruct (run_once_job Hcalm run_workflow res trace Htrace Honly ref j [] w0 w Hq Hw)
    as (w1 & E1 & _ & _ & _ & (_ & Hst & Hid & row & (Hd & Hrow & _) & Hrs) & _).
  assert (∀ wfs, (until_failure res wfs).2 = None) as Hu.
  { induction wfs as [|wf wfs IH]; [done |]. cbn. rewrite Hres. by destruct (until_failure res wfs). }
  unfold final_status in *. rewrite Hu in *. rewrite (bind_ret_run _ _ _ _ _ E1).
  rewrite bool_decide_eq_true_2 by done. unfold assert_.
  do 2 erewrite bind_ret_run by reflexivity. rewrite bool_decide_eq_true_2 by done.
  unfold id_of. do 2 erewrite bind_ret_run by reflexivity.
  destruct (get_saved_returns Hcalm (j_id (w_jobs w1 j)) w1 Hd) as [w2 E2].
  rewrite (bind_ret_run _ _ _ _ _ E2), Hrow. rewrite bool_decide_eq_true_2 by congruence.
  erewrite bind_ret_run by reflexivity. rewrite bool_decide_eq_true_2 by (cbn; by rewrite Hrs).
  erewrite bind_ret_run by reflexivity. by exists w2.
Qed.

(** The example's assertions hold: on a store whose calls return, with an open
    empty channel and a fresh id, the job it builds is the one the worker
    processes, and it is Completed in memory and in the store. *)
Lemma example_completes (Hcalm : calm (S := S)) (run_workflow : list Task → M W (list (option V)))
    res (trace : X → list (list Task)) work tags ref c (w w1 : W) :
  (∀ x, trace (utcnow x).2 = trace x) → only_traced run_workflow res trace → (∀ wf, res wf = None) →
  rows_ok (rows (w_store w)) → manager_ok (w_manager w) → w_deferred w = None → w_in_loop w = false →
  target (w_manager w) CHANNEL_ID = (ref, c) → room c 1 → _queue c = [] →
  build_job work tags w = (Ret (w_next w), w1) →
  rows (w_store w) !! j_id (w_jobs w1 (w_next w)) = None →
  ∃ w', main run_workflow work tags w = (Ret (Processed (Some (w_next w))), w').
Proof.
  intros Htrace Honly Hres Hrok Hmok Hd Hl Ht Hroom Hq Eb Hnew.
  destruct (build_job_run work tags w) as (w1' & E & Hs & Hm & Hd1 & Hl1 & Hat & Hst & Hch).
  rewrite Eb in E. injection E as <-.
  assert (fresh_jobs CHANNEL_ID [w_next w] w1) as Hf.
  { split; rewrite ?Hs, ?Hm, ?Hd1, ?Hl1; try done; [apply NoDup_singleton |].
    by intros k ->%list_elem_of_singleton. }
  destruct (schedule_one Hcalm CHANNEL_ID (w_next w) [] w1 ref c Hf) as (w2 & E2 & _ & Hm2 & Ht2 & Hreg & Hw2);
    [by rewrite Hm | done |].
  unfold main. rewrite (bind_ret_run _ _ _ _ _ Eb), (bind_ret_run _ _ _ _ _ E2).
  erewrite bind_ret_run by reflexivity.
  pose proof (target_chan w2 _ _ _ Hm2 Ht2) as Hc2.
  destruct (run_worker_completes Hcalm run_workflow res trace (w_next w) ref w1 (set_in_loop true w2)
    Htrace Honly Hres Hreg) as [w3 E3]; [| exact Hw2 |].
  - unfold queue_of, chan_of in *. cbn. rewrite Hc2. cbn. by rewrite Hq.
  - unfold m_finally. rewrite E3. by eexists.
Qed.
End Spec.
End SchedulerApp.

(** ** Witnesses *)
Module PipelineExamples.
Import WorkerRunExamples.
(** Two new jobs for channel ["ch"]; the second workflow of the second fails. *)
Definition w2jobs : World InMemoryJobStore.t demo_env :=
  let m :=
    let* a := Job_new (Some "demo") "ch" in
    let* _ := upd_job a (set_workflows [[demo_task "t1" "mail"; demo_task "t2" "build"]]) in
    let* b := Job_new (Some "demo") "ch" in
    upd_job b (set_workflows demo_workflows) in
  (m (init_world InMemoryJobStore.init)).2.
Lemma logged_run_traced : only_traced (logged_run (S := InMemoryJobStore.t) res) res d_log.
Proof.
  split.
  - intros wf e. unfold res. destruct wf as [|? [|]]; intros [= <-]. by split_and!.
  - intros wf w. eexists _, _. by split.
Qed.
Lemma fresh_w2jobs : fresh_jobs "ch" [0; 2] w2jobs.
Proof.
  split; try done.
  - apply manager_init_ok.
  - apply (bool_decide_unpack _). vm_compute. exact I.
  - intros j [-> | ->%list_elem_of_singleton]%elem_of_cons; split_and!; vm_compute; reflexivity.
Qed.

Lemma target_w2jobs : target (w_manager w2jobs) "ch" = (0, channel_new 0).
Proof. vm_compute. reflexivity. Qed.
Lemma room_2 : room (channel_new 0) 2.
Proof. split; [reflexivity | intros H; vm_compute in H; discriminate H]. Qed.
Lemma finals_w2jobs :
  final_status res (w_jobs w2jobs 0) = COMPLETED ∧ final_status res (w_jobs w2jobs 2) = FAILED
  ∧ length (d_log (w_env w2jobs) ++ concat (map (λ j, started res (w_jobs w2jobs j)) [0; 2])) = 3.
Proof. vm_compute. by split_and!. Qed.

Lemma scheduled_jobs_run_in_order_witness :
  let w3 := (run_forever 0 (logged_run res) 3 None
               (on_channel 0 request_stop (schedule_all [0; 2] w2jobs).2).2).2 in
  length (d_log (w_env w3)) = 3
  ∧ j_status (w_jobs w3 0) = "Completed" ∧ j_status (w_jobs w3 2) = "Failed".
Proof.
  pose proof (scheduled_jobs_run_in_order (logged_run res) res d_log "ch" [0; 2] 0 (channel_new 0) w2jobs
    calm_memory (λ _, eq_refl) logged_run_traced fresh_w2jobs target_w2jobs room_2 eq_refl) as H.
  destruct finals_w2jobs as (F0 & F2 & Fl).
  destruct (schedule_all [0; 2] w2jobs) as [o w1]. cbn [snd].
  destruct (on_channel 0 request_stop w1) as [o2 w2]. cbn [snd].
  change (Datatypes.S (length [0; 2])) with 3 in H.
  destruct (run_forever 0 (logged_run res) 3 None w2) as [x w3]. cbn [snd].
  destruct H as (_ & _ & _ & _ & Hf & Ht). split_and!.
  - rewrite Ht. exact Fl.
  - destruct (Hf 0 ltac:(by left)) as (_ & -> & _). by rewrite F0.
  - destruct (Hf 2 ltac:(by right; left)) as (_ & -> & _). by rewrite F2.
Defined.

(** The example program on an in-memory store. *)
Example example_app :
  (SchedulerApp.main (logged_run (λ _, None)) 5 [] (init_world InMemoryJobStore.init)).1
  = Ret (Processed (Some 0)).
Proof. vm_compute. reflexivity. Qed.
End PipelineExamples.
