(* ===== verification/DurableStore.v ===== *)
(** * DurableStore: the SQL and MongoDB job stores

    [src/pypepper/scheduler/store/sql.py] and [.../mongodb.py].  A database
    table is third-party state reached through the operations of [RowTable];
    [update_post], [insert_post] and [find_post] are the documented behaviour of
    those [put] and [get] use: each is atomic on the rows it finds, and before
    each of them other connections may have written ([others]).  MongoDB promises
    this in every state ([RowTableLaws]), SQL in a transaction that can still be
    used ([SqlLaws]). *)
From stdpp Require Import functions.
From S2P Require Import Prelude Dict Json PyValues Lifecycle SchedulerFsm JobStore.

Class RowTable (S Row : Type) : Type := {
  table : S → gmap string Row;
  (** The gated update of one row: the number of rows matched. *)
  update_row : string → (Row → bool) → (Row → Row) → M S Z;
  insert_row : string → Row → M S unit;
  find_row : string → M S (option Row);
  (** All rows that satisfy a condition: deleted, or read. *)
  delete_where : (Row → bool) → M S unit;
  select_where : (Row → bool) → M S (list Row);
}.

(** What a statement does; one that raises leaves the rows as the other
    connections left them. *)
Section Statements.
Context {S Row : Type} `{!RowTable S Row} (others : relation (gmap string Row)) (duplicate_key : exn → bool).
Definition update_post (id : string) (p : Row → bool) (f : Row → Row) (s : S) (res : outcome Z * S) : Prop :=
  match res with
  | (Ret n, s') => ∃ t, others (table s) t ∧
      match t !! id with
      | Some row =>
          if p row then n = 1%Z ∧ table s' = <[id := f row]> t else n = 0%Z ∧ table s' = t
      | None => n = 0%Z ∧ table s' = t
      end
  | (Raise e, s') => is_exception e = true ∧ others (table s) (table s')
  end.
Definition insert_post (id : string) (row : Row) (s : S) (res : outcome unit * S) : Prop :=
  match res with
  | (Ret _, s') => ∃ t, others (table s) t ∧ t !! id = None ∧ table s' = <[id := row]> t
  | (Raise e, s') => is_exception e = true ∧ others (table s) (table s')
      ∧ (duplicate_key e = true → is_Some (table s' !! id))
  end.
Definition find_post (id : string) (s : S) (res : outcome (option Row) * S) : Prop :=
  match res with
  | (Ret o, s') => others (table s) (table s') ∧ o = table s' !! id
  | (Raise e, s') => is_exception e = true ∧ others (table s) (table s')
  end.
Class RowTableLaws : Prop := {
  duplicate_exception : ∀ e, duplicate_key e = true → is_exception e = true;
  update_law : ∀ id p f s, update_post id p f s (update_row id p f s);
  insert_law : ∀ id row s, insert_post id row s (insert_row id row s);
  find_law : ∀ id s, find_post id s (find_row id s);
}.
End Statements.
Arguments RowTableLaws S Row {_} others duplicate_key.

(** ** SQL *)

(** A row of [scheduler_jobs]. *)
Record SqlRow : Type := mkSqlRow {
  c_id : string;
  c_category : option string;
  c_channel_id : string;
  c_status : string;
  c_created : string;
  c_updated : string;
  c_workflow_count : Z;
  c_version : Z;
  c_payload : option string;
}.

(** [_dumps_payload], [_loads_payload]. *)
Definition _dumps_payload (payload : option (dict json)) : option string :=
  match payload with None => None | Some p => Some (dump default_opts (JObj p)) end.
Definition _loads_payload (raw : option string) : outcome (option (dict json)) :=
  if negb (opt_str_truthy raw) then Ret None
  else match loads (default "" raw) with
       | Some (JObj l) => Ret (Some l)
       | Some _ => Ret None
       | None => Raise JSONDecodeError
       end.

(** [_row_to_record(row)]. *)
Definition _row_to_record (row : SqlRow) : outcome JobRecord :=
  match _loads_payload (c_payload row) with
  | Ret payload =>
      Ret (mkRecord (c_id row) (c_category row) (c_channel_id row) (c_status row) (c_created row)
        (c_updated row) (c_workflow_count row)
        (if int_truthy (c_version row) then c_version row else 1) payload)
  | Raise e => Raise e
  end.

(** [values] and [update_values] of [put]. *)
Definition insert_values (record : JobRecord) : SqlRow :=
  mkSqlRow (r_id record) (r_category record) (r_channel_id record) (r_status record)
    (r_created record) (r_updated record) (r_workflow_count record) (r_version record)
    (_dumps_payload (r_payload record)).
Definition update_values (record : JobRecord) (row : SqlRow) : SqlRow :=
  mkSqlRow (c_id row) (r_category record) (r_channel_id record) (r_status record)
    (c_created row) (r_updated record) (r_workflow_count record) (r_version record + 1)
    (_dumps_payload (r_payload record)).
(** [may_replace]: the gate of the update. *)
Definition may_replace (record : JobRecord) (row : SqlRow) : bool :=
  bool_decide (c_status row ∈ existing_statuses_put_may_replace (r_status record))
  && (c_version row =? r_version record)%Z.

(** Transactions: [engine.begin()] commits when its body returns and rolls back
    when it raises; [conn.begin_nested()] is a savepoint.  After a statement has
    failed a transaction need not be [usable] any more (PostgreSQL refuses every
    further statement) until it is rolled back, to its start or to a savepoint. *)
Class SqlTransactions (S : Type) : Type := {
  usable : S → bool;
  begin : ∀ {A}, M S A → M S A;
  begin_nested : ∀ {A}, M S A → M S A;
}.
Class SqlLaws (S : Type) `{!RowTable S SqlRow, !SqlTransactions S}
    (others : relation (gmap string SqlRow)) (integrity_error : exn → bool) : Prop := {
  integrity_exception : ∀ e, integrity_error e = true → is_exception e = true;
  (** Statements, in a usable transaction, which stays so unless they raise. *)
  sql_update_law : ∀ id p f s, usable s = true →
    update_post others id p f s (update_row id p f s)
    ∧ ∀ n s', update_row id p f s = (Ret n, s') → usable s' = true;
  sql_insert_law : ∀ id row s, usable s = true →
    insert_post others integrity_error id row s (insert_row id row s)
    ∧ ∀ u s', insert_row id row s = (Ret u, s') → usable s' = true;
  (** The body runs in a transaction of its own.  What it wrote is there when
      [begin] returns, and is not when its body raised; the outcome of a commit
      that raises is unknown. *)
  begin_law : ∀ {A} (m : M S A) s, ∃ s0, usable s0 = true ∧ others (table s) (table s0)
    ∧ (begin m s = m s0 ∧ (∃ a, (m s0).1 = Ret a)
       ∨ ∃ e s', begin m s = (Raise e, s') ∧ ((m s0).1 = Raise e ∨ is_exception e = true)
           ∧ (others (table s) (table s') ∨ ∃ a, (m s0).1 = Ret a ∧ table s' = table (m s0).2));
  (** A savepoint is released when its body returns.  When the body raises, all
      it wrote is undone and the transaction can be used again.  Setting,
      releasing or rolling back a savepoint may itself fail. *)
  nested_law : ∀ {A} (m : M S A) s, usable s = true →
    (∃ a s', m s = (Ret a, s') ∧ begin_nested m s = (Ret a, s'))
    ∨ (∃ e s', (m s).1 = Raise e ∧ begin_nested m s = (Raise e, s') ∧ usable s' = true
               ∧ others (table s) (table s'))
    ∨ ∃ e, (begin_nested m s).1 = Raise e ∧ is_exception e = true ∧ integrity_error e = false;
  (** A refused INSERT wrote nothing: what the other connections committed until
      then is still there. *)
  nested_insert_law : ∀ id row s e s1, usable s = true → integrity_error e = true →
    insert_row id row s = (Raise e, s1) → others (table s1) (table (begin_nested (insert_row id row) s).2);
}.
(** A connection on which nothing fails but inserts of an id that is there. *)
Definition reliable {S} `{!RowTable S SqlRow, !SqlTransactions S} (integrity_error : exn → bool) : Prop :=
  (∀ id p f (s : S), usable s = true → ∃ n s', update_row id p f s = (Ret n, s'))
  ∧ (∀ id row (s : S) e s', usable s = true → insert_row id row s = (Raise e, s') → integrity_error e = true)
  ∧ (∀ id row (s : S) e, usable s = true → (begin_nested (insert_row id row) s).1 = Raise e →
       (insert_row id row s).1 = Raise e)
  ∧ (∀ (m : M S bool) s, (∀ s0, usable s0 = true → ∃ b, (m s0).1 = Ret b) → ∃ b, (begin m s).1 = Ret b).

Module SqlJobStore.
Section SqlJobStore.
Context {S : Type} `{!RowTable S SqlRow, !SqlTransactions S} (integrity_error : exn → bool).

(** [_update_if_allowed(conn, record_id, update_values, may_replace)]. *)
Definition _update_if_allowed (record : JobRecord) : M S bool :=
  let* rowcount := update_row (r_id record) (may_replace record) (update_values record) in
  m_ret (0 <? rowcount)%Z.

(** [SqlJobStore.put(record)]. *)
Definition put (record : JobRecord) : M S bool :=
  begin
    (let* updated := _update_if_allowed record in
     if (updated : bool) then m_ret true
     else
       m_except integrity_error
         (let* _ := begin_nested (insert_row (r_id record) (insert_values record)) in m_ret true)
         (λ _, _update_if_allowed record)).

(** [SqlJobStore.get(job_id)]. *)
Definition get (job_id : string) : M S (option JobRecord) :=
  let* row := find_row job_id in
  match row with
  | None => m_ret None
  | Some row => let* r := m_of_outcome (_row_to_record row) in m_ret (Some r)
  end.

(** [SqlJobStore.delete(job_id)], [.list(channel_id)], [.clear()]. *)
Definition delete (job_id : string) : M S unit :=
  begin (delete_where (λ row, String.eqb (c_id row) job_id)).
Fixpoint rows_to_records (rows : list SqlRow) : outcome (list JobRecord) :=
  match rows with
  | [] => Ret []
  | row :: rest =>
      match _row_to_record row, rows_to_records rest with
      | Ret r, Ret rs => Ret (r :: rs)
      | Raise e, _ => Raise e
      | _, Raise e => Raise e
      end
  end.
Definition list_ (channel_id : option string) : M S (list JobRecord) :=
  let* rows := select_where (λ row,
      match channel_id with None => true | Some c => String.eqb (c_channel_id row) c end) in
  m_of_outcome (rows_to_records rows).
Definition clear : M S unit := begin (delete_where (λ _, true)).
End SqlJobStore.
End SqlJobStore.

(** ** MongoDB *)

(** A document of the collection. *)
Record MongoDoc : Type := mkMongoDoc {
  d_id : string;
  d_category : option string;
  d_channel_id : string;
  d_status : string;
  d_created : string;
  d_updated : string;
  d_workflow_count : Z;
  d_version : Z;
  d_payload : option (dict json);
}.

(** [_doc_to_record(doc)]. *)
Definition _doc_to_record (doc : MongoDoc) : JobRecord :=
  mkRecord (d_id doc) (d_category doc) (d_channel_id doc) (d_status doc) (d_created doc)
    (d_updated doc) (d_workflow_count doc)
    (if int_truthy (d_version doc) then d_version doc else 1)
    (match d_payload doc with None | Some [] => None | Some p => Some p end).

(** [doc], [set_fields] and [filt] of [put]. *)
Definition new_doc (record : JobRecord) : MongoDoc :=
  mkMongoDoc (r_id record) (r_category record) (r_channel_id record) (r_status record)
    (r_created record) (r_updated record) (r_workflow_count record) (r_version record)
    (r_payload record).
Definition set_fields (record : JobRecord) (doc : MongoDoc) : MongoDoc :=
  mkMongoDoc (d_id doc) (r_category record) (r_channel_id record) (r_status record)
    (d_created doc) (r_updated record) (r_workflow_count record) (r_version record + 1)
    (r_payload record).
Definition filt (record : JobRecord) (doc : MongoDoc) : bool :=
  bool_decide (d_status doc ∈ existing_statuses_put_may_replace (r_status record))
  && (d_version doc =? r_version record)%Z.

Module MongoJobStore.
Section MongoJobStore.
Context {S : Type} `{!RowTable S MongoDoc} (duplicate_key : exn → bool).

Definition missing_msg (record : JobRecord) : string :=
  "MongoJobStore.put: document missing after DuplicateKeyError (id=" +:+ r_id record +:+ ")".

(** [MongoJobStore.put(record)]. *)
Definition put (record : JobRecord) : M S bool :=
  let* matched_count := update_row (r_id record) (filt record) (set_fields record) in
  if int_truthy matched_count then m_ret true
  else
    m_except duplicate_key
      (let* _ := insert_row (r_id record) (new_doc record) in m_ret true)
      (λ _,
         let* retry := update_row (r_id record) (filt record) (set_fields record) in
         if int_truthy retry then m_ret true
         else
           let* existing := find_row (r_id record) in
           match existing with
           | None => m_raise (RuntimeError (missing_msg record))
           | Some _ => m_ret false
           end).

(** [MongoJobStore.get(job_id)]. *)
Definition get (job_id : string) : M S (option JobRecord) :=
  let* doc := find_row job_id in m_ret (_doc_to_record <$> doc).

(** [MongoJobStore.delete(job_id)], [.list(channel_id)], [.clear()]. *)
Definition delete (job_id : string) : M S unit :=
  delete_where (λ doc, String.eqb (d_id doc) job_id).
Definition list_ (channel_id : option string) : M S (list JobRecord) :=
  let* docs := select_where (λ doc,
      match channel_id with None => true | Some c => String.eqb (d_channel_id doc) c end) in
  m_ret (map _doc_to_record docs).
Definition clear : M S unit := delete_where (λ _, true).
End MongoJobStore.
End MongoJobStore.

(** ** Linearization *)
Section Linear.
Context {S Row : Type} `{!RowTable S Row} (others : relation (gmap string Row))
  (duplicate_key : exn → bool) `{!PreOrder others}.
(** A row read as a record, and what the store keeps of the rows under an id. *)
Context (rec : Row → JobRecord) (good : string → Row → Prop).
Definition recs (t : gmap string Row) : Rows := rec <$> t.
Definition table_ok (t : gmap string Row) : Prop := ∀ id row, t !! id = Some row → good id row.

(** Other connections delete no row and follow the same contract. *)
Context (others_forward : ∀ t t', others t t' → table_ok t →
  table_ok t' ∧ rows_le (recs t) (recs t')).

(** The statements of one [put]. *)
Context (r : JobRecord) (p : Row → bool) (f : Row → Row) (new : Row).
Context (gate : ∀ row, good (r_id r) row →
  p row = put_applies (Some (r_status (rec row))) (r_status r)
          && (r_version (rec row) =? r_version r)%Z).
Context (upd : ∀ row, good (r_id r) row → good (r_id r) (f row)
  ∧ rec (f row) = replace_row r (r_created (rec row)) (r_version r + 1)).
Context (ins : good (r_id r) new ∧ rec new = r).

(** The outcome and the rows of a [put] that took effect, or was refused, on the
    rows [t] that other connections, or none, left. *)
Definition linearized (t0 : gmap string Row) (o : outcome bool) (t' : gmap string Row) : Prop :=
  table_ok t' ∧
  match o with
  | Ret b => ∃ t, others t0 t ∧ b = (put_spec r (recs t)).1
      ∧ if b then recs t' = (put_spec r (recs t)).2 else others t t'
  | Raise e => is_exception e = true ∧ (others t0 t'
      ∨ ∃ t, others t0 t ∧ may_write r (recs t) = true ∧ recs t' = write_row r (recs t))
  end.

Lemma recs_lookup t id : recs t !! id = rec <$> t !! id.
Proof. apply lookup_fmap. Qed.

Lemma may_write_row t row :
  t !! r_id r = Some row → good (r_id r) row → may_write r (recs t) = p row.
Proof.
  intros Hl Hg. rewrite gate by done. unfold may_write, put_may_write.
  rewrite recs_lookup, Hl. cbn [fmap option_fmap option_map].
  destruct (put_applies _ _); [| done]. cbn [negb andb].
  destruct (Z.eqb_spec (r_version (rec row)) (r_version r)) as [->|Hne].
  - by apply bool_decide_eq_true.
  - apply bool_decide_eq_false. congruence.
Qed.

Lemma update_step s o s' :
  table_ok (table s) → update_post others (r_id r) p f s (o, s') →
  table_ok (table s') ∧
  match o with
  | Ret n => ∃ t, others (table s) t ∧
      (n = 1%Z ∧ may_write r (recs t) = true ∧ recs (table s') = write_row r (recs t)
       ∨ n = 0%Z ∧ table s' = t ∧ (t !! r_id r = None ∨ may_write r (recs t) = false))
  | Raise e => is_exception e = true ∧ others (table s) (table s')
  end.
Proof.
  intros Hok H. unfold update_post in H. destruct o as [n|e].
  - destruct H as (t & Ho & H). destruct (others_forward _ _ Ho Hok) as [Hokt _].
    destruct (t !! r_id r) as [row|] eqn:Hl.
    + pose proof (Hokt _ _ Hl) as Hg. pose proof (may_write_row t row Hl Hg) as Hmw.
      destruct (upd row Hg) as [Hgf Hf].
      destruct (p row) eqn:Hp; destruct H as [-> Ht].
      * split.
        { rewrite Ht. intros id row' H. apply lookup_insert_Some in H as [[<- <-]|[_ H]]; [done |].
          by apply Hokt. }
        exists t. split; [done |]. left. split_and!; [done | done |].
        rewrite Ht. unfold recs. rewrite fmap_insert, Hf. unfold write_row.
        fold (recs t). rewrite recs_lookup, Hl. cbn. do 2 f_equal.
        apply (may_write_Some r (recs t) (rec row)) in Hmw as [_ ->]; [done |].
        by rewrite recs_lookup, Hl.
      * split; [by rewrite Ht |]. exists t. split; [done |]. right. auto.
    + destruct H as [-> Ht]. split; [by rewrite Ht |]. exists t. split; [done |]. right. auto.
  - destruct H as [He Ho]. split; [by apply (others_forward _ _ Ho) | done].
Qed.

Lemma insert_step s o s' :
  table_ok (table s) → insert_post others duplicate_key (r_id r) new s (o, s') →
  table_ok (table s') ∧
  match o with
  | Ret _ => ∃ t, others (table s) t ∧ may_write r (recs t) = true
      ∧ recs (table s') = write_row r (recs t)
  | Raise e => is_exception e = true ∧ others (table s) (table s')
      ∧ (duplicate_key e = true → is_Some (table s' !! r_id r))
  end.
Proof.
  intros Hok H. unfold insert_post in H. destruct o as [u|e].
  - destruct H as (t & Ho & Hn & Ht). destruct (others_forward _ _ Ho Hok) as [Hokt _].
    assert (recs t !! r_id r = None) as Hrn by (by rewrite recs_lookup, Hn).
    destruct ins as [Hg Hrec]. split.
    + rewrite Ht. intros id row' H. apply lookup_insert_Some in H as [[<- <-]|[_ H]]; [done |].
      by apply Hokt.
    + exists t. split; [done |]. unfold may_write, write_row. rewrite Hrn.
      rewrite Ht. unfold recs. by rewrite fmap_insert, Hrec.
  - destruct H as (He & Ho & Hd). split; [by apply (others_forward _ _ Ho) | done].
Qed.

(** A row that is there stays, so that a refused retry is a refusal. *)
Lemma others_keep t t' id : table_ok t → others t t' → is_Some (t !! id) → is_Some (t' !! id).
Proof.
  intros Hok Ho [row Hrow]. destruct (others_forward _ _ Ho Hok) as [_ Hle].
  destruct (Hle id (rec row)) as (b & Hb & _); [by rewrite recs_lookup, Hrow |].
  rewrite recs_lookup in Hb. destruct (t' !! id); [by eexists | done].
Qed.

Lemma linearized_weaken t0 t1 o t' :
  others t0 t1 → linearized t1 o t' → linearized t0 o t'.
Proof.
  intros Ho [Hok H]. split; [done |]. destruct o as [b|e].
  - destruct H as (t & Ht & H). exists t. split; [by etransitivity | done].
  - destruct H as [He [H|(t & Ht & H)]]; (split; [done |]); [left; by etransitivity |].
    right. exists t. split; [by etransitivity | done].
Qed.

Lemma linearized_raise t0 e t' :
  table_ok t' → is_exception e = true → others t0 t' → linearized t0 (Raise e) t'.
Proof. intros Hok He Ho. split; [done |]. by split; [| left]. Qed.
Lemma linearized_write t0 t t' :
  table_ok t' → others t0 t → may_write r (recs t) = true → recs t' = write_row r (recs t) →
  linearized t0 (Ret true) t'.
Proof.
  intros Hok Ho Hmw Hw. split; [done |]. exists t. split; [done |]. unfold put_spec.
  by rewrite Hmw.
Qed.
Lemma linearized_refuse t0 t t' :
  table_ok t' → others t0 t → others t t' → may_write r (recs t) = false →
  linearized t0 (Ret false) t'.
Proof.
  intros Hok Ho Ho' Hmw. split; [done |]. exists t. split; [done |]. unfold put_spec. by rewrite Hmw.
Qed.
End Linear.

(** ** The records a job builds *)
Definition record_ok (r : JobRecord) : Prop :=
  (1 ≤ r_version r)%Z ∧ match r_payload r with Some p => dicts_ok (JObj p) ∧ p ≠ [] | None => True end.

Section SqlFacts.
Definition blank_record (row : SqlRow) : JobRecord :=
  mkRecord (c_id row) None "" "" "" "" 0 0 None.
Definition sql_rec (row : SqlRow) : JobRecord :=
  match _row_to_record row with Ret r => r | Raise _ => blank_record row end.
Definition sql_good (id : string) (row : SqlRow) : Prop :=
  c_id row = id ∧ (1 ≤ c_version row)%Z ∧ ∃ p, _loads_payload (c_payload row) = Ret p.

Lemma payload_text p :
  match p with Some p => dicts_ok (JObj p) | None => True end →
  _loads_payload (_dumps_payload p) = Ret p.
Proof.
  destruct p as [p|]; intros Hp; [| done]. unfold _loads_payload, _dumps_payload.
  destruct (opt_str_truthy (Some (dump default_opts (JObj p)))) eqn:Ht; cbn [negb].
  - cbn [default from_option]. unfold id.
    by rewrite (loads_dump default_opts (JObj p) default_opts_ok Hp).
  - exfalso. cbn [opt_str_truthy] in Ht. apply str_truthy_false in Ht.
    pose proof (loads_dump default_opts (JObj p) default_opts_ok Hp) as H. rewrite Ht in H.
    vm_compute in H. discriminate.
Qed.

Lemma sql_row_record row id :
  sql_good id row →
  ∃ p, _loads_payload (c_payload row) = Ret p ∧ _row_to_record row = Ret (sql_rec row)
    ∧ sql_rec row = mkRecord (c_id row) (c_category row) (c_channel_id row) (c_status row)
        (c_created row) (c_updated row) (c_workflow_count row) (c_version row) p.
Proof.
  intros (_ & Hv & p & Hp). exists p. split; [done |]. unfold sql_rec, _row_to_record. rewrite Hp.
  assert (int_truthy (c_version row) = true) as ->
    by (unfold int_truthy; destruct (Z.eqb_spec (c_version row) 0); [lia | done]).
  done.
Qed.

Lemma sql_gate r row :
  sql_good (r_id r) row →
  may_replace r row = put_applies (Some (r_status (sql_rec row))) (r_status r)
                      && (r_version (sql_rec row) =? r_version r)%Z.
Proof. intros Hg. destruct (sql_row_record row _ Hg) as (p & _ & _ & ->). done. Qed.

Lemma sql_upd r row :
  record_ok r → sql_good (r_id r) row →
  sql_good (r_id r) (update_values r row)
  ∧ sql_rec (update_values r row) = replace_row r (r_created (sql_rec row)) (r_version r + 1).
Proof.
  intros [Hv Hp] Hg. destruct (sql_row_record row _ Hg) as (p & _ & _ & ->).
  assert (_loads_payload (_dumps_payload (r_payload r)) = Ret (r_payload r)) as Ht.
  { apply payload_text. destruct (r_payload r); [apply Hp | done]. }
  assert (sql_good (r_id r) (update_values r row)) as Hg'.
  { split_and!; [apply Hg | cbn; lia | by eexists]. }
  split; [done |]. destruct (sql_row_record _ _ Hg') as (p' & Hp' & _ & ->).
  cbn in *. rewrite Ht in Hp'. injection Hp' as <-. destruct Hg as (-> & _ & _). done.
Qed.

Lemma sql_ins r : record_ok r → sql_good (r_id r) (insert_values r) ∧ sql_rec (insert_values r) = r.
Proof.
  intros [Hv Hp].
  assert (_loads_payload (_dumps_payload (r_payload r)) = Ret (r_payload r)) as Ht.
  { apply payload_text. destruct (r_payload r); [apply Hp | done]. }
  assert (sql_good (r_id r) (insert_values r)) as Hg by (split_and!; [done | done | by eexists]).
  split; [done |]. destruct (sql_row_record _ _ Hg) as (p' & Hp' & _ & ->).
  cbn in *. rewrite Ht in Hp'. injection Hp' as <-. by destruct r.
Qed.

Context {S : Type} `{!RowTable S SqlRow, !SqlTransactions S} (integrity_error : exn → bool)
  (others : relation (gmap string SqlRow)) `{!SqlLaws S others integrity_error, !PreOrder others}.
Context (others_forward : ∀ t t', others t t' → table_ok sql_good t →
  table_ok sql_good t' ∧ rows_le (recs sql_rec t) (recs sql_rec t')).

(** The body of the transaction. *)
Definition sql_body (r : JobRecord) : M S bool :=
  let* updated := SqlJobStore._update_if_allowed r in
  if (updated : bool) then m_ret true
  else m_except integrity_error
         (let* _ := begin_nested (insert_row (r_id r) (insert_values r)) in m_ret true)
         (λ _, SqlJobStore._update_if_allowed r).

Lemma sql_update_linear r s :
  record_ok r → usable s = true → table_ok sql_good (table s) →
  let '(o, s') := SqlJobStore._update_if_allowed r s in
  table_ok sql_good (table s') ∧
  match o with
  | Ret true => ∃ t, others (table s) t ∧ may_write r (recs sql_rec t) = true
      ∧ recs sql_rec (table s') = write_row r (recs sql_rec t)
  | Ret false => usable s' = true ∧ others (table s) (table s')
      ∧ (table s' !! r_id r = None ∨ may_write r (recs sql_rec (table s')) = false)
  | Raise e => is_exception e = true
  end.
Proof.
  intros Hr Hu Hok. unfold SqlJobStore._update_if_allowed. rewrite bind_eq.
  destruct (sql_update_law (r_id r) (may_replace r) (update_values r) s Hu) as [Hpost Hu'].
  destruct (update_row (r_id r) (may_replace r) (update_values r) s) as [o s1].
  pose proof (update_step others sql_rec sql_good others_forward r (may_replace r)
    (update_values r) (sql_gate r) (λ row, sql_upd r row Hr) s o s1 Hok Hpost) as [Hok1 H].
  destruct o as [n|e]; [| by destruct H]. cbn. split; [done |].
  destruct H as (t & Ho & [(-> & Hmw & Hw)|(-> & Ht & H)]); cbn.
  - by exists t.
  - split; [by eapply Hu' |]. rewrite Ht. by split.
Qed.

(** The first insert under a savepoint. *)
Lemma sql_insert_linear r s :
  record_ok r → usable s = true → table_ok sql_good (table s) →
  let '(o, s') := begin_nested (insert_row (r_id r) (insert_values r)) s in
  match o with
  | Ret _ => table_ok sql_good (table s') ∧ ∃ t, others (table s) t ∧ may_write r (recs sql_rec t) = true
      ∧ recs sql_rec (table s') = write_row r (recs sql_rec t)
  | Raise e => is_exception e = true
      ∧ (integrity_error e = true → table_ok sql_good (table s') ∧ usable s' = true
           ∧ others (table s) (table s') ∧ is_Some (table s' !! r_id r))
  end.
Proof.
  intros Hr Hu Hok. destruct (sql_insert_law (r_id r) (insert_values r) s Hu) as [Hpost _].
  pose proof (nested_insert_law (r_id r) (insert_values r) s) as Hni.
  destruct (nested_law (insert_row (r_id r) (insert_values r)) s Hu)
    as [([] & s' & E & ->)|[(e & s' & E & En & Hu' & Ho)|(e & En & He & Hi)]].
  - rewrite E in Hpost. by destruct (insert_step others integrity_error sql_rec sql_good others_forward r
      (insert_values r) (sql_ins r Hr) s _ s' Hok Hpost) as [Hok' H].
  - destruct (insert_row (r_id r) (insert_values r) s) as [o1 s1] eqn:E1. cbn in E. subst o1.
    rewrite En in Hni |- *. cbn [snd] in Hni.
    destruct (insert_step others integrity_error sql_rec sql_good others_forward r
      (insert_values r) (sql_ins r Hr) s _ s1 Hok Hpost) as [Hok1 (He & _ & Hdup)].
    split; [done |]. intros Hi. specialize (Hni e s1 Hu Hi eq_refl).
    split; [by apply (others_forward _ _ Hni) |]. split_and!; [done | done |].
    by apply (others_keep others sql_rec sql_good others_forward _ _ (r_id r) Hok1 Hni), Hdup.
  - destruct (begin_nested _ s) as [o s']. cbn in En. subst o. split; [done | congruence].
Qed.

Lemma sql_body_linear r s :
  record_ok r → usable s = true → table_ok sql_good (table s) →
  let '(o, s') := sql_body r s in
  match o with
  | Ret b => linearized others sql_rec sql_good r (table s) (Ret b) (table s')
             ∧ (b = false → others (table s) (table s'))
  | Raise e => is_exception e = true
  end.
Proof.
  intros Hr Hu Hok. unfold sql_body. rewrite bind_eq. pose proof (sql_update_linear r s Hr Hu Hok) as H1.
  destruct (SqlJobStore._update_if_allowed r s) as [[[]|e] s1]; destruct H1 as [Hok1 H1]; [| | done].
  { destruct H1 as (t & Ho & Hmw & Hw). split; [by eapply linearized_write | done]. }
  destruct H1 as (Hu1 & Ho1 & Hno). unfold m_except. rewrite bind_eq.
  pose proof (sql_insert_linear r s1 Hr Hu1 Hok1) as H2.
  destruct (begin_nested _ s1) as [[[]|e] s2].
  { destruct H2 as (Hok2 & t & Ho & Hmw & Hw). split; [| done].
    eapply linearized_weaken; [done | exact Ho1 |]. by eapply linearized_write. }
  destruct H2 as [He H2]. destruct (integrity_error e); [| done].
  destruct (H2 eq_refl) as (Hok2 & Hu2 & Ho2 & Hrow). pose proof (sql_update_linear r s2 Hr Hu2 Hok2) as H3.
  assert (others (table s) (table s2)) as Ho02 by (by etransitivity).
  destruct (SqlJobStore._update_if_allowed r s2) as [[[]|e3] s3]; destruct H3 as [Hok3 H3]; [| | done].
  { destruct H3 as (t & Ho & Hmw & Hw). split; [| done].
    eapply linearized_weaken; [done | exact Ho02 |]. by eapply linearized_write. }
  destruct H3 as (_ & Ho3 & Hno3). assert (others (table s) (table s3)) as Ho03 by (by etransitivity).
  split; [| done]. apply linearized_refuse with (table s3); [done | done | done |].
  destruct Hno3 as [Hnone|]; [| done].
  destruct (others_keep others sql_rec sql_good others_forward (table s2) (table s3) (r_id r)
    Hok2 Ho3 Hrow) as [row Hrow3]. congruence.
Qed.

Lemma sql_put_linear r s :
  record_ok r → table_ok sql_good (table s) →
  let '(o, s') := SqlJobStore.put integrity_error r s in
  linearized others sql_rec sql_good r (table s) o (table s').
Proof.
  intros Hr Hok. unfold SqlJobStore.put. fold (sql_body r).
  destruct (begin_law (sql_body r) s) as (s0 & Hu & Ho0 & Hb).
  pose proof (sql_body_linear r s0 Hr Hu ltac:(by apply (others_forward _ _ Ho0))) as H.
  destruct (sql_body r s0) as [o s1] eqn:Eb.
  destruct Hb as [[-> [a Ha]]|(e & s2 & -> & He & Hs2)]; cbn [fst snd] in *.
  - subst o. destruct H as [Hlin _]. by eapply linearized_weaken.
  - assert (is_exception e = true) as Hexn by (destruct He as [->|He]; [exact H | done]).
    destruct Hs2 as [Ho|(a & -> & Ht)].
    + apply linearized_raise; [by apply (others_forward _ _ Ho) | done | done].
    + destruct H as [[Hok1 (t & Ho & Ha & Hps)] Hrefused]. rewrite Ht. split; [done |]. split; [done |].
      unfold put_spec in Ha, Hps. destruct (may_write r (recs sql_rec t)) eqn:Hmw; cbn in Ha; subst a.
      * right. exists t. split_and!; [by etransitivity | done | done].
      * left. etransitivity; [exact Ho0 | by apply Hrefused].
Qed.

(** On a reliable connection a put that loses the race for the first insert
    answers too. *)
Lemma sql_put_answers r s : reliable (S := S) integrity_error →
  ∃ b, (SqlJobStore.put integrity_error r s).1 = Ret b.
Proof using SqlLaws0.
  intros (Hupd & Hins & Hnest & Hbegin). apply Hbegin. intros s0 Hu. fold (sql_body r).
  assert (∀ s, usable s = true → ∃ b s', SqlJobStore._update_if_allowed r s = (Ret b, s') ∧ usable s' = true) as Hupd'.
  { intros s1 Hu1. unfold SqlJobStore._update_if_allowed. rewrite bind_eq.
    destruct (Hupd (r_id r) (may_replace r) (update_values r) s1 Hu1) as (n & s2 & E). rewrite E.
    eexists _, s2. split; [done |]. by eapply (sql_update_law (r_id r) _ _ s1). }
  unfold sql_body. rewrite bind_eq. destruct (Hupd' s0 Hu) as ([] & s1 & -> & Hu1); [by eexists |].
  unfold m_except. rewrite bind_eq.
  pose proof (Hnest (r_id r) (insert_values r) s1) as Hn.
  destruct (nested_law (insert_row (r_id r) (insert_values r)) s1 Hu1)
    as [([] & s2 & _ & ->)|[(e & s2 & E & -> & Hu2 & _)|(e & En & _ & Hi)]]; [by eexists | |].
  - destruct (insert_row (r_id r) (insert_values r) s1) as [o s3] eqn:E3. cbn in E. subst o.
    rewrite (Hins _ _ _ _ _ Hu1 E3). destruct (Hupd' s2 Hu2) as (b & s4 & -> & _). by exists b.
  - exfalso. specialize (Hn e Hu1 En).
    destruct (insert_row (r_id r) (insert_values r) s1) as [o s3] eqn:E3. cbn in Hn. subst o.
    rewrite (Hins _ _ _ _ _ Hu1 E3) in Hi. done.
Qed.
End SqlFacts.

(** The same for MongoDB. *)
Section MongoFacts.
Definition mongo_good (id : string) (doc : MongoDoc) : Prop :=
  d_id doc = id ∧ (1 ≤ d_version doc)%Z.

Lemma mongo_rec_good id doc :
  mongo_good id doc → r_status (_doc_to_record doc) = d_status doc
  ∧ r_version (_doc_to_record doc) = d_version doc ∧ r_created (_doc_to_record doc) = d_created doc.
Proof.
  intros [_ Hv]. split_and!; try done. cbn. unfold int_truthy.
  by destruct (Z.eqb_spec (d_version doc) 0); [lia |].
Qed.

Lemma mongo_gate r doc :
  mongo_good (r_id r) doc →
  filt r doc = put_applies (Some (r_status (_doc_to_record doc))) (r_status r)
               && (r_version (_doc_to_record doc) =? r_version r)%Z.
Proof. intros Hg. by destruct (mongo_rec_good _ _ Hg) as (-> & -> & _). Qed.

Lemma mongo_payload r : record_ok r →
  match r_payload r with None | Some [] => None | Some p => Some p end = r_payload r.
Proof. intros [_ Hp]. destruct (r_payload r) as [[]|]; [by destruct Hp | done | done]. Qed.

Lemma mongo_upd r doc :
  record_ok r → mongo_good (r_id r) doc →
  mongo_good (r_id r) (set_fields r doc)
  ∧ _doc_to_record (set_fields r doc) = replace_row r (r_created (_doc_to_record doc)) (r_version r + 1).
Proof.
  intros Hr [Hid Hv]. pose proof (proj1 Hr) as Hrv. split.
  - split; [done | cbn; lia].
  - unfold _doc_to_record, replace_row. cbn. rewrite (mongo_payload r Hr), Hid. unfold int_truthy.
    by destruct (Z.eqb_spec (r_version r + 1) 0); [lia |].
Qed.

Lemma mongo_ins r : record_ok r → mongo_good (r_id r) (new_doc r) ∧ _doc_to_record (new_doc r) = r.
Proof.
  intros Hr. pose proof (proj1 Hr) as Hrv. split; [done |].
  unfold _doc_to_record. cbn. rewrite (mongo_payload r Hr). unfold int_truthy.
  destruct (Z.eqb_spec (r_version r) 0); [lia |]. by destruct r.
Qed.

Context {S : Type} `{!RowTable S MongoDoc} (duplicate_key : exn → bool)
  (others : relation (gmap string MongoDoc)) `{!RowTableLaws S MongoDoc others duplicate_key,
  !PreOrder others}.
Context (others_forward : ∀ t t', others t t' → table_ok mongo_good t →
  table_ok mongo_good t' ∧ rows_le (recs _doc_to_record t) (recs _doc_to_record t')).

Lemma mongo_update r s o s1 :
  record_ok r → table_ok mongo_good (table s) →
  update_row (r_id r) (filt r) (set_fields r) s = (o, s1) →
  table_ok mongo_good (table s1) ∧
  match o with
  | Ret n =>
      if int_truthy n then linearized others _doc_to_record mongo_good r (table s) (Ret true) (table s1)
      else others (table s) (table s1)
           ∧ (table s1 !! r_id r = None ∨ may_write r (recs _doc_to_record (table s1)) = false)
  | Raise e => is_exception e = true ∧ others (table s) (table s1)
  end.
Proof.
  intros Hr Hok E. pose proof (update_law others duplicate_key (r_id r) (filt r) (set_fields r) s) as Hpost.
  rewrite E in Hpost.
  pose proof (update_step others _doc_to_record mongo_good others_forward r (filt r)
    (set_fields r) (mongo_gate r) (λ doc, mongo_upd r doc Hr) s o s1 Hok Hpost) as [Hok1 H].
  split; [done |]. destruct o as [n|e]; [| done].
  destruct H as (t & Ho & [(-> & Hmw & Hw)|(-> & Ht & H)]); cbn.
  - by eapply linearized_write.
  - rewrite Ht. by split.
Qed.

Lemma mongo_put_linear r s :
  record_ok r → table_ok mongo_good (table s) →
  let '(o, s') := MongoJobStore.put duplicate_key r s in
  linearized others _doc_to_record mongo_good r (table s) o (table s').
Proof.
  intros Hr Hok. unfold MongoJobStore.put. rewrite bind_eq.
  destruct (update_row _ _ _ s) as [o1 s1] eqn:E1.
  destruct (mongo_update r s o1 s1 Hr Hok E1) as [Hok1 H1].
  destruct o1 as [n1|e1]; [| destruct H1; by apply linearized_raise].
  destruct (int_truthy n1); [done |]. destruct H1 as [Ho1 _].
  unfold m_except. rewrite bind_eq. pose proof (insert_law others duplicate_key (r_id r) (new_doc r) s1) as Hins.
  destruct (insert_row _ _ s1) as [o2 s2].
  pose proof (insert_step others duplicate_key _doc_to_record mongo_good others_forward r
    (new_doc r) (mongo_ins r Hr) s1 o2 s2 Hok1 Hins) as [Hok2 H2].
  destruct o2 as [[]|e2].
  { destruct H2 as (t & Ho & Hmw & Hw). cbn.
    eapply linearized_weaken; [done | exact Ho1 |]. by eapply linearized_write. }
  destruct H2 as (He2 & Ho2 & Hdup). assert (others (table s) (table s2)) as Ho2' by (by etransitivity).
  destruct (duplicate_key e2); [| by apply linearized_raise]. rewrite bind_eq.
  destruct (update_row _ _ _ s2) as [o3 s3] eqn:E3.
  destruct (mongo_update r s2 o3 s3 Hr Hok2 E3) as [Hok3 H3].
  destruct o3 as [n3|e3].
  2:{ destruct H3. apply linearized_raise; [done | done | by etransitivity]. }
  destruct (int_truthy n3); [by eapply linearized_weaken |].
  destruct H3 as [Ho3 Hno3]. rewrite bind_eq.
  pose proof (find_law others duplicate_key (r_id r) s3) as H4.
  destruct (find_row (r_id r) s3) as [[d|e4] s4].
  - destruct H4 as [Ho4 ->].
    destruct (others_keep others _doc_to_record mongo_good others_forward _ _ (r_id r)
      Hok2 Ho3 (Hdup eq_refl)) as [doc3 Hdoc3].
    destruct (others_keep others _doc_to_record mongo_good others_forward _ _ (r_id r)
      Hok3 Ho4) as [doc4 Hdoc4]; [by eexists |].
    rewrite Hdoc4. cbn. split; [by apply (others_forward _ _ Ho4) |].
    destruct Hno3 as [Hnone|Hmw]; [congruence |].
    exists (table s3). split; [by etransitivity |]. unfold put_spec. by rewrite Hmw.
  - destruct H4 as [He4 Ho4].
    apply linearized_raise; [by apply (others_forward _ _ Ho4) | done |].
    by do 2 (etransitivity; [done |]).
Qed.
End MongoFacts.
