(* ===== verification/DurableSpec.v ===== *)
(** * DurableSpec: the database stores implement the store contract

    The linearization theorems of [SqlJobStore.put] and [MongoJobStore.put], and
    a database with scripted concurrent writers on which their hypotheses
    hold. *)
From S2P Require Import Prelude Dict Json PyValues Lifecycle SchedulerFsm JobStore DurableStore.

(** ** A database with concurrent writers *)
Section Engine.
Context {Row : Type} (rec : Row → JobRecord) (good : string → Row → Prop)
  (p : JobRecord → Row → bool) (f : JobRecord → Row → Row) (new : JobRecord → Row).
(** Whether a failed statement makes a transaction refuse the next ones. *)
Context (aborts : bool).
Context (gate : ∀ r row, good (r_id r) row →
  p r row = put_applies (Some (r_status (rec row))) (r_status r)
            && (r_version (rec row) =? r_version r)%Z).
Context (upd : ∀ r row, record_ok r → good (r_id r) row → good (r_id r) (f r row)
  ∧ rec (f r row) = replace_row r (r_created (rec row)) (r_version r + 1)).
Context (ins : ∀ r, record_ok r → good (r_id r) (new r) ∧ rec (new r) = r).
Context (good_id : ∀ id row, good id row → r_id (rec row) = id).

(** Another connection's [put], seen from outside: all or nothing. *)
Definition apply_put (r : JobRecord) (t : gmap string Row) : gmap string Row :=
  match t !! r_id r with
  | Some row => if p r row then <[r_id r := f r row]> t else t
  | None => <[r_id r := new r]> t
  end.
Definition plain_record (r : JobRecord) : bool :=
  (1 <=? r_version r)%Z && match r_payload r with None => true | Some _ => false end.
Definition other_put (t t' : gmap string Row) : Prop :=
  ∃ r, plain_record r = true ∧ t' = apply_put r t.
Definition other_puts : relation (gmap string Row) := rtc other_put.

Lemma plain_record_ok r : plain_record r = true → record_ok r.
Proof.
  unfold plain_record, record_ok. intros [H1 H2]%andb_prop.
  apply Z.leb_le in H1. by destruct (r_payload r).
Qed.

Lemma recs_ok t : table_ok good t → rows_ok (recs rec t).
Proof.
  intros Hok i x. rewrite recs_lookup. destruct (t !! i) as [row|] eqn:Hl; [| done].
  intros [= <-]. by apply good_id, Hok.
Qed.

Lemma apply_put_spec r t :
  record_ok r → table_ok good t →
  table_ok good (apply_put r t) ∧ recs rec (apply_put r t) = (put_spec r (recs rec t)).2.
Proof.
  intros Hr Hok. unfold apply_put, put_spec. destruct (t !! r_id r) as [row|] eqn:Hl.
  - pose proof (Hok _ _ Hl) as Hg.
    rewrite (may_write_row rec good r (p r) (gate r) t row Hl Hg).
    destruct (p r row) eqn:Hp; [| done]. destruct (upd r row Hr Hg) as [Hgf Hf]. split.
    + intros id row' H. apply lookup_insert_Some in H as [[<- <-]|[_ H]]; [done | by apply Hok].
    + cbn [snd]. unfold recs. rewrite fmap_insert, Hf. unfold write_row. fold (recs rec t).
      rewrite recs_lookup, Hl. cbn. do 2 f_equal. rewrite gate in Hp by done.
      apply andb_prop in Hp as [_ Hv]. apply Z.eqb_eq in Hv. by rewrite Hv.
  - destruct (ins r Hr) as [Hg Hrec]. split.
    + intros id row' H. apply lookup_insert_Some in H as [[<- <-]|[_ H]]; [done | by apply Hok].
    + unfold may_write. rewrite recs_lookup, Hl. cbn [fmap option_fmap option_map snd].
      unfold write_row. rewrite recs_lookup, Hl. cbn. unfold recs. by rewrite fmap_insert, Hrec.
Qed.

Lemma other_puts_forward t t' :
  other_puts t t' → table_ok good t → table_ok good t' ∧ rows_le (recs rec t) (recs rec t').
Proof.
  induction 1 as [t|t t1 t2 (r & Hr & ->) _ IH]; intros Hok; [done |].
  destruct (apply_put_spec r t (plain_record_ok r Hr) Hok) as [Hok1 Hr1].
  destruct (IH Hok1) as [Hok2 Hle]. split; [done |]. etransitivity; [| exact Hle].
  rewrite Hr1. unfold put_spec. destruct (may_write r (recs rec t)) eqn:Hmw; [| done].
  apply write_row_le; [by apply recs_ok | done].
Qed.

(** The database: its rows, what the other connections put before each of our
    statements, and whether our transaction can be used. *)
Record engine : Type := mkEngine {
  e_table : gmap string Row;
  e_script : list (list JobRecord);
  e_usable : bool;
}.
Definition puts (rs : list JobRecord) (t : gmap string Row) : gmap string Row :=
  fold_left (λ t r, if plain_record r then apply_put r t else t) rs t.
Definition interfere (e : engine) : engine :=
  match e_script e with
  | [] => e
  | rs :: rest => mkEngine (puts rs (e_table e)) rest (e_usable e)
  end.
Definition with_table (t : gmap string Row) (e : engine) : engine := mkEngine t (e_script e) (e_usable e).
Definition failed (e : engine) : engine := mkEngine (e_table e) (e_script e) (negb aborts).
Definition duplicate : exn := OtherException "DuplicateKey" "".
Definition is_duplicate (e : exn) : bool :=
  match e with OtherException "DuplicateKey" _ => true | _ => false end.
Definition in_failed_transaction : exn := OtherException "InFailedSqlTransaction" "".
(** A statement, refused in a transaction that has failed. *)
Definition statement {A} (m : M engine A) : M engine A := λ e,
  if aborts && negb (e_usable e) then (Raise in_failed_transaction, e) else m (interfere e).

#[local] Instance engine_table : RowTable engine Row := {
  table := e_table;
  update_row id q g := statement (λ e,
    match e_table e !! id with
    | Some row => if (q row : bool) then (Ret 1%Z, with_table (<[id := g row]> (e_table e)) e)
                  else (Ret 0%Z, e)
    | None => (Ret 0%Z, e)
    end);
  insert_row id row := statement (λ e,
    match e_table e !! id with
    | Some _ => (Raise duplicate, failed e)
    | None => (Ret tt, with_table (<[id := row]> (e_table e)) e)
    end);
  find_row id := statement (λ e, (Ret (e_table e !! id), e));
  delete_where q := statement (λ e,
    (Ret tt, with_table (filter (λ kv, negb (q kv.2)) (e_table e)) e));
  select_where q := statement (λ e,
    (Ret (map snd (map_to_list (filter (λ kv, q kv.2) (e_table e)))), e));
}.

Lemma puts_others rs t : other_puts t (puts rs t).
Proof.
  revert t. induction rs as [|r rs IH]; intros t; cbn; [reflexivity |].
  destruct (plain_record r) eqn:Hr; [| apply IH].
  etransitivity; [| apply IH]. apply rtc_once. by exists r.
Qed.
Lemma interfere_others e : other_puts (e_table e) (e_table (interfere e)).
Proof. unfold interfere. destruct (e_script e) as [|rs rest]; [reflexivity |]. apply puts_others. Qed.
Lemma interfere_usable e : e_usable (interfere e) = e_usable e.
Proof. unfold interfere. by destruct (e_script e). Qed.

(** What each statement does where it is not refused. *)
Lemma engine_update id q g e : aborts && negb (e_usable e) = false →
  update_post other_puts id q g e (update_row id q g e)
  ∧ ∀ n e', update_row id q g e = (Ret n, e') → e_usable e' = e_usable e.
Proof.
  intros Ha. cbn [update_row engine_table]. unfold statement. rewrite Ha. cbn [update_post table engine_table].
  pose proof (interfere_others e) as Ho. rewrite <- (interfere_usable e). set (e1 := interfere e) in *.
  destruct (e_table e1 !! id) as [row|] eqn:Hl; [destruct (q row) eqn:Hq |];
    (split; [| by intros n e' [= _ <-]]); (exists (e_table e1); split; [exact Ho |]); rewrite Hl, ?Hq; done.
Qed.
Lemma engine_insert id row e : aborts && negb (e_usable e) = false →
  insert_post other_puts is_duplicate id row e (insert_row id row e)
  ∧ ∀ u e', insert_row id row e = (Ret u, e') → e_usable e' = e_usable e.
Proof.
  intros Ha. cbn [insert_row engine_table]. unfold statement. rewrite Ha. cbn [insert_post table engine_table].
  pose proof (interfere_others e) as Ho. rewrite <- (interfere_usable e). set (e1 := interfere e) in *.
  destruct (e_table e1 !! id) as [row'|] eqn:Hl.
  - split; [| done]. split_and!; [done | exact Ho | intros _; by eexists].
  - split; [| by intros n e' [= _ <-]]. by exists (e_table e1).
Qed.
Lemma engine_find id e : aborts && negb (e_usable e) = false →
  find_post other_puts id e (find_row id e).
Proof.
  intros Ha. cbn [find_row engine_table]. unfold statement. rewrite Ha. split; [apply interfere_others | done].
Qed.

(** Transactions of that database: every commit succeeds, and a rollback undoes
    our writes and no other connection's. *)
Definition others_meanwhile (e e' : engine) : list (list JobRecord) :=
  take (length (e_script e) - length (e_script e')) (e_script e).
Definition rollback (e e' : engine) : engine :=
  mkEngine (fold_left (λ t rs, puts rs t) (others_meanwhile e e') (e_table e)) (e_script e') true.
Definition in_savepoint {A} (m : M engine A) : M engine A := λ e,
  match m e with (Raise x, e') => (Raise x, rollback e e') | r => r end.
Lemma rollback_others e e' : other_puts (e_table e) (e_table (rollback e e')).
Proof.
  cbn. generalize (e_table e). induction (others_meanwhile e e') as [|rs rest IH]; intros t; cbn; [reflexivity |].
  etransitivity; [apply puts_others | apply IH].
Qed.
Lemma rollback_interfere e b : e_table (rollback e (mkEngine (e_table (interfere e)) (e_script (interfere e)) b))
  = e_table (interfere e).
Proof.
  unfold rollback, others_meanwhile, interfere. destruct (e_script e) as [|rs rest]; cbn; [done |].
  by replace (S (length rest) - length rest)%nat with 1%nat by lia.
Qed.
End Engine.

(** MongoDB: a failed write does not keep the next from being tried. *)
Lemma engine_laws {Row} (p : JobRecord → Row → bool) f new :
  @RowTableLaws (@engine Row) Row (engine_table p f new false) (other_puts p f new) is_duplicate.
Proof.
  split.
  - by intros [].
  - intros id q g e. by apply engine_update.
  - intros id row e. by apply engine_insert.
  - intros id e. by apply engine_find.
Qed.

(** SQL. *)
#[local] Instance sql_table : RowTable (@engine SqlRow) SqlRow :=
  engine_table may_replace update_values insert_values true.
#[local] Instance sql_tx : SqlTransactions (@engine SqlRow) := {
  usable := e_usable;
  begin A m e := in_savepoint may_replace update_values insert_values m (mkEngine (e_table e) (e_script e) true);
  begin_nested A := in_savepoint may_replace update_values insert_values;
}.
Abbreviation sql_others := (other_puts may_replace update_values insert_values).
Lemma insert_raises id row (e : @engine SqlRow) x e1 : e_usable e = true → insert_row id row e = (Raise x, e1) →
  x = duplicate ∧ e1 = failed true (interfere may_replace update_values insert_values e).
Proof.
  intros Hu. cbn. unfold statement. rewrite Hu. cbn [andb negb].
  destruct (e_table _ !! id); [by intros [= <- <-] | done].
Qed.
#[local] Instance sql_engine_laws : SqlLaws (@engine SqlRow) sql_others is_duplicate.
Proof.
  split.
  - by intros [].
  - intros id q g e Hu. cbn [usable sql_tx] in *. destruct (engine_update may_replace update_values insert_values
      true id q g e) as [H1 H2]; [by rewrite Hu |]. split; [done |]. intros n e' E. by rewrite (H2 n e' E).
  - intros id row e Hu. cbn [usable sql_tx] in *. destruct (engine_insert may_replace update_values insert_values
      true id row e) as [H1 H2]; [by rewrite Hu |]. split; [done |]. intros n e' E. by rewrite (H2 n e' E).
  - intros A m e. exists (mkEngine (e_table e) (e_script e) true). split_and!; [done | reflexivity |].
    cbn [begin sql_tx]. unfold in_savepoint. destruct (m _) as [[a|x] e']; [left; by eauto |].
    right. eexists x, _. split_and!; [done | by left |]. left.
    apply (rollback_others may_replace update_values insert_values (mkEngine (e_table e) (e_script e) true)).
  - intros A m e Hu. cbn [begin_nested sql_tx]. unfold in_savepoint. destruct (m e) as [[a|x] e']; [left; by eauto |].
    right; left. eexists x, _. split_and!; [done | done | done | apply rollback_others].
  - intros id row e x e1 Hu _ E. destruct (insert_raises id row e x e1 Hu E) as [-> ->].
    cbn [begin_nested sql_tx]. unfold in_savepoint. rewrite E. cbn [snd table sql_table engine_table].
    unfold failed at 2. rewrite rollback_interfere. reflexivity.
Qed.
Lemma sql_engine_reliable : reliable (S := @engine SqlRow) is_duplicate.
Proof.
  split_and!.
  - intros id q g e Hu. cbn [usable sql_tx] in Hu. cbn. unfold statement. rewrite Hu. cbn [andb negb].
    destruct (e_table _ !! id) as [row|]; [destruct (q row) |]; by do 2 eexists.
  - intros id row e x e1 Hu E. by destruct (insert_raises id row e x e1 Hu E) as [-> _].
  - intros id row e x Hu. cbn [begin_nested sql_tx]. unfold in_savepoint. by destruct (insert_row id row e) as [[]].
  - intros m e Hm. destruct (Hm (mkEngine (e_table e) (e_script e) true) eq_refl) as [b Hb]. exists b.
    cbn [begin sql_tx]. unfold in_savepoint. destruct (m _) as [[a|x] e']; cbn in *; congruence.
Qed.

(** ** Properties *)

(** C9: the SQL store implements the contract of [put], also against concurrent
    writers.  On a table with records a job builds, while other connections
    write (under the same contract, deleting nothing) before every statement,
    [SqlJobStore.put] that returns took effect or was refused exactly as the
    fenced, versioned [put] says, on the rows as they stood at one moment of
    the call; one that raises was applied so, or not at all.  And losing the race
    for the first insert is not an error: on a connection where nothing else
    fails, [put] returns, its savepoint having kept the transaction usable. *)
Theorem sql_put_linearizes {S} `{!RowTable S SqlRow, !SqlTransactions S}
    (integrity_error : exn → bool) (others : relation (gmap string SqlRow))
    `{!SqlLaws S others integrity_error, !PreOrder others} (r : JobRecord) (s : S) :
  (∀ t t', others t t' → table_ok sql_good t →
     table_ok sql_good t' ∧ rows_le (recs sql_rec t) (recs sql_rec t')) →
  record_ok r → table_ok sql_good (table s) →
  let '(o, s') := SqlJobStore.put integrity_error r s in
  linearized others sql_rec sql_good r (table s) o (table s')
  ∧ (reliable (S := S) integrity_error → ∃ b, o = Ret b).
Proof.
  intros Hf Hr Hok. pose proof (sql_put_linear integrity_error others Hf r s Hr Hok) as Hl.
  pose proof (sql_put_answers integrity_error others r s) as Ha.
  destruct (SqlJobStore.put integrity_error r s) as [o s']. by split.
Qed.

(** C10: so does the MongoDB store, whose [put] runs without a transaction: the
    document it finds missing after a duplicate key error, which is an error, is
    never missing when other clients delete nothing. *)
Theorem mongo_put_linearizes {S} `{!RowTable S MongoDoc}
    (duplicate_key : exn → bool) (others : relation (gmap string MongoDoc))
    `{!RowTableLaws S MongoDoc others duplicate_key, !PreOrder others} (r : JobRecord) (s : S) :
  (∀ t t', others t t' → table_ok mongo_good t →
     table_ok mongo_good t' ∧ rows_le (recs _doc_to_record t) (recs _doc_to_record t')) →
  record_ok r → table_ok mongo_good (table s) →
  let '(o, s') := MongoJobStore.put duplicate_key r s in
  linearized others _doc_to_record mongo_good r (table s) o (table s').
Proof. intros Hf Hr Hok. by apply mongo_put_linear. Qed.

(** A record survives its row.  Reading back the row an insert writes gives
    the record itself, its payload through JSON text, and reading back a row
    after a gated update gives the new record with the row's [created] and the
    next version. *)
Theorem sql_row_roundtrip r row :
  record_ok r → sql_good (r_id r) row →
  _row_to_record (insert_values r) = Ret r
  ∧ _row_to_record (update_values r row) = Ret (replace_row r (c_created row) (r_version r + 1)).
Proof.
  intros Hr Hg. destruct (sql_ins r Hr) as [Hg1 H1]. destruct (sql_upd r row Hr Hg) as [Hg2 H2].
  destruct (sql_row_record _ _ Hg1) as (p1 & _ & E1 & _).
  destruct (sql_row_record _ _ Hg2) as (p2 & _ & E2 & _).
  destruct (sql_row_record _ _ Hg) as (p3 & _ & _ & E3).
  rewrite E1, E2, H1, H2, E3. done.
Qed.

Module DurableExamples.
Definition rec (status : Status) (version : Z) : JobRecord :=
  mkRecord "job" (Some "demo") "ch" (status_value status) "t0" "t1" 1 version None.
Abbreviation mongo_engine := (@engine MongoDoc).
#[local] Instance mongo_table : RowTable mongo_engine MongoDoc :=
  engine_table filt set_fields new_doc false.
#[local] Instance mongo_laws : RowTableLaws mongo_engine MongoDoc (other_puts filt set_fields new_doc) is_duplicate :=
  engine_laws filt set_fields new_doc.

(** Between our update and our insert another connection inserts the job. *)
Definition s_sql : @engine SqlRow := mkEngine ∅ [[]; [rec SCHEDULED 1]; []] false.

Lemma empty_ok {Row} (good : string → Row → Prop) : table_ok good ∅.
Proof. intros id row H. by apply lookup_empty_Some in H. Qed.

(** The racing insert is found, and our gated retry replaces it. *)
Lemma sql_put_linearizes_witness :
  let '(o, s') := SqlJobStore.put is_duplicate (rec IN_PROGRESS 1) s_sql in
  o = Ret true ∧ linearized sql_others sql_rec sql_good (rec IN_PROGRESS 1) (table s_sql) o (table s')
  ∧ ∃ b, o = Ret b.
Proof.
  pose proof (sql_put_linearizes is_duplicate sql_others (rec IN_PROGRESS 1) s_sql) as H.
  assert ((SqlJobStore.put is_duplicate (rec IN_PROGRESS 1) s_sql).1 = Ret true) as Ho
    by (vm_compute; reflexivity).
  destruct (SqlJobStore.put is_duplicate (rec IN_PROGRESS 1) s_sql) as [o s'].
  split; [exact Ho |].
  destruct H as [Hl Hr]; [| split; [simpl; lia | exact I] | apply empty_ok | exact (conj Hl (Hr sql_engine_reliable))].
  intros t t' Hot Hok. apply (other_puts_forward sql_rec sql_good may_replace update_values insert_values);
    [intros; by apply sql_gate | intros; by apply sql_upd | apply sql_ins | | exact Hot | exact Hok].
  intros id row Hg. destruct (sql_row_record row id Hg) as (? & _ & _ & ->). apply Hg.
Defined.

(** The racing insert is Completed: our put is refused. *)
Lemma mongo_put_linearizes_witness :
  let '(o, s') := MongoJobStore.put is_duplicate (rec IN_PROGRESS 1)
                    (mkEngine ∅ [[]; [rec COMPLETED 1]; []] true : mongo_engine) in
  o = Ret false
  ∧ linearized (other_puts filt set_fields new_doc) _doc_to_record mongo_good
      (rec IN_PROGRESS 1) ∅ o (table s').
Proof.
  set (s0 := (mkEngine ∅ [[]; [rec COMPLETED 1]; []] true : mongo_engine)).
  pose proof (mongo_put_linearizes is_duplicate (other_puts filt set_fields new_doc)
    (rec IN_PROGRESS 1) s0) as H.
  assert ((MongoJobStore.put is_duplicate (rec IN_PROGRESS 1) s0).1 = Ret false) as Ho
    by (vm_compute; reflexivity).
  destruct (MongoJobStore.put is_duplicate (rec IN_PROGRESS 1) s0) as [o s'].
  split; [exact Ho |]. apply H; [| split; [simpl; lia | exact I] | apply empty_ok].
  intros t t' Hot Hok. apply (other_puts_forward _doc_to_record mongo_good filt set_fields new_doc);
    [intros; by apply mongo_gate | intros; by apply mongo_upd | apply mongo_ins | | exact Hot | exact Hok].
  intros id doc [Hid _]. exact Hid.
Defined.

Lemma sql_row_roundtrip_witness :
  let r := mkRecord "job" None "ch" "Scheduled" "t0" "t1" 1 3 (Some [("workflows", JArr [])]) in
  _row_to_record (insert_values r) = Ret r
  ∧ _row_to_record (update_values r (insert_values r)) = Ret (replace_row r "t0" 4).
Proof.
  cbv zeta. apply sql_row_roundtrip.
  - split; [simpl; lia |]. split; [| discriminate]. split; [by apply (bool_decide_unpack _) | done].
  - apply sql_ins. split; [simpl; lia |]. split; [| discriminate].
    split; [by apply (bool_decide_unpack _) | done].
Defined.
End DurableExamples.
