(* ===== verification/SseEvent.v ===== *)
(** * SseEvent: server-sent events and their wire format

    [src/pypepper/network/http/sse/event.py], [handlers.py] and the serializer
    of [stream.py]; a reference client in the sense of the EventSource
    specification reads the text back.  FastAPI's [ServerSentEvent] is
    third-party: it holds the fields it is given, and may reject them
    ([validate], a parameter). *)
From S2P Require Import Prelude Dict Json PyValues.
From Stdlib Require Import DecimalString DecimalZ DecimalPos.

(** [SSEEvent], and the [ServerSentEvent] made of it; [data=None] is [JNull]. *)
Record SSEEvent : Type := mkSSEEvent {
  ev_data : json;
  ev_raw_data : option string;
  ev_event : option string;
  ev_id : option string;
  ev_retry : option Z;
  ev_comment : option string;
}.

(** [SSEEvent.ping(comment)], [SSEEvent.reconnect(retry_ms)], [new_sse_event]. *)
Definition ping (comment : string) : SSEEvent := mkSSEEvent JNull None None None None (Some comment).
Definition heartbeat : SSEEvent := ping "heartbeat".
Definition reconnect (retry_ms : Z) : SSEEvent := mkSSEEvent JNull None None None (Some retry_ms) None.
Definition new_sse_event (data : json) (event id : option string) : SSEEvent :=
  mkSSEEvent data None event id None None.

(** [SSEEvent.to_server_sent_event()]. *)
Definition to_server_sent_event (validate : SSEEvent → outcome unit) (e : SSEEvent) : outcome SSEEvent :=
  match validate e with Ret _ => Ret e | Raise x => Raise x end.

(** [str.splitlines()]. *)
Definition line_break (c : ascii) : bool :=
  let n := code c in
  ((10 <=? n) && (n <=? 13) || (28 <=? n) && (n <=? 30) || (n =? 133))%nat.
Fixpoint splitlines_from (cur s : string) : list string :=
  match s with
  | "" => if str_truthy cur then [cur] else []
  | String c s' =>
      if line_break c then
        cur :: match c, s' with
               | "013"%char, String "010"%char s'' => splitlines_from "" s''
               | _, _ => splitlines_from "" s'
               end
      else splitlines_from (cur +:+ String c "") s'
  end.
Definition splitlines (s : string) : list string := splitlines_from "" s.

(** [json.dumps(data, ensure_ascii=False)]. *)
Definition data_opts : dump_opts := DumpOpts false ", " ": ".
Definition LF : string := String "010" "".

(** The lines of one event, and [_serialize_sse_event(event)]. *)
Definition field (name : string) (value : option string) : list string :=
  match value with
  | Some v => if str_truthy v then [name +:+ v] else []
  | None => []
  end.
Definition data_lines (e : SSEEvent) : list string :=
  match ev_raw_data e with
  | Some raw => map (λ line, "data: " +:+ line) (splitlines raw)
  | None => match ev_data e with JNull => [] | d => ["data: " +:+ dump data_opts d] end
  end.
Definition event_lines (e : SSEEvent) : list string :=
  field ":" (ev_comment e) ++ field "event: " (ev_event e) ++ field "id: " (ev_id e)
  ++ match ev_retry e with Some r => ["retry: " +:+ str_of_Z r] | None => [] end
  ++ data_lines e.
Definition _serialize_sse_event (e : SSEEvent) : string :=
  join LF (event_lines e) +:+ LF +:+ LF.

(** ** Handlers *)

(** The welcome message of [BaseSSEHandler.on_connect]. *)
Definition welcome (connection_id : string) : SSEEvent :=
  mkSSEEvent (JObj [("message", JStr "Connected"); ("connection_id", JStr connection_id)])
    None (Some "connect") (Some connection_id) None None.
(** [EchoSSEHandler] and [CounterSSEHandler]: the events they generate. *)
Definition echo_messages (messages : option (list string)) : list string :=
  match messages with
  | None | Some [] => ["Hello"; "World"; "SSE"; "Test"]
  | Some l => l
  end.
Definition echo_events (messages : list string) : list SSEEvent :=
  imap (λ i msg,
    mkSSEEvent (JObj [("message", JStr msg); ("index", JInt (Z.of_nat i))]) None (Some "echo")
      (Some ("echo-" +:+ str_of_Z (Z.of_nat i))) None None) messages.
Definition counter_events (start end_ : Z) : list SSEEvent :=
  map (λ count,
    mkSSEEvent (JObj [("count", JInt count)]) None (Some "counter")
      (Some ("count-" +:+ str_of_Z count)) None None)
    (map (λ i, start + Z.of_nat i)%Z (seq 0 (Z.to_nat (end_ + 1 - start)))).

(** ** A reference client

    The EventSource algorithm: lines end with LF, CR or CRLF; a blank line
    dispatches the event if its data buffer is not empty. *)
Record message : Type := mkMessage { m_type : string; m_data : string; m_last_id : string }.
Record client : Type := mkClient {
  cl_type : string;
  cl_data : string;
  cl_id : string;
  cl_retry : option Z;
}.
Definition client0 : client := mkClient "" "" "" None.

Fixpoint stream_lines_from (cur s : string) : list string :=
  match s with
  | "" => []
  | String c s' =>
      match c with
      | "010"%char => cur :: stream_lines_from "" s'
      | "013"%char =>
          cur :: match s' with
                 | String "010"%char s'' => stream_lines_from "" s''
                 | _ => stream_lines_from "" s'
                 end
      | _ => stream_lines_from (cur +:+ String c "") s'
      end
  end.
Definition stream_lines (s : string) : list string := stream_lines_from "" s.

Fixpoint split_colon (s : string) : string * option string :=
  match s with
  | "" => ("", None)
  | String ":"%char s' => ("", Some s')
  | String c s' => let '(n, v) := split_colon s' in (String c n, v)
  end.
Definition field_value (v : option string) : string :=
  match v with Some (String " "%char v') => v' | Some v' => v' | None => "" end.
Definition drop_last (s : string) : string := String.substring 0 (String.length s - 1) s.

Fixpoint all_digits (s : string) : bool :=
  match s with "" => true | String c s' => is_digit c && all_digits s' end.
Definition process_field (name value : string) (c : client) : client :=
  if String.eqb name "event" then mkClient value (cl_data c) (cl_id c) (cl_retry c)
  else if String.eqb name "data" then
    mkClient (cl_type c) (cl_data c +:+ value +:+ LF) (cl_id c) (cl_retry c)
  else if String.eqb name "id" then
    if str_has "000"%char value then c else mkClient (cl_type c) (cl_data c) value (cl_retry c)
  else if String.eqb name "retry" then
    if str_truthy value && all_digits value
    then mkClient (cl_type c) (cl_data c) (cl_id c) (int_digits value 0 false) else c
  else c.
Definition process_line (line : string) (c : client) : client * list message :=
  match line with
  | "" =>
      (mkClient "" "" (cl_id c) (cl_retry c),
       if str_truthy (cl_data c)
       then [mkMessage (if str_truthy (cl_type c) then cl_type c else "message")
               (drop_last (cl_data c)) (cl_id c)]
       else [])
  | String ":"%char _ => (c, [])
  | _ => let '(name, v) := split_colon line in (process_field name (field_value v) c, [])
  end.
Fixpoint process_lines (lines : list string) (c : client) : client * list message :=
  match lines with
  | [] => (c, [])
  | line :: rest =>
      let '(c1, out1) := process_line line c in
      let '(c2, out2) := process_lines rest c1 in (c2, out1 ++ out2)
  end.
(** What a client that has read nothing makes of a stream. *)
Definition read_stream (s : string) : client * list message := process_lines (stream_lines s) client0.

Example read_two :
  read_stream (_serialize_sse_event (welcome "c1") +:+ _serialize_sse_event heartbeat
    +:+ _serialize_sse_event (mkSSEEvent JNull (Some (String "a" (String "010" "b"))) None (Some "7") (Some 30%Z) None))
  = (mkClient "" "" "7" (Some 30%Z),
     [mkMessage "connect" (dump data_opts (ev_data (welcome "c1"))) "c1";
      mkMessage "message" (String "a" (String "010" "b")) "7"]).
Proof. vm_compute. reflexivity. Qed.

(** ** What a client is to receive *)
Definition clean (s : string) : bool := negb (str_has "010" s || str_has "013" s).
Definition opt_clean (o : option string) : bool := match o with Some s => clean s | None => true end.
(** No line feed in a one-line field, no NUL in an id, no negative retry. *)
Definition event_ok (e : SSEEvent) : bool :=
  opt_clean (ev_comment e) && opt_clean (ev_event e) && opt_clean (ev_id e)
  && match ev_id e with Some i => negb (str_has "000" i) | None => true end
  && match ev_retry e with Some r => (0 <=? r)%Z | None => true end.

(** The text an event carries: its raw lines, or its data as JSON. *)
Definition event_text (e : SSEEvent) : option string :=
  match ev_raw_data e with
  | Some raw => match splitlines raw with [] => None | ls => Some (join LF ls) end
  | None => match ev_data e with JNull => None | d => Some (dump data_opts d) end
  end.
Definition truthy_or (o : option string) (d : string) : string :=
  match o with Some s => if str_truthy s then s else d | None => d end.
Definition deliver (e : SSEEvent) (c : client) : client * list message :=
  let id := truthy_or (ev_id e) (cl_id c) in
  (mkClient "" "" id (match ev_retry e with Some r => Some r | None => cl_retry c end),
   match event_text e with
   | Some t => [mkMessage (truthy_or (ev_event e) "message") t id]
   | None => []
   end).
Fixpoint deliver_all (es : list SSEEvent) (c : client) : client * list message :=
  match es with
  | [] => (c, [])
  | e :: rest =>
      let '(c1, out1) := deliver e c in
      let '(c2, out2) := deliver_all rest c1 in (c2, out1 ++ out2)
  end.
Fixpoint serialize_all (es : list SSEEvent) : string :=
  match es with [] => "" | e :: rest => _serialize_sse_event e +:+ serialize_all rest end.

(** ** Lines *)
Lemma str_has_app c a b : str_has c (a +:+ b) = str_has c a || str_has c b.
Proof. induction a as [|x a IH]; [done |]. cbn. by rewrite IH, orb_assoc. Qed.
Lemma clean_app a b : clean (a +:+ b) = clean a && clean b.
Proof.
  unfold clean. rewrite !str_has_app.
  destruct (str_has "010" a), (str_has "013" a), (str_has "010" b), (str_has "013" b); done.
Qed.

Lemma clean_cons c s : clean (String c s) = true ↔ c ≠ "010"%char ∧ c ≠ "013"%char ∧ clean s = true.
Proof.
  change (clean (String c s)) with
    (negb ((Ascii.eqb "010" c || str_has "010" s) || (Ascii.eqb "013" c || str_has "013" s))).
  unfold clean. destruct (Ascii.eqb_spec "010" c) as [<-|H1]; [by split; [| intros (? & _)] |].
  destruct (Ascii.eqb_spec "013" c) as [<-|H2]; [by rewrite orb_true_r; split; [| intros (? & ? & _)] |].
  split; [auto | by intros (_ & _ & ?)].
Qed.

Lemma stream_lines_line a cur s :
  clean a = true → stream_lines_from cur (a +:+ LF +:+ s) = (cur +:+ a) :: stream_lines s.
Proof.
  revert cur. induction a as [|c a IH]; intros cur Ha; cbn.
  - by rewrite str_app_nil_r.
  - apply clean_cons in Ha as (H1 & H2 & Ha).
    specialize (IH (cur +:+ String c "") Ha). rewrite str_app_assoc in IH. cbn in IH.
    destruct c as [[] [] [] [] [] [] [] []]; try done.
Qed.

Lemma stream_lines_join l ls s :
  Forall (λ a, clean a = true) (l :: ls) →
  stream_lines (join LF (l :: ls) +:+ LF +:+ LF +:+ s) = (l :: ls) ++ "" :: stream_lines s.
Proof.
  revert l. induction ls as [|l2 ls IH]; intros l [Hl Hls]%Forall_cons.
  - cbn [join]. unfold stream_lines at 1. by rewrite stream_lines_line.
  - rewrite join_cons2, !str_app_assoc. unfold stream_lines at 1.
    rewrite stream_lines_line by done. cbn [app]. f_equal. by apply IH.
Qed.

(** ** Fields *)
Lemma process_lines_app l1 l2 c :
  process_lines (l1 ++ l2) c =
    let '(c1, out1) := process_lines l1 c in
    let '(c2, out2) := process_lines l2 c1 in (c2, out1 ++ out2).
Proof.
  revert c. induction l1 as [|l l1 IH]; intros c; cbn.
  - by destruct (process_lines l2 c).
  - destruct (process_line l c) as [c1 out1]. rewrite IH.
    destruct (process_lines l1 c1) as [c2 out2].
    destruct (process_lines l2 c2) as [c3 out3]. by rewrite app_assoc.
Qed.

Lemma process_lines_silent l1 l2 c c1 :
  process_lines l1 c = (c1, []) → process_lines (l1 ++ l2) c = process_lines l2 c1.
Proof. intros H. rewrite process_lines_app, H. by destruct (process_lines l2 c1). Qed.

Lemma drop_last_LF s : drop_last (s +:+ LF) = s.
Proof.
  unfold drop_last. rewrite str_length_app. cbn [LF String.length].
  replace (String.length s + 1 - 1)%nat with (String.length s) by lia.
  induction s as [|c s IH]; cbn; [done | by rewrite IH].
Qed.

Lemma data_run ls c :
  process_lines (map (λ line, "data: " +:+ line) ls) c =
    (mkClient (cl_type c) (fold_left (λ a line, a +:+ line +:+ LF) ls (cl_data c)) (cl_id c) (cl_retry c), []).
Proof.
  revert c. induction ls as [|l ls IH]; intros c; cbn [map process_lines fold_left].
  - by destruct c.
  - assert (process_line ("data: " +:+ l) c
      = (mkClient (cl_type c) (cl_data c +:+ l +:+ LF) (cl_id c) (cl_retry c), [])) as -> by done.
    by rewrite IH.
Qed.

Lemma data_buffer ls a :
  fold_left (λ a line, a +:+ line +:+ LF) ls a =
    match ls with [] => a | _ => a +:+ join LF ls +:+ LF end.
Proof.
  revert a. induction ls as [|l ls IH]; intros a; [done |].
  cbn [fold_left]. rewrite IH. destruct ls as [|l2 ls]; [done |].
  by rewrite join_cons2, !str_app_assoc.
Qed.

(** Decimal numbers. *)
Lemma int_digits_uint d acc :
  int_digits (NilEmpty.string_of_uint d) (Zpos acc) true = Some (Zpos (Pos.of_uint_acc d acc)).
Proof.
  revert acc. induction d as [|d IH|d IH|d IH|d IH|d IH|d IH|d IH|d IH|d IH|d IH]; intros acc; [done | ..];
    cbn [NilEmpty.string_of_uint Pos.of_uint_acc]; rewrite <- IH; cbn [int_digits];
    match goal with |- (if is_digit ?c then _ else _) = _ => change (is_digit c) with true end;
    cbv iota; do 2 f_equal;
    match goal with |- context [(code ?c - 48)%nat] =>
      let v := eval vm_compute in (code c - 48)%nat in change (code c - 48)%nat with v end; lia.
Qed.

Lemma int_digits_zero d b :
  d ≠ Decimal.Nil ∨ b = true →
  int_digits (NilEmpty.string_of_uint d) 0 b = Some (Z.of_N (Pos.of_uint d)).
Proof.
  revert b. induction d as [|d IH|d IH|d IH|d IH|d IH|d IH|d IH|d IH|d IH|d IH]; intros b Hb;
    [by destruct Hb as [?| ->] | | apply (int_digits_uint d) ..].
  cbn [NilEmpty.string_of_uint Pos.of_uint]. rewrite <- (IH true) by auto. done.
Qed.

Lemma all_digits_uint d : all_digits (NilEmpty.string_of_uint d) = true.
Proof. induction d; cbn; done. Qed.

Lemma retry_digits r :
  (0 ≤ r)%Z → str_truthy (str_of_Z r) && all_digits (str_of_Z r) = true
    ∧ int_digits (str_of_Z r) 0 false = Some r.
Proof.
  intros Hr. destruct r as [|p|p]; [done | | lia].
  assert (Pos.to_uint p ≠ Decimal.Nil) as Hn.
  { intros H. apply (f_equal Pos.of_uint) in H. by rewrite DecimalPos.Unsigned.of_to in H. }
  assert (str_of_Z (Zpos p) = NilEmpty.string_of_uint (Pos.to_uint p)) as ->.
  { unfold str_of_Z. cbn. by destruct (Pos.to_uint p). }
  rewrite all_digits_uint, int_digits_zero, DecimalPos.Unsigned.of_to by auto.
  split; [by destruct (Pos.to_uint p) | done].
Qed.

Lemma field_comment o c : process_lines (field ":" o) c = (c, []).
Proof. destruct o as [s|]; cbn; [by destruct (str_truthy s) | done]. Qed.

Lemma field_event o c :
  process_lines (field "event: " o) c
    = (mkClient (truthy_or o (cl_type c)) (cl_data c) (cl_id c) (cl_retry c), []).
Proof. destruct o as [s|]; cbn; [destruct (str_truthy s); by destruct c | by destruct c]. Qed.

Lemma field_id o c :
  match o with Some i => negb (str_has "000" i) | None => true end = true →
  process_lines (field "id: " o) c
    = (mkClient (cl_type c) (cl_data c) (truthy_or o (cl_id c)) (cl_retry c), []).
Proof.
  destruct o as [s|]; [| by destruct c]. intros Hs. cbn [field truthy_or].
  destruct (str_truthy s); [| by destruct c]. cbn [process_lines].
  assert (process_line ("id: " +:+ s) c = (process_field "id" s c, [])) as -> by done.
  unfold process_field. cbn [String.eqb Ascii.eqb Bool.eqb]. by destruct (str_has "000" s).
Qed.

Lemma field_retry o c :
  match o with Some r => (0 <=? r)%Z | None => true end = true →
  process_lines (match o with Some r => ["retry: " +:+ str_of_Z r] | None => [] end) c
    = (mkClient (cl_type c) (cl_data c) (cl_id c) (match o with Some r => Some r | None => cl_retry c end), []).
Proof.
  destruct o as [r|]; [| by destruct c]. intros Hr%Z.leb_le.
  destruct (retry_digits r Hr) as [H1 H2]. cbn [process_lines].
  assert (process_line ("retry: " +:+ str_of_Z r) c = (process_field "retry" (str_of_Z r) c, [])) as -> by done.
  unfold process_field. cbn [String.eqb Ascii.eqb Bool.eqb]. by rewrite H1, H2.
Qed.

(** The data lines leave the event's text, or nothing, in the data buffer. *)
Lemma data_lines_run e c :
  cl_data c = "" →
  process_lines (data_lines e) c
    = (mkClient (cl_type c) (match event_text e with Some t => t +:+ LF | None => "" end)
         (cl_id c) (cl_retry c), []).
Proof.
  intros Hc. unfold data_lines, event_text. destruct (ev_raw_data e) as [raw|].
  - rewrite data_run, data_buffer, Hc. by destruct (splitlines raw).
  - pose proof (data_run [dump data_opts (ev_data e)] c) as H. rewrite data_buffer, Hc in H.
    cbn [map join String.append] in H.
    destruct (ev_data e); [destruct c; cbn in *; by subst | exact H ..].
Qed.

Lemma event_run e c :
  event_ok e = true → cl_type c = "" → cl_data c = "" →
  process_lines (event_lines e ++ [""]) c = deliver e c.
Proof.
  unfold event_ok. rewrite !andb_true_iff. intros ((((_ & _) & _) & Hid) & Hr) Ht Hd.
  unfold event_lines. rewrite <- !app_assoc.
  rewrite (process_lines_silent _ _ _ _ (field_comment _ _)), (process_lines_silent _ _ _ _ (field_event _ _)).
  rewrite (process_lines_silent _ _ _ _ (field_id _ _ Hid)), (process_lines_silent _ _ _ _ (field_retry _ _ Hr)).
  erewrite process_lines_silent by (by apply data_lines_run).
  cbn [cl_type cl_data cl_id cl_retry process_lines process_line app].
  rewrite Ht. unfold deliver. f_equal.
  destruct (event_text e) as [t|]; [| done].
  assert (str_truthy (t +:+ LF) = true) as -> by (by destruct t).
  rewrite drop_last_LF. do 2 f_equal.
  destruct (ev_event e) as [s|]; [| done]. cbn. destruct (str_truthy s) eqn:Hs; [by rewrite Hs | done].
Qed.

(** ** Serialized lines hold no line feed *)
Lemma clean_esc s : clean (esc_str false s) = true.
Proof.
  induction s as [|c s IH]; [done |]. cbn [esc_str]. rewrite clean_app, IH, andb_true_r.
  clear. destruct c as [[] [] [] [] [] [] [] []]; reflexivity.
Qed.
Lemma clean_quote s : clean (quote false s) = true.
Proof.
  unfold quote. apply clean_cons. split_and!; [done | done |].
  by rewrite clean_app, clean_esc.
Qed.
Lemma clean_join sep l : clean sep = true → Forall (λ a, clean a = true) l → clean (join sep l) = true.
Proof.
  intros Hs. induction 1 as [|a l Ha Hl IH]; [done |].
  destruct l as [|b l]; [done |]. by rewrite join_cons2, !clean_app, Ha, Hs, IH.
Qed.
Lemma clean_digits d : clean (NilEmpty.string_of_uint d) = true.
Proof. induction d; [done | ..]; cbn [NilEmpty.string_of_uint]; by apply clean_cons. Qed.
Lemma clean_int z : clean (str_of_Z z) = true.
Proof.
  assert (∀ d, clean (NilZero.string_of_uint d) = true) as H.
  { intros d. destruct d; [done | apply clean_digits ..]. }
  unfold str_of_Z, NilZero.string_of_int. destruct (Z.to_int z); [apply H |].
  by apply clean_cons.
Qed.
Lemma clean_dump j : clean (dump data_opts j) = true.
Proof.
  induction j as [|[]|z|s|l IH|l IH] using json_ind'; try done.
  - apply clean_int.
  - apply clean_quote.
  - cbn [dump]. rewrite !clean_app, clean_join; [done | done |]. by apply Forall_map.
  - cbn [dump]. rewrite !clean_app, clean_join; [done | done |]. apply Forall_map.
    eapply Forall_impl; [exact IH |]. intros [k v] Hv. cbn [fst snd] in *.
    change (ensure_ascii data_opts) with false. by rewrite !clean_app, clean_quote, Hv.
Qed.

Lemma splitlines_clean cur s :
  clean cur = true → Forall (λ a, clean a = true) (splitlines_from cur s).
Proof.
  enough (∀ n s cur, (String.length s ≤ n)%nat → clean cur = true →
    Forall (λ a, clean a = true) (splitlines_from cur s)) by eauto.
  clear. induction n as [|n IH]; intros s cur Hn Hc.
  { destruct s; [| cbn in Hn; lia]. cbn. destruct (str_truthy cur); by repeat constructor. }
  destruct s as [|c s]; [cbn; destruct (str_truthy cur); by repeat constructor |].
  cbn [String.length] in Hn. cbn [splitlines_from]. destruct (line_break c) eqn:Hb.
  - constructor; [done |].
    destruct (ascii_dec c "013"%char) as [->|Hcr].
    + destruct s as [|d s]; [by constructor |]. cbn [String.length] in Hn.
      destruct (ascii_dec d "010"%char) as [->|Hlf]; [apply IH; [lia | done] |].
      replace (match d with "010"%char => _ | _ => _ end) with (splitlines_from "" (String d s));
        [apply IH; [cbn; lia | done] |].
      destruct d as [[] [] [] [] [] [] [] []]; done.
    + replace (match c with "013"%char => _ | _ => _ end) with (splitlines_from "" s);
        [apply IH; [lia | done] |].
      destruct c as [[] [] [] [] [] [] [] []]; done.
  - apply IH; [lia |]. rewrite clean_app, Hc. apply clean_cons.
    split_and!; [by intros -> | by intros -> | done].
Qed.

Lemma field_clean name o :
  clean name = true → opt_clean o = true → Forall (λ a, clean a = true) (field name o).
Proof.
  intros Hn Ho. destruct o as [s|]; cbn; [| done].
  destruct (str_truthy s); [| done]. constructor; [by rewrite clean_app, Hn | done].
Qed.

Lemma event_lines_clean e : event_ok e = true → Forall (λ a, clean a = true) (event_lines e).
Proof.
  unfold event_ok. rewrite !andb_true_iff. intros ((((Hc & He) & Hi) & _) & _).
  unfold event_lines. repeat (apply Forall_app; split); try by apply field_clean.
  - destruct (ev_retry e); [| done]. constructor; [by rewrite clean_app, clean_int | done].
  - assert (∀ ls, Forall (λ a, clean a = true) ls →
      Forall (λ a, clean a = true) (map (λ line, "data: " +:+ line) ls)) as Hm.
    { intros ls H. apply Forall_map. eapply Forall_impl; [exact H |].
      intros x Hx. cbn beta. by rewrite clean_app, Hx. }
    unfold data_lines. destruct (ev_raw_data e) as [raw|]; [by apply Hm, splitlines_clean |].
    pose proof (Hm [dump data_opts (ev_data e)]) as H. rewrite Forall_singleton in H.
    specialize (H (clean_dump _)). cbn [map] in H. by destruct (ev_data e).
Qed.

Lemma stream_lines_event e s :
  event_ok e = true →
  stream_lines (_serialize_sse_event e +:+ s)
    = match event_lines e with [] => [""] | _ => [] end ++ event_lines e ++ "" :: stream_lines s.
Proof.
  intros He. unfold _serialize_sse_event. rewrite !str_app_assoc.
  pose proof (event_lines_clean e He) as Hl. destruct (event_lines e) as [|l ls]; [done |].
  by apply stream_lines_join.
Qed.

Lemma client_reads es c :
  Forall (λ e, event_ok e = true) es → cl_type c = "" → cl_data c = "" →
  process_lines (stream_lines (serialize_all es)) c = deliver_all es c.
Proof.
  intros Hes. revert c. induction Hes as [|e es He _ IH]; intros c Ht Hd; [done |].
  cbn [serialize_all deliver_all]. rewrite stream_lines_event by done.
  rewrite (process_lines_silent _ _ c c).
  2:{ destruct (event_lines e); [| done]. cbn. rewrite Hd. destruct c; cbn in *; by subst. }
  change ("" :: stream_lines (serialize_all es)) with ([""] ++ stream_lines (serialize_all es)).
  rewrite app_assoc, process_lines_app, event_run by done.
  unfold deliver. cbn beta iota zeta. by rewrite IH.
Qed.

(** C34: The text the stream sends is read back by a client exactly as sent: for
    any sequence of events without line feeds in their one-line fields, an
    EventSource client ends with the last id and retry interval sent, and
    receives one message for each event that carries data, in order, with its
    type, the id in force and its text; the text of an event made of JSON data
    parses to that data.  Comments, heartbeats and the retry event deliver
    nothing. *)
Theorem sse_stream_roundtrip (es : list SSEEvent) :
  Forall (λ e, event_ok e = true) es →
  read_stream (serialize_all es) = deliver_all es client0
  ∧ ∀ e, e ∈ es → ev_raw_data e = None → ev_data e ≠ JNull → dicts_ok (ev_data e) →
      ∃ t, event_text e = Some t ∧ loads t = Some (ev_data e).
Proof.
  intros Hes. split; [by apply client_reads |].
  intros e _ Hraw Hd Hok. exists (dump data_opts (ev_data e)). split.
  - unfold event_text. rewrite Hraw. by destruct (ev_data e).
  - apply loads_dump; [split; by right | done].
Qed.

Module SseEventExamples.
Definition sent : list SSEEvent :=
  welcome "c1" :: heartbeat :: reconnect 3000 :: echo_events ["hi"; String "010" "there"].
Lemma sse_stream_roundtrip_witness :
  read_stream (serialize_all sent) = deliver_all sent client0
  ∧ ∃ t, event_text (welcome "c1") = Some t ∧ loads t = Some (ev_data (welcome "c1")).
Proof.
  destruct (sse_stream_roundtrip sent) as [H1 H2]; [by repeat constructor |].
  split; [exact H1 |]. apply H2; [by left | done | done |].
  cbn. split; [| done]. apply NoDup_cons; split; [by intros ?%list_elem_of_singleton | apply NoDup_singleton].
Defined.
End SseEventExamples.
