(* ===== verification/SseHub.v ===== *)
(** * SseHub: connections, their registry and the replay log

    [src/pypepper/network/http/sse/connection.py].  Connection objects live in
    a heap and are shared: the registry, a stream and a handler may all hold the
    same one.  Each operation here runs without an [await] that suspends, so it
    is one step of the event loop; [broadcast] schedules its sends as tasks, so
    it is a first step and one [send] per connection. *)
From S2P Require Import Prelude Dict Json PyValues Context SseEvent.

Definition DEFAULT_MAX_QUEUE_SIZE : Z := 500.
Definition DEFAULT_MAX_CONNECTIONS : Z := 100.
Definition DEFAULT_MAX_CONNECTIONS_PER_IP : Z := 5.
Definition EVENT_LOG_MAX : nat := 128.

(** [SSEConnection]; the queue is an [asyncio.Queue(maxsize)]. *)
Record SSEConnection : Type := mkConn {
  connection_id : string;
  conn_context : @context (option string);
  last_event_id : option string;
  conn_queue : list SSEEvent;
  conn_maxsize : Z;
  _closed : bool;
  _dropped_events : Z;
}.
Definition set_queue (q : list SSEEvent) (c : SSEConnection) : SSEConnection :=
  mkConn (connection_id c) (conn_context c) (last_event_id c) q (conn_maxsize c) (_closed c) (_dropped_events c).
Definition set_closed (c : SSEConnection) : SSEConnection :=
  mkConn (connection_id c) (conn_context c) (last_event_id c) (conn_queue c) (conn_maxsize c) true (_dropped_events c).
Definition count_drop (c : SSEConnection) : SSEConnection :=
  mkConn (connection_id c) (conn_context c) (last_event_id c) (conn_queue c) (conn_maxsize c) (_closed c)
    (_dropped_events c + 1).

(** [SSEConnectionManager] and the objects it and its callers refer to. *)
Record Hub : Type := mkHub {
  heap : list SSEConnection;
  _connections : dict nat;
  _event_log : list SSEEvent;
  _max_connections_override : option Z;
  _max_connections_per_ip_override : option Z;
}.
Definition hub_init : Hub := mkHub [] [] [] None None.
Definition set_heap (h : list SSEConnection) (w : Hub) : Hub :=
  mkHub h (_connections w) (_event_log w) (_max_connections_override w) (_max_connections_per_ip_override w).
Definition set_connections (d : dict nat) (w : Hub) : Hub :=
  mkHub (heap w) d (_event_log w) (_max_connections_override w) (_max_connections_per_ip_override w).
Definition set_log (l : list SSEEvent) (w : Hub) : Hub :=
  mkHub (heap w) (_connections w) l (_max_connections_override w) (_max_connections_per_ip_override w).
Definition at_ref (ref : nat) (f : SSEConnection → SSEConnection) (w : Hub) : Hub :=
  set_heap (alter f ref (heap w)) w.

Section Hub.
(** [getattr(config.get_yml_config().sse, name, None)]. *)
Context (sse_config : string → outcome json).

(** [_sse_config_value(name, default)], an [int(...)] around it. *)
Definition _sse_config_value (name : string) (default : json) : outcome json :=
  match sse_config name with
  | Ret JNull => Ret default
  | Ret v => Ret v
  | Raise e => if is_exception e then Ret default else Raise e
  end.
Definition config_int (name : string) (default : Z) : outcome Z :=
  match _sse_config_value name (JInt default) with Ret v => py_int v | Raise e => Raise e end.

Definition max_queue_size : outcome Z := config_int "maxQueueSize" DEFAULT_MAX_QUEUE_SIZE.
Definition _effective_max_connections (w : Hub) : outcome Z :=
  match _max_connections_override w with
  | Some n => Ret n
  | None => config_int "maxTotalConnections" DEFAULT_MAX_CONNECTIONS
  end.
Definition MAX_CONNECTIONS_PER_IP (w : Hub) : outcome Z :=
  match _max_connections_per_ip_override w with
  | Some n => Ret n
  | None => config_int "maxConnectionsPerIP" DEFAULT_MAX_CONNECTIONS_PER_IP
  end.

(** [asyncio.Queue.full()]; [put_nowait] raises [QueueFull] when it holds. *)
Definition queue_full (c : SSEConnection) : bool :=
  (0 <? conn_maxsize c)%Z && (conn_maxsize c <=? Z.of_nat (length (conn_queue c)))%Z.
Definition put_nowait (event : SSEEvent) (c : SSEConnection) : SSEConnection :=
  set_queue (conn_queue c ++ [event]) c.

(** [SSEConnectionManager.record_event(event)]: a [deque(maxlen=EVENT_LOG_MAX)]. *)
Definition log_append (event : SSEEvent) (l : list SSEEvent) : list SSEEvent :=
  let l' := l ++ [event] in drop (length l' - EVENT_LOG_MAX) l'.
Definition record_event (event : SSEEvent) : M Hub unit :=
  if opt_str_truthy (ev_id event) then m_modify (λ w, set_log (log_append event (_event_log w)) w)
  else m_ret tt.

(** [SSEConnectionManager.events_after(last_event_id)]. *)
Fixpoint after_id (last_id : string) (l : list SSEEvent) : list SSEEvent :=
  match l with
  | [] => []
  | e :: rest => if decide (ev_id e = Some last_id) then rest else after_id last_id rest
  end.
Definition events_after (last_id : string) (w : Hub) : list SSEEvent := after_id last_id (_event_log w).

(** [SSEConnection.send(event, record=record)]. *)
Definition send (ref : nat) (event : SSEEvent) (record : bool) : M Hub bool :=
  let* c := m_get (λ w, heap w !! ref) in
  match c with
  | None => m_ret false
  | Some c =>
      if _closed c then m_ret false
      else if queue_full c then
        let* _ := m_modify (at_ref ref count_drop) in m_ret false
      else
        let* _ := m_modify (at_ref ref (put_nowait event)) in
        let* _ := (if record && opt_str_truthy (ev_id event) then record_event event else m_ret tt) in
        m_ret true
  end.
(** [SSEConnection.ping()], [.disconnect()], [.is_closed()]. *)
Definition conn_ping (ref : nat) : M Hub unit := let* _ := send ref heartbeat true in m_ret tt.
Definition conn_disconnect (ref : nat) : M Hub unit := m_modify (at_ref ref set_closed).
Definition is_closed (ref : nat) (w : Hub) : bool :=
  match heap w !! ref with Some c => _closed c | None => true end.

(** The context [connect] makes, and the address in it. *)
Definition connect_context (id : string) (client_ip api_key last_id : option string) : @context (option string) :=
  with_value "last_event_id" last_id
    (with_value "api_key" api_key (with_value "client_ip" client_ip (ctx_new (Some id) None))).
Definition ip_of (c : SSEConnection) : option string :=
  default None (ctx_values (conn_context c) !! "client_ip").
Definition ip_count (client_ip : string) (w : Hub) : Z :=
  Z.of_nat (length (filter (λ ref, (ip_of <$> heap w !! ref) = Some (Some client_ip))
    (dict_values (_connections w)))).

(** Events replayed into a new queue until it is full. *)
Fixpoint replay (events : list SSEEvent) (c : SSEConnection) : SSEConnection :=
  match events with
  | [] => c
  | e :: rest => if queue_full c then c else replay rest (put_nowait e c)
  end.

Definition max_msg (n : Z) : string := "Maximum connections reached: " +:+ str_of_Z n.
Definition per_ip_msg (n : Z) : string := "Maximum connections per IP reached: " +:+ str_of_Z n.

(** The checks [connect] makes under the lock. *)
Definition check_limits (client_ip : option string) : M Hub unit :=
  let* w := m_get id in
  let* max_connections := m_of_outcome (_effective_max_connections w) in
  if (max_connections <=? Z.of_nat (length (_connections w)))%Z then
    m_raise (InternalException (max_msg max_connections))
  else
    match client_ip with
    | Some ip =>
        if str_truthy ip then
          let* per_ip := m_of_outcome (MAX_CONNECTIONS_PER_IP w) in
          if (per_ip <=? ip_count ip w)%Z then m_raise (InternalException (per_ip_msg per_ip))
          else m_ret tt
        else m_ret tt
    | None => m_ret tt
    end.

(** [old._closed = True], then the new object under its key. *)
Definition register (id : string) (c : SSEConnection) : M Hub nat :=
  let* old := m_get (λ w, dict_get id (_connections w)) in
  let* _ := match old with
            | Some ref => m_modify (at_ref ref set_closed)
            | None => m_ret tt
            end in
  let* ref := m_get (λ w, length (heap w)) in
  let* _ := m_modify (λ w, set_connections (dict_set id ref (_connections w)) (set_heap (heap w ++ [c]) w)) in
  m_ret ref.

(** [SSEConnectionManager.connect(...)]; [fresh] is the value of
    [uuid.new_uuid()], used when no id is given. *)
Definition connect (fresh : string) (id last_id client_ip api_key : option string) : M Hub nat :=
  let id := if opt_str_truthy id then default fresh id else fresh in
  let* maxsize := m_of_outcome max_queue_size in
  let* _ := check_limits client_ip in
  let* ref := register id
    (mkConn id (connect_context id client_ip api_key last_id) last_id [] maxsize false 0) in
  let* _ := (if opt_str_truthy last_id
             then m_modify (λ w, at_ref ref (replay (events_after (default "" last_id) w)) w)
             else m_ret tt) in
  m_ret ref.

(** [get_connection], [get_all_connections], [SSEConnectionManager.disconnect]. *)
Definition get_connection (id : string) (w : Hub) : option nat := dict_get id (_connections w).
Definition get_all_connections (w : Hub) : list nat := dict_values (_connections w).
Definition disconnect (id : string) : M Hub unit :=
  let* c := m_get (get_connection id) in
  match c with
  | None => m_ret tt
  | Some ref =>
      let* _ := conn_disconnect ref in
      m_modify (λ w, set_connections (dict_pop id (_connections w)) w)
  end.

(** [broadcast(event)]: its first step, and the whole of it when nothing else
    runs between its sends. *)
Definition broadcast_start (event : SSEEvent) : M Hub (list nat) :=
  let* active := m_get (λ w, filter (λ ref, is_closed ref w = false) (get_all_connections w)) in
  let* _ := (if opt_str_truthy (ev_id event) then record_event event else m_ret tt) in
  m_ret active.
Fixpoint send_all (refs : list nat) (event : SSEEvent) : M Hub Z :=
  match refs with
  | [] => m_ret 0%Z
  | ref :: rest =>
      let* ok := send ref event false in
      let* n := send_all rest event in
      m_ret ((if ok : bool then 1 else 0) + n)%Z
  end.
Definition broadcast (event : SSEEvent) : M Hub Z :=
  let* active := broadcast_start event in send_all active event.

(** [queue.get()] when an event is there: the stream's side of the queue. *)
Definition queue_get (ref : nat) : M Hub (option SSEEvent) :=
  let* q := m_get (λ w, conn_queue <$> heap w !! ref) in
  match q with
  | Some (e :: rest) => let* _ := m_modify (at_ref ref (set_queue rest)) in m_ret (Some e)
  | _ => m_ret None
  end.
End Hub.

(** [SSEConnection.get_stats()] and [SSEConnectionManager.get_stats()]. *)
Definition conn_stats (c : SSEConnection) : dict json :=
  [("connection_id", JStr (connection_id c));
   ("queue_size", JInt (Z.of_nat (length (conn_queue c))));
   ("dropped_events", JInt (_dropped_events c));
   ("is_closed", JBool (_closed c));
   ("last_event_id", match last_event_id c with Some s => JStr s | None => JNull end)].
Definition get_stats (w : Hub) : dict json :=
  let conns := omap (λ ref, heap w !! ref) (get_all_connections w) in
  [("total_connections", JInt (Z.of_nat (length conns)));
   ("active_connections", JInt (Z.of_nat (length (filter (λ c, _closed c = false) conns))));
   ("connection_stats", JArr (map (λ c, JObj (conn_stats c)) conns));
   ("total_dropped_events", JInt (fold_right Z.add 0%Z (map _dropped_events conns)))].
