(* ===== verification/SseHubSpec.v ===== *)
(** * SseHubSpec: limits, replay and broadcast of the connection registry *)
From S2P Require Import Prelude Dict Json PyValues Context SseEvent SseHub.

(** ** Dict lemmas *)
Section DictSet.
Context {A : Type}.
Implicit Types (d : dict A).
Lemma dict_set_split k v v0 d :
  dict_get k d = Some v0 →
  ∃ d1 d2, d = d1 ++ (k, v0) :: d2 ∧ dict_set k v d = d1 ++ (k, v) :: d2.
Proof.
  induction d as [|[k' v'] d IH]; cbn; [done |]. case_decide as Hk.
  - intros [= ->]. subst. by exists [], d.
  - intros H. destruct (IH H) as (d1 & d2 & -> & ->). by exists ((k', v') :: d1), d2.
Qed.
Lemma dict_get_new k d : dict_get k d = None → k ∉ dict_keys d.
Proof.
  rewrite dict_get_map. unfold dict_map, dict_keys. intros H.
  by apply not_elem_of_list_to_map_2 in H.
Qed.
End DictSet.

(** A filtered list in which one element is replaced, or one is added. *)
Lemma filter_replace_le {A} (P : A → Prop) `{∀ x, Decision (P x)} l1 (x y : A) l2 n :
  (length (filter P (l1 ++ x :: l2)) ≤ n)%nat → (P y → length (filter P (l1 ++ x :: l2)) < n)%nat →
  (length (filter P (l1 ++ y :: l2)) ≤ n)%nat.
Proof.
  rewrite !filter_app, !length_app, !filter_cons. intros H1 H2.
  destruct (decide (P x)), (decide (P y)); cbn in *; try lia. specialize (H2 p). lia.
Qed.

Lemma filter_length_sublist {A} (P : A → Prop) `{∀ x, Decision (P x)} l1 l2 :
  sublist l1 l2 → (length (filter P l1) ≤ length (filter P l2))%nat.
Proof.
  induction 1 as [|x l1 l2 _ IH|x l1 l2 _ IH]; rewrite ?filter_cons; [done | |];
    destruct (decide (P x)); cbn; lia.
Qed.

(** ** The invariant *)
Section Inv.
Context (sse_config : string → outcome json).

(** A limit as a bound: a limit that cannot be read admits nothing. *)
Definition bound (o : outcome Z) : nat := match o with Ret n => Z.to_nat n | Raise _ => 0%nat end.
Definition ip_at (w : Hub) (ref : nat) : option (option string) := ip_of <$> heap w !! ref.
Definition refs_ok (w : Hub) : Prop :=
  ∀ id ref, dict_get id (_connections w) = Some ref →
    ∃ c, heap w !! ref = Some c ∧ connection_id c = id.
Record hub_ok (max_total per_ip : nat) (w : Hub) : Prop := {
  hub_keys : NoDup (dict_keys (_connections w));
  hub_refs : refs_ok w;
  hub_total : (length (_connections w) ≤ max_total)%nat;
  hub_per_ip : ∀ ip, str_truthy ip = true →
    (length (filter (λ ref, ip_at w ref = Some (Some ip)) (dict_values (_connections w))) ≤ per_ip)%nat;
  hub_log : (length (_event_log w) ≤ EVENT_LOG_MAX)%nat;
  hub_log_ids : Forall (λ e, opt_str_truthy (ev_id e) = true) (_event_log w);
  hub_queues : ∀ ref c, heap w !! ref = Some c →
    (0 < conn_maxsize c)%Z → (Z.of_nat (length (conn_queue c)) ≤ conn_maxsize c)%Z;
}.

(** One operation of a client of the registry. *)
Inductive hub_op : Type :=
| OpConnect (fresh : string) (id last_id client_ip api_key : option string)
| OpDisconnect (id : string)
| OpSend (ref : nat) (event : SSEEvent) (record : bool)
| OpPing (ref : nat)
| OpClose (ref : nat)
| OpRecord (event : SSEEvent)
| OpBroadcast (event : SSEEvent)
| OpTake (ref : nat).
Definition run_hub_op (op : hub_op) : M Hub unit :=
  match op with
  | OpConnect fresh id last ip key => let* _ := connect sse_config fresh id last ip key in m_ret tt
  | OpDisconnect id => disconnect id
  | OpSend ref e record => let* _ := send ref e record in m_ret tt
  | OpPing ref => conn_ping ref
  | OpClose ref => conn_disconnect ref
  | OpRecord e => record_event e
  | OpBroadcast e => let* _ := broadcast_start e in m_ret tt
  | OpTake ref => let* _ := queue_get ref in m_ret tt
  end.
Definition run_hub_ops (ops : list hub_op) (w : Hub) : Hub :=
  fold_left (λ w op, (run_hub_op op w).2) ops w.

(** The overrides stay as they are. *)
Definition same_limits (w w' : Hub) : Prop :=
  _max_connections_override w' = _max_connections_override w
  ∧ _max_connections_per_ip_override w' = _max_connections_per_ip_override w.

(** ** Objects change, the registry does not *)
Record touched (w w' : Hub) : Prop := {
  t_limits : same_limits w w';
  t_connections : _connections w' = _connections w;
  t_heap : ∀ ref, (λ c, (connection_id c, ip_of c)) <$> heap w' !! ref
             = (λ c, (connection_id c, ip_of c)) <$> heap w !! ref;
}.
#[local] Instance touched_preorder : PreOrder touched.
Proof.
  split; [by intros w; split |]. intros w1 w2 w3 [[] Hc Hh] [[] Hc' Hh'].
  split; [split | |]; congruence.
Qed.

Lemma touched_at ref f w :
  (∀ c, connection_id (f c) = connection_id c ∧ ip_of (f c) = ip_of c) → touched w (at_ref ref f w).
Proof.
  intros Hf. split; [done | done |]. intros ref'. unfold at_ref, set_heap. cbn.
  rewrite list_lookup_alter. case_decide as Hr; [| done]. subst.
  destruct (heap w !! ref') as [c|]; [| done]. cbn. destruct (Hf c) as [H1 H2]. by rewrite H1, H2.
Qed.

Lemma touched_lookup w w' ref c :
  touched w w' → heap w !! ref = Some c →
  ∃ c', heap w' !! ref = Some c' ∧ connection_id c' = connection_id c ∧ ip_of c' = ip_of c.
Proof.
  intros [_ _ Hh] Hc. specialize (Hh ref). rewrite Hc in Hh.
  destruct (heap w' !! ref) as [c'|]; [| done]. injection Hh as ?? . by exists c'.
Qed.

Lemma touched_ip w w' ref : touched w w' → ip_at w' ref = ip_at w ref.
Proof.
  intros [_ _ Hh]. specialize (Hh ref). unfold ip_at.
  destruct (heap w' !! ref), (heap w !! ref); try done. injection Hh as _ H. cbn. by rewrite H.
Qed.

Lemma touched_ok m p w w' :
  touched w w' → hub_ok m p w →
  (length (_event_log w') ≤ EVENT_LOG_MAX)%nat →
  Forall (λ e, opt_str_truthy (ev_id e) = true) (_event_log w') →
  (∀ ref c, heap w' !! ref = Some c →
    (0 < conn_maxsize c)%Z → (Z.of_nat (length (conn_queue c)) ≤ conn_maxsize c)%Z) →
  hub_ok m p w'.
Proof.
  intros Ht [] Hl Hi Hq. pose proof (t_connections _ _ Ht) as Hc. split; rewrite ?Hc; try done.
  - intros id ref. rewrite Hc. intros H. destruct (hub_refs0 _ _ H) as (c & Hr & Hid).
    destruct (touched_lookup _ _ _ _ Ht Hr) as (c' & ? & ? & _). exists c'. split; congruence.
  - intros ip Hip. rewrite (list_filter_iff _ (λ ref, ip_at w ref = Some (Some ip))); [by apply hub_per_ip0 |].
    intros ref. by rewrite (touched_ip _ _ _ Ht).
Qed.

(** ** Each step keeps the invariant *)
Definition keeps (m : M Hub unit) : Prop :=
  ∀ t p w, hub_ok t p w → hub_ok t p (m w).2 ∧ same_limits w (m w).2.

Lemma log_append_length e l : (length l ≤ EVENT_LOG_MAX → length (log_append e l) ≤ EVENT_LOG_MAX)%nat.
Proof. unfold log_append. rewrite length_drop, length_app. cbn [length]. lia. Qed.

Lemma record_event_touched e w :
  touched w (record_event e w).2 ∧ heap (record_event e w).2 = heap w
  ∧ ((length (_event_log w) ≤ EVENT_LOG_MAX)%nat → Forall (λ e, opt_str_truthy (ev_id e) = true) (_event_log w) →
     (length (_event_log (record_event e w).2) ≤ EVENT_LOG_MAX)%nat
     ∧ Forall (λ e, opt_str_truthy (ev_id e) = true) (_event_log (record_event e w).2)).
Proof.
  unfold record_event. destruct (opt_str_truthy (ev_id e)) eqn:He; cbn; [| by split_and!].
  split_and!; [by split | done |]. intros Hl Hi.
  split; [by apply log_append_length |]. unfold log_append. apply Forall_drop, Forall_app. by repeat constructor.
Qed.

Lemma record_event_keeps e : keeps (record_event e).
Proof.
  intros t p w Hok. destruct (record_event_touched e w) as (Ht & Hh & Hl).
  destruct (Hl (hub_log _ _ _ Hok) (hub_log_ids _ _ _ Hok)) as [Hl1 Hl2].
  split; [| apply Ht]. eapply touched_ok; try done. rewrite Hh. apply Hok.
Qed.

Lemma at_ref_keeps ref f :
  (∀ c, connection_id (f c) = connection_id c ∧ ip_of (f c) = ip_of c
        ∧ conn_maxsize (f c) = conn_maxsize c) →
  ∀ t p w, hub_ok t p w →
  (∀ c, heap w !! ref = Some c → (0 < conn_maxsize c)%Z →
    (Z.of_nat (length (conn_queue c)) ≤ conn_maxsize c)%Z →
    (Z.of_nat (length (conn_queue (f c))) ≤ conn_maxsize c)%Z) →
  hub_ok t p (at_ref ref f w) ∧ same_limits w (at_ref ref f w).
Proof.
  intros Hf t p w Hok Hq. assert (touched w (at_ref ref f w)) as Ht.
  { apply touched_at. intros c. by destruct (Hf c) as (-> & -> & _). }
  split; [| apply Ht]. eapply touched_ok; [done | done | apply Hok | apply Hok |].
  intros ref' c'. unfold at_ref, set_heap. cbn. rewrite list_lookup_alter.
  case_decide as Hr; [subst ref' | by apply Hok].
  destruct (heap w !! ref) as [c|] eqn:Hc; [| done]. intros [= <-].
  destruct (Hf c) as (_ & _ & ->). intros Hm. by apply Hq, (hub_queues _ _ _ Hok ref).
Qed.

Lemma conn_disconnect_keeps ref : keeps (conn_disconnect ref).
Proof. intros t p w Hok. by apply at_ref_keeps. Qed.

Lemma queue_room c e :
  queue_full c = false → (0 < conn_maxsize c)%Z →
  (Z.of_nat (length (conn_queue (put_nowait e c))) ≤ conn_maxsize c)%Z.
Proof.
  unfold queue_full. intros Hf Hm. cbn. rewrite length_app. cbn.
  destruct (Z.ltb_spec 0 (conn_maxsize c)); [cbn in Hf | lia]. apply Z.leb_gt in Hf. lia.
Qed.

Lemma send_keeps ref e record : keeps (let* _ := send ref e record in m_ret tt).
Proof.
  intros t p w Hok. unfold send, m_bind, m_get. destruct (heap w !! ref) as [c|] eqn:Hc; [| done].
  destruct (_closed c); [done |]. destruct (queue_full c) eqn:Hf; cbn [m_modify m_ret snd].
  { by apply at_ref_keeps. }
  assert (hub_ok t p (at_ref ref (put_nowait e) w) ∧ same_limits w (at_ref ref (put_nowait e) w)) as [H1 H2].
  { apply at_ref_keeps; [done | done |]. intros c' Hc' Hm _.
    assert (c' = c) as -> by congruence. by apply queue_room. }
  destruct (record && _); [| done].
  destruct (record_event_keeps e t p _ H1) as [H3 [? ?]]. destruct H2.
  destruct (record_event e _) as [[[]|x] w2]; cbn in *; (split; [done | split; congruence]).
Qed.

Lemma queue_get_keeps ref : keeps (let* _ := queue_get ref in m_ret tt).
Proof.
  intros t p w Hok. unfold queue_get, m_bind, m_get. destruct (heap w !! ref) as [c|] eqn:Hc; [| done].
  cbn [fmap option_fmap option_map]. destruct (conn_queue c) as [|e rest] eqn:Hq; [done |].
  cbn [m_modify m_ret snd]. apply at_ref_keeps; [done | done |].
  intros c' Hc'. assert (c' = c) as -> by congruence. rewrite Hq. cbn. lia.
Qed.

Lemma disconnect_keeps id : keeps (disconnect id).
Proof.
  intros t p w Hok. unfold disconnect, m_bind, m_get.
  destruct (get_connection id w) as [ref|]; [| done].
  destruct (conn_disconnect_keeps ref t p w Hok) as [H1 H2].
  destruct (conn_disconnect ref w) as [[[]|x] w1] eqn:E; [| done]. cbn in *.
  split; [| done]. destruct H1. assert (sublist (dict_pop id (_connections w1)) (_connections w1)) as Hs.
  { apply sublist_filter. }
  split; cbn; try done.
  - by apply dict_pop_NoDup.
  - intros i r. cbn. rewrite dict_get_map, dict_map_pop. intros [_ H]%lookup_delete_Some.
    apply hub_refs0. by rewrite dict_get_map.
  - etransitivity; [by apply sublist_length | done].
  - intros ip Hip. etransitivity; [| by apply (hub_per_ip0 ip)].
    apply filter_length_sublist. apply (fmap_sublist snd), Hs.
Qed.

(** ** Connecting *)
Definition limit_reached (client_ip : option string) (w : Hub) (e : exn) : Prop :=
  _effective_max_connections sse_config w = Raise e
  ∨ (∃ n, _effective_max_connections sse_config w = Ret n
       ∧ (n ≤ Z.of_nat (length (_connections w)))%Z ∧ e = InternalException (max_msg n))
  ∨ ∃ ip, client_ip = Some ip ∧ str_truthy ip = true ∧
      (MAX_CONNECTIONS_PER_IP sse_config w = Raise e
       ∨ ∃ n, MAX_CONNECTIONS_PER_IP sse_config w = Ret n
           ∧ (n ≤ ip_count ip w)%Z ∧ e = InternalException (per_ip_msg n)).

Lemma check_limits_cases client_ip w :
  (check_limits sse_config client_ip w = (Ret tt, w)
   ∧ (length (_connections w) < bound (_effective_max_connections sse_config w))%nat
   ∧ ∀ ip, client_ip = Some ip → str_truthy ip = true →
       (ip_count ip w < Z.of_nat (bound (MAX_CONNECTIONS_PER_IP sse_config w)))%Z)
  ∨ ∃ e, check_limits sse_config client_ip w = (Raise e, w) ∧ limit_reached client_ip w e.
Proof.
  unfold check_limits, limit_reached, m_bind, m_get, m_of_outcome. cbn [id].
  destruct (_effective_max_connections sse_config w) as [n|e]; [| eauto].
  destruct (Z.leb_spec n (Z.of_nat (length (_connections w)))); [right; eexists; eauto 8 |].
  assert (length (_connections w) < bound (Ret n))%nat by (cbn; lia).
  destruct client_ip as [ip|]; [| by left].
  destruct (str_truthy ip) eqn:Hip; [| left; split_and!; [done | done |]; congruence].
  destruct (MAX_CONNECTIONS_PER_IP sse_config w) as [m|e]; [| right; eexists; split; [done | eauto 8]].
  destruct (Z.leb_spec m (ip_count ip w)); [right; eexists; split; [done | eauto 12] |].
  left. split_and!; [done | done |]. intros ? [= <-] _. cbn. lia.
Qed.

(** What [register] makes of the registry. *)
Definition close_old (id : string) (w : Hub) : Hub :=
  match dict_get id (_connections w) with Some ref => at_ref ref set_closed w | None => w end.
Definition registered (id : string) (c : SSEConnection) (w : Hub) : Hub :=
  let w1 := close_old id w in
  set_connections (dict_set id (length (heap w)) (_connections w)) (set_heap (heap w1 ++ [c]) w1).

Lemma close_old_touched id w : touched w (close_old id w).
Proof. unfold close_old. destruct (dict_get id _); [by apply touched_at | done]. Qed.

Lemma close_old_length id w : length (heap (close_old id w)) = length (heap w).
Proof. unfold close_old. destruct (dict_get id _); [apply length_alter | done]. Qed.

Lemma register_run id c w :
  register id c w = (Ret (length (heap w)), registered id c w).
Proof.
  unfold register, registered, m_bind, m_get, m_modify, m_ret.
  pose proof (close_old_length id w) as Hl. revert Hl. unfold close_old.
  destruct (dict_get id (_connections w)) as [ref|]; [| done]. cbn. by intros ->.
Qed.

Lemma close_old_ok t p id w : hub_ok t p w → hub_ok t p (close_old id w).
Proof.
  intros Hok. unfold close_old. destruct (dict_get id _); [| done]. by apply at_ref_keeps.
Qed.

Lemma registered_ip_old id c w ref :
  (ref < length (heap w))%nat → ip_at (registered id c w) ref = ip_at w ref.
Proof.
  intros Hr. rewrite <- (touched_ip _ _ ref (close_old_touched id w)). unfold ip_at, registered. cbn.
  rewrite lookup_app_l; [done |]. by rewrite close_old_length.
Qed.
Lemma registered_ip_new id c w : ip_at (registered id c w) (length (heap w)) = Some (ip_of c).
Proof.
  unfold ip_at, registered. cbn. rewrite <- (close_old_length id w).
  by rewrite lookup_app_r, Nat.sub_diag.
Qed.

Lemma values_valid w : NoDup (dict_keys (_connections w)) → refs_ok w →
  Forall (λ ref, (ref < length (heap w))%nat) (dict_values (_connections w)).
Proof.
  intros Hnd Hr. apply Forall_forall. intros ref Href.
  apply elem_of_dict_values in Href as [id Hid]; [| done]. rewrite <- dict_get_map in Hid.
  destruct (Hr _ _ Hid) as (c & Hc & _). by eapply lookup_lt_Some.
Qed.

Lemma filter_ext_Forall {A} (P Q : A → Prop) `{∀ x, Decision (P x), ∀ x, Decision (Q x)} l :
  Forall (λ x, P x ↔ Q x) l → filter P l = filter Q l.
Proof.
  induction 1 as [|x l Hx _ IH]; [done |]. rewrite !filter_cons, IH.
  destruct (decide (P x)), (decide (Q x)); tauto.
Qed.

Lemma dict_set_length {A} k (v : A) d :
  (length (dict_set k v d) ≤ length d + 1)%nat.
Proof. induction d as [|[k' v'] d IH]; cbn; [lia |]. case_decide; cbn; lia. Qed.

(** Setting a key adds its value to the values a predicate selects, or has it
    replace another. *)
Lemma filter_values_set {A} (P : A → Prop) `{∀ x, Decision (P x)} k v (d : dict A) n :
  (length (filter P (dict_values d)) ≤ n)%nat →
  (P v → length (filter P (dict_values d)) < n)%nat →
  (length (filter P (dict_values (dict_set k v d))) ≤ n)%nat.
Proof.
  intros H1 H2. destruct (dict_get k d) as [v0|] eqn:Hk.
  - destruct (dict_set_split k v v0 d Hk) as (d1 & d2 & -> & ->).
    unfold dict_values in *. rewrite map_app in *. cbn [map snd] in *. by eapply filter_replace_le.
  - rewrite dict_set_new by (by apply dict_get_new).
    unfold dict_values in *. rewrite map_app, filter_app, length_app. cbn [map snd]. rewrite filter_cons.
    destruct (decide (P v)) as [Hp|Hp]; cbn; [specialize (H2 Hp) |]; lia.
Qed.

Lemma registered_ok t p id c w :
  hub_ok t p w → connection_id c = id → conn_queue c = [] →
  (length (_connections w) < t)%nat →
  (∀ ip, ip_of c = Some ip → str_truthy ip = true → (ip_count ip w < Z.of_nat p)%Z) →
  hub_ok t p (registered id c w).
Proof.
  intros Hok Hid Hq Ht Hp. pose proof (close_old_ok _ _ id _ Hok) as Hok1.
  pose proof (values_valid w (hub_keys _ _ _ Hok) (hub_refs _ _ _ Hok)) as Hvalid.
  split.
  - by apply dict_set_NoDup, Hok.
  - intros i r. unfold registered. cbn. rewrite dict_get_map, dict_map_set, <- (close_old_length id w).
    intros [[<- <-]|[Hi Hr]]%lookup_insert_Some.
    + exists c. by rewrite lookup_app_r, Nat.sub_diag.
    + rewrite <- dict_get_map, <- (t_connections _ _ (close_old_touched id w)) in Hr.
      destruct (hub_refs _ _ _ Hok1 _ _ Hr) as (c' & Hc' & ?). exists c'. split; [| done].
      by apply lookup_app_l_Some.
  - unfold registered. cbn. pose proof (dict_set_length id (length (heap w)) (_connections w)). lia.
  - intros ip Hip. apply filter_values_set; cbn [registered set_connections _connections];
      rewrite (filter_ext_Forall _ (λ ref, ip_at w ref = Some (Some ip)));
      try (eapply Forall_impl; [exact Hvalid |]; intros r Hr; cbn beta; by rewrite registered_ip_old).
    + by apply Hok.
    + rewrite registered_ip_new. intros [= Hc]. specialize (Hp ip Hc Hip).
      unfold ip_count in Hp. unfold ip_at. lia.
  - unfold registered. cbn. unfold close_old. destruct (dict_get id _); apply Hok.
  - unfold registered. cbn. unfold close_old. destruct (dict_get id _); apply Hok.
  - intros r c'. unfold registered. cbn. intros [Hr|[_ Hr]]%lookup_app_Some.
    + by apply (hub_queues _ _ _ Hok1 r).
    + apply list_lookup_singleton_Some in Hr as [_ <-]. rewrite Hq. cbn. lia.
Qed.

(** Replaying fills the queue up to its size. *)
Lemma replay_spec evs c :
  ((0 < conn_maxsize c)%Z → (Z.of_nat (length (conn_queue c)) ≤ conn_maxsize c)%Z) →
  replay evs c =
    set_queue (if (0 <? conn_maxsize c)%Z then take (Z.to_nat (conn_maxsize c)) (conn_queue c ++ evs)
               else conn_queue c ++ evs) c.
Proof.
  revert c. induction evs as [|e evs IH]; intros c Hc; cbn [replay].
  - rewrite app_nil_r. destruct (Z.ltb_spec 0 (conn_maxsize c)).
    + rewrite take_ge by (specialize (Hc H); lia). by destruct c.
    + by destruct c.
  - destruct (queue_full c) eqn:Hf.
    + unfold queue_full in Hf. destruct (Z.ltb_spec 0 (conn_maxsize c)); [| done].
      cbn in Hf. apply Z.leb_le in Hf. rewrite take_app_length' by (specialize (Hc H); lia).
      by destruct c.
    + rewrite IH by exact (queue_room c e Hf). cbn.
      rewrite <- app_assoc. by destruct c.
Qed.

Lemma replay_frame evs c :
  connection_id (replay evs c) = connection_id c ∧ ip_of (replay evs c) = ip_of c
  ∧ conn_maxsize (replay evs c) = conn_maxsize c.
Proof.
  revert c. induction evs as [|e evs IH]; intros c; cbn [replay]; [done |].
  destruct (queue_full c); [done | by apply (IH (put_nowait e c))].
Qed.

Lemma connect_keeps fresh id last ip key w :
  let t := bound (_effective_max_connections sse_config w) in
  let p := bound (MAX_CONNECTIONS_PER_IP sse_config w) in
  hub_ok t p w →
  let w' := (connect sse_config fresh id last ip key w).2 in hub_ok t p w' ∧ same_limits w w'.
Proof.
  cbv zeta. intros Hok. unfold connect, m_bind, m_of_outcome, m_get.
  destruct (max_queue_size sse_config) as [n|e]; [| done].
  destruct (check_limits_cases ip w) as [(-> & Ht & Hp)|(e & -> & _)]; [| done].
  set (id' := if opt_str_truthy id then _ else _).
  set (c := mkConn id' _ _ _ _ _ _). rewrite register_run.
  assert (hub_ok (bound (_effective_max_connections sse_config w))
    (bound (MAX_CONNECTIONS_PER_IP sse_config w)) (registered id' c w)) as Hok1.
  { by apply registered_ok. }
  assert (same_limits w (registered id' c w)) as Hsame.
  { unfold registered. destruct (t_limits _ _ (close_old_touched id' w)). by split. }
  destruct (opt_str_truthy last); [| done]. cbn [m_modify m_ret snd].
  destruct (at_ref_keeps (length (heap w)) (replay (events_after (default "" last) (registered id' c w)))
    (replay_frame _) _ _ _ Hok1) as [H1 H2].
  { intros d Hd Hm Hl. rewrite replay_spec by done. cbn.
    destruct (Z.ltb_spec 0 (conn_maxsize d)); [| lia]. rewrite length_take. lia. }
  split; [done |]. destruct Hsame, H2. split; congruence.
Qed.

Lemma limits_fixed w w' : same_limits w w' →
  _effective_max_connections sse_config w' = _effective_max_connections sse_config w
  ∧ MAX_CONNECTIONS_PER_IP sse_config w' = MAX_CONNECTIONS_PER_IP sse_config w.
Proof. intros [H1 H2]. unfold _effective_max_connections, MAX_CONNECTIONS_PER_IP. by rewrite H1, H2. Qed.

Definition within_limits (w : Hub) : Prop :=
  hub_ok (bound (_effective_max_connections sse_config w)) (bound (MAX_CONNECTIONS_PER_IP sse_config w)) w.

Lemma run_hub_op_keeps op w :
  within_limits w → within_limits (run_hub_op op w).2 ∧ same_limits w (run_hub_op op w).2.
Proof.
  intros Hok.
  assert (∀ w', hub_ok (bound (_effective_max_connections sse_config w))
      (bound (MAX_CONNECTIONS_PER_IP sse_config w)) w' ∧ same_limits w w' →
    within_limits w' ∧ same_limits w w') as Hfix.
  { intros w' [H1 H2]. split; [| done]. unfold within_limits.
    by destruct (limits_fixed w w' H2) as [-> ->]. }
  apply Hfix. destruct op; cbn [run_hub_op].
  - pose proof (connect_keeps fresh id last_id client_ip api_key w Hok) as H.
    unfold m_bind. by destruct (connect _ _ _ _ _ _ w) as [[]?].
  - by apply disconnect_keeps.
  - by apply send_keeps.
  - by apply send_keeps.
  - by apply conn_disconnect_keeps.
  - by apply record_event_keeps.
  - pose proof (record_event_keeps event _ _ w Hok) as H.
    unfold broadcast_start, m_bind, m_get. destruct (opt_str_truthy (ev_id event)); [| done].
    by destruct (record_event event w) as [[]?].
  - by apply queue_get_keeps.
Qed.
End Inv.

Lemma init_within_limits sse_config o1 o2 : within_limits sse_config (mkHub [] [] [] o1 o2).
Proof. split; cbn; try done; first [apply NoDup_nil_2 | lia]. Qed.

Lemma run_hub_ops_keeps sse_config ops w :
  within_limits sse_config w →
  within_limits sse_config (run_hub_ops sse_config ops w) ∧ same_limits w (run_hub_ops sse_config ops w).
Proof.
  revert w. induction ops as [|op ops IH]; intros w Hw; [done |].
  destruct (run_hub_op_keeps sse_config op w Hw) as [H1 [? ?]].
  destruct (IH _ H1) as [H2 [? ?]]. split; [exact H2 | split; etransitivity; eassumption].
Qed.

(** C30: Whatever clients do - connect, reconnect, send, broadcast, close, read,
    in any order - the registry stays within the limits in force: no more
    connections than the total limit, no more per address than the limit per
    address, every queue within its size, the replay log within its maximum and
    every key registered to an object with that id.  A limit that cannot be
    read admits nothing. *)
Theorem registry_within_limits (sse_config : string → outcome json) (o1 o2 : option Z) (ops : list hub_op) :
  let w0 := mkHub [] [] [] o1 o2 in
  let w := run_hub_ops sse_config ops w0 in
  (length (_connections w) ≤ bound (_effective_max_connections sse_config w0))%nat
  ∧ (∀ ip, str_truthy ip = true → (ip_count ip w ≤ Z.of_nat (bound (MAX_CONNECTIONS_PER_IP sse_config w0)))%Z)
  ∧ (length (_event_log w) ≤ EVENT_LOG_MAX)%nat
  ∧ (∀ ref c, heap w !! ref = Some c → (0 < conn_maxsize c)%Z →
       (Z.of_nat (length (conn_queue c)) ≤ conn_maxsize c)%Z)
  ∧ NoDup (dict_keys (_connections w)) ∧ refs_ok w.
Proof.
  cbv zeta. set (w0 := mkHub [] [] [] o1 o2).
  destruct (run_hub_ops_keeps sse_config ops w0 (init_within_limits _ _ _)) as [Hok Hsame].
  unfold within_limits in Hok.
  destruct (limits_fixed sse_config _ _ Hsame) as [E1 E2]. rewrite E1, E2 in Hok.
  split_and!; try apply Hok. intros ip Hip.
  pose proof (hub_per_ip _ _ _ Hok ip Hip) as Hp. unfold ip_count. unfold ip_at in Hp. lia.
Qed.

(** The id in force, and the events a new connection's queue starts with. *)
Definition id_in_force (fresh : string) (id : option string) : string :=
  if opt_str_truthy id then default fresh id else fresh.
Definition first_events (n : Z) (evs : list SSEEvent) : list SSEEvent :=
  if (0 <? n)%Z then take (Z.to_nat n) evs else evs.
(** [evs] is what the log [l] holds after the first event with id [last]. *)
Definition replayed (last : option string) (l evs : list SSEEvent) : Prop :=
  match last with
  | Some i =>
      if str_truthy i then
        (∃ l1 e, l = l1 ++ e :: evs ∧ ev_id e = Some i ∧ Forall (λ e, ev_id e ≠ Some i) l1)
        ∨ Forall (λ e, ev_id e ≠ Some i) l ∧ evs = []
      else evs = []
  | None => evs = []
  end.

Lemma after_id_replayed i l : str_truthy i = true → replayed (Some i) l (after_id i l).
Proof.
  intros Hi. unfold replayed. rewrite Hi. induction l as [|e l IH]; cbn; [by right |].
  case_decide as He; [left; by exists [], e |].
  destruct IH as [(l1 & e' & Hl & He' & Hl1)|[Hl Hn]].
  - left. exists (e :: l1), e'. split_and!; [by rewrite Hl at 1 | done | by apply Forall_cons].
  - right. by split; [apply Forall_cons | rewrite Hn].
Qed.

Lemma registered_new i c w : heap (registered i c w) !! length (heap w) = Some c.
Proof. unfold registered. cbn. by rewrite <- (close_old_length i w), lookup_app_r, Nat.sub_diag. Qed.

Lemma registered_frame i c w r :
  r ≠ length (heap w) →
  heap (registered i c w) !! r
    = (if decide (dict_get i (_connections w) = Some r) then set_closed else λ c, c) <$> heap w !! r.
Proof.
  intros Hr. unfold registered. cbn. destruct (decide (r < length (heap w))%nat) as [Hlt|Hge].
  - rewrite lookup_app_l by (by rewrite close_old_length). unfold close_old.
    destruct (dict_get i (_connections w)) as [old|]; [| by rewrite option_fmap_id].
    unfold at_ref, set_heap. cbn. rewrite list_lookup_alter.
    destruct (decide (old = r)) as [->|Hne]; [by rewrite decide_True |].
    rewrite decide_False by congruence. by rewrite option_fmap_id.
  - rewrite (lookup_ge_None_2 (heap w)) by lia. cbn.
    apply lookup_ge_None_2. rewrite length_app, close_old_length. cbn. lia.
Qed.

Lemma not_reached sse_config client_ip w :
  (length (_connections w) < bound (_effective_max_connections sse_config w))%nat →
  (∀ ip, client_ip = Some ip → str_truthy ip = true →
     (ip_count ip w < Z.of_nat (bound (MAX_CONNECTIONS_PER_IP sse_config w)))%Z) →
  ∀ e, ¬ limit_reached sse_config client_ip w e.
Proof.
  intros Ht Hp e [H|[(n & H & Hn & _)|(ip & -> & Hip & H)]].
  - rewrite H in Ht. cbn in Ht. lia.
  - rewrite H in Ht. cbn in Ht. lia.
  - specialize (Hp ip eq_refl Hip). assert (0 ≤ ip_count ip w)%Z by (unfold ip_count; lia).
    destruct H as [H|(n & H & Hn & _)]; rewrite H in Hp; cbn in Hp; lia.
Qed.

(** C31: Connecting either refuses - a limit is reached, or the configuration
    cannot be read - and changes nothing, or registers a new open connection
    under its id: its queue holds, up to its size and in order, the logged
    events after the last id the client saw (none when the log does not have
    that id); the connection the id had before is closed; every other
    connection, every other key and the log are as they were. *)
Theorem connect_registers_or_refuses (sse_config : string → outcome json) (fresh : string)
    (id last_id client_ip api_key : option string) (w : Hub) :
  let i := id_in_force fresh id in
  let '(o, w') := connect sse_config fresh id last_id client_ip api_key w in
  match o with
  | Raise e => w' = w ∧ (max_queue_size sse_config = Raise e ∨ limit_reached sse_config client_ip w e)
  | Ret ref =>
      (∀ e, ¬ limit_reached sse_config client_ip w e)
      ∧ (heap w !! ref = None)
      ∧ dict_map (_connections w') = <[i := ref]> (dict_map (_connections w))
      ∧ _event_log w' = _event_log w
      ∧ (∃ n evs, max_queue_size sse_config = Ret n ∧ replayed last_id (_event_log w) evs
           ∧ heap w' !! ref = Some (mkConn i (connect_context i client_ip api_key last_id) last_id
                                     (first_events n evs) n false 0))
      ∧ ∀ r, r ≠ ref → heap w' !! r =
          (if decide (dict_get i (_connections w) = Some r) then set_closed else λ c, c) <$> heap w !! r
  end.
Proof.
  cbv zeta. unfold connect. fold (id_in_force fresh id). set (i := id_in_force fresh id).
  unfold m_bind, m_of_outcome. destruct (max_queue_size sse_config) as [n|e]; [| by split; [| left]].
  destruct (check_limits_cases sse_config client_ip w) as [(-> & Ht & Hp)|(e & -> & He)];
    [| by split; [| right]].
  set (c := mkConn _ _ _ _ _ _ _). rewrite register_run.
  assert (∀ f r, r ≠ length (heap w) →
    heap (at_ref (length (heap w)) f (registered i c w)) !! r
      = (if decide (dict_get i (_connections w) = Some r) then set_closed else λ c, c) <$> heap w !! r) as Hframe.
  { intros f r Hr. unfold at_ref, set_heap. cbn. rewrite list_lookup_alter_ne by done.
    by apply registered_frame. }
  assert (∀ f, heap (at_ref (length (heap w)) f (registered i c w)) !! length (heap w) = Some (f c)) as Hnew.
  { intros f. unfold at_ref. cbn [heap set_heap]. by rewrite list_lookup_alter_eq, registered_new. }
  assert (∀ e, ¬ limit_reached sse_config client_ip w e) as Hfree by (by apply not_reached).
  assert (heap w !! length (heap w) = None) as Hnone by (by apply lookup_ge_None).
  assert (replayed last_id (_event_log w)
    (if opt_str_truthy last_id then after_id (default "" last_id) (_event_log w) else [])) as Hrep.
  { destruct last_id as [l|]; [| done]. pose proof (after_id_replayed l (_event_log w)) as H.
    unfold replayed in *. cbn [opt_str_truthy]. by destruct (str_truthy l); [apply H |]. }
  assert (_event_log (registered i c w) = _event_log w) as Hlog.
  { unfold registered, close_old. by destruct (dict_get i _). }
  destruct (opt_str_truthy last_id) eqn:Hl; cbn [m_modify m_ret].
  - split_and!; try done; [cbn; apply dict_map_set | | by intros r Hr; apply Hframe].
    exists n, (after_id (default "" last_id) (_event_log w)). split_and!; [done | done |].
    rewrite Hnew, replay_spec by (unfold c; cbn [conn_maxsize conn_queue length]; lia). unfold events_after. by rewrite Hlog.
  - split_and!; try done; [apply dict_map_set | | ].
    + exists n, []. split_and!; [done | done |]. etransitivity; [apply registered_new |]. unfold first_events, c.
      by destruct (0 <? n)%Z; rewrite ?take_nil.
    + intros r Hr. by apply registered_frame.
Qed.

(** ** Broadcast *)
Definition deliver_to (event : SSEEvent) (c : SSEConnection) : SSEConnection :=
  if queue_full c then count_drop c else put_nowait event c.
Definition reachable_conn (w : Hub) (ref : nat) : Prop :=
  ref ∈ dict_values (_connections w) ∧ is_closed ref w = false.
#[local] Instance reachable_conn_dec w ref : Decision (reachable_conn w ref).
Proof. apply _. Defined.
Definition has_room (w : Hub) (ref : nat) : bool :=
  match heap w !! ref with Some c => negb (queue_full c) | None => false end.

Lemma send_unrecorded ref e c w :
  heap w !! ref = Some c → _closed c = false →
  send ref e false w = (Ret (negb (queue_full c)), at_ref ref (deliver_to e) w).
Proof.
  intros Hc Ho. unfold send, m_bind, m_get. rewrite Hc, Ho.
  assert (∀ f g, f c = g c → at_ref ref f w = at_ref ref g w) as Hext.
  { intros f g Hfg. unfold at_ref. f_equal. apply list_eq. intros r. rewrite !list_lookup_alter.
    case_decide; [| done]. subst r. rewrite Hc. cbn. by rewrite Hfg. }
  destruct (queue_full c) eqn:Hf; cbn [m_modify m_ret andb];
    f_equal; apply Hext; unfold deliver_to; by rewrite Hf.
Qed.

Lemma send_all_spec refs e w :
  NoDup refs → Forall (λ ref, is_closed ref w = false) refs →
  ∃ w', send_all refs e w = (Ret (Z.of_nat (length (filter (λ ref, has_room w ref = true) refs))), w')
    ∧ _connections w' = _connections w ∧ _event_log w' = _event_log w
    ∧ ∀ r, heap w' !! r = (if decide (r ∈ refs) then deliver_to e else λ c, c) <$> heap w !! r.
Proof.
  revert w. induction refs as [|ref refs IH]; intros w Hnd Ho.
  { exists w. split_and!; [done .. |]. intros r. rewrite decide_False by apply not_elem_of_nil.
    by rewrite option_fmap_id. }
  apply NoDup_cons in Hnd as [Hni Hnd]. apply Forall_cons in Ho as [Ho1 Ho].
  unfold is_closed in Ho1. destruct (heap w !! ref) as [c|] eqn:Hc; [| done].
  cbn [send_all]. rewrite (bind_ret_run _ _ _ _ _ (send_unrecorded ref e c w Hc Ho1)).
  set (w1 := at_ref ref (deliver_to e) w).
  assert (∀ r, r ≠ ref → heap w1 !! r = heap w !! r) as Hne.
  { intros r Hr. unfold w1, at_ref. cbn. by apply list_lookup_alter_ne. }
  assert (∀ r, r ∈ refs → heap w1 !! r = heap w !! r) as Hin by (intros r Hr; apply Hne; by intros ->).
  destruct (IH w1 Hnd) as (w' & Hrun & Hcs & Hl & Hh).
  { rewrite Forall_forall in Ho |- *. intros r Hr. specialize (Ho r Hr).
    unfold is_closed in *. by rewrite Hin. }
  rewrite (bind_ret_run _ _ _ _ _ Hrun). exists w'. split_and!; [| done | done |].
  - unfold m_ret. rewrite filter_cons.
    assert (has_room w ref = negb (queue_full c)) as -> by (unfold has_room; by rewrite Hc).
    assert (filter (λ r, has_room w1 r = true) refs = filter (λ r, has_room w r = true) refs) as ->.
    { apply filter_ext_Forall, Forall_forall. intros r Hr. unfold has_room. by rewrite Hin. }
    destruct (queue_full c); cbn [negb]; [by rewrite decide_False |].
    rewrite decide_True by done. cbn [length]. do 2 f_equal. lia.
  - intros r. rewrite Hh. destruct (decide (r = ref)) as [->|Hr].
    + rewrite decide_False, option_fmap_id by done. rewrite decide_True by (by left).
      unfold w1, at_ref. cbn [heap set_heap]. by rewrite list_lookup_alter_eq.
    + rewrite Hne by done. destruct (decide (r ∈ refs)); [by rewrite decide_True by (by right) |].
      by rewrite decide_False by (by intros [?|?]%elem_of_cons).
Qed.

Lemma refs_NoDup w : NoDup (dict_keys (_connections w)) → refs_ok w → NoDup (dict_values (_connections w)).
Proof.
  unfold refs_ok, dict_values, dict_keys. intros Hnd Hrefs.
  assert (∀ k r, (k, r) ∈ _connections w → ∃ c, heap w !! r = Some c ∧ connection_id c = k) as Hin.
  { intros k r Hkr. apply Hrefs. rewrite dict_get_map. by apply elem_of_list_to_map_1. }
  clear Hrefs. induction (_connections w) as [|[k r] d IH]; [apply NoDup_nil_2 |].
  cbn in *. apply NoDup_cons in Hnd as [Hk Hnd]. apply NoDup_cons. split.
  - intros ([k' r'] & Hr & Hd)%list_elem_of_fmap. cbn in Hr. subst r'.
    destruct (Hin k r) as (c & Hc & Hck); [by left |].
    destruct (Hin k' r) as (c' & Hc' & Hck'); [by right |].
    apply Hk. apply list_elem_of_fmap. exists (k', r). split; [cbn; congruence | done].
  - apply IH; [done |]. intros k' r' Hd. apply Hin. by right.
Qed.

(** A broadcast reaches every registered open connection whose queue has
    room, exactly once, and returns how many; those that are full count one
    more dropped event; all others are untouched.  An event with an id is logged
    once, however many receive it. *)
Theorem broadcast_reaches_open (event : SSEEvent) (w : Hub) :
  NoDup (dict_keys (_connections w)) → refs_ok w →
  let active := filter (λ ref, is_closed ref w = false) (dict_values (_connections w)) in
  ∃ w', broadcast event w
          = (Ret (Z.of_nat (length (filter (λ ref, has_room w ref = true) active))), w')
  ∧ _connections w' = _connections w
  ∧ _event_log w' = (if opt_str_truthy (ev_id event) then log_append event (_event_log w) else _event_log w)
  ∧ ∀ ref, heap w' !! ref =
      (if decide (reachable_conn w ref) then deliver_to event else λ c, c) <$> heap w !! ref.
Proof.
  intros Hnd Hrefs active. unfold broadcast.
  set (w1 := if opt_str_truthy (ev_id event) then set_log (log_append event (_event_log w)) w else w).
  assert (broadcast_start event w = (Ret active, w1)) as Hstart.
  { unfold broadcast_start, record_event, m_bind, m_get, w1. by destruct (opt_str_truthy _). }
  assert (heap w1 = heap w ∧ _connections w1 = _connections w) as [Hh1 Hc1].
  { unfold w1. by destruct (opt_str_truthy _). }
  rewrite (bind_ret_run _ _ _ _ _ Hstart).
  destruct (send_all_spec active event w1) as (w' & Hrun & Hc & Hl & Hh).
  - apply NoDup_filter. by apply refs_NoDup.
  - apply Forall_forall. intros r [Hr _]%list_elem_of_filter. unfold is_closed in *. by rewrite Hh1.
  - exists w'. split_and!.
    + rewrite Hrun. do 4 f_equal. apply filter_ext_Forall, Forall_forall. intros r _.
      unfold has_room. by rewrite Hh1.
    + congruence.
    + rewrite Hl. unfold w1. by destruct (opt_str_truthy _).
    + intros r. rewrite Hh, Hh1. destruct (decide (r ∈ active)) as [[H1 H2]%list_elem_of_filter|Hr].
      * by rewrite decide_True by (by split).
      * rewrite decide_False; [done |]. intros [H1 H2]. apply Hr. by apply list_elem_of_filter.
Qed.

Module SseHubExamples.
Definition conf (name : string) : outcome json :=
  if String.eqb name "maxQueueSize" then Ret (JInt 2)
  else if String.eqb name "maxConnectionsPerIP" then Ret (JStr "2") else Ret JNull.
Definition tick (i : string) : SSEEvent := new_sse_event (JInt 1) (Some "tick") (Some i).
Definition session : list hub_op :=
  [OpConnect "u1" None None (Some "ip") None; OpBroadcast (tick "1"); OpSend 0 (tick "1") false;
   OpSend 0 (tick "2") true; OpBroadcast (tick "3"); OpConnect "u2" (Some "b") (Some "1") (Some "ip") None;
   OpConnect "u3" (Some "b") None (Some "other") None; OpConnect "u4" None None (Some "ip") None;
   OpSend 0 (tick "4") true].
Definition w_session : Hub := run_hub_ops conf session hub_init.

(** [b] is replayed [2] and [3] and then replaced; the last address is full, and
    so is the first queue. *)
Example session_end :
  (dict_keys (_connections w_session), dict_values (_connections w_session)) = (["u1"; "b"; "u4"], [0; 2; 3]%nat)
  ∧ map (λ c, (map ev_id (conn_queue c), _closed c, _dropped_events c)) (heap w_session)
    = [([Some "1"; Some "2"], false, 1%Z); ([Some "2"; Some "3"], true, 0%Z); ([], false, 0%Z); ([], false, 0%Z)].
Proof. split; vm_compute; reflexivity. Qed.

Lemma session_ok : within_limits conf w_session.
Proof. apply run_hub_ops_keeps, init_within_limits. Qed.

Lemma registry_within_limits_witness :
  str_truthy "ip" = true ∧ (ip_count "ip" w_session ≤ 2)%Z.
Proof.
  split; [done |]. pose proof (registry_within_limits conf None None session) as (_ & H & _).
  exact (H "ip" eq_refl).
Defined.

Lemma connect_registers_or_refuses_witness :
  (connect conf "u5" None (Some "2") (Some "new") None w_session).1 = Ret 4%nat
  ∧ ∃ n evs, max_queue_size conf = Ret n ∧ replayed (Some "2") (_event_log w_session) evs.
Proof.
  pose proof (connect_registers_or_refuses conf "u5" None (Some "2") (Some "new") None w_session) as H.
  cbv zeta in H.
  assert ((connect conf "u5" None (Some "2") (Some "new") None w_session).1 = Ret 4%nat) as E
    by (vm_compute; reflexivity).
  split; [exact E |]. destruct (connect _ _ _ _ _ _ w_session) as [o w']. cbn in E. subst o.
  destruct H as (_ & _ & _ & _ & (n & evs & Hn & Hr & _) & _). by exists n, evs.
Defined.

Lemma broadcast_reaches_open_witness :
  ∃ w', broadcast (tick "5") w_session = (Ret 2%Z, w') ∧ _connections w' = _connections w_session.
Proof.
  destruct (broadcast_reaches_open (tick "5") w_session) as (w' & Hb & Hc & _).
  - apply session_ok.
  - apply session_ok.
  - exists w'. split; [| exact Hc]. rewrite Hb. by vm_compute.
Defined.
End SseHubExamples.
