(* ===== verification/SseStream.v ===== *)
(** * SseStream: the stream of one client

    [sse_stream] and [_consume_handler_events] of
    [src/pypepper/network/http/sse/stream.py], with [BaseSSEHandler] of
    [handlers.py].  A stream shares the event loop with others: whatever runs
    while it waits - other connections, broadcasts, generators - is part of its
    [turn]s, as is what the framework does to it (the client goes away; the
    response task is cancelled or the generator closed). *)
From S2P Require Import Prelude Dict Json PyValues Context.
From S2P Require Import SseEvent SseHub SseHubSpec.

(** [ISSEHandler]; [generate_events(connection)] yields the events
    [generate connection 0], [generate connection 1], ... and ends, or raises, at
    the first [None]. *)
Record ISSEHandler : Type := mkHandler {
  on_connect : nat → M Hub unit;
  on_disconnect : nat → M Hub unit;
  generate_events : nat → nat → option SSEEvent;
}.

(** [await connection.send(...)] of a greeting that carries the connection's id. *)
Definition greet (hello : string → SSEEvent) (ref : nat) : M Hub unit :=
  let* c := m_get (λ w, heap w !! ref) in
  match c with
  | Some c => let* _ := send ref (hello (connection_id c)) true in m_ret tt
  | None => m_ret tt
  end.
(** [BaseSSEHandler]: a welcome message, no events. *)
Definition base_on_connect (ref : nat) : M Hub unit := greet welcome ref.
Definition BaseSSEHandler (generate : nat → nat → option SSEEvent) : ISSEHandler :=
  mkHandler base_on_connect (λ _, m_ret tt) generate.
Definition EchoSSEHandler (messages : option (list string)) : ISSEHandler :=
  BaseSSEHandler (λ _ i, echo_events (echo_messages messages) !! i).
Definition CounterSSEHandler (start end_ : Z) : ISSEHandler :=
  BaseSSEHandler (λ _ i, counter_events start end_ !! i).

(** The task of [_consume_handler_events(handler, connection)]. *)
Record gen_task : Type := mkGen { g_handler : ISSEHandler; g_conn : nat; g_next : nat; g_alive : bool }.
Record Streams : Type := mkStreams { hub : Hub; gens : list gen_task }.
Definition on_hub {A} (m : M Hub A) : M Streams A :=
  λ s, let '(o, h) := m (hub s) in (o, mkStreams h (gens s)).
Definition set_gens (g : list gen_task) (s : Streams) : Streams := mkStreams (hub s) g.

Definition finish_gen (g : gen_task) : gen_task := mkGen (g_handler g) (g_conn g) (g_next g) false.
Definition advance_gen (g : gen_task) : gen_task := mkGen (g_handler g) (g_conn g) (Datatypes.S (g_next g)) (g_alive g).
(** One event of a generator task, or its end. *)
Definition gen_step (i : nat) : M Streams unit :=
  let* g := m_get (λ s, gens s !! i) in
  match g with
  | None => m_ret tt
  | Some g =>
      if g_alive g then
        match generate_events (g_handler g) (g_conn g) (g_next g) with
        | Some event =>
            let* _ := m_modify (λ s, set_gens (alter advance_gen i (gens s)) s) in
            let* _ := on_hub (send (g_conn g) event true) in m_ret tt
        | None => m_modify (λ s, set_gens (alter finish_gen i (gens s)) s)
        end
      else m_ret tt
  end.
Definition cancel_gen (i : nat) : M Streams unit :=
  m_modify (λ s, set_gens (alter finish_gen i (gens s)) s).

Section Stream.
Context (sse_config : string → outcome json) (validate : SSEEvent → outcome unit).

(** What other tasks do. *)
Inductive other_step : Type :=
| OtherHub (op : hub_op)
| OtherGen (i : nat).
Definition run_other (o : other_step) : M Streams unit :=
  match o with
  | OtherHub op => on_hub (run_hub_op sse_config op)
  | OtherGen i => gen_step i
  end.
Definition run_others (os : list other_step) (s : Streams) : Streams :=
  fold_left (λ s o, (run_other o s).2) os s.

(** One iteration of [while not await request.is_disconnected()]. *)
Inductive turn : Type :=
| Gone (others : list other_step)              (** the client has gone: the loop is left *)
| Wait (others : list other_step)              (** an event, or the timeout, after these *)
| Killed (others : list other_step) (e : exn). (** raised into the waiting stream *)

(** How a stream's loop ends. *)
Inductive loop_end : Type :=
| LoopLeft
| LoopRaised (e : exn)
| LoopOpen.

(** One waited-for event: what is yielded, or [None] for the [break] after an
    exception. *)
Definition heartbeat_chunk : M Streams (option string) :=
  let* sse_event := m_of_outcome (to_server_sent_event validate heartbeat) in
  m_ret (Some (_serialize_sse_event sse_event)).
Definition next_chunk (ref : nat) : M Streams (option string) :=
  let* event := on_hub (queue_get ref) in
  match event with
  | None => heartbeat_chunk
  | Some event =>
      match to_server_sent_event validate event with
      | Ret sse_event => m_ret (Some (_serialize_sse_event sse_event))
      | Raise x =>
          if is_timeout x then heartbeat_chunk
          else if is_exception x then m_ret None else m_raise x
      end
  end.
Fixpoint stream_loop (ref : nat) (turns : list turn) : M Streams (list string * loop_end) :=
  match turns with
  | [] => m_ret ([], LoopOpen)
  | Gone others :: _ => let* _ := m_modify (run_others others) in m_ret ([], LoopLeft)
  | Killed others e :: _ =>
      let* _ := m_modify (run_others others) in m_ret ([], LoopRaised e)
  | Wait others :: rest =>
      let* _ := m_modify (run_others others) in
      λ s, match next_chunk ref s with
           | (Ret (Some chunk), s') =>
               match stream_loop ref rest s' with
               | (Ret (out, e), s'') => (Ret (chunk :: out, e), s'')
               | (Raise x, s'') => (Raise x, s'')
               end
           | (Ret None, s') => (Ret ([], LoopLeft), s')
           | (Raise x, s') => (Ret ([], LoopRaised x), s')
           end
  end.

(** The [finally] clause. *)
Definition stream_close (handler : ISSEHandler) (ref : nat) : M Streams unit :=
  let* _ := on_hub (on_disconnect handler ref) in
  let* id := m_get (λ s, connection_id <$> heap (hub s) !! ref) in
  match id with
  | Some id => on_hub (disconnect id)
  | None => m_ret tt
  end.

(** The body of the [try]. *)
Definition stream_body (handler : ISSEHandler) (ref : nat) (turns : list turn)
  : M Streams (list string * loop_end) :=
  let* _ := on_hub (on_connect handler ref) in
  let* task := m_get (λ s, length (gens s)) in
  let* _ := m_modify (λ s, set_gens (gens s ++ [mkGen handler ref 0 true]) s) in
  let* r := stream_loop ref turns in
  let* _ := (match r.2 with LoopLeft => cancel_gen task | _ => m_ret tt end) in
  m_ret r.

(** [sse_stream(request, handler, connection_id)]: what it yields and how it
    ends; a stream whose turns run out is still open. *)
Definition stream_end (handler : ISSEHandler) (ref : nat) (out : list string) (e : loop_end)
  : M Streams (list string * loop_end) :=
  λ s, match stream_close handler ref s with
       | (Ret _, s') => (Ret (out, e), s')
       | (Raise x, s') => (Ret (out, LoopRaised x), s')
       end.
Definition sse_stream (handler : ISSEHandler) (fresh : string)
    (id last_id client_ip api_key : option string) (turns : list turn)
  : M Streams (list string * loop_end) :=
  let* ref := on_hub (connect sse_config fresh id last_id client_ip api_key) in
  λ s, match stream_body handler ref turns s with
       | (Ret (out, LoopOpen), s') => (Ret (out, LoopOpen), s')
       | (Ret (out, e), s') => stream_end handler ref out e s'
       | (Raise x, s') => stream_end handler ref [] (LoopRaised x) s'
       end.
End Stream.
