(* ===== verification/SseStreamSpec.v ===== *)
(** * SseStreamSpec: what a stream leaves behind when it ends *)
From S2P Require Import Prelude Dict Json PyValues Context.
From S2P Require Import SseEvent SseHub SseHubSpec SseStream.

(** ** Objects keep their id *)
Definition ids_kept (w w' : Hub) : Prop :=
  ∀ r c, heap w !! r = Some c → ∃ c', heap w' !! r = Some c' ∧ connection_id c' = connection_id c.
#[local] Instance ids_kept_preorder : PreOrder ids_kept.
Proof.
  split; [intros w r c H; by exists c |]. intros w1 w2 w3 H1 H2 r c H.
  destruct (H1 r c H) as (c2 & E2 & I2). destruct (H2 r c2 E2) as (c3 & E3 & I3).
  exists c3. split; [done | congruence].
Qed.

Lemma touched_ids w w' : touched w w' → ids_kept w w'.
Proof. intros Ht r c Hc. destruct (touched_lookup _ _ _ _ Ht Hc) as (c' & ? & ? & _). by exists c'. Qed.
Lemma same_heap_ids w w' : heap w' = heap w → ids_kept w w'.
Proof. intros H r c Hc. exists c. by rewrite H. Qed.
Lemma registered_ids i c w : ids_kept w (registered i c w).
Proof.
  intros r c0 Hc. apply lookup_lt_Some in Hc as Hlt.
  rewrite registered_frame, Hc by lia. case_decide; cbn; by eexists.
Qed.
#[local] Hint Resolve touched_ids same_heap_ids : core.

Lemma at_ref_ids ref f :
  (∀ c, connection_id (f c) = connection_id c ∧ ip_of (f c) = ip_of c) → preserves ids_kept (m_modify (at_ref ref f)).
Proof. intros Hf. apply preserves_modify. intros w. by apply touched_ids, touched_at. Qed.
Lemma record_event_ids e : preserves ids_kept (record_event e).
Proof.
  unfold record_event. apply preserves_if; [| auto with preserves].
  apply preserves_modify. by intros w; apply same_heap_ids.
Qed.
#[local] Hint Resolve record_event_ids : preserves.
#[local] Hint Extern 2 (preserves ids_kept (m_modify (at_ref _ _))) => by apply at_ref_ids : preserves.

Lemma send_ids ref e record : preserves ids_kept (send ref e record).
Proof. unfold send. prove_preserves. Qed.
Lemma queue_get_ids ref : preserves ids_kept (queue_get ref).
Proof. unfold queue_get. prove_preserves. Qed.
Lemma disconnect_ids id : preserves ids_kept (disconnect id).
Proof.
  unfold disconnect, conn_disconnect. prove_preserves. apply preserves_modify.
  by intros w; apply same_heap_ids.
Qed.
Lemma register_ids i c : preserves ids_kept (register i c).
Proof. intros w. rewrite register_run. apply registered_ids. Qed.
Lemma check_limits_ids conf ip : preserves ids_kept (check_limits conf ip).
Proof.
  intros w. by destruct (check_limits_cases conf ip w) as [(-> & _)|(e & -> & _)].
Qed.
#[local] Hint Resolve send_ids queue_get_ids disconnect_ids register_ids check_limits_ids : preserves.

Lemma connect_ids conf fresh id last ip key : preserves ids_kept (connect conf fresh id last ip key).
Proof.
  unfold connect. prove_preserves. apply preserves_modify. intros w.
  by apply touched_ids, touched_at; intros c; split; apply replay_frame.
Qed.
#[local] Hint Resolve connect_ids : preserves.

Lemma run_hub_op_ids conf op : preserves ids_kept (run_hub_op conf op).
Proof. destruct op; cbn; unfold conn_ping, conn_disconnect, broadcast_start; prove_preserves. Qed.

(** ** Generators that do not end stay alive while nobody cancels them *)
Definition endless (g : gen_task) : Prop := ∀ n, generate_events (g_handler g) (g_conn g) n ≠ None.
Definition gens_kept (l l' : list gen_task) : Prop :=
  ∀ i g, l !! i = Some g → ∃ g', l' !! i = Some g'
    ∧ g_handler g' = g_handler g ∧ g_conn g' = g_conn g
    ∧ (endless g → g_alive g = true → g_alive g' = true).
Definition streams_kept (s s' : Streams) : Prop :=
  ids_kept (hub s) (hub s') ∧ gens_kept (gens s) (gens s').
#[local] Instance gens_kept_preorder : PreOrder gens_kept.
Proof.
  split; [intros l i g H; by exists g |]. intros l1 l2 l3 H1 H2 i g H.
  destruct (H1 i g H) as (g2 & E2 & Hh2 & Hc2 & Ha2). destruct (H2 i g2 E2) as (g3 & E3 & Hh3 & Hc3 & Ha3).
  exists g3. split_and!; [done | congruence | congruence |].
  intros He Ha. apply Ha3; [| by apply Ha2]. unfold endless. by rewrite Hh2, Hc2.
Qed.
#[local] Instance streams_kept_preorder : PreOrder streams_kept.
Proof.
  split; [by intros s; split | intros s1 s2 s3 [] []; split; by etransitivity].
Qed.

Lemma on_hub_kept {A} (m : M Hub A) : preserves ids_kept m → preserves streams_kept (on_hub m).
Proof.
  intros Hm s. specialize (Hm (hub s)). unfold on_hub. destruct (m (hub s)) as [o h]. by split.
Qed.
Lemma alter_gens_kept f i s :
  (∀ g, g_handler (f g) = g_handler g ∧ g_conn (f g) = g_conn g) →
  (∀ g, gens s !! i = Some g → endless g → g_alive (f g) = g_alive g) →
  streams_kept s (set_gens (alter f i (gens s)) s).
Proof.
  intros Hf Ha. split; [done |]. intros j g Hg. cbn. rewrite list_lookup_alter.
  case_decide as Hj; [subst j | by exists g]. rewrite Hg. exists (f g). destruct (Hf g).
  split_and!; [done .. |]. intros He. by rewrite (Ha g Hg He).
Qed.

Lemma gen_step_kept i : preserves streams_kept (gen_step i).
Proof.
  intros s. unfold gen_step, m_bind at 1, m_get. destruct (gens s !! i) as [g|] eqn:Hg; [| done].
  destruct (g_alive g); [| done]. destruct (generate_events _ _ _) as [e|] eqn:He.
  - apply (preserves_bind streams_kept); [| intros []; apply preserves_bind; [apply _ | |]].
    + intros s'. by apply alter_gens_kept.
    + apply on_hub_kept, send_ids.
    + intros b. auto with preserves.
  - cbn. apply alter_gens_kept; [done |]. intros g' Hg' Hend.
    assert (g' = g) as -> by congruence. by destruct (Hend _ He).
Qed.

Section Kept.
Context (sse_config : string → outcome json) (validate : SSEEvent → outcome unit).

Lemma run_others_kept os s : streams_kept s (run_others sse_config os s).
Proof.
  revert s. induction os as [|o os IH]; intros s; [done |].
  etransitivity; [| apply IH]. destruct o as [op|i]; cbn.
  - apply on_hub_kept, run_hub_op_ids.
  - apply gen_step_kept.
Qed.

Lemma next_chunk_kept ref : preserves streams_kept (next_chunk validate ref).
Proof.
  unfold next_chunk, heartbeat_chunk. apply preserves_bind; [apply _ | apply on_hub_kept, queue_get_ids |].
  intros e. prove_preserves.
Qed.

Lemma stream_loop_kept ref turns : preserves streams_kept (stream_loop sse_config validate ref turns).
Proof.
  induction turns as [|[os|os|os e] rest IH]; cbn [stream_loop]; [auto with preserves | ..];
    (apply preserves_bind; [apply _ | apply preserves_modify, run_others_kept | intros _]);
    [auto with preserves | | auto with preserves].
  intros s. pose proof (next_chunk_kept ref s) as Hn.
  destruct (next_chunk validate ref s) as [[[chunk|]|x] s']; [| exact Hn ..].
  etransitivity; [exact Hn |]. specialize (IH s'). cbn in IH |- *.
  by destruct (stream_loop _ _ ref rest s') as [[[out e]|x] s''].
Qed.

(** The loop never raises: it says how it ended. *)
Lemma stream_loop_returns ref turns s :
  ∃ r s', stream_loop sse_config validate ref turns s = (Ret r, s').
Proof.
  revert s. induction turns as [|[os|os|os e] rest IH]; intros s; cbn [stream_loop]; [by do 2 eexists ..| |].
  - rewrite bind_eq. cbn [m_modify]. destruct (next_chunk _ _ _) as [[[chunk|]|x] s']; [| by do 2 eexists ..].
    destruct (IH s') as ([out e] & s'' & ->). by do 2 eexists.
  - by do 2 eexists.
Qed.
End Kept.

Lemma disconnect_run i w :
  ∃ w', disconnect i w = (Ret tt, w')
  ∧ dict_map (_connections w') = delete i (dict_map (_connections w))
  ∧ (∀ r, get_connection i w = Some r → is_closed r w' = true).
Proof.
  unfold disconnect, conn_disconnect, get_connection, m_bind, m_get, m_modify, m_ret.
  destruct (dict_get i (_connections w)) as [ref|] eqn:Hi.
  - eexists. split_and!; [done | apply dict_map_pop |].
    intros r [= <-]. unfold is_closed. cbn. rewrite list_lookup_alter_eq. by destruct (heap w !! ref).
  - exists w. split_and!; [done | | done]. rewrite dict_get_map in Hi. by rewrite delete_id.
Qed.

Lemma base_on_connect_ids ref : preserves ids_kept (base_on_connect ref).
Proof. unfold base_on_connect, greet. prove_preserves. Qed.

Lemma send_returns ref e record w : ∃ b w', send ref e record w = (Ret b, w').
Proof.
  unfold send, record_event, m_bind, m_get. destruct (heap w !! ref) as [c|]; [| by do 2 eexists].
  destruct (_closed c); [by do 2 eexists |]. destruct (queue_full c); [by do 2 eexists |].
  destruct record, (opt_str_truthy (ev_id e)); by do 2 eexists.
Qed.
(** The hooks of a handler may do anything that leaves the ids of connection
    objects alone, and may raise. *)
Definition hooks_keep_ids (handler : ISSEHandler) : Prop :=
  ∀ ref, preserves ids_kept (on_connect handler ref) ∧ preserves ids_kept (on_disconnect handler ref).
Lemma base_hooks generate : hooks_keep_ids (BaseSSEHandler generate).
Proof. intros ref. split; [apply base_on_connect_ids | apply preserves_ret, _]. Qed.

(** What the body of the stream adds: a connection that keeps its id, and, unless
    [on_connect] raised, its generator, alive unless the loop was left. *)
Lemma stream_body_spec conf validate handler ref turns s o s' i :
  hooks_keep_ids handler →
  stream_body conf validate handler ref turns s = (o, s') →
  (∃ c, heap (hub s) !! ref = Some c ∧ connection_id c = i) →
  (∃ c, heap (hub s') !! ref = Some c ∧ connection_id c = i)
  ∧ match o with
    | Raise x => gens s' = gens s ∧ on_connect handler ref (hub s) = (Raise x, hub s')
    | Ret (_, e) =>
        ∃ g, gens s' !! length (gens s) = Some g ∧ g_conn g = ref ∧ g_handler g = handler
          ∧ match e with
            | LoopLeft => g_alive g = false
            | _ => endless g → g_alive g = true
            end
    end.
Proof.
  intros Hhooks Hrun (c & Hc & Hi). unfold stream_body in Hrun. rewrite bind_eq in Hrun.
  unfold on_hub in Hrun. destruct (Hhooks ref) as [Hk0 _]. specialize (Hk0 (hub s)).
  destruct (on_connect handler ref (hub s)) as [[[]|x] h]; cbn [snd] in Hk0;
    destruct (Hk0 ref c Hc) as (c0 & Hc0 & Hi0);
    [| injection Hrun as <- <-; split; [exists c0; split; [done | congruence] | done]].
  do 2 (rewrite bind_eq in Hrun; cbn [m_get m_modify gens hub] in Hrun).
  set (s1 := set_gens (gens s ++ [mkGen handler ref 0 true]) (mkStreams h (gens s))) in Hrun.
  destruct (stream_loop_returns conf validate ref turns s1) as ([out e] & s2 & Hloop).
  rewrite (bind_ret_run _ _ _ _ _ Hloop) in Hrun.
  pose proof (stream_loop_kept conf validate ref turns s1) as [Hk Hg]. rewrite Hloop in Hk, Hg. cbn in Hk, Hg.
  destruct (Hk ref c0 Hc0) as (c2 & Hc2 & Hi2).
  destruct (Hg (length (gens s)) (mkGen handler ref 0 true)) as (g & Eg & Hh & Hconn & Ha).
  { cbn. by rewrite lookup_app_r, Nat.sub_diag. }
  assert (∀ s3, hub s3 = hub s2 → ∃ c, heap (hub s3) !! ref = Some c ∧ connection_id c = i) as Hid.
  { intros s3 ->. exists c2. split; [done | congruence]. }
  assert (endless g → g_alive g = true) as Halive.
  { intros Hend. apply Ha; [| done]. unfold endless in Hend |- *. by rewrite Hh, Hconn in Hend. }
  cbn [snd] in Hrun. destruct e; cbn in Hrun; injection Hrun as <- <-.
  - split; [by apply Hid |]. exists (finish_gen g). cbn. rewrite list_lookup_alter_eq, Eg. by split_and!.
  - split; [by apply Hid |]. exists g. by split_and!.
  - split; [by apply Hid |]. exists g. by split_and!.
Qed.

Lemma connect_registered conf fresh id last ip key w ref h :
  connect conf fresh id last ip key w = (Ret ref, h) →
  ∃ c, heap h !! ref = Some c ∧ connection_id c = id_in_force fresh id.
Proof.
  unfold connect. fold (id_in_force fresh id). set (i := id_in_force fresh id).
  unfold m_bind, m_of_outcome. destruct (max_queue_size conf) as [n|e]; [| done].
  destruct (check_limits_cases conf ip w) as [(-> & _)|(e & -> & _)]; [| done].
  rewrite register_run. set (c := mkConn _ _ _ _ _ _ _).
  destruct (opt_str_truthy last); cbn [m_modify m_ret]; intros [= <- <-].
  - exists (replay (events_after (default "" last) (registered i c w)) c).
    unfold at_ref. cbn [heap set_heap]. rewrite list_lookup_alter_eq, registered_new. split; [done |].
    by destruct (replay_frame (events_after (default "" last) (registered i c w)) c) as [-> _].
  - exists c. split; [apply registered_new | done].
Qed.

(** The [finally] clause of a stream whose connection has id [i]. *)
Lemma stream_close_run handler ref s i :
  hooks_keep_ids handler → (∃ c, heap (hub s) !! ref = Some c ∧ connection_id c = i) →
  match on_disconnect handler ref (hub s) with
  | (Raise x, h) => stream_close handler ref s = (Raise x, mkStreams h (gens s))
  | (Ret _, h) =>
      ∃ s', stream_close handler ref s = (Ret tt, s') ∧ gens s' = gens s
      ∧ dict_map (_connections (hub s')) = delete i (dict_map (_connections h))
      ∧ (∀ r, get_connection i h = Some r → is_closed r (hub s') = true)
  end.
Proof.
  intros Hhooks (c & Hc & Hi). destruct (Hhooks ref) as [_ Hk]. specialize (Hk (hub s) ref c Hc).
  assert (∀ o h, on_disconnect handler ref (hub s) = (o, h) →
    on_hub (on_disconnect handler ref) s = (o, mkStreams h (gens s))) as Hon.
  { intros o h E. unfold on_hub. by rewrite E. }
  unfold stream_close. rewrite bind_eq.
  destruct (on_disconnect handler ref (hub s)) as [[[]|x] h]; rewrite (Hon _ _ eq_refl); [| done].
  destruct Hk as (c' & Hc' & Hi'). cbn [snd] in Hc'. destruct (disconnect_run i h) as (h' & Hd & Hmap & Hcl).
  exists (mkStreams h' (gens s)). split_and!; [| done | done | done].
  erewrite bind_ret_run by reflexivity. cbn [hub gens]. rewrite Hc'. cbn [fmap option_fmap option_map].
  rewrite Hi', Hi. unfold on_hub. cbn [hub gens]. by rewrite Hd.
Qed.

(** A live generator without end stays alive. *)
Lemma endless_alive conf i g s others :
  gens s !! i = Some g → g_alive g = true → endless g →
  ∃ g', gens (run_others conf others s) !! i = Some g' ∧ g_alive g' = true.
Proof.
  intros Hg Ha He. destruct (run_others_kept conf others s) as [_ Hk].
  destruct (Hk i g Hg) as (g' & Hg' & _ & _ & Ha'). exists g'. auto.
Qed.

(** C32: What is left of a stream that has ended, with any handler whose hooks
    leave the ids of connections alone.  The stream had registered its
    connection and run its body; then [on_disconnect] runs.  If it returns, the id
    is free: whatever connection is registered under it is closed and
    unregistered, other keys are left alone, and the stream ends as its body did.
    (That connection need not be the stream's own: a client that reconnected
    under the same id meanwhile is cut off.)  If it raises, that is how the stream
    ends, and the registry is left as the hook left it: nothing is closed and
    nothing unregistered.  A loop that was left (the client is gone, or an event
    could not be serialized) cancels the generator; a stream into which an
    exception was raised does not, and an endless generator then runs on,
    whatever happens later; when [on_connect] raised there is no generator. *)
Theorem stream_end_frees_id (conf : string → outcome json) (validate : SSEEvent → outcome unit)
    (handler : ISSEHandler) (fresh : string) (id last_id client_ip api_key : option string)
    (turns : list turn) (s s' : Streams) (out : list string) (e : loop_end) :
  hooks_keep_ids handler →
  sse_stream conf validate handler fresh id last_id client_ip api_key turns s = (Ret (out, e), s') →
  e ≠ LoopOpen →
  let i := id_in_force fresh id in
  ∃ ref h body s1 hook h1,
    connect conf fresh id last_id client_ip api_key (hub s) = (Ret ref, h)
    ∧ stream_body conf validate handler ref turns (mkStreams h (gens s)) = (body, s1)
    ∧ on_disconnect handler ref (hub s1) = (hook, h1)
    ∧ match hook with
      | Ret _ => (out, e) = match body with Ret r => r | Raise x => ([], LoopRaised x) end
          ∧ dict_map (_connections (hub s')) = delete i (dict_map (_connections h1))
          ∧ ∀ r, get_connection i h1 = Some r → is_closed r (hub s') = true
      | Raise x => e = LoopRaised x ∧ hub s' = h1
      end
    ∧ match body with
      | Raise x => on_connect handler ref h = (Raise x, hub s1) ∧ gens s' = gens s
      | Ret (_, how) =>
          ∃ g, gens s' !! length (gens s) = Some g ∧ g_conn g = ref
            ∧ match how with
              | LoopLeft => g_alive g = false
              | _ => (∀ n, generate_events handler ref n ≠ None) → ∀ others, ∃ g',
                  gens (run_others conf others s') !! length (gens s) = Some g' ∧ g_alive g' = true
              end
      end.
Proof.
  intros Hhooks Hrun Hopen i. unfold sse_stream in Hrun.
  apply bind_ret_inv in Hrun as (ref & s0 & Hconn & Hrun). unfold on_hub in Hconn.
  pose proof (connect_registered conf fresh id last_id client_ip api_key (hub s)) as Hreg.
  destruct (connect conf fresh id last_id client_ip api_key (hub s)) as [o h] eqn:Ec.
  injection Hconn as -> <-. specialize (Hreg ref h eq_refl).
  destruct (stream_body conf validate handler ref turns (mkStreams h (gens s))) as [body s1] eqn:Hb.
  destruct (stream_body_spec _ _ _ _ _ _ _ _ _ Hhooks Hb Hreg) as [Hid Hgen]. fold i in Hid.
  pose proof (stream_close_run handler ref s1 i Hhooks Hid) as Hclose.
  destruct (on_disconnect handler ref (hub s1)) as [hook h1] eqn:Eh.
  exists ref, h, body, s1, hook, h1. split_and!; [done | done | done | |].
  - destruct hook as [[]|x].
    + destruct Hclose as (s2 & Hclose & _ & Hmap & Hcl).
      destruct body as [[out1 []]|x]; unfold stream_end in Hrun; rewrite ?Hclose in Hrun;
        injection Hrun as <- <- <-; by split_and!.
    + destruct body as [[out1 []]|y]; unfold stream_end in Hrun; rewrite ?Hclose in Hrun;
        injection Hrun as <- <- <-; by split_and!.
  - assert (gens s' = gens s1) as Hgens.
    { destruct hook as [[]|x]; [destruct Hclose as (s2 & Hclose & Hgens & _) |].
      all: destruct body as [[out1 []]|y]; unfold stream_end in Hrun; rewrite ?Hclose in Hrun;
        by injection Hrun as <- <- <-. }
    destruct body as [[out1 how]|x].
    + destruct Hgen as (g & Hg & Hgc & Hgh & Hga). exists g. rewrite Hgens. split_and!; [done | done |].
      destruct how; [done | |]; intros Hend others; apply endless_alive with g; rewrite ?Hgens; try done;
        try apply Hga; unfold endless; by rewrite Hgh, Hgc.
    + destruct Hgen as [Hg Hc]. by rewrite Hgens, Hg.
Qed.

Module SseStreamExamples.
Import SseHubExamples.
Definition ticks : nat → nat → option SSEEvent := λ _ n, Some (tick (str_of_Z (Z.of_nat n))).
Definition empty : Streams := mkStreams hub_init [].
(** The client reconnects as [a] while its first stream is being torn down. *)
Definition lost : list turn :=
  [Wait []; Wait [OtherGen 0]; Wait []; 
   Killed [OtherHub (OpConnect "u" (Some "a") (Some "0") None None)] (BaseExc "CancelledError")].
Definition after_lost : Streams :=
  (sse_stream conf (λ _, Ret tt) (BaseSSEHandler ticks) "u" (Some "a") None None None lost empty).2.

(** A handler whose [on_disconnect] raises: its connection stays. *)
Definition failing_hook : ISSEHandler :=
  mkHandler base_on_connect (λ _, m_raise (RuntimeError "cleanup")) ticks.
Definition after_hook : outcome (list string * loop_end) * Streams :=
  sse_stream conf (λ _, Ret tt) failing_hook "u" (Some "a") None None None [Gone []] empty.

Lemma stream_end_frees_id_witness :
  (get_connection "a" (hub after_lost) = None ∧ is_closed 1 (hub after_lost) = true
   ∧ ∀ others, ∃ g, gens (run_others conf others after_lost) !! 0%nat = Some g ∧ g_alive g = true)
  ∧ (get_connection "a" (hub after_hook.2) = Some 0%nat ∧ is_closed 0 (hub after_hook.2) = false
     ∧ ∃ g, gens after_hook.2 !! 0%nat = Some g ∧ g_alive g = false).
Proof.
  split.
  - assert (sse_stream conf (λ _, Ret tt) (BaseSSEHandler ticks) "u" (Some "a") None None None lost empty
      = (Ret ([_serialize_sse_event (welcome "a"); _serialize_sse_event (tick "0"); _serialize_sse_event heartbeat],
              LoopRaised (BaseExc "CancelledError")), after_lost)) as E by (vm_compute; reflexivity).
    destruct (stream_end_frees_id conf (λ _, Ret tt) (BaseSSEHandler ticks) "u" (Some "a") None None None lost
      empty _ _ _ (base_hooks ticks) E)
      as (ref & h & body & s1 & hook & h1 & Ec & Eb & Eh & Hhook & Hbody); [done |].
    injection Eh as <- <-. destruct Hhook as (He & _ & _).
    split_and!; [vm_compute; reflexivity | vm_compute; reflexivity |].
    destruct body as [[o l]|x].
    + injection He as <- <-. destruct Hbody as (g & _ & _ & Hon). by apply Hon.
    + by injection He.
  - assert (hooks_keep_ids failing_hook) as Hhooks.
    { intros ref. split; [apply base_on_connect_ids | apply preserves_raise, _]. }
    assert (after_hook = (Ret ([], LoopRaised (RuntimeError "cleanup")), after_hook.2)) as E
      by (vm_compute; reflexivity).
    destruct (stream_end_frees_id conf (λ _, Ret tt) failing_hook "u" (Some "a") None None None [Gone []]
      empty _ _ _ Hhooks E)
      as (ref & h & body & s1 & hook & h1 & Ec & Eb & Eh & Hhook & Hbody); [done |].
    injection Eh as <- <-. destruct Hhook as [_ Hhub].
    injection Ec as <- <-. injection Eb as <- <-. destruct Hbody as (g & Hg & _ & Ha).
    split_and!; [vm_compute; reflexivity | vm_compute; reflexivity |]. by exists g.
Defined.
End SseStreamExamples.
