(* ===== verification/SseDelivery.v ===== *)
(** * SseDelivery: what the client of a stream reads

    A handler's events on their way to the browser: sent to the connection's
    queue by the greeting and the generator task, taken from it by the stream,
    serialized, and read back by an EventSource client.  Whatever other tasks do
    meanwhile, the order is the generator's, nothing is repeated, and nothing is
    lost but what the queue refused. *)
From S2P Require Import Prelude Dict Json PyValues Context.
From S2P Require Import SseEvent SseHub SseHubSpec SseStream SseStreamSpec.

(** ** A connection's queue is left alone *)
Definition alone (ref : nat) (w w' : Hub) : Prop :=
  ∀ c, heap w !! ref = Some c → ∃ c', heap w' !! ref = Some c'
    ∧ conn_queue c' = conn_queue c ∧ _dropped_events c' = _dropped_events c
    ∧ connection_id c' = connection_id c ∧ (_closed c' = false → _closed c = false).
#[local] Instance alone_preorder ref : PreOrder (alone ref).
Proof.
  split; [intros w c H; by exists c |]. intros w1 w2 w3 H1 H2 c H.
  destruct (H1 c H) as (c2 & E2 & Q2 & D2 & I2 & C2).
  destruct (H2 c2 E2) as (c3 & E3 & Q3 & D3 & I3 & C3).
  exists c3. split_and!; [done | congruence .. | auto].
Qed.

Section Alone.
Context (ref : nat).

Lemma same_heap_alone w w' : heap w' = heap w → alone ref w w'.
Proof. intros H c Hc. exists c. by rewrite H. Qed.
Lemma modify_heap_alone f : (∀ w, heap (f w) = heap w) → preserves (alone ref) (m_modify f).
Proof. intros Hf. apply preserves_modify. intros w. apply same_heap_alone, Hf. Qed.
Lemma at_ref_alone r f :
  r ≠ ref ∨ (∀ c, conn_queue (f c) = conn_queue c ∧ _dropped_events (f c) = _dropped_events c
                  ∧ connection_id (f c) = connection_id c ∧ (_closed (f c) = false → _closed c = false)) →
  preserves (alone ref) (m_modify (at_ref r f)).
Proof.
  intros Hf. apply preserves_modify. intros w c Hc. unfold at_ref, set_heap. cbn.
  rewrite list_lookup_alter. case_decide as Hr; [| by exists c].
  subst r. destruct Hf as [?|Hf]; [done |]. exists (f c). split; [by rewrite Hc | exact (Hf c)].
Qed.
Lemma record_event_alone e : preserves (alone ref) (record_event e).
Proof.
  unfold record_event. apply preserves_if; [| auto with preserves]. by apply modify_heap_alone.
Qed.
Lemma conn_disconnect_alone r : preserves (alone ref) (conn_disconnect r).
Proof. apply at_ref_alone. by right. Qed.
#[local] Hint Resolve record_event_alone conn_disconnect_alone : preserves.

Lemma send_alone r e record : r ≠ ref → preserves (alone ref) (send r e record).
Proof.
  intros Hr. assert (∀ f, preserves (alone ref) (m_modify (at_ref r f))) by (intros f; apply at_ref_alone; by left).
  unfold send. prove_preserves.
Qed.
Lemma queue_get_alone r : r ≠ ref → preserves (alone ref) (queue_get r).
Proof.
  intros Hr. assert (∀ f, preserves (alone ref) (m_modify (at_ref r f))) by (intros f; apply at_ref_alone; by left).
  unfold queue_get. prove_preserves.
Qed.
Lemma disconnect_alone id : preserves (alone ref) (disconnect id).
Proof. unfold disconnect. prove_preserves. by apply modify_heap_alone. Qed.
Lemma check_limits_alone conf ip : preserves (alone ref) (check_limits conf ip).
Proof. intros w. by destruct (check_limits_cases conf ip w) as [(-> & _)|(e & -> & _)]. Qed.

(** A new connection is another object. *)
Lemma connect_alone conf fresh id last ip key w :
  is_Some (heap w !! ref) → alone ref w (connect conf fresh id last ip key w).2.
Proof.
  intros Hsome. unfold connect, m_bind at 1, m_of_outcome. destruct (max_queue_size conf) as [n|e]; [| done].
  unfold m_bind at 1. destruct (check_limits_cases conf ip w) as [(-> & _)|(e & -> & _)]; [| done].
  rewrite bind_eq, register_run. set (i := if opt_str_truthy id then _ else _).
  set (c := mkConn _ _ _ _ _ _ _).
  assert (ref ≠ length (heap w)) as Hne by (intros ->; rewrite lookup_ge_None_2 in Hsome by done; by destruct Hsome).
  transitivity (registered i c w).
  - intros c0 Hc. rewrite registered_frame, Hc by done. case_decide; cbn; by eexists.
  - destruct (opt_str_truthy last); cbn; [| done]. by apply at_ref_alone; left.
Qed.
End Alone.

(** ** Other tasks that have nothing to send to the connection *)
Definition quiet_op (ref : nat) (op : hub_op) : bool :=
  match op with
  | OpSend r _ _ | OpPing r | OpTake r => negb (r =? ref)%nat
  | _ => true
  end.
Definition quiet_other (ref : nat) (o : other_step) : bool :=
  match o with OtherHub op => quiet_op ref op | OtherGen _ => true end.
Definition quiet (ref : nat) (t : turn) : bool :=
  match t with Gone os | Wait os | Killed os _ => forallb (quiet_other ref) os end.

Lemma quiet_op_alone conf ref op w :
  quiet_op ref op = true → is_Some (heap w !! ref) → alone ref w (run_hub_op conf op w).2.
Proof.
  intros Hq Hs. destruct op as [? ? ? ? ?|id|r e b|r|r|e|e|r]; cbn [run_hub_op quiet_op] in *;
    rewrite ?negb_true_iff, ?Nat.eqb_neq in Hq.
  - pose proof (connect_alone ref conf fresh id last_id client_ip api_key w Hs) as H.
    unfold m_bind. by destruct (connect _ _ _ _ _ _ w) as [[]].
  - apply disconnect_alone.
  - apply (preserves_bind (alone ref)); [by apply send_alone | auto with preserves].
  - apply (preserves_bind (alone ref)); [by apply send_alone | auto with preserves].
  - apply conn_disconnect_alone.
  - apply record_event_alone.
  - apply (preserves_bind (alone ref)); [| auto with preserves]. unfold broadcast_start.
    pose proof record_event_alone. prove_preserves.
  - apply (preserves_bind (alone ref)); [by apply queue_get_alone | auto with preserves].
Qed.

(** ** What a send does to the queue *)
Lemma hub_send_cases ref e w c :
  heap w !! ref = Some c →
  ∃ b w' c', send ref e true w = (Ret b, w') ∧ heap w' !! ref = Some c'
    ∧ connection_id c' = connection_id c ∧ _closed c' = _closed c
    ∧ (conn_queue c' = conn_queue c ++ [e] ∧ _dropped_events c' = _dropped_events c
       ∨ conn_queue c' = conn_queue c
         ∧ (_closed c = true ∧ _dropped_events c' = _dropped_events c
            ∨ _dropped_events c' = (_dropped_events c + 1)%Z)).
Proof.
  intros Hc. unfold send. rewrite bind_eq. cbn [m_get]. rewrite Hc.
  destruct (_closed c) eqn:Hcl. { exists false, w, c. split_and!; auto. }
  assert (∀ f, heap (at_ref ref f w) !! ref = Some (f c)) as Hat.
  { intros f. unfold at_ref, set_heap. cbn. by rewrite list_lookup_alter_eq, Hc. }
  destruct (queue_full c).
  - do 3 eexists. split_and!; [reflexivity | apply Hat | done | done |]. right. auto.
  - rewrite bind_eq. cbn [m_modify]. unfold record_event.
    destruct (true && opt_str_truthy (ev_id e)) eqn:Ht; cbn in Ht; rewrite ?Ht;
      (do 3 eexists; split_and!; [reflexivity | apply Hat | done | done | by left]).
Qed.

(** The one event [queue.get()] takes. *)
Lemma queue_get_cases ref w c :
  heap w !! ref = Some c →
  match conn_queue c with
  | [] => queue_get ref w = (Ret None, w)
  | e :: rest => queue_get ref w = (Ret (Some e), at_ref ref (set_queue rest) w)
  end.
Proof.
  intros Hc. unfold queue_get. rewrite bind_eq. cbn [m_get]. rewrite Hc. cbn [fmap option_fmap option_map].
  by destruct (conn_queue c).
Qed.

(** ** A stream while it is open *)
Section Delivery.
Context (conf : string → outcome json) (validate : SSEEvent → outcome unit).
Context (h : ISSEHandler) (ref task : nat) (i : string) (first : list SSEEvent).

(** The events of the generator's first [k] turns, after those the queue starts with. *)
Definition sent (k : nat) : list SSEEvent := first ++ omap (generate_events h ref) (seq 0 k).
(** [taken] has left the queue: what was sent is [taken] and the queue, in order,
    less what the queue refused. *)
Definition delivering (taken : list SSEEvent) (s : Streams) : Prop :=
  ∃ c g, heap (hub s) !! ref = Some c ∧ gens s !! task = Some g
    ∧ connection_id c = i ∧ g_conn g = ref ∧ g_handler g = h
    ∧ (∀ k g', gens s !! k = Some g' → k ≠ task → g_conn g' ≠ ref)
    ∧ (0 ≤ _dropped_events c)%Z
    ∧ sublist (taken ++ conn_queue c) (sent (g_next g))
    ∧ (_closed c = false → _dropped_events c = 0%Z → taken ++ conn_queue c = sent (g_next g)).

Lemma sent_none k : generate_events h ref k = None → sent (Datatypes.S k) = sent k.
Proof. intros H. unfold sent. rewrite seq_S, omap_app. cbn. by rewrite H, app_nil_r. Qed.
Lemma sent_some k e : generate_events h ref k = Some e → sent (Datatypes.S k) = sent k ++ [e].
Proof. intros H. unfold sent. rewrite seq_S, omap_app, app_assoc. cbn. by rewrite H. Qed.

Lemma delivering_hub taken s w' :
  delivering taken s → alone ref (hub s) w' → delivering taken (mkStreams w' (gens s)).
Proof.
  intros (c & g & Hc & Hg & Hi & Hgc & Hgh & Ho & Hd & Hs & He) Ha.
  destruct (Ha c Hc) as (c' & Hc' & Hq & Hd' & Hi' & Hcl). exists c', g. rewrite Hq, Hd'. cbn.
  split_and!; [done | done | congruence | done .. | auto].
Qed.
(** A generator task that is not this stream's. *)
Lemma delivering_gens taken s f k :
  delivering taken s → k ≠ task → (∀ g, g_conn (f g) = g_conn g) →
  delivering taken (set_gens (alter f k (gens s)) s).
Proof.
  intros (c & g & Hc & Hg & Hi & Hgc & Hgh & Ho & Hrest) Hk Hf. exists c, g.
  cbn [set_gens gens hub]. rewrite list_lookup_alter_ne by done. split_and!; try done; try apply Hrest.
  intros k' g'. rewrite list_lookup_alter. case_decide; [| apply Ho]. subst k'.
  destruct (gens s !! k) as [g0|] eqn:H0; [| done]. intros [= <-] _. rewrite Hf. by eapply Ho.
Qed.

Lemma gen_step_delivering taken k s : delivering taken s → delivering taken (gen_step k s).2.
Proof.
  intros Hs. destruct (decide (k = task)) as [->|Hk].
  - destruct Hs as (c & g & Hc & Hg & Hi & Hgc & Hgh & Ho & Hd & Hsub & Hex).
    unfold gen_step. rewrite bind_eq. cbn [m_get]. rewrite Hg.
    destruct (g_alive g); [| exists c, g; by split_and!].
    assert (∀ f g0, gens s !! task = Some g0 → alter f task (gens s) !! task = Some (f g0)) as Hat.
    { intros f g0 E. by rewrite list_lookup_alter_eq, E. }
    assert (∀ f k g', alter f task (gens s) !! k = Some g' → k ≠ task → g_conn g' ≠ ref) as Ho'.
    { intros f k g'. rewrite list_lookup_alter. case_decide; [done | apply Ho]. }
    rewrite Hgh, Hgc. destruct (generate_events h ref (g_next g)) as [e|] eqn:He.
    2:{ exists c, (finish_gen g). cbn. split_and!; try done; [by apply Hat | by apply Ho']. }
    rewrite bind_eq. cbn [m_modify].
    destruct (hub_send_cases ref e (hub s) c Hc) as (b & w' & c' & Esend & Hc' & Hi' & Hcl' & Hcase).
    unfold on_hub, set_gens. rewrite bind_eq. cbn [hub gens]. rewrite Esend. cbn [m_ret snd].
    exists c', (advance_gen g). cbn [hub gens]. split_and!; try done; [by apply Hat | congruence | by apply Ho' | ..].
    + destruct Hcase as [[_ Hd']|[_ [[_ Hd']|Hd']]]; lia.
    + cbn [advance_gen g_next]. rewrite (sent_some _ _ He).
      destruct Hcase as [[-> _]|[-> _]].
      * rewrite app_assoc. by apply sublist_app.
      * rewrite <- (app_nil_r (taken ++ _)). apply sublist_app; [done | apply sublist_nil_l].
    + cbn [advance_gen g_next]. rewrite (sent_some _ _ He). intros Hcl Hd'.
      destruct Hcase as [[-> Hdd]|[_ [[Hcc _]|Hdd]]]; [| congruence | lia].
      rewrite app_assoc, Hex by congruence. done.
  - unfold gen_step. rewrite bind_eq. cbn [m_get]. destruct (gens s !! k) as [g|] eqn:Hg; [| done].
    destruct (g_alive g); [| done]. assert (g_conn g ≠ ref) as Hne.
    { destruct Hs as (c & g0 & _ & _ & _ & _ & _ & Ho & _). by eapply Ho. }
    destruct (generate_events _ _ _) as [e|]; [| by apply delivering_gens].
    rewrite bind_eq. cbn [m_modify]. set (s1 := set_gens _ s).
    assert (delivering taken s1) as H1 by (by apply delivering_gens).
    unfold on_hub. rewrite bind_eq. pose proof (send_alone ref _ e true Hne (hub s1)) as Ha.
    destruct (send (g_conn g) e true (hub s1)) as [o w']. destruct (send_returns (g_conn g) e true (hub s1)) as (b & w2 & E).
    destruct o; cbn; by apply (delivering_hub taken s1 w').
Qed.

Lemma run_others_delivering taken os s :
  forallb (quiet_other ref) os = true → delivering taken s → delivering taken (run_others conf os s).
Proof.
  revert s. induction os as [|o os IH]; intros s; [done |]. cbn [forallb]. intros [Ho Hos]%andb_prop Hs.
  apply (IH (run_other conf o s).2 Hos). destruct o as [op|k]; cbn [run_other].
  - pose proof Hs as (c & g & Hc & _). unfold on_hub.
    pose proof (quiet_op_alone conf ref op (hub s) Ho (ex_intro _ c Hc)) as Ha.
    destruct (run_hub_op conf op (hub s)) as [o w']. by apply (delivering_hub taken s w').
  - by apply gen_step_delivering.
Qed.

(** ** The loop: one chunk per event taken, or a heartbeat *)
Context (heartbeat_valid : validate heartbeat = Ret tt).
Context (sent_valid : ∀ k e, e ∈ sent k → validate e = Ret tt).
(** What a turn yields: an event, or a heartbeat. *)
Definition chunk_of (o : option SSEEvent) : string := _serialize_sse_event (default heartbeat o).

Lemma heartbeat_chunk_run s : heartbeat_chunk validate s = (Ret (Some (chunk_of None)), s).
Proof. unfold heartbeat_chunk, to_server_sent_event. by rewrite heartbeat_valid. Qed.

Lemma next_chunk_delivering taken s :
  delivering taken s →
  ∃ o s', next_chunk validate ref s = (Ret (Some (chunk_of o)), s')
    ∧ delivering (taken ++ option_list o) s'.
Proof.
  intros Hs. pose proof Hs as (c & g & Hc & Hg & Hi & Hgc & Hgh & Ho & Hd & Hsub & Hex).
  pose proof (queue_get_cases ref (hub s) c Hc) as Hq. unfold next_chunk, on_hub. rewrite bind_eq.
  destruct (conn_queue c) as [|e rest] eqn:Eq; rewrite Hq.
  - exists None, s. cbn [option_list]. rewrite app_nil_r. destruct s as [w gs]. split; [| done].
    apply heartbeat_chunk_run.
  - assert (validate e = Ret tt) as He.
    { eapply sent_valid, elem_of_sublist, Hsub; apply elem_of_app; right; by left. }
    unfold to_server_sent_event. rewrite He. exists (Some e). eexists. split; [done |].
    exists (set_queue rest c), g. unfold at_ref, set_heap. cbn.
    rewrite list_lookup_alter_eq, Hc, <- app_assoc. cbn. by split_and!.
Qed.

Lemma stream_loop_delivering turns taken s out e s' :
  forallb (quiet ref) turns = true → delivering taken s →
  stream_loop conf validate ref turns s = (Ret (out, e), s') →
  ∃ evs, out = map chunk_of evs ∧ delivering (taken ++ omap id evs) s'.
Proof.
  revert taken s out e s'. induction turns as [|t turns IH]; intros taken s out e s' Hq Hs; cbn [stream_loop].
  { intros [= <- <- <-]. exists []. cbn. by rewrite app_nil_r. }
  cbn [forallb] in Hq. apply andb_prop in Hq as [Ht Hq].
  destruct t as [os|os|os x]; cbn [quiet] in Ht; rewrite bind_eq; cbn [m_modify];
    pose proof (run_others_delivering taken os s Ht Hs) as H1.
  - intros [= <- <- <-]. exists []. cbn. by rewrite app_nil_r.
  - destruct (next_chunk_delivering _ _ H1) as (o & s1 & -> & H2).
    destruct (stream_loop conf validate ref turns s1) as [[[out1 e1]|x] s2] eqn:El; [| done].
    intros [= <- <- <-]. destruct (IH _ _ _ _ _ Hq H2 El) as (evs & -> & H3).
    exists (o :: evs). split; [done |]. rewrite <- app_assoc in H3. by destruct o.
  - intros [= <- <- <-]. exists []. cbn. by rewrite app_nil_r.
Qed.
End Delivery.

(** Heartbeats say nothing to the client. *)
Lemma deliver_heartbeats evs c :
  cl_type c = "" → cl_data c = "" →
  deliver_all (map (default heartbeat) evs) c = deliver_all (omap id evs) c.
Proof.
  revert c. induction evs as [|[e|] evs IH]; intros c Ht Hd; [done | |]; cbn [map omap list_omap deliver_all].
  - cbn [default id]. unfold deliver. by rewrite IH.
  - rewrite <- IH by done. destruct c as [? ? ? ?]; cbn in *; subst. by destruct (deliver_all _ _).
Qed.

(** ** A new stream *)
Lemma after_id_log last l e : e ∈ after_id last l → e ∈ l.
Proof.
  induction l as [|e' l IH]; [done |]. cbn. case_decide; [by right | right; auto].
Qed.
Lemma replay_queue evs c e : e ∈ conn_queue (replay evs c) → e ∈ conn_queue c ∨ e ∈ evs.
Proof.
  revert c. induction evs as [|e' evs IH]; intros c; cbn; [by left |].
  destruct (queue_full c); [by left |]. intros [H|H]%IH; [| right; by right].
  cbn in H. apply elem_of_app in H as [H | ->%list_elem_of_singleton]; [by left | right; by left].
Qed.
Lemma replay_open evs c : _closed (replay evs c) = _closed c ∧ _dropped_events (replay evs c) = _dropped_events c.
Proof.
  revert c. induction evs as [|e evs IH]; intros c; [done |]. cbn. destruct (queue_full c); [done |].
  by apply (IH (put_nowait e c)).
Qed.

Lemma connect_new conf fresh id last ip key w ref h :
  connect conf fresh id last ip key w = (Ret ref, h) →
  ref = length (heap w) ∧ ∃ c, heap h !! ref = Some c ∧ connection_id c = id_in_force fresh id
    ∧ _closed c = false ∧ _dropped_events c = 0%Z ∧ ∀ e, e ∈ conn_queue c → e ∈ _event_log w.
Proof.
  unfold connect. fold (id_in_force fresh id). set (i := id_in_force fresh id).
  unfold m_bind, m_of_outcome. destruct (max_queue_size conf) as [n|e]; [| done].
  destruct (check_limits_cases conf ip w) as [(-> & _)|(e & -> & _)]; [| done].
  rewrite register_run. set (c := mkConn _ _ _ _ _ _ _).
  destruct (opt_str_truthy last); cbn [m_modify m_ret]; intros [= <- <-]; (split; [done |]).
  - set (evs := events_after _ _). exists (replay evs c). unfold at_ref. cbn [heap set_heap].
    rewrite list_lookup_alter_eq, registered_new. destruct (replay_open evs c) as [-> ->].
    destruct (replay_frame evs c) as [-> _]. split_and!; try done.
    intros e [He|He]%replay_queue; [by apply not_elem_of_nil in He |]. apply after_id_log in He.
    unfold registered, close_old in He. cbn in He. by destruct (dict_get i (_connections w)).
  - exists c. split_and!; [apply registered_new | done | done | done |]. by intros e ?%not_elem_of_nil.
Qed.

(** The body starts by greeting, and cancelling the generator changes no event. *)
Lemma greet_delivering hd hello ref w gs c :
  heap w !! ref = Some c → _closed c = false → _dropped_events c = 0%Z →
  (∀ k g, gs !! k = Some g → g_conn g ≠ ref) →
  ∃ w', greet hello ref w = (Ret tt, w')
    ∧ delivering hd ref (length gs) (connection_id c) (conn_queue c ++ [hello (connection_id c)]) []
        (mkStreams w' (gs ++ [mkGen hd ref 0 true])).
Proof.
  intros Hc Hcl Hd Ho. unfold greet. rewrite bind_eq. cbn [m_get]. rewrite Hc.
  destruct (hub_send_cases ref (hello (connection_id c)) w c Hc)
    as (b & w' & c' & E & Hc' & Hi' & Hcl' & Hcase).
  rewrite (bind_ret_run _ _ _ _ _ E). exists w'. split; [done |].
  exists c', (mkGen hd ref 0 true). cbn [hub gens].
  split_and!; [done | by rewrite lookup_app_r, Nat.sub_diag by done | congruence | done | done | ..].
  - intros k g' Hg Hk. apply (Ho k). by rewrite lookup_app_l in Hg
      by (apply lookup_lt_Some in Hg; rewrite length_app in Hg; cbn in Hg; lia).
  - destruct Hcase as [[_ ->]|[_ [[_ ->]| ->]]]; lia.
  - unfold sent. cbn. rewrite app_nil_r. destruct Hcase as [[-> _]|[-> _]]; [done |].
    rewrite <- (app_nil_r (conn_queue c)) at 1. apply sublist_app; [done | apply sublist_nil_l].
  - unfold sent. cbn. rewrite app_nil_r. intros _ Hd0.
    destruct Hcase as [[-> _]|[_ [[? _]|?]]]; [done | congruence | lia].
Qed.
Lemma cancel_delivering hd ref task i first taken s :
  delivering hd ref task i first taken s → delivering hd ref task i first taken (cancel_gen task s).2.
Proof.
  intros (c & g & Hc & Hg & Hi & Hgc & Hgh & Ho & Hrest). exists c, (finish_gen g). cbn.
  rewrite list_lookup_alter_eq, Hg. split_and!; try done; try apply Hrest.
  intros k g'. rewrite list_lookup_alter. case_decide; [done | apply Ho].
Qed.

(** The body of a stream, from a new connection on. *)
Lemma stream_body_delivers conf validate hd hello ref turns s c :
  let first := conn_queue c ++ [hello (connection_id c)] in
  on_connect hd ref = greet hello ref → validate heartbeat = Ret tt →
  (∀ k e, e ∈ sent hd ref first k → validate e = Ret tt) →
  heap (hub s) !! ref = Some c → _closed c = false → _dropped_events c = 0%Z →
  (∀ k g, gens s !! k = Some g → g_conn g ≠ ref) → forallb (quiet ref) turns = true →
  ∃ evs e s1, stream_body conf validate hd ref turns s = (Ret (map chunk_of evs, e), s1)
    ∧ delivering hd ref (length (gens s)) (connection_id c) first (omap (λ o, o) evs) s1.
Proof.
  intros first Hgreet Hhb Hv Hc Hcl Hd Ho Hq.
  destruct (greet_delivering hd hello ref (hub s) (gens s) c Hc Hcl Hd Ho) as (w1 & Eg & Hs1).
  fold first in Hs1. set (s2 := mkStreams w1 (gens s ++ [mkGen hd ref 0 true])) in Hs1.
  destruct (stream_loop_returns conf validate ref turns s2) as ([out e] & s3 & El).
  destruct (stream_loop_delivering conf validate hd ref _ _ first Hhb Hv turns [] s2 out e s3 Hq Hs1 El)
    as (evs & -> & Hs3). cbn [app] in Hs3.
  exists evs, e, (match e with LoopLeft => (cancel_gen (length (gens s)) s3).2 | _ => s3 end).
  split; [| destruct e; [by apply cancel_delivering | done | done]].
  unfold stream_body, on_hub. rewrite bind_eq, Hgreet, Eg.
  do 2 (rewrite bind_eq; cbn [m_get m_modify hub gens set_gens]). fold s2.
  rewrite (bind_ret_run _ _ _ _ _ El). by destruct e.
Qed.

(** C33: what a client of a stream reads is what its handler generates.  A handler
    greets a new connection and generates events; whatever other streams,
    generators and registry operations do meanwhile - short of addressing this
    connection - the chunks of the stream are heartbeats and events, the events
    being a prefix of the replayed ones, the greeting and the generated ones in
    order: exactly that prefix, the rest still queued, while the connection is
    open and nothing was dropped, and otherwise with nothing added, repeated or
    reordered.  An EventSource client that reads the chunks gets exactly the
    messages of those events. *)
Theorem stream_delivers_in_order (conf : string → outcome json) (validate : SSEEvent → outcome unit)
    (h : ISSEHandler) (hello : string → SSEEvent) (fresh : string)
    (id last_id client_ip api_key : option string) (turns : list turn) (s s' : Streams)
    (out : list string) (e : loop_end) :
  let ref := length (heap (hub s)) in
  let i := id_in_force fresh id in
  let valid e := validate e = Ret tt ∧ event_ok e = true in
  (∀ r, on_connect h r = greet hello r) → valid heartbeat → valid (hello i) →
  (∀ k ev, generate_events h ref k = Some ev → valid ev) → Forall valid (_event_log (hub s)) →
  (∀ k g, gens s !! k = Some g → g_conn g < ref) →
  forallb (quiet ref) turns = true →
  sse_stream conf validate h fresh id last_id client_ip api_key turns s = (Ret (out, e), s') →
  ∃ w c0 s1 e1 c1 g evs,
    connect conf fresh id last_id client_ip api_key (hub s) = (Ret ref, w) ∧ heap w !! ref = Some c0
    ∧ stream_body conf validate h ref turns (mkStreams w (gens s)) = (Ret (out, e1), s1)
    ∧ heap (hub s1) !! ref = Some c1 ∧ gens s1 !! length (gens s) = Some g
    ∧ (let all := conn_queue c0 ++ hello i :: omap (generate_events h ref) (seq 0 (g_next g)) in
       let taken := omap (λ o, o) evs in
       out = map chunk_of evs
       ∧ sublist (taken ++ conn_queue c1) all
       ∧ (_closed c1 = false → _dropped_events c1 = 0%Z → taken ++ conn_queue c1 = all)
       ∧ (read_stream (serialize_all (map (default heartbeat) evs))).2 = (deliver_all taken client0).2).
Proof.
  intros ref i valid Hgreet Hhb Hhello Hgen Hlog Hgens Hq Hrun. unfold sse_stream in Hrun.
  apply bind_ret_inv in Hrun as (r & s0 & Hconn & Hrun). unfold on_hub in Hconn.
  destruct (connect conf fresh id last_id client_ip api_key (hub s)) as [o w] eqn:Ec.
  injection Hconn as -> <-.
  destruct (connect_new _ _ _ _ _ _ _ _ _ Ec) as (-> & c0 & Hc0 & Hi & Hcl & Hd & Hq0). fold ref in Hc0, Hrun |- *.
  assert (∀ k g, gens s !! k = Some g → g_conn g ≠ ref) as Ho by (intros k g Hg; specialize (Hgens k g Hg); lia).
  set (first := conn_queue c0 ++ [hello (connection_id c0)]).
  assert (∀ k ev, ev ∈ sent h ref first k → valid ev) as Hv.
  { intros k ev [[Hev|Hev%list_elem_of_singleton]%elem_of_app|(n & _ & Hev)%list_elem_of_omap]%elem_of_app.
    - by eapply Forall_forall, Hq0.
    - subst ev. by rewrite Hi.
    - by eapply Hgen. }
  destruct (stream_body_delivers conf validate h hello ref turns (mkStreams w (gens s)) c0
    (Hgreet ref) (proj1 Hhb) (λ k ev H, proj1 (Hv k ev H)) Hc0 Hcl Hd Ho Hq) as (evs & e1 & s4 & Eb & Hs4).
  assert (map chunk_of evs = out) as <-.
  { rewrite Eb in Hrun. destruct e1; unfold stream_end in Hrun;
      repeat case_match; by injection Hrun as -> _ _. }
  destruct Hs4 as (c1 & g & Hc1 & Hg & _ & _ & _ & _ & _ & Hsub & Hex).
  unfold sent, first in Hsub, Hex. rewrite <- app_assoc, Hi in Hsub, Hex.
  exists w, c0, s4, e1, c1, g, evs. split_and!; try done.
  unfold read_stream. rewrite client_reads, deliver_heartbeats; try done.
  apply Forall_map, Forall_forall. intros [ev|] Hev; [| apply Hhb]. apply (Hv (g_next g)).
  eapply elem_of_sublist; [| by unfold sent, first; rewrite <- app_assoc, Hi].
  apply elem_of_app. left. apply list_elem_of_omap. by exists (Some ev).
Qed.

(** ** Witnesses *)
Module SseDeliveryExamples.
Import SseHubExamples.
Definition echo5 : ISSEHandler := EchoSSEHandler (Some ["Hello"; "World"; "from"; "PyPepper"; "SSE!"]).
(** The generator runs before each event the stream waits for but the third. *)
Definition session_turns : list turn :=
  [Wait [OtherGen 0]; Wait [OtherGen 0; OtherHub (OpBroadcast (tick "9"))]; Wait [OtherGen 0];
   Wait []; Wait []; Wait [OtherGen 0; OtherGen 0]; Wait []].
Definition s0 : Streams := mkStreams hub_init [].
Lemma echo_events_ok k ev : generate_events echo5 0 k = Some ev → event_ok ev = true.
Proof. do 5 (destruct k as [|k]; [by intros [= <-] |]). done. Qed.

Lemma stream_delivers_in_order_witness :
  ∃ out s', sse_stream conf (λ _, Ret tt) echo5 "u" None None None None session_turns s0
              = (Ret (out, LoopOpen), s')
    ∧ ∃ evs, out = map chunk_of evs ∧ length evs = 7%nat
    ∧ (read_stream (serialize_all (map (default heartbeat) evs))).2
      = (deliver_all (omap (λ o, o) evs) client0).2.
Proof.
  destruct (sse_stream conf (λ _, Ret tt) echo5 "u" None None None None session_turns s0) as [o s'] eqn:E.
  assert (∃ out, o = Ret (out, LoopOpen) ∧ length out = 7%nat) as (out & -> & Hl).
  { revert E. vm_compute. intros [= <- _]. by eexists. }
  exists out, s'. split; [done |].
  destruct (stream_delivers_in_order conf (λ _, Ret tt) echo5 welcome "u" None None None None session_turns
    s0 s' out LoopOpen) as (w & c0 & s1 & e1 & c1 & g & evs & _ & _ & _ & _ & _ & -> & _ & _ & Hread).
  - done.
  - done.
  - done.
  - intros k ev Hev. split; [done | by apply (echo_events_ok k)].
  - by apply Forall_nil.
  - done.
  - done.
  - exact E.
  - exists evs. split; [done |]. split; [| exact Hread]. by rewrite length_map in Hl.
Defined.

(** The messages a browser gets of these turns. *)
Example messages_ex :
  match (sse_stream conf (λ _, Ret tt) echo5 "u" None None None None session_turns s0).1 with
  | Ret (out, _) => map m_data (read_stream (String.concat "" out)).2
  | Raise _ => []
  end = map (dump data_opts)
    (ev_data (welcome "u") :: map ev_data (echo_events ["Hello"; "World"; "from"; "PyPepper"; "SSE!"])).
Proof. vm_compute. reflexivity. Qed.
End SseDeliveryExamples.
