(* ===== verification/SseInterfaces.v ===== *)
(** * SseInterfaces: what the connection registry promises its clients

    [ISSEConnection] and [ISSEConnectionManager] of
    [src/pypepper/network/http/sse/interfaces.py] as an interface with its laws,
    which [SSEConnectionManager] implements.  A client that connects, works and
    disconnects in a [finally], as [sse_stream] does, needs no more than these. *)
From S2P Require Import Prelude Dict Json PyValues Context.
From S2P Require Import SseEvent SseHub SseHubSpec SseStream SseStreamSpec SseDelivery.

Class ISSEConnectionManager (W Conn : Type) : Type := {
  (** a connection *)
  i_connection_id : Conn → W → option string;
  i_send : Conn → SSEEvent → M W bool;
  i_ping : Conn → M W unit;
  i_close : Conn → M W unit;
  i_is_closed : Conn → W → bool;
  (** the manager; [connect] is given the id to use when there is none *)
  i_connect : string → option string → option string → option string → option string → M W Conn;
  i_disconnect : string → M W unit;
  i_get_connection : string → W → option Conn;
  i_get_all_connections : W → list Conn;
  i_broadcast : SSEEvent → M W Z;
}.
Class ISSEConnectionManagerLaws (W Conn : Type) `{!ISSEConnectionManager W Conn} : Prop := {
  (** a new connection is open, has the asked id, or the fresh one, and is
      registered under it; no other id is affected *)
  connect_law : ∀ fresh id last ip key w c w',
    i_connect fresh id last ip key w = (Ret c, w') →
    i_connection_id c w' = Some (id_in_force fresh id)
    ∧ i_is_closed c w' = false
    ∧ i_get_connection (id_in_force fresh id) w' = Some c
    ∧ ∀ j, j ≠ id_in_force fresh id → i_get_connection j w' = i_get_connection j w;
  (** a refused connection is not there *)
  connect_refused_law : ∀ fresh id last ip key w e w',
    i_connect fresh id last ip key w = (Raise e, w') → ∀ j, i_get_connection j w' = i_get_connection j w;
  disconnect_law : ∀ i w, ∃ w', i_disconnect i w = (Ret tt, w')
    ∧ i_get_connection i w' = None
    ∧ (∀ j, j ≠ i → i_get_connection j w' = i_get_connection j w)
    ∧ (∀ c, i_get_connection i w = Some c → i_is_closed c w' = true);
  (** nothing is sent to a closed connection *)
  closed_send_law : ∀ c e w, i_is_closed c w = true → i_send c e w = (Ret false, w);
  close_law : ∀ c w w', i_close c w = (Ret tt, w') → i_is_closed c w' = true;
  all_connections_law : ∀ i c w, i_get_connection i w = Some c → c ∈ i_get_all_connections w;
  (** the number of connections that received the event *)
  broadcast_law : ∀ e w, ∃ n w', i_broadcast e w = (Ret n, w') ∧ (0 ≤ n ≤ Z.of_nat (length (i_get_all_connections w)))%Z;
}.

(** ** [SSEConnectionManager] implements it *)
Section Hub.
Context (conf : string → outcome json).
#[export] Instance Hub_manager : ISSEConnectionManager Hub nat := {
  i_connection_id ref w := connection_id <$> heap w !! ref;
  i_send ref e := send ref e true;
  i_ping := conn_ping;
  i_close := conn_disconnect;
  i_is_closed := is_closed;
  i_connect := connect conf;
  i_disconnect := disconnect;
  i_get_connection := get_connection;
  i_get_all_connections := get_all_connections;
  i_broadcast := broadcast;
}.

Lemma connect_connections fresh id last ip key w ref w' :
  connect conf fresh id last ip key w = (Ret ref, w') →
  _connections w' = dict_set (id_in_force fresh id) ref (_connections w).
Proof.
  unfold connect. fold (id_in_force fresh id). set (i := id_in_force fresh id).
  unfold m_bind, m_of_outcome. destruct (max_queue_size conf) as [n|e]; [| done].
  destruct (check_limits_cases conf ip w) as [(-> & _)|(e & -> & _)]; [| done].
  rewrite register_run. by destruct (opt_str_truthy last); intros [= <- <-].
Qed.
Lemma connect_raises fresh id last ip key w e w' :
  connect conf fresh id last ip key w = (Raise e, w') → w' = w.
Proof.
  unfold connect. fold (id_in_force fresh id). set (i := id_in_force fresh id).
  unfold m_bind, m_of_outcome. destruct (max_queue_size conf) as [n|e']; [| by intros [= _ <-]].
  destruct (check_limits_cases conf ip w) as [(-> & _)|(e' & -> & _)]; [| by intros [= _ <-]].
  rewrite register_run. by destruct (opt_str_truthy last).
Qed.
Lemma dict_get_set {A} k j (v : A) d : dict_get j (dict_set k v d) = if decide (j = k) then Some v else dict_get j d.
Proof.
  rewrite !dict_get_map, dict_map_set. case_decide as H; [subst; apply lookup_insert_eq | by apply lookup_insert_ne].
Qed.

Lemma send_all_count refs e w : ∃ n w', send_all refs e w = (Ret n, w') ∧ (0 ≤ n ≤ Z.of_nat (length refs))%Z.
Proof.
  revert w. induction refs as [|r refs IH]; intros w; [by exists 0%Z, w |]. cbn [send_all].
  destruct (send_returns r e false w) as (b & w1 & Hb). rewrite (bind_ret_run _ _ _ _ _ Hb).
  destruct (IH w1) as (n & w2 & Hn & Hle). rewrite (bind_ret_run _ _ _ _ _ Hn).
  eexists _, w2. split; [reflexivity |]. cbn [length]. destruct b; lia.
Qed.
Lemma broadcast_count e w :
  ∃ n w', broadcast e w = (Ret n, w') ∧ (0 ≤ n ≤ Z.of_nat (length (get_all_connections w)))%Z.
Proof.
  unfold broadcast, broadcast_start. rewrite bind_eq, bind_eq. cbn [m_get].
  set (active := filter _ _).
  assert (∀ w1, ∃ n w', send_all active e w1 = (Ret n, w')
    ∧ (0 ≤ n ≤ Z.of_nat (length (get_all_connections w)))%Z) as Hs.
  { intros w1. destruct (send_all_count active e w1) as (n & w' & Hn & Hle). exists n, w'. split; [done |].
    subst active. pose proof (length_filter (λ ref, is_closed ref w = false) (get_all_connections w)). lia. }
  unfold record_event. rewrite bind_eq.
  destruct (opt_str_truthy (ev_id e)); cbn [m_modify m_ret]; apply Hs.
Qed.

#[export] Instance Hub_laws : ISSEConnectionManagerLaws Hub nat.
Proof.
  split; cbn [i_connect i_connection_id i_is_closed i_get_connection i_disconnect i_send i_close i_get_all_connections Hub_manager].
  - intros fresh id last ip key w c w' H. pose proof (connect_connections _ _ _ _ _ _ _ _ H) as Hc.
    destruct (connect_new _ _ _ _ _ _ _ _ _ H) as (_ & c0 & Hc0 & Hi & Hcl & _).
    unfold is_closed, get_connection. rewrite Hc, Hc0. cbn. rewrite Hi. split_and!; [done | done | |].
    + by rewrite dict_get_set, decide_True.
    + intros j Hj. by rewrite dict_get_set, decide_False.
  - intros fresh id last ip key w e w' ->%connect_raises. done.
  - intros i w. destruct (disconnect_run i w) as (w' & Hd & Hm & Hcl). exists w'. unfold get_connection in *.
    split_and!; [done | | | done].
    + by rewrite dict_get_map, Hm, lookup_delete_eq.
    + intros j Hj. by rewrite !dict_get_map, Hm, lookup_delete_ne.
  - intros c e w. unfold is_closed, send. rewrite bind_eq. cbn [m_get].
    destruct (heap w !! c) as [o|]; [| done]. by intros ->.
  - intros c w w' [= <-]. unfold is_closed, at_ref, set_heap. cbn.
    rewrite list_lookup_alter_eq. by destruct (heap w !! c).
  - intros i c w H. unfold get_connection in H. unfold get_all_connections, dict_values.
    rewrite dict_get_map in H. unfold dict_map in H. apply elem_of_list_to_map_2 in H.
    apply (list_elem_of_fmap_2' snd _ _ _ H). done.
  - intros e w. apply broadcast_count.
Qed.
End Hub.

(** ** A client *)
Section Client.
Context {W Conn A : Type} `{!ISSEConnectionManager W Conn, !ISSEConnectionManagerLaws W Conn}.
(** Connect, work, and disconnect whatever happens. *)
Definition session (fresh : string) (id last ip key : option string) (body : Conn → M W A) : M W A :=
  let* c := i_connect fresh id last ip key in
  m_finally (body c)
    (let* i := m_get (i_connection_id c) in
     match i with Some i => i_disconnect i | None => m_ret tt end).

(** Unless it was refused, in which case the registry is as before, a session
    whose connection keeps its id leaves the id free and, if the connection was
    still the registered one, closed. *)
Lemma session_frees_id fresh id last ip key body w :
  (∀ c w, i_connection_id c (body c w).2 = i_connection_id c w) →
  let i := id_in_force fresh id in
  let '(o, w') := session fresh id last ip key body w in
  match i_connect fresh id last ip key w with
  | (Raise e, _) => o = Raise e ∧ ∀ j, i_get_connection j w' = i_get_connection j w
  | (Ret c, w1) =>
      o = (body c w1).1 ∧ i_get_connection i w' = None
      ∧ (i_get_connection i (body c w1).2 = Some c → i_is_closed c w' = true)
  end.
Proof using ISSEConnectionManagerLaws0.
  intros Hkeep i. unfold session. rewrite bind_eq.
  destruct (i_connect fresh id last ip key w) as [[c|e] w1] eqn:E.
  2:{ split; [done |]. by eapply connect_refused_law. }
  destruct (connect_law _ _ _ _ _ _ _ _ E) as (Hid & _ & _ & _). unfold m_finally.
  specialize (Hkeep c w1). destruct (body c w1) as [o w2]. cbn [snd fst] in *.
  rewrite bind_eq. cbn [m_get]. rewrite Hkeep, Hid. fold i.
  destruct (disconnect_law i w2) as (w3 & -> & Hnone & _ & Hcl). by split_and!; [| | apply Hcl].
Qed.
End Client.
