(* ===== verification/SseLimits.v ===== *)
(** * SseLimits: limits that change while connections are open

    The properties [MAX_CONNECTIONS] and [MAX_CONNECTIONS_PER_IP] of
    [SSEConnectionManager] ([sse/connection.py]): a value assigned at run time
    replaces the configured one.  Connections above a lowered limit stay; the
    registry only shrinks until it is below the limit again. *)
From S2P Require Import Prelude Dict Json PyValues SseEvent SseHub SseHubSpec SseInterfaces.

(** The properties and their setters. *)
Definition MAX_CONNECTIONS (sse_config : string → outcome json) : Hub → outcome Z := _effective_max_connections sse_config.
Definition set_MAX_CONNECTIONS (value : Z) : M Hub unit := m_modify (λ w,
  mkHub (heap w) (_connections w) (_event_log w) (Some value) (_max_connections_per_ip_override w)).
Definition set_MAX_CONNECTIONS_PER_IP (value : Z) : M Hub unit := m_modify (λ w,
  mkHub (heap w) (_connections w) (_event_log w) (_max_connections_override w) (Some value)).

Section Limits.
Context (sse_config : string → outcome json).

(** An assigned limit is the one in force, whatever is configured; nothing else
    changes. *)
Lemma set_limits n m w :
  let w' := (let* _ := set_MAX_CONNECTIONS n in set_MAX_CONNECTIONS_PER_IP m) w in
  w'.1 = Ret tt ∧ MAX_CONNECTIONS sse_config w'.2 = Ret n ∧ MAX_CONNECTIONS_PER_IP sse_config w'.2 = Ret m
  ∧ heap w'.2 = heap w ∧ _connections w'.2 = _connections w ∧ _event_log w'.2 = _event_log w.
Proof. done. Qed.

(** ** The registry's size *)
Definition size (w : Hub) : nat := length (_connections w).
Definition no_larger (w w' : Hub) : Prop := (size w' ≤ size w)%nat ∧ same_limits w w'.
#[local] Instance no_larger_preorder : PreOrder no_larger.
Proof.
  split; [by intros w; split; [| split] |].
  intros w1 w2 w3 [H1 [H2 H3]] [H4 [H5 H6]]. split; [lia | split; congruence].
Qed.
Lemma at_ref_size ref f : preserves no_larger (m_modify (at_ref ref f)).
Proof. apply preserves_modify. intros w. by split; [| split]. Qed.
Lemma set_log_size f : preserves no_larger (m_modify (λ w, set_log (f w) w)).
Proof. apply preserves_modify. intros w. by split; [| split]. Qed.
Lemma pop_size id : preserves no_larger (m_modify (λ w, set_connections (dict_pop id (_connections w)) w)).
Proof.
  apply preserves_modify. intros w. split; [| by split]. unfold size. cbn.
  apply sublist_length, sublist_filter.
Qed.
#[local] Hint Resolve at_ref_size set_log_size pop_size : preserves.
Lemma record_event_size e : preserves no_larger (record_event e).
Proof. unfold record_event. prove_preserves. Qed.
#[local] Hint Resolve record_event_size : preserves.
Lemma send_size ref e record : preserves no_larger (send ref e record).
Proof. unfold send. prove_preserves. Qed.
#[local] Hint Resolve send_size : preserves.
Lemma broadcast_start_size e : preserves no_larger (broadcast_start e).
Proof. unfold broadcast_start. prove_preserves. Qed.
Lemma queue_get_size ref : preserves no_larger (queue_get ref).
Proof. unfold queue_get. prove_preserves. Qed.
Lemma close_size ref : preserves no_larger (conn_disconnect ref).
Proof. unfold conn_disconnect. prove_preserves. Qed.
#[local] Hint Resolve broadcast_start_size queue_get_size close_size : preserves.
Lemma disconnect_size id : preserves no_larger (disconnect id).
Proof. unfold disconnect. prove_preserves. Qed.

(** A connection that is accepted was below the limit. *)
Lemma connect_size fresh id last ip key w : let '(o, w') := connect sse_config fresh id last ip key w in
  same_limits w w'
  ∧ match o with
    | Ret _ => (size w < bound (MAX_CONNECTIONS sse_config w))%nat ∧ (size w' ≤ size w + 1)%nat
    | Raise _ => w' = w
    end.
Proof.
  destruct (connect _ _ _ _ _ _ w) as [[ref|e] w'] eqn:E.
  - pose proof (connect_connections _ _ _ _ _ _ _ _ _ E) as Hc. split_and!.
    + revert E. unfold connect, m_bind, m_of_outcome. destruct (max_queue_size _); [| done].
      destruct (check_limits_cases sse_config ip w) as [(-> & _)|(? & -> & _)]; [| done].
      rewrite register_run. assert (∀ i c, same_limits w (registered i c w)) as Hs.
      { intros i c. unfold registered, close_old. by destruct (dict_get i _). }
      destruct (opt_str_truthy last); intros [= _ <-]; [| apply Hs]. eapply Hs.
    + revert E. unfold connect, m_bind, m_of_outcome. destruct (max_queue_size _); [| done].
      by destruct (check_limits_cases sse_config ip w) as [(_ & H & _)|(? & -> & _)].
    + unfold size. rewrite Hc. apply dict_set_length.
  - by apply connect_raises in E as ->.
Qed.

(** Operations and assignments, in any order. *)
Inductive limit_op : Type :=
| LimitHub (op : hub_op)
| LimitTotal (value : Z)
| LimitPerIp (value : Z).
Definition run_limit_op (op : limit_op) : M Hub unit :=
  match op with
  | LimitHub op => run_hub_op sse_config op
  | LimitTotal n => set_MAX_CONNECTIONS n
  | LimitPerIp n => set_MAX_CONNECTIONS_PER_IP n
  end.
Definition limit_in_force (w : Hub) : nat := bound (MAX_CONNECTIONS sse_config w).

Lemma run_hub_op_size op w : let w' := (run_hub_op sse_config op w).2 in
  same_limits w w' ∧ (size w' ≤ size w ∨ size w < limit_in_force w ∧ size w' ≤ limit_in_force w)%nat.
Proof.
  assert (∀ m : M Hub unit, preserves no_larger m → let w' := (m w).2 in
    same_limits w w' ∧ (size w' ≤ size w ∨ size w < limit_in_force w ∧ size w' ≤ limit_in_force w)%nat) as Hno.
  { intros m Hm. destruct (Hm w). split; [done | by left]. }
  destruct op as [fresh id last ip key| | | | | | |]; cbn [run_hub_op];
    [| apply Hno, disconnect_size | apply Hno; unfold conn_ping; prove_preserves ..].
  cbv zeta. rewrite bind_eq. pose proof (connect_size fresh id last ip key w) as H.
  destruct (connect _ _ _ _ _ _ w) as [[ref|e] w']; cbn [snd m_ret].
  - destruct H as (Hs & Hlt & Hle). split; [done |]. right. unfold limit_in_force. lia.
  - destruct H as [_ ->]. split; [by split | by left].
Qed.

(** However limits are changed while connections come and go: a step that makes
    the registry larger ends within the limit in force, and one that finds it at
    or above that limit - lowered since - does not make it larger. *)
Lemma run_limit_op_size op w : let w' := (run_limit_op op w).2 in
  (size w' ≤ Nat.max (size w) (limit_in_force w))%nat
  ∧ (limit_in_force w ≤ size w → size w' ≤ size w)%nat.
Proof.
  destruct op as [op|n|n]; cbn [run_limit_op]; [| cbn; unfold size; cbn; lia ..].
  destruct (run_hub_op_size op w) as [_ H]. lia.
Qed.
(** With the limits left alone the registry stays below the larger of its size
    and the limit, and once within the limit it stays there. *)
Lemma run_hub_ops_size ops : ∀ w, let w' := run_hub_ops sse_config ops w in
  (size w' ≤ Nat.max (size w) (limit_in_force w))%nat
  ∧ (size w ≤ limit_in_force w → size w' ≤ limit_in_force w)%nat.
Proof.
  induction ops as [|op ops IH]; intros w; [cbn; lia |].
  destruct (run_hub_op_size op w) as [Hs H]. unfold run_hub_ops. cbn [fold_left].
  destruct (IH (run_hub_op sse_config op w).2) as [H1 H2]. unfold run_hub_ops in H1, H2.
  assert (limit_in_force (run_hub_op sse_config op w).2 = limit_in_force w) as Hl.
  { unfold limit_in_force, MAX_CONNECTIONS. by rewrite (proj1 (limits_fixed sse_config _ _ Hs)). }
  rewrite Hl in *. lia.
Qed.
End Limits.
