(* ===== verification/SseSecurity.v ===== *)
(** * SseSecurity: API keys and rate limiting

    [src/pypepper/network/http/sse/security.py] and the [Cache] of
    [src/pypepper/common/cache.py].  [cachetools.TTLCache] is third-party: its
    [getitem] and [setitem] are parameters, [TtlCacheLaws] their documented
    behaviour. *)
From S2P Require Import Prelude Dict Json PyValues.

(** [cachetools.TTLCache(maxsize, ttl)] with the clock it reads. *)
Class TtlCache (C : Type) : Type := {
  now : C → Z;
  wait : Z → C → C;
  getitem : string → M C Z;
  setitem : string → Z → M C unit;
  cache_entries : C → gmap string (Z * Z);   (** value and expiry *)
}.
(** The entries that have not expired. *)
Definition live_entries {C} `{TtlCache C} (c : C) : gmap string (Z * Z) :=
  filter (λ kv, (now c < kv.2.2)%Z) (cache_entries c).
(** An item expires [ttl] after it is set; items that have not expired are only
    discarded to make room for a new one. *)
Class TtlCacheLaws (C : Type) `{!TtlCache C} (maxsize : nat) (ttl : Z) : Prop := {
  wait_law : ∀ d c, (0 ≤ d)%Z → now (wait d c) = (now c + d)%Z ∧ cache_entries (wait d c) = cache_entries c;
  getitem_law : ∀ k c,
    let '(o, c') := getitem k c in
    now c' = now c ∧ live_entries c' = live_entries c
    ∧ o = match live_entries c !! k with Some (v, _) => Ret v | None => Raise (KeyError k) end;
  setitem_law : ∀ k v c,
    let '(o, c') := setitem k v c in
    o = Ret tt ∧ now c' = now c
    ∧ ((size (delete k (live_entries c)) < maxsize)%nat →
       live_entries c' = <[k := (v, (now c + ttl)%Z)]> (live_entries c));
}.

Section Cache.
Context {C : Type} `{!TtlCache C}.
Definition is_value_error (e : exn) : bool := match e with ValueError _ => true | _ => false end.
Definition is_key_error (e : exn) : bool := match e with KeyError _ => true | _ => false end.
(** [Cache.set(key, value)], [Cache.get(key)]. *)
Definition cache_set (key : string) (value : Z) : M C unit :=
  m_except is_value_error (setitem key value) (λ _, m_ret tt).
Definition cache_get (key : string) : M C (option Z) :=
  m_except is_key_error (let* v := getitem key in m_ret (Some v)) (λ _, m_ret None).
End Cache.

(** [ConfSSEAuthentication], [ConfSSERateLimit]. *)
Record SecurityConf : Type := mkSecurityConf {
  auth_enabled : bool;
  validKeys : list json;
  rate_enabled : bool;
  maxRequestsPerMinute : Z;
}.

(** The module's state: the rate-limit cache and the one-shot warnings. *)
Record Security (C : Type) : Type := mkSecurity {
  _rate_limit_cache : C;
  _auth_disabled_warned : bool;
  _auth_off_blocked_warned : bool;
}.
Arguments mkSecurity {C}. Arguments _rate_limit_cache {C}.
Arguments _auth_disabled_warned {C}. Arguments _auth_off_blocked_warned {C}.

Definition _AUTH_OFF_ENV : string := "PYPEPPER_SSE_ALLOW_AUTH_OFF".
Definition _AUTH_OFF_TRUTHY : list string := ["1"; "true"; "yes"; "on"].
Definition AUTH_OFF_BLOCKED_DETAIL : string :=
  "SSE authentication cannot be disabled without "
  +:+ _AUTH_OFF_ENV +:+ "=1 (or true/yes/on); "
  +:+ "set sse.authentication.enabled: true and inject validKeys, "
  +:+ "or export " +:+ _AUTH_OFF_ENV +:+ "=1 for local experiments only".

Definition is_ascii (s : string) : bool := forallb (λ c, (code c <? 128)%nat) (String.list_ascii_of_string s).

(** [hmac.compare_digest] on two strings. *)
Definition compare_digest (a b : string) : outcome bool :=
  if is_ascii a && is_ascii b then Ret (String.eqb a b)
  else Raise (TypeError "comparing strings with non-ASCII characters is not supported").
(** [any(compare_digest(api_key, key) for key in valid_keys if isinstance(key, str))]. *)
Fixpoint any_key (api_key : string) (keys : list json) : outcome bool :=
  match keys with
  | [] => Ret false
  | JStr key :: rest =>
      match compare_digest api_key key with
      | Ret true => Ret true
      | Ret false => any_key api_key rest
      | Raise e => Raise e
      end
  | _ :: rest => any_key api_key rest
  end.

(** What the wrapper reads of a request. *)
Record Request : Type := mkRequest {
  authorization : option string;
  x_api_key : option string;
  client_host : option string;
}.

Section Security.
Context {C : Type} `{!TtlCache C} (env : option string).

(** [_auth_off_allowed()]. *)
Definition _auth_off_allowed : bool := bool_decide (lower (strip (default "" env)) ∈ _AUTH_OFF_TRUTHY).
(** [_warn_auth_disabled_once()], [_warn_auth_off_blocked_once()] and
    [reset_auth_disabled_warning()]; the log line itself is not kept. *)
Definition _warn_auth_disabled_once : M (Security C) unit :=
  m_modify (λ s, mkSecurity (_rate_limit_cache s) true (_auth_off_blocked_warned s)).
Definition _warn_auth_off_blocked_once : M (Security C) unit :=
  m_modify (λ s, mkSecurity (_rate_limit_cache s) (_auth_disabled_warned s) true).
Definition reset_auth_disabled_warning : M (Security C) unit :=
  m_modify (λ s, mkSecurity (_rate_limit_cache s) false false).
Definition on_cache {A} (m : M C A) : M (Security C) A :=
  λ s, let '(o, c) := m (_rate_limit_cache s) in
       (o, mkSecurity c (_auth_disabled_warned s) (_auth_off_blocked_warned s)).

Context (cfg : SecurityConf).

(** [SSESecurityManager._validate_api_key(api_key)]. *)
Definition _validate_api_key (api_key : option string) : M (Security C) bool :=
  if negb (opt_str_truthy api_key) then m_ret false
  else if negb (auth_enabled cfg) then
    if negb _auth_off_allowed then let* _ := _warn_auth_off_blocked_once in m_ret false
    else let* _ := _warn_auth_disabled_once in m_ret true
  else m_of_outcome (any_key (default "" api_key) (validKeys cfg)).

(** [SSESecurityManager._check_rate_limit(client_id)]. *)
Definition rate_key (client_id : string) : string := "rate_limit:" +:+ client_id.
Definition _check_rate_limit (client_id : string) : M (Security C) bool :=
  if negb (rate_enabled cfg) then m_ret true
  else
    let* got := on_cache (cache_get (rate_key client_id)) in
    let count := match got with Some n => n | None => 0%Z end in
    if (maxRequestsPerMinute cfg <=? count)%Z then m_ret false
    else
      let* _ := on_cache (cache_set (rate_key client_id) (count + 1)) in
      m_ret true.

(** [SSESecurityManager.validate_api_key(api_key)], [check_rate_limit(client_id)]:
    on the process's one manager. *)
Definition validate_api_key : option string → M (Security C) bool := _validate_api_key.
Definition check_rate_limit : string → M (Security C) bool := _check_rate_limit.

(** The key a request presents. *)
Definition bearer_of (req : Request) : string :=
  let auth := default "" (authorization req) in
  if String.prefix "bearer " (lower auth)
  then strip (String.substring 7 (String.length auth - 7) auth) else "".
Definition api_key_of (req : Request) : option string :=
  if opt_str_truthy (x_api_key req) then x_api_key req
  else if str_truthy (bearer_of req) then Some (bearer_of req) else None.

Definition rate_msg : string :=
  "Rate limit exceeded (max " +:+ str_of_Z (maxRequestsPerMinute cfg) +:+ " requests/minute)".

(** The wrapper of [require_sse_api_key(func)]; [func] gets the key and the
    address the wrapper leaves in [request.state]. *)
Definition require_sse_api_key {A} (func : option string → option string → M (Security C) A)
    (req : Request) : M (Security C) A :=
  if negb (auth_enabled cfg) && negb _auth_off_allowed then
    let* _ := _warn_auth_off_blocked_once in
    m_raise (HTTPException 503 AUTH_OFF_BLOCKED_DETAIL)
  else
    let api_key := api_key_of req in
    let* valid := _validate_api_key api_key in
    if negb valid then m_raise (HTTPException 401 "Invalid or missing API key")
    else
      let client_id := default "" api_key in
      let* ok := _check_rate_limit client_id in
      if negb ok then m_raise (HTTPException 429 rate_msg)
      else func api_key (client_host req).
End Security.
