(* ===== verification/SseSecuritySpec.v ===== *)
(** * SseSecuritySpec: the rate limiter and the key check

    The limiter against a reference that remembers, per client, how many
    requests it accepted since the client was last idle for the cache's time to
    live; and the gate in front of an endpoint. *)
From S2P Require Import Prelude Dict Json PyValues SseSecurity.

(** ** The reference limiter *)

(** Per client: requests accepted in the running burst, and when the last was. *)
Abbreviation bursts := (gmap string (Z * Z)).
Section Reference.
Context (max ttl : Z).

Definition burst_count (b : option (Z * Z)) (t : Z) : Z :=
  match b with Some (n, last) => if (t <? last + ttl)%Z then n else 0%Z | None => 0%Z end.
Fixpoint limiter (reqs : list (Z * string)) (st : bursts) : list (Z * string * bool) :=
  match reqs with
  | [] => []
  | (t, k) :: rest =>
      let n := burst_count (st !! k) t in
      if (max <=? n)%Z then (t, k, false) :: limiter rest st
      else (t, k, true) :: limiter rest (<[k := ((n + 1)%Z, t)]> st)
  end.

(** The times at which a client's requests were accepted. *)
Definition accepted (k : string) (res : list (Z * string * bool)) : list Z :=
  omap (λ r : Z * string * bool, let '(t, k', ok) := r in
    if bool_decide (k' = k) && (ok : bool) then Some t else None) res.
Definition in_window (t0 : Z) (ts : list Z) : nat :=
  length (filter (λ t, (t0 ≤ t)%Z ∧ (t < t0 + ttl)%Z) ts).

(** What a burst says of the times accepted so far. *)
Definition burst_inv (b : option (Z * Z)) (ts : list Z) : Prop :=
  (∀ t0, (Z.of_nat (in_window t0 ts) ≤ Z.max 0 max)%Z)
  ∧ match b with
    | None => ts = []
    | Some (n, last) =>
        (0 < n)%Z ∧ (n ≤ max)%Z ∧ Forall (λ t, (t ≤ last)%Z) ts
        ∧ ∀ t0, (t0 ≤ last)%Z → (last < t0 + ttl)%Z → (Z.of_nat (in_window t0 ts) ≤ n)%Z
    end.

Lemma in_window_snoc t0 ts t :
  in_window t0 (ts ++ [t]) = (in_window t0 ts + if decide ((t0 ≤ t)%Z ∧ (t < t0 + ttl)%Z) then 1 else 0)%nat.
Proof.
  unfold in_window. rewrite filter_app, length_app. f_equal. rewrite filter_cons.
  by destruct (decide _).
Qed.

Lemma in_window_late t0 ts last : Forall (λ t, (t ≤ last)%Z) ts → (last < t0)%Z → in_window t0 ts = 0%nat.
Proof.
  unfold in_window. induction 1 as [|t ts Ht _ IH]; intros Hl; [done |].
  rewrite filter_cons, decide_False by lia. by apply IH.
Qed.

Lemma burst_inv_accept b ts t :
  burst_inv b ts → (burst_count b t < max)%Z →
  match b with Some (_, last) => (last ≤ t)%Z | None => True end →
  burst_inv (Some ((burst_count b t + 1)%Z, t)) (ts ++ [t]).
Proof.
  intros [Hall Hb] Hlt Hle.
  assert (Forall (λ t', (t' ≤ t)%Z) ts ∧ (0 ≤ burst_count b t)%Z
    ∧ ∀ t0, (t0 ≤ t)%Z → (t < t0 + ttl)%Z → (Z.of_nat (in_window t0 ts) ≤ burst_count b t)%Z) as (H1 & H2 & H3).
  { destruct b as [[n last]|]; [| subst ts; by split_and!].
    destruct Hb as (Hn & _ & Hts & Hw). cbn in *.
    split; [eapply Forall_impl; [exact Hts |]; cbn; lia |].
    destruct (Z.ltb_spec t (last + ttl)).
    - split; [lia |]. intros t0 H1 H2. destruct (decide (t0 ≤ last)%Z); [apply Hw; lia |].
      rewrite (in_window_late t0 ts last) by (done || lia). cbn. lia.
    - split; [lia |]. intros t0 H1 H2. rewrite (in_window_late t0 ts last) by (done || lia). done. }
  split.
  - intros t0. rewrite in_window_snoc. specialize (Hall t0).
    destruct (decide _) as [[Ha Hc]|]; [specialize (H3 t0 Ha Hc) |]; lia.
  - split_and!; [lia | lia | |].
    + apply Forall_app. split; [done |]. by repeat constructor.
    + intros t0 Ha Hc. rewrite in_window_snoc. specialize (H3 t0 Ha Hc).
      destruct (decide _); lia.
Qed.

Fixpoint timed (t : Z) (reqs : list (Z * string)) : Prop :=
  match reqs with [] => True | (t', _) :: rest => (t ≤ t')%Z ∧ timed t' rest end.

Lemma limiter_window reqs st t k (ts : list Z) :
  timed t reqs → burst_inv (st !! k) ts →
  (∀ n last, st !! k = Some (n, last) → (last ≤ t)%Z) →
  ∀ t0, (Z.of_nat (in_window t0 (ts ++ accepted k (limiter reqs st))) ≤ Z.max 0 max)%Z.
Proof.
  revert st t ts. induction reqs as [|[t' k'] rest IH]; intros st t ts Ht Hinv Hlast t0.
  { cbn. rewrite app_nil_r. apply Hinv. }
  destruct Ht as [Htt Ht]. cbn [limiter].
  destruct (Z.leb_spec max (burst_count (st !! k') t')) as [Hge|Hlt].
  - unfold accepted. cbn. rewrite andb_false_r. apply (IH st t'); [done | done |].
    intros n last H. specialize (Hlast n last H). lia.
  - unfold accepted. cbn [omap list_omap]. destruct (decide (k' = k)) as [->|Hk].
    + rewrite bool_decide_true by done. cbn [andb]. rewrite cons_middle, app_assoc.
      apply (IH (<[k := ((burst_count (st !! k) t' + 1)%Z, t')]> st) t'); [done | |].
      * rewrite lookup_insert_eq. apply burst_inv_accept; [done | done |].
        destruct (st !! k) as [[n last]|]; [| done]. specialize (Hlast n last eq_refl). lia.
      * rewrite lookup_insert_eq. intros n last [= <- <-]. lia.
    + rewrite bool_decide_false by done. cbn [andb].
      apply (IH (<[k' := ((burst_count (st !! k') t' + 1)%Z, t')]> st) t'); [done | |];
        rewrite lookup_insert_ne by done; [done |].
      intros n last H. specialize (Hlast n last H). lia.
Qed.
End Reference.

(** ** The limiter implements the reference *)
Section Limiter.
Context {C : Type} `{!TtlCache C} (maxsize : nat) (ttl : Z) `{!TtlCacheLaws C maxsize ttl}.
Context (cfg : SecurityConf) (rate_on : rate_enabled cfg = true).

(** Requests, each after a delay: when each came, whose it was, whether it was
    let through. *)
Fixpoint serve (reqs : list (Z * string)) : M (Security C) (list (Z * string * bool)) :=
  match reqs with
  | [] => m_ret []
  | (d, k) :: rest =>
      let* _ := on_cache (m_modify (wait d)) in
      let* ok := _check_rate_limit cfg k in
      let* t := m_get (λ s, now (_rate_limit_cache s)) in
      let* res := serve rest in
      m_ret ((t, k, ok) :: res)
  end.
Fixpoint arrivals (t : Z) (reqs : list (Z * string)) : list (Z * string) :=
  match reqs with [] => [] | (d, k) :: rest => ((t + d)%Z, k) :: arrivals (t + d)%Z rest end.

Lemma arrivals_timed t reqs : Forall (λ r, (0 ≤ r.1)%Z) reqs → timed t (arrivals t reqs).
Proof.
  intros H. revert t. induction H as [|[d k] rest Hd _ IH]; intros t; cbn in *; [done |].
  split; [lia | apply IH].
Qed.

(** The cache holds what the reference remembers of the bursts that run. *)
Definition entry_of (t : Z) (b : option (Z * Z)) : option (Z * Z) :=
  match b with
  | Some (n, last) => if (t <? last + ttl)%Z then Some (n, (last + ttl)%Z) else None
  | None => None
  end.
Definition mirrors (ids : gset string) (st : bursts) (c : C) : Prop :=
  (∀ k, live_entries c !! rate_key k = entry_of (now c) (st !! k))
  ∧ ∀ key, is_Some (live_entries c !! key) → ∃ k, k ∈ ids ∧ key = rate_key k.

Lemma rate_key_inj k k' : rate_key k = rate_key k' → k = k'.
Proof. unfold rate_key. cbn. congruence. Qed.

Lemma live_lookup c key v e :
  live_entries c !! key = Some (v, e) ↔ cache_entries c !! key = Some (v, e) ∧ (now c < e)%Z.
Proof. unfold live_entries. by rewrite map_lookup_filter_Some. Qed.

Lemma mirrors_wait ids st c d :
  (0 ≤ d)%Z → mirrors ids st c → mirrors ids st (wait d c).
Proof.
  intros Hd [H1 H2]. destruct (wait_law (C := C) d c Hd) as [Hn He].
  assert (∀ key, live_entries (wait d c) !! key
    = match live_entries c !! key with
      | Some (v, e) => if (now c + d <? e)%Z then Some (v, e) else None
      | None => None end) as Hlive.
  { intros key. apply option_eq. intros [v e]. rewrite live_lookup, Hn, He.
    destruct (live_entries c !! key) as [[v' e']|] eqn:Hl.
    - apply live_lookup in Hl as [-> Hlt]. destruct (Z.ltb_spec (now c + d) e'); split.
      + by intros [? _].
      + by intros [= <- <-].
      + intros [[= <- <-] ?]. lia.
      + done.
    - split; [| done]. intros [Hc Hlt]. assert (live_entries c !! key = Some (v, e)) as H.
      { apply live_lookup. split; [done | lia]. }
      congruence. }
  split.
  - intros k. rewrite Hlive, H1, Hn. unfold entry_of. destruct (st !! k) as [[n last]|]; [| done].
    destruct (Z.ltb_spec (now c) (last + ttl)); [done |].
    by destruct (Z.ltb_spec (now c + d) (last + ttl)); [lia |].
  - intros key [x Hx]. rewrite Hlive in Hx. apply H2.
    destruct (live_entries c !! key); [by eexists | done].
Qed.

Lemma mirrors_room ids st c k :
  mirrors ids st c → k ∈ ids → (size ids ≤ maxsize)%nat →
  (size (delete (rate_key k) (live_entries c)) < maxsize)%nat.
Proof.
  intros [_ Hdom] Hk Hsize. rewrite <- size_dom.
  assert (size (dom (delete (rate_key k) (live_entries c))) ≤ size (ids ∖ {[k]}))%nat.
  { unfold size at 1 2, set_size. cbn. rewrite <- (length_fmap rate_key (elements (ids ∖ {[k]}))).
    apply submseteq_length, NoDup_submseteq; [apply NoDup_elements |].
    intros key Hkey%elem_of_elements. rewrite dom_delete in Hkey.
    apply elem_of_difference in Hkey as [Hin Hne].
    apply elem_of_dom in Hin. destruct (Hdom key Hin) as (k' & Hk' & ->).
    apply list_elem_of_fmap. exists k'. split; [done |].
    apply elem_of_elements, elem_of_difference. split; [done |].
    intros ->%elem_of_singleton. by apply Hne, elem_of_singleton. }
  assert (size (ids ∖ {[k]}) < size ids)%nat.
  { apply subset_size. split; [apply subseteq_difference_l; done |].
    intros Hc. specialize (Hc k Hk). apply elem_of_difference in Hc as [_ Hc]. by apply Hc, elem_of_singleton. }
  lia.
Qed.
Lemma mirrors_ext ids st c c' :
  live_entries c' = live_entries c → now c' = now c → mirrors ids st c → mirrors ids st c'.
Proof. intros Hl Hn [H1 H2]. split; [intros k | intros key]; rewrite Hl, ?Hn; auto. Qed.

Lemma cache_get_run k st ids c :
  mirrors ids st c →
  ∃ got c', cache_get (rate_key k) c = (Ret got, c') ∧ mirrors ids st c' ∧ now c' = now c
  ∧ match got with Some n => n | None => 0%Z end = burst_count ttl (st !! k) (now c).
Proof.
  intros Hm. pose proof (getitem_law (C := C) (rate_key k) c) as H. unfold cache_get, m_except, m_bind.
  destruct (getitem (rate_key k) c) as [o c']. destruct H as (Hn & Hl & ->).
  pose proof (mirrors_ext _ _ _ _ Hl Hn Hm) as Hm'. rewrite (proj1 Hm k). unfold entry_of, burst_count.
  destruct (st !! k) as [[n last]|]; [destruct (now c <? last + ttl)%Z |]; cbn; by do 2 eexists.
Qed.

Lemma check_rate_limit_run k ids st s :
  mirrors ids st (_rate_limit_cache s) → k ∈ ids → (size ids ≤ maxsize)%nat → (0 < ttl)%Z →
  let t := now (_rate_limit_cache s) in
  let n := burst_count ttl (st !! k) t in
  let ok := negb (maxRequestsPerMinute cfg <=? n)%Z in
  ∃ s', _check_rate_limit cfg k s = (Ret ok, s') ∧ now (_rate_limit_cache s') = t
  ∧ mirrors ids (if ok then <[k := ((n + 1)%Z, t)]> st else st) (_rate_limit_cache s').
Proof.
  intros Hm Hk Hsize Httl t n ok. unfold _check_rate_limit. rewrite rate_on. cbn [negb].
  destruct (cache_get_run k st ids _ Hm) as (got & c1 & Hget & Hm1 & Hn1 & Hcount).
  assert (on_cache (cache_get (rate_key k)) s
    = (Ret got, mkSecurity c1 (_auth_disabled_warned s) (_auth_off_blocked_warned s))) as Hrun.
  { unfold on_cache. by rewrite Hget. }
  rewrite (bind_ret_run _ _ _ _ _ Hrun). cbn zeta. rewrite Hcount. fold t n.
  subst ok. destruct (Z.leb_spec (maxRequestsPerMinute cfg) n) as [Hge|Hlt]; cbn [negb].
  { eexists. by split_and!. }
  pose proof (setitem_law (C := C) (rate_key k) (n + 1) c1) as Hset.
  unfold m_bind, on_cache, cache_set, m_except. cbn [_rate_limit_cache _auth_disabled_warned _auth_off_blocked_warned].
  destruct (setitem (rate_key k) (n + 1) c1) as [o c2]. destruct Hset as (-> & Hn2 & Hl2).
  specialize (Hl2 (mirrors_room _ _ _ _ Hm1 Hk Hsize)).
  eexists. split; [done |]. cbn [_rate_limit_cache]. split; [by rewrite Hn2, Hn1 |].
  destruct Hm1 as [H1 H2]. split.
  - intros k'. rewrite Hl2, Hn2, Hn1. fold t. destruct (decide (k' = k)) as [->|Hne].
    + rewrite !lookup_insert_eq. cbn. by destruct (Z.ltb_spec t (t + ttl)); [| lia].
    + rewrite !lookup_insert_ne; [| done | by intros ?%rate_key_inj]. by rewrite H1, Hn1.
  - intros key. rewrite Hl2. destruct (decide (key = rate_key k)) as [->|Hne]; [intros _; by exists k |].
    rewrite lookup_insert_ne by done. apply H2.
Qed.

Lemma serve_limiter reqs ids st s :
  mirrors ids st (_rate_limit_cache s) → list_to_set (map snd reqs) ⊆ ids → (size ids ≤ maxsize)%nat →
  (0 < ttl)%Z → Forall (λ r, (0 ≤ r.1)%Z) reqs →
  ∃ s', serve reqs s
    = (Ret (limiter (maxRequestsPerMinute cfg) ttl (arrivals (now (_rate_limit_cache s)) reqs) st), s').
Proof.
  intros Hm Hids Hsize Httl Hd. revert st s Hm.
  induction Hd as [|[d k] rest Hd _ IH]; intros st s Hm; [by eexists |].
  cbn [map snd list_to_set] in Hids. cbn [fst] in Hd.
  apply union_subseteq in Hids as [Hk Hids]. apply singleton_subseteq_l in Hk.
  cbn [serve arrivals limiter]. set (c1 := wait d (_rate_limit_cache s)).
  set (s1 := mkSecurity c1 (_auth_disabled_warned s) (_auth_off_blocked_warned s)).
  assert (on_cache (m_modify (wait d)) s = (Ret tt, s1)) as Hw by done.
  rewrite (bind_ret_run _ _ _ _ _ Hw).
  destruct (wait_law (C := C) d (_rate_limit_cache s) Hd) as [Hn _]. fold c1 in Hn.
  assert (mirrors ids st (_rate_limit_cache s1)) as Hm1 by (by apply mirrors_wait).
  destruct (check_rate_limit_run k ids st s1 Hm1) as (s2 & Hrun & Hn2 & Hm2); [done .. |].
  rewrite (bind_ret_run _ _ _ _ _ Hrun). cbn [s1 _rate_limit_cache] in Hrun, Hn2, Hm2 |- *.
  rewrite Hn in *.
  destruct (IH Hids _ s2 Hm2) as [s3 Hserve]. rewrite Hn2 in Hserve.
  rewrite (bind_ret_run (m_get _) _ _ _ _ eq_refl), (bind_ret_run _ _ _ _ _ Hserve).
  exists s3. unfold m_ret. rewrite Hn2.
  by destruct (maxRequestsPerMinute cfg <=? burst_count ttl (st !! k) (now (_rate_limit_cache s) + d))%Z.
Qed.
End Limiter.

(** C35: For any sequence of requests of at most as many clients as the cache has
    room for, the rate limiter answers as the reference limiter does: it lets a
    request through exactly when fewer than the maximum were let through since
    its client was last idle for the cache's time to live.  So in no window of
    that length are more than the maximum let through. *)
Theorem rate_limit_window {C : Type} `{!TtlCache C} (maxsize : nat) (ttl : Z) `{!TtlCacheLaws C maxsize ttl}
    (cfg : SecurityConf) (reqs : list (Z * string)) (s : Security C) :
  rate_enabled cfg = true → (0 < ttl)%Z →
  live_entries (_rate_limit_cache s) = ∅ →
  Forall (λ r, (0 ≤ r.1)%Z) reqs →
  (size (list_to_set (map snd reqs) : gset string) ≤ maxsize)%nat →
  ∃ s', let max := maxRequestsPerMinute cfg in
    let res := limiter max ttl (arrivals (now (_rate_limit_cache s)) reqs) ∅ in
    serve cfg reqs s = (Ret res, s')
    ∧ ∀ k t0, (Z.of_nat (in_window ttl t0 (accepted k res)) ≤ Z.max 0 max)%Z.
Proof.
  intros Hon Httl Hlive Hd Hsize.
  destruct (serve_limiter maxsize ttl cfg Hon reqs (list_to_set (map snd reqs)) ∅ s) as [s' Hs]; try done.
  { split; [intros k | intros key]; rewrite Hlive, lookup_empty; [by rewrite lookup_empty |].
    intros [? [=]]. }
  exists s'. split; [exact Hs |]. intros k t0.
  apply (limiter_window _ ttl _ ∅ (now (_rate_limit_cache s)) k []).
  - by apply arrivals_timed.
  - rewrite lookup_empty. split; [intros ?; cbn; lia | done].
  - intros n last. by rewrite lookup_empty.
Qed.

(** ** The gate *)
Lemma any_key_true k keys : any_key k keys = Ret true → JStr k ∈ keys ∧ is_ascii k = true.
Proof.
  induction keys as [|[| | |key| |] keys IH]; [done | ..]; cbn [any_key];
    try (intros H; destruct (IH H); by split; [right |]).
  unfold compare_digest. destruct (is_ascii k) eqn:Hk; [| done]. destruct (is_ascii key); [| done].
  cbn. destruct (String.eqb_spec k key) as [->|_]; [by split; [left |] |].
  intros H. destruct (IH H). by split; [right |].
Qed.
Lemma any_key_false k keys : any_key k keys = Ret false → JStr k ∉ keys.
Proof.
  induction keys as [|[| | |key| |] keys IH]; [intros _; apply not_elem_of_nil | ..]; cbn [any_key];
    try (intros H [?|?]%elem_of_cons; [done | by apply IH]).
  unfold compare_digest. destruct (is_ascii k && is_ascii key); [| done].
  destruct (String.eqb_spec k key) as [->|Hne]; [done |].
  intros H [[=]|?]%elem_of_cons; [by apply Hne | by apply IH].
Qed.
Lemma any_key_raise k keys e :
  any_key k keys = Raise e →
  e = TypeError "comparing strings with non-ASCII characters is not supported"
  ∧ (is_ascii k = false ∨ ∃ key, JStr key ∈ keys ∧ is_ascii key = false).
Proof.
  induction keys as [|[| | |key| |] keys IH]; [done | ..]; cbn [any_key];
    try (intros H; destruct (IH H) as [-> [?|(key & ? & ?)]];
         split; [done | by left | done | right; exists key; split; [by right | done]]).
  unfold compare_digest. destruct (is_ascii k) eqn:Hk, (is_ascii key) eqn:Hkey; cbn.
  - destruct (String.eqb k key); [done |]. intros H. destruct (IH H) as [-> [?|(key' & ? & ?)]]; [done |].
    split; [done |]. right. exists key'. split; [by right | done].
  - intros [= <-]. split; [done |]. right. exists key. split; [by left | done].
  - intros [= <-]. auto.
  - intros [= <-]. auto.
Qed.

Lemma check_rate_limit_returns {C : Type} `{!TtlCache C} (maxsize : nat) (ttl : Z) `{!TtlCacheLaws C maxsize ttl}
    cfg k (s : Security C) :
  ∃ b s', _check_rate_limit cfg k s = (Ret b, s').
Proof.
  unfold _check_rate_limit. destruct (rate_enabled cfg); cbn [negb]; [| by do 2 eexists].
  unfold m_bind, on_cache, cache_get, cache_set, m_except, m_bind.
  pose proof (getitem_law (C := C) (rate_key k) (_rate_limit_cache s)) as H.
  destruct (getitem (rate_key k) (_rate_limit_cache s)) as [o c]. destruct H as (_ & _ & ->).
  assert (∀ v c', ∃ c'', setitem (rate_key k) v c' = (Ret tt, c'')) as Hset.
  { intros v c'. pose proof (setitem_law (C := C) (rate_key k) v c') as H.
    destruct (setitem (rate_key k) v c') as [o' c'']. destruct H as (-> & _). by eexists. }
  destruct (live_entries _ !! _) as [[v e]|]; cbn; (destruct (_ <=? _)%Z; [by do 2 eexists |]);
    cbn; (edestruct Hset as [c'' ->]); by do 2 eexists.
Qed.

(** What is accepted as a key. *)
Definition admissible (env : option string) (cfg : SecurityConf) (key : string) : Prop :=
  if auth_enabled cfg then JStr key ∈ validKeys cfg else _auth_off_allowed env = true.
Definition not_comparable (cfg : SecurityConf) (key : string) : Prop :=
  is_ascii key = false ∨ ∃ k, JStr k ∈ validKeys cfg ∧ is_ascii k = false.

Lemma validate_cases {C : Type} env cfg key (s : Security C) :
  auth_enabled cfg = true ∨ _auth_off_allowed env = true →
  ∃ s1, _validate_api_key env cfg (Some key) s = (Ret true, s1) ∧ str_truthy key = true ∧ admissible env cfg key
  ∨ _validate_api_key env cfg (Some key) s = (Ret false, s1) ∧ (key = "" ∨ ¬ admissible env cfg key)
  ∨ ∃ e, _validate_api_key env cfg (Some key) s = (Raise e, s1) ∧ auth_enabled cfg = true
      ∧ not_comparable cfg key
      ∧ e = TypeError "comparing strings with non-ASCII characters is not supported".
Proof.
  intros Hg. unfold _validate_api_key, admissible. cbn [opt_str_truthy default].
  destruct (str_truthy key) eqn:Hkey; cbn [negb].
  2:{ exists s. right; left. split; [done |]. left. by apply str_truthy_false. }
  destruct (auth_enabled cfg); cbn [negb].
  - exists s. unfold m_of_outcome. change (id key) with key. destruct (any_key key (validKeys cfg)) as [[]|e] eqn:Ha.
    + left. split_and!; [done | done |]. by apply any_key_true.
    + right; left. split; [done |]. right. by apply any_key_false.
    + right; right. apply any_key_raise in Ha as [-> Ha]. by eexists.
  - destruct Hg as [Hg|Hg]; [done |]. rewrite Hg. cbn. eexists. left. by split_and!.
Qed.

(** C36: The gate of an endpoint: it is entered only with a non-empty key that is
    one of the configured keys - or, when authentication is off, only if the
    environment allows that - and that the rate limiter lets through; the
    endpoint then sees that key and the client's address.  Otherwise the request
    is answered 503 (authentication off and not allowed), 401 or 429, or ends in
    the [TypeError] of [compare_digest]: a key with a non-ASCII character, in
    the request or in the configuration, is not refused but an error. *)
Theorem endpoint_gate {C : Type} `{!TtlCache C} (maxsize : nat) (ttl : Z) `{!TtlCacheLaws C maxsize ttl}
    (env : option string) (cfg : SecurityConf) {A : Type}
    (func : option string → option string → M (Security C) A) (req : Request) (s : Security C) :
  let key := default "" (api_key_of req) in
  (∃ s1 s2, str_truthy key = true ∧ admissible env cfg key
     ∧ _check_rate_limit cfg key s1 = (Ret true, s2)
     ∧ require_sse_api_key env cfg func req s = func (Some key) (client_host req) s2)
  ∨ (∃ status detail s', require_sse_api_key env cfg func req s = (Raise (HTTPException status detail), s')
     ∧ (status = 503%Z ∧ auth_enabled cfg = false ∧ _auth_off_allowed env = false
        ∨ status = 401%Z ∧ (key = "" ∨ ¬ admissible env cfg key)
        ∨ status = 429%Z ∧ ∃ s1, _check_rate_limit cfg key s1 = (Ret false, s')))
  ∨ (∃ s', require_sse_api_key env cfg func req s
       = (Raise (TypeError "comparing strings with non-ASCII characters is not supported"), s')
     ∧ auth_enabled cfg = true ∧ not_comparable cfg key).
Proof.
  intros key. unfold require_sse_api_key.
  destruct (negb (auth_enabled cfg) && negb (_auth_off_allowed env)) eqn:Hg.
  { apply andb_prop in Hg as [H1%negb_true_iff H2%negb_true_iff].
    right; left. do 3 eexists. split; [done | by left]. }
  assert (auth_enabled cfg = true ∨ _auth_off_allowed env = true) as Hgate.
  { apply andb_false_iff in Hg as [?%negb_false_iff|?%negb_false_iff]; auto. }
  subst key. destruct (api_key_of req) as [key|].
  2:{ right; left. do 3 eexists. split; [done |]. right; left. auto. }
  change (default "" (Some key)) with key. destruct (validate_cases (C := C) env cfg key s Hgate)
    as (s1 & [(Hv & Hkey & Hadm)|[(Hv & Hno)|(e & Hv & Hon & Hna & ->)]]).
  - rewrite (bind_ret_run _ _ _ _ _ Hv). cbn [negb].
    destruct (check_rate_limit_returns maxsize ttl cfg key s1) as (b & s2 & Hr).
    rewrite (bind_ret_run _ _ _ _ _ Hr). destruct b; cbn [negb].
    + left. by exists s1, s2.
    + right; left. do 3 eexists. split; [done |]. right; right. split; [done | by exists s1].
  - rewrite (bind_ret_run _ _ _ _ _ Hv). right; left. do 3 eexists. split; [done |]. auto.
  - rewrite (bind_raise_run _ _ _ _ _ Hv). right; right. eexists. by split_and!.
Qed.

(** ** A cache, and what the limiter does with it *)
Module SseSecurityExamples.
Record cache : Type := mkCache { c_now : Z; c_entries : gmap string (Z * Z) }.
(** A cache that drops everything else when it has no room. *)
Definition make_room (k : string) (m : gmap string (Z * Z)) : gmap string (Z * Z) :=
  if decide (size (delete k m) < 1000)%nat then m else ∅.
#[local] Instance cache_ops : TtlCache cache := {
  now := c_now;
  wait d c := mkCache (c_now c + d) (c_entries c);
  getitem k c := (match c_entries c !! k with
                  | Some (v, e) => if (c_now c <? e)%Z then Ret v else Raise (KeyError k)
                  | None => Raise (KeyError k)
                  end, c);
  setitem k v c :=
    (Ret tt, mkCache (c_now c) (<[k := (v, (c_now c + 60)%Z)]>
               (make_room k (filter (λ kv, (c_now c < kv.2.2)%Z) (c_entries c)))));
  cache_entries := c_entries;
}.
#[local] Instance cache_laws : TtlCacheLaws cache 1000 60.
Proof.
  split.
  - done.
  - intros k c. cbn. split_and!; [done | done |]. unfold live_entries. cbn.
    rewrite map_lookup_filter. destruct (c_entries c !! k) as [[v e]|]; [| done]. cbn.
    destruct (Z.ltb_spec (c_now c) e); case_guard; cbn in *; by try lia.
  - intros k v c. cbn. split_and!; [done | done |]. unfold live_entries. cbn. intros Hsize.
    unfold make_room. rewrite decide_True by done. apply map_eq. intros j.
    rewrite map_lookup_filter. destruct (decide (j = k)) as [->|Hj].
    + rewrite !lookup_insert_eq. cbn. case_guard; cbn in *; by try lia.
    + rewrite !lookup_insert_ne, map_lookup_filter by done.
      destruct (c_entries c !! j) as [[v' e']|]; [| done]. cbn.
      by repeat (case_guard; cbn in *; try lia).
Qed.

Definition cfg2 : SecurityConf := mkSecurityConf true [JStr "secret"; JInt 3] true 2.
Definition fresh : Security cache := mkSecurity (mkCache 0 ∅) false false.
(** A client that asks every 50 seconds never makes more than two requests a
    minute, and is refused from the third on. *)
Definition steady : list (Z * string) := [(0, "a"); (50, "a"); (50, "a"); (1, "b"); (10, "a")]%Z.

Lemma rate_limit_window_witness :
  (serve cfg2 steady fresh).1
    = Ret [(0, "a", true); (50, "a", true); (100, "a", false); (101, "b", true); (111, "a", true)]%Z
  ∧ ∃ s', let res := limiter 2 60 (arrivals 0 steady) ∅ in
      serve cfg2 steady fresh = (Ret res, s')
      ∧ ∀ k t0, (Z.of_nat (in_window 60 t0 (accepted k res)) ≤ 2)%Z.
Proof.
  split; [vm_compute; reflexivity |].
  destruct (rate_limit_window 1000 60 cfg2 steady fresh) as (s' & Hs & Hw);
    [reflexivity | lia | | | apply Nat.leb_le; vm_compute; reflexivity | exists s'; split; [exact Hs | exact Hw]].
  - apply map_eq. intros i. unfold live_entries. cbn. by rewrite map_lookup_filter, lookup_empty.
  - repeat constructor; cbn; lia.
Defined.

Definition echo (key ip : option string) : M (Security cache) (option string) := m_ret key.
Lemma endpoint_gate_witness :
  (require_sse_api_key None cfg2 echo (mkRequest (Some "Bearer  secret") None (Some "ip")) fresh).1 = Ret (Some "secret")
  ∧ (require_sse_api_key None cfg2 echo (mkRequest None (Some (String "233" "")) None) fresh).1
    = Raise (TypeError "comparing strings with non-ASCII characters is not supported")
  ∧ auth_enabled cfg2 = true ∧ not_comparable cfg2 (String "233" "").
Proof.
  split; [vm_compute; reflexivity |].
  destruct (endpoint_gate 1000 60 None cfg2 echo (mkRequest None (Some (String "233" "")) None) fresh)
    as [(s1 & s2 & _ & _ & _ & E)|[(st & d & s' & E & _)|(s' & E & H1 & H2)]].
  - exfalso. vm_compute in E. discriminate E.
  - exfalso. vm_compute in E. discriminate E.
  - split; [by rewrite E | by split].
Defined.
End SseSecurityExamples.
