(* ===== verification/SseApp.v ===== *)
(** * SseApp: the SSE example application

    [src/example/sse/app.py]: its clock handler, its endpoints behind the API-key
    gate, and the key it takes from the environment.  [main] is in [Startup].
    An endpoint's response is the stream it opens or the JSON it returns; the
    framework runs the stream ([open_stream]). *)
From Stdlib Require Import DecimalString.
From S2P Require Import Prelude Dict Json PyValues Context.
From S2P Require Import SseEvent SseHub SseHubSpec SseStream SseStreamSpec SseSecurity SseSecuritySpec SseDelivery.

(** ** The clock, [ClockSSEHandler]; [now i] is the text of the time of tick [i] *)
Definition clock_hello (connection_id : string) : SSEEvent :=
  mkSSEEvent (JObj [("message", JStr "Clock started"); ("connection_id", JStr connection_id)])
    None (Some "connect") (Some connection_id) None None.
Definition tick_event (now : nat → string) (i : nat) : SSEEvent :=
  let counter := (Z.of_nat i + 1)%Z in
  mkSSEEvent (JObj [("time", JStr (now i)); ("counter", JInt counter)])
    None (Some "tick") (Some ("tick-" +:+ str_of_Z counter)) None None.
Definition ClockSSEHandler (now : nat → string) : ISSEHandler :=
  mkHandler (greet clock_hello) (λ _, m_ret tt) (λ _ i, Some (tick_event now i)).

(** ** Endpoints *)
Inductive reply : Type :=
| EventSourceResponse (handler : ISSEHandler)
| Content (body : json).

(** What the process keeps: the gate's state, the streams, the [sse] section of
    the configuration that [_inject_demo_api_key_from_env] changes. *)
Record Server (C : Type) : Type := mkServer {
  sv_security : Security C;
  sv_streams : Streams;
  sv_config : SecurityConf;
}.
Arguments mkServer {C}. Arguments sv_security {C}. Arguments sv_streams {C}. Arguments sv_config {C}.

Section App.
Context {C : Type} `{!TtlCache C} (environ : string → option string) (clock : nat → string).
Abbreviation MS := (M (Server C)).

Definition on_security {A} (m : M (Security C) A) : MS A :=
  λ s, let '(o, t) := m (sv_security s) in (o, mkServer t (sv_streams s) (sv_config s)).
Definition on_streams {A} (m : M Streams A) : MS A :=
  λ s, let '(o, t) := m (sv_streams s) in (o, mkServer (sv_security s) t (sv_config s)).

(** [@require_sse_api_key] on an endpoint: the gate, then the coroutine. *)
Definition gated (endpoint : MS reply) (req : Request) : MS reply :=
  let* cfg := m_get sv_config in
  let* func := on_security (require_sse_api_key (environ _AUTH_OFF_ENV) cfg (λ _ _, m_ret endpoint) req) in
  func.

Definition sse_echo : Request → MS reply :=
  gated (let handler := EchoSSEHandler (Some ["Hello"; "World"; "from"; "PyPepper"; "SSE!"]) in
         m_ret (EventSourceResponse handler)).
Definition sse_counter : Request → MS reply :=
  gated (let handler := CounterSSEHandler 0 100 in m_ret (EventSourceResponse handler)).
Definition sse_clock : Request → MS reply :=
  gated (let handler := ClockSSEHandler clock in m_ret (EventSourceResponse handler)).
Definition sse_stats : Request → MS reply :=
  gated (m_get (λ s, Content (JObj (get_stats (hub (sv_streams s)))))).
Definition app_health : reply :=
  Content (JObj [("status", JStr "healthy"); ("service", JStr "pypepper-sse-example")]).
Definition root : reply :=
  Content (JObj [
    ("service", JStr "PyPepper SSE Example");
    ("endpoints", JObj [("/sse/echo", JStr "Echo predefined messages"); ("/sse/counter", JStr "Count from 0 to 100");
       ("/sse/clock", JStr "Current time every second"); ("/sse/stats", JStr "Connection statistics (auth required)")]);
    ("authentication", JStr "Use X-API-Key or Authorization: Bearer header");
    ("example", JStr ("curl -N -H " +:+ String "034" ("X-API-Key: $PYPEPPER_SSE_API_KEY"
       +:+ String "034" " http://localhost:55550/sse/echo")))]).

(** The routes of [app]; another path is the framework's. *)
Definition app_get (path : string) (req : Request) : option (MS reply) :=
  if String.eqb path "/sse/echo" then Some (sse_echo req)
  else if String.eqb path "/sse/counter" then Some (sse_counter req)
  else if String.eqb path "/sse/clock" then Some (sse_clock req)
  else if String.eqb path "/sse/stats" then Some (sse_stats req)
  else if String.eqb path "/health" then Some (m_ret app_health)
  else if String.eqb path "/" then Some (m_ret root)
  else None.

(** [_inject_demo_api_key_from_env()]. *)
Definition has_key (api_key : string) (keys : list json) : bool :=
  existsb (λ k, match k with JStr s => String.eqb s api_key | _ => false end) keys.
Definition _inject_demo_api_key_from_env : MS (option string) :=
  match environ "PYPEPPER_SSE_API_KEY" with
  | None => m_ret None
  | Some api_key =>
      if negb (str_truthy api_key) then m_ret None
      else
        let* sse := m_get sv_config in
        let keys := validKeys sse in
        let* _ := (if has_key api_key keys then m_ret tt
                   else m_modify (λ s, mkServer (sv_security s) (sv_streams s)
                          (mkSecurityConf (auth_enabled sse) (keys ++ [JStr api_key])
                             (rate_enabled sse) (maxRequestsPerMinute sse)))) in
        m_ret (Some api_key)
  end.
End App.

(** ** Who gets in *)
Lemma has_key_spec k keys : has_key k keys = true ↔ JStr k ∈ keys.
Proof.
  unfold has_key. rewrite existsb_exists. setoid_rewrite list_elem_of_In. split.
  - intros ([| | |s| |] & Hin & Hs); try done. by apply String.eqb_eq in Hs as ->.
  - intros Hin. exists (JStr k). by rewrite String.eqb_refl.
Qed.
Lemma any_key_present k keys :
  is_ascii k = true → (∀ s, JStr s ∈ keys → is_ascii s = true) → JStr k ∈ keys → any_key k keys = Ret true.
Proof.
  intros Hk. induction keys as [|j keys IH]; intros Hall Hin; [by apply not_elem_of_nil in Hin |].
  apply elem_of_cons in Hin.
  assert (∀ s, JStr s ∈ keys → is_ascii s = true) as Hall' by (intros s Hs; apply Hall; by right).
  destruct j as [| | |s| |]; cbn [any_key]; try (destruct Hin as [[=]|Hin]; by apply IH).
  unfold compare_digest. rewrite Hk, (Hall s) by (by left). cbn [andb].
  destruct (String.eqb_spec k s) as [_|Hne]; [done |]. apply IH; [done |].
  by destruct Hin as [[= ?]|Hin].
Qed.

Section AppSpec.
Context {C : Type} `{!TtlCache C} (maxsize : nat) (ttl : Z) `{!TtlCacheLaws C maxsize ttl}.
Context (environ : string → option string) (clock : nat → string).
Implicit Types (s : Server C) (req : Request).

(** With a key of the configuration, only the rate limit can refuse. *)
Lemma gate_admits env cfg {A} (func : option string → option string → M (Security C) A) req key
    (t : Security C) :
  auth_enabled cfg = true → str_truthy key = true → api_key_of req = Some key →
  any_key key (validKeys cfg) = Ret true →
  ∃ ok t', _check_rate_limit cfg key t = (Ret ok, t')
    ∧ require_sse_api_key env cfg func req t =
        if ok then func (Some key) (client_host req) t'
        else (Raise (HTTPException 429 (rate_msg cfg)), t').
Proof using TtlCacheLaws0.
  intros Ha Hk Hreq Hany. destruct (check_rate_limit_returns maxsize ttl cfg key t) as (ok & t' & E).
  exists ok, t'. split; [done |]. unfold require_sse_api_key, _validate_api_key.
  rewrite Ha, Hreq. cbn [negb andb opt_str_truthy]. rewrite Hk. cbn [negb default].
  change (id key) with key. rewrite Hany. rewrite bind_eq. cbn [m_of_outcome negb].
  rewrite (bind_ret_run _ _ _ _ _ E). by destruct ok.
Qed.
(** Who is let in presents an accepted key. *)
Lemma gate_admitted env cfg {A} (func : option string → option string → M (Security C) A) req a
    (t t' : Security C) :
  auth_enabled cfg = true →
  require_sse_api_key env cfg func req t = (Ret a, t') →
  ∃ key, api_key_of req = Some key ∧ JStr key ∈ validKeys cfg.
Proof.
  intros Ha. unfold require_sse_api_key. rewrite Ha. cbn [negb andb].
  unfold m_bind at 1. unfold _validate_api_key. rewrite Ha.
  destruct (api_key_of req) as [key|]; [| done]. cbn [opt_str_truthy default].
  destruct (str_truthy key); [| done]. cbn [negb]. unfold m_of_outcome. change (id key) with key.
  destruct (any_key key (validKeys cfg)) as [[]|e] eqn:Hany; [| done | done].
  intros _. exists key. split; [done |]. by apply any_key_true.
Qed.

(** The demo key joins the configured ones, once. *)
Lemma inject_run s k :
  environ "PYPEPPER_SSE_API_KEY" = Some k → str_truthy k = true →
  ∃ keys, _inject_demo_api_key_from_env environ s
            = (Ret (Some k), mkServer (sv_security s) (sv_streams s)
                 (mkSecurityConf (auth_enabled (sv_config s)) keys (rate_enabled (sv_config s))
                    (maxRequestsPerMinute (sv_config s))))
    ∧ has_key k keys = true
    ∧ keys = (if has_key k (validKeys (sv_config s)) then validKeys (sv_config s)
              else validKeys (sv_config s) ++ [JStr k]).
Proof.
  intros He Hk. unfold _inject_demo_api_key_from_env. rewrite He, Hk. cbn [negb].
  rewrite bind_eq. cbn [m_get]. destruct (has_key k _) eqn:Hin.
  - exists (validKeys (sv_config s)). split; [by destruct s as [? ? []] | done].
  - exists (validKeys (sv_config s) ++ [JStr k]). split_and!; [done | | done].
    apply has_key_spec, elem_of_app. right. by left.
Qed.

(** The endpoints behind the gate, once the demo key is in: a request with that
    key reaches the endpoint or is over the rate limit; a request that reaches it
    has that key or one that was configured. *)
Lemma demo_key_opens_endpoints s k (endpoint : M (Server C) reply) :
  environ "PYPEPPER_SSE_API_KEY" = Some k → str_truthy k = true → is_ascii k = true →
  auth_enabled (sv_config s) = true →
  (∀ key, JStr key ∈ validKeys (sv_config s) → is_ascii key = true) →
  let s1 := (_inject_demo_api_key_from_env environ s).2 in
  (∀ req, api_key_of req = Some k →
     (∃ t, gated environ endpoint req s1 = endpoint (mkServer t (sv_streams s1) (sv_config s1)))
     ∨ ∃ m s2, gated environ endpoint req s1 = (Raise (HTTPException 429 m), s2) ∧ sv_streams s2 = sv_streams s)
  ∧ ∀ req, ¬ (∃ key, api_key_of req = Some key ∧ (key = k ∨ JStr key ∈ validKeys (sv_config s))) →
     ∃ e s2, gated environ endpoint req s1 = (Raise e, s2) ∧ sv_streams s2 = sv_streams s.
Proof using TtlCacheLaws0.
  intros He Hk Hasc Ha Hall s1.
  destruct (inject_run s k He Hk) as (keys & Ei & Hin & Hkeys).
  assert (s1 = mkServer (sv_security s) (sv_streams s) (mkSecurityConf (auth_enabled (sv_config s)) keys
    (rate_enabled (sv_config s)) (maxRequestsPerMinute (sv_config s)))) as -> by (subst s1; by rewrite Ei).
  apply has_key_spec in Hin.
  assert (∀ key, JStr key ∈ keys → key = k ∨ JStr key ∈ validKeys (sv_config s)) as Hfrom.
  { intros key. rewrite Hkeys. destruct (has_key k _); [by right |].
    intros [?|[= ->]%list_elem_of_singleton]%elem_of_app; auto. }
  set (cfg := mkSecurityConf _ _ _ _). split.
  - intros req Hreq. unfold gated. rewrite bind_eq. cbn [m_get sv_config]. unfold on_security.
    destruct (gate_admits (environ _AUTH_OFF_ENV) cfg (λ _ _, m_ret endpoint) req k (sv_security s)
      Ha Hk Hreq) as (ok & t' & _ & E).
    { apply any_key_present; [done | | done]. by intros key [-> | ?]%Hfrom; [| apply Hall]. }
    rewrite bind_eq. cbn [sv_security]. rewrite E. destruct ok; [left; by eexists | right; by do 2 eexists].
  - intros req Hno. unfold gated. rewrite bind_eq. cbn [m_get sv_config]. unfold on_security. rewrite bind_eq.
    cbn [sv_security]. destruct (require_sse_api_key _ _ _ req (sv_security s)) as [[f|e] t] eqn:E.
    + exfalso. destruct (gate_admitted _ cfg _ _ _ _ _ Ha E) as (key & Hreq & Hkey). apply Hno.
      exists key. split; [done | by apply Hfrom].
    + by do 2 eexists.
Qed.
End AppSpec.

(** ** The endpoints' streams *)
(** The clock ticks on; what a client of it reads is in [stream_delivers_in_order]. *)
Lemma clock_greets now r : on_connect (ClockSSEHandler now) r = greet clock_hello r.
Proof. done. Qed.
Lemma no_nul_digits d : str_has "000" (NilEmpty.string_of_uint d) = false.
Proof. induction d; cbn; done. Qed.
Lemma no_nul_int z : str_has "000" (str_of_Z z) = false.
Proof. unfold str_of_Z, NilZero.string_of_int, NilZero.string_of_uint. by destruct (Z.to_int z) as [[]|[]]; cbn; rewrite ?no_nul_digits. Qed.
Lemma tick_ok now i : event_ok (tick_event now i) = true.
Proof.
  unfold event_ok, tick_event. cbn [ev_comment ev_event ev_id ev_retry opt_clean].
  by rewrite clean_app, clean_int, str_has_app, no_nul_int.
Qed.

(** ** A session of the example *)
Module SseAppExamples.
Import SseSecurityExamples SseHubExamples.
#[local] Existing Instances cache_ops cache_laws.
Definition env_key (name : string) : option string :=
  if String.eqb name "PYPEPPER_SSE_API_KEY" then Some "demo" else None.
Definition booted : Server cache :=
  (_inject_demo_api_key_from_env env_key
     (mkServer fresh (mkStreams hub_init []) (mkSecurityConf true [] true 2))).2.
Definition asks (key : string) : Request := mkRequest None (Some key) (Some "10.0.0.1").
Example session_ex :
  let m := (let* a := sse_echo env_key (asks "demo") in
            let* b := sse_stats env_key (asks "demo") in
            m_ret (a, b)) in
  match (m booted).1 with
  | Ret (EventSourceResponse _, Content (JObj _)) => True
  | _ => False
  end
  ∧ ((let* _ := m in sse_stats env_key (asks "demo")) booted).1
    = Raise (HTTPException 429 "Rate limit exceeded (max 2 requests/minute)")
  ∧ (sse_stats env_key (asks "") booted).1 = Raise (HTTPException 401 "Invalid or missing API key").
Proof. vm_compute. by split_and!. Qed.
End SseAppExamples.
