(* ===== verification/Encodings.v ===== *)
(** * Encodings: UTF-8, base64 and percent-encoding of the standard library

    Bytes are [string]s whose characters are bytes; a Python [str] is a [string]
    of the code points U+0000 to U+00FF (see [Json]). *)
From Stdlib Require Import ZifyNat.
From S2P Require Import Prelude Dict Json.

(** [str.encode("utf-8")]. *)
Definition utf8_char (c : ascii) (rest : string) : string :=
  let n := code c in
  if (n <? 128)%nat then String c rest
  else String (ascii_of_nat (192 + n / 64)) (String (ascii_of_nat (128 + n mod 64)) rest).
Fixpoint utf8 (s : string) : string :=
  match s with "" => "" | String c s' => utf8_char c (utf8 s') end.

(** Decoding what [utf8] produces. *)
Fixpoint utf8_decode (b : string) : string :=
  match b with
  | "" => ""
  | String c b' =>
      if (code c <? 128)%nat then String c (utf8_decode b')
      else match b' with
           | String d b'' =>
               String (ascii_of_nat ((code c - 192) * 64 + (code d - 128))) (utf8_decode b'')
           | "" => ""
           end
  end.

Lemma utf8_decode_char c b : utf8_decode (utf8_char c b) = String c (utf8_decode b).
Proof.
  unfold utf8_char.
  destruct c as [[] [] [] [] [] [] [] []]; reflexivity.
Qed.
Lemma utf8_roundtrip s : utf8_decode (utf8 s) = s.
Proof. induction s as [|c s IH]; [done |]. cbn [utf8]. by rewrite utf8_decode_char, IH. Qed.
Lemma utf8_inj s1 s2 : utf8 s1 = utf8 s2 → s1 = s2.
Proof. intros H. by rewrite <- (utf8_roundtrip s1), H, utf8_roundtrip. Qed.

(** [base64.b64encode(b)]. *)
Definition b64_char (n : nat) : ascii :=
  ascii_of_nat
    (if n <? 26 then 65 + n else if n <? 52 then 71 + n else if n <? 62 then n - 4
     else if n =? 62 then 43 else 47)%nat.
Fixpoint b64encode (b : string) : string :=
  match b with
  | "" => ""
  | String x "" =>
      let n := code x in
      String (b64_char (n / 4)) (String (b64_char (n mod 4 * 16)) "==")
  | String x (String y "") =>
      let n := code x in let m := code y in
      String (b64_char (n / 4)) (String (b64_char (n mod 4 * 16 + m / 16))
        (String (b64_char (m mod 16 * 4)) "="))
  | String x (String y (String z b')) =>
      let n := code x in let m := code y in let k := code z in
      String (b64_char (n / 4)) (String (b64_char (n mod 4 * 16 + m / 16))
        (String (b64_char (m mod 16 * 4 + k / 64)) (String (b64_char (k mod 64)) (b64encode b'))))
  end.

(** Decoding, four characters at a time. *)
Definition b64_value (c : ascii) : nat :=
  let n := code c in
  (if (65 <=? n) && (n <=? 90) then n - 65 else if (97 <=? n) && (n <=? 122) then n - 71
   else if (48 <=? n) && (n <=? 57) then n + 4 else if n =? 43 then 62 else 63)%nat.
Definition b64_byte (n : nat) : ascii := ascii_of_nat n.
Fixpoint b64decode (s : string) : string :=
  match s with
  | String p (String q (String r (String t s'))) =>
      let n := b64_value p in let m := b64_value q in
      let x := b64_byte (n * 4 + m / 16)%nat in
      if decide (r = "="%char) then String x ""
      else
        let k := b64_value r in
        let y := b64_byte (m mod 16 * 16 + k / 4)%nat in
        if decide (t = "="%char) then String x (String y "")
        else
          let z := b64_byte (k mod 4 * 64 + b64_value t)%nat in
          String x (String y (String z (b64decode s')))
  | _ => ""
  end.

Lemma b64_value_char n : (n < 64)%nat → b64_value (b64_char n) = n.
Proof.
  intros H. apply Nat.eqb_eq.
  assert (forallb (λ n, b64_value (b64_char n) =? n)%nat (seq 0 64) = true) as Hall by reflexivity.
  rewrite forallb_forall in Hall. apply Hall, in_seq. lia.
Qed.
Lemma b64_char_not_pad n : (n < 64)%nat → b64_char n ≠ "="%char.
Proof.
  intros H. assert (forallb (λ n, negb (Ascii.eqb (b64_char n) "=")) (seq 0 64) = true) as Hall by reflexivity.
  rewrite forallb_forall in Hall. specialize (Hall n). rewrite in_seq in Hall.
  specialize (Hall ltac:(lia)). intros Hc. by rewrite Hc in Hall.
Qed.
Lemma code_lt c : (code c < 256)%nat.
Proof. apply nat_ascii_bounded. Qed.
Lemma b64_byte_code n c : n = code c → b64_byte n = c.
Proof. intros ->. apply ascii_nat_embedding. Qed.

(** Quotients and remainders by constants. *)
Ltac divlia := zify; Z.to_euclidean_division_equations; lia.

Lemma b64_roundtrip b : b64decode (b64encode b) = b.
Proof.
  enough (∀ n b, (String.length b ≤ n)%nat → b64decode (b64encode b) = b) by eauto.
  clear b. induction n as [|n IH]; intros b Hn; [by destruct b; [| cbn in Hn; lia] |].
  destruct b as [|x [|y [|z b]]]; [done | ..];
    cbn [b64encode b64decode String.append];
    pose proof (code_lt x); try pose proof (code_lt y); try pose proof (code_lt z).
  - destruct (decide _); [| done]. rewrite !b64_value_char by (divlia).
    f_equal. apply b64_byte_code. divlia.
  - rewrite decide_False by (apply b64_char_not_pad; divlia).
    destruct (decide _); [| done]. rewrite !b64_value_char by (divlia).
    do 2 (f_equal; [apply b64_byte_code; divlia | ..]).
  - do 2 rewrite decide_False by (apply b64_char_not_pad; divlia).
    rewrite !b64_value_char by (divlia).
    do 3 (f_equal; [apply b64_byte_code; divlia |]).
    apply IH. cbn [String.length] in Hn. lia.
Qed.
Lemma b64encode_inj b1 b2 : b64encode b1 = b64encode b2 → b1 = b2.
Proof. intros H. by rewrite <- (b64_roundtrip b1), H, b64_roundtrip. Qed.
