(* ===== verification/Event.v ===== *)
(** * Event: signed domain events

    [src/pypepper/event/event.py] with the digest and ECDSA wrappers of
    [src/pypepper/common/security/crypto].  Hash functions and the elliptic
    curve are third-party: [hash], [Ecdsa] and [EcdsaLaws] (a signature made with
    a private key is valid for its public key) stand for them. *)
From S2P Require Import Prelude Dict Json PyValues Encodings.

(** [Header], [Payload], [Data], [Event].  [digest] and [raw] are bytes, or what
    else a caller assigned; a timestamp is the string [get_utc_datetime] gives. *)
Inductive blob : Type :=
| Bytes (b : string)
| Value (j : json).
Record Header : Type := mkHeader {
  h_id : string;
  h_namespace : string;
  h_timestamp : string;
  h_version : string;
  h_request_id : option string;
  h_sender : string;
}.
Record Payload : Type := mkPayload {
  p_id : string;
  p_category : string;
  p_digest : blob;
  p_raw : blob;
}.
Record Data : Type := mkData {
  d_flow : string;
  d_name : string;
  d_src : string;
  d_header : Header;
  d_payload : Payload;
}.
Record Event : Type := mkEvent { e_data : Data; e_signature : option string }.

(** The constructors; [uuid] and [now] are [new_uuid()] and [get_utc_datetime()]. *)
Definition new_header (uuid now : string) : Header := mkHeader uuid "" now "1" (Some "") "".
Definition new_payload : Payload := mkPayload "" "" (Value JNull) (Value JNull).
Definition new_data (uuid now : string) : Data := mkData "" "" "" (new_header uuid now) new_payload.
Definition Event_new (uuid now : string) (data : option Data) (sig : option string) : Event :=
  mkEvent (match data with Some d => d | None => new_data uuid now end) sig.

(** ** Setters *)
Definition upd_header (f : Header → Header) (e : Event) : Event :=
  let d := e_data e in
  mkEvent (mkData (d_flow d) (d_name d) (d_src d) (f (d_header d)) (d_payload d)) (e_signature e).
Definition set_payload (p : Payload) (e : Event) : Event :=
  let d := e_data e in
  mkEvent (mkData (d_flow d) (d_name d) (d_src d) (d_header d) p) (e_signature e).
Definition set_event_id (v : string) : Event → Event :=
  upd_header (λ h, mkHeader v (h_namespace h) (h_timestamp h) (h_version h) (h_request_id h) (h_sender h)).
Definition set_event_namespace (v : string) : Event → Event :=
  upd_header (λ h, mkHeader (h_id h) v (h_timestamp h) (h_version h) (h_request_id h) (h_sender h)).
Definition set_event_version (v : string) : Event → Event :=
  upd_header (λ h, mkHeader (h_id h) (h_namespace h) (h_timestamp h) v (h_request_id h) (h_sender h)).
Definition set_request_id (v : string) : Event → Event :=
  upd_header (λ h, mkHeader (h_id h) (h_namespace h) (h_timestamp h) (h_version h) (Some v) (h_sender h)).
Definition set_sender (v : string) : Event → Event :=
  upd_header (λ h, mkHeader (h_id h) (h_namespace h) (h_timestamp h) (h_version h) (h_request_id h) v).
Definition set_flow (v : string) (e : Event) : Event :=
  let d := e_data e in mkEvent (mkData v (d_name d) (d_src d) (d_header d) (d_payload d)) (e_signature e).
Definition set_name (v : string) (e : Event) : Event :=
  let d := e_data e in mkEvent (mkData (d_flow d) v (d_src d) (d_header d) (d_payload d)) (e_signature e).
Definition set_src (v : string) (e : Event) : Event :=
  let d := e_data e in mkEvent (mkData (d_flow d) (d_name d) v (d_header d) (d_payload d)) (e_signature e).
(** [event.new(name, src)]. *)
Definition event_new (uuid now : string) (name src : option string) : Event :=
  let e := Event_new uuid now None None in
  let e := match name with Some n => set_name n e | None => e end in
  match src with Some s => set_src s e | None => e end.

(** ** Digests *)
Definition _REJECTED_DIGEST_ALGS : list string := ["md5"; "sha1"].
Section Digest.
Context (hash : string → string → outcome string).   (** [hashlib.new(alg)] on bytes *)
(** [digest.get(data, alg)] on bytes. *)
Definition digest_get (data alg : string) : outcome string :=
  if bool_decide (lower alg ∈ _REJECTED_DIGEST_ALGS) then
    Raise (ValueError ("digest algorithm " +:+ repr_str alg +:+ " is not allowed; use sha256 or stronger"))
  else hash alg data.

(** [Event.add_payload(payload_id, category, raw, hash_alg)]: what is assigned
    before [digest.get] raises stays. *)
Definition add_payload (payload_id category raw : string) (hash_alg : option string) : M Event unit :=
  if negb (str_truthy payload_id) then m_raise (ValueError "payload ID is empty")
  else if negb (str_truthy category) then m_raise (ValueError "category is empty")
  else if negb (str_truthy raw) then m_raise (ValueError "payload raw is empty")
  else
    let* _ := m_modify (λ e, set_payload
      (mkPayload payload_id category (p_digest (d_payload (e_data e))) (Bytes raw)) e) in
    if opt_str_truthy hash_alg then
      let* d := m_of_outcome (digest_get raw (default "" hash_alg)) in
      m_modify (λ e, set_payload (mkPayload payload_id category (Bytes d) (Bytes raw)) e)
    else m_ret tt.
End Digest.

(** ** Text *)
Definition blob_json (b : blob) : json := match b with Bytes b => JStr (b64encode b) | Value j => j end.
Definition opt_json (o : option string) : json := match o with Some s => JStr s | None => JNull end.
(** [_data_to_dict(data)]. *)
Definition _data_to_dict (d : Data) : json :=
  let h := d_header d in let p := d_payload d in
  JObj [("flow", JStr (d_flow d)); ("name", JStr (d_name d)); ("src", JStr (d_src d));
        ("header", JObj [("id", JStr (h_id h)); ("namespace", JStr (h_namespace h));
           ("timestamp", JStr (h_timestamp h)); ("version", JStr (h_version h));
           ("request_id", opt_json (h_request_id h)); ("sender", JStr (h_sender h))]);
        ("payload", JObj [("id", JStr (p_id p)); ("category", JStr (p_category p));
           ("digest", blob_json (p_digest p)); ("raw", blob_json (p_raw p))])].
(** [Event._canonical_bytes()]. *)
Definition _canonical_bytes (e : Event) : string :=
  utf8 (dump compact_opts (sort_keys (_data_to_dict (e_data e)))).
(** [Event.marshal()]. *)
Definition envelope (e : Event) : json :=
  JObj [("data", _data_to_dict (e_data e));
        ("signature", if opt_str_truthy (e_signature e)
                      then JStr (b64encode (default "" (e_signature e))) else JNull)].
Definition marshal (e : Event) : string := dump compact_opts (sort_keys (envelope e)).

(** ** Signatures *)
Definition hash_algorithms : list string := ["sha224"; "sha256"; "sha384"; "sha512"].
(** [algorithm.get_hash_algorithm(alg)]. *)
Definition get_hash_algorithm (alg : string) : outcome string :=
  if bool_decide (lower alg ∈ hash_algorithms) then Ret (lower alg)
  else Raise (InternalException "invalid algorithm").

(** The elliptic curves of [cryptography]; signing is randomized. *)
Class Ecdsa (R Priv Pub : Type) : Type := {
  load_pem_private_key : string → option string → outcome Priv;
  is_ec_private : Priv → bool;
  ec_sign : Priv → string → string → M R string;
  load_pem_public_key : string → outcome Pub;
  is_ec_public : Pub → bool;
  ec_verify : Pub → string → string → string → outcome unit;
}.
Definition InvalidSignature : exn := OtherException "InvalidSignature" "".
Definition is_invalid_signature (e : exn) : bool :=
  match e with OtherException "InvalidSignature" _ => true | _ => false end.
Class EcdsaLaws (R Priv Pub : Type) `{!Ecdsa R Priv Pub} (pair : Priv → Pub → Prop) : Prop := {
  sign_verifies : ∀ k p data alg r sig r', pair k p →
    ec_sign k data alg r = (Ret sig, r') → ec_verify p sig data alg = Ret tt;
}.

Section Sign.
Context {R Priv Pub : Type} `{!Ecdsa R Priv Pub}.
(** [ECDSA.sign(data, certificate, hash_alg, passphrase)]. *)
Definition ecdsa_sign (data certificate hash_alg : string) (passphrase : option string) : M R string :=
  let* private_key := m_of_outcome (load_pem_private_key certificate passphrase) in
  if negb (is_ec_private private_key) then
    m_raise (TypeError "certificate must be an elliptic curve private key")
  else
    let* alg := m_of_outcome (get_hash_algorithm hash_alg) in
    ec_sign private_key data alg.
(** [ECDSA.verify(data, certificate, sig, hash_alg)]. *)
Definition ecdsa_verify (data certificate sig hash_alg : string) : outcome bool :=
  match load_pem_public_key certificate with
  | Raise e => Raise e
  | Ret public_key =>
      if negb (is_ec_public public_key) then
        Raise (TypeError "certificate must be an elliptic curve public key")
      else
        match get_hash_algorithm hash_alg with
        | Raise e => Raise e
        | Ret alg =>
            match ec_verify public_key sig data alg with
            | Ret _ => Ret true
            | Raise e => if is_invalid_signature e then Ret false else Raise e
            end
        end
  end.

(** [Event.sign(...)], on an event and the randomness; [Event.verify(...)]. *)
Definition sign (certificate hash_alg : string) (passphrase : option string) : M (Event * R) string :=
  λ s, let '(e, r) := s in
    match ecdsa_sign (_canonical_bytes e) certificate hash_alg passphrase r with
    | (Ret sig, r') => (Ret sig, (mkEvent (e_data e) (Some sig), r'))
    | (Raise x, r') => (Raise x, (e, r'))
    end.
Definition verify (certificate hash_alg : string) (e : Event) : outcome bool :=
  match e_signature e with
  | None => Ret false
  | Some sig => ecdsa_verify (_canonical_bytes e) certificate sig hash_alg
  end.
End Sign.

(** ** What the text determines *)

(** Digest and payload are bytes or [None], as the interface declares. *)
Definition declared (b : blob) : Prop := match b with Bytes _ => True | Value j => j = JNull end.
Definition well_typed (e : Event) : Prop :=
  declared (p_digest (d_payload (e_data e))) ∧ declared (p_raw (d_payload (e_data e))).

(** The text of an event's data, with its keys in order. *)
Definition sorted_data (d : Data) : json :=
  let h := d_header d in let p := d_payload d in
  JObj [("flow", JStr (d_flow d));
        ("header", JObj [("id", JStr (h_id h)); ("namespace", JStr (h_namespace h));
           ("request_id", opt_json (h_request_id h)); ("sender", JStr (h_sender h));
           ("timestamp", JStr (h_timestamp h)); ("version", JStr (h_version h))]);
        ("name", JStr (d_name d));
        ("payload", JObj [("category", JStr (p_category p)); ("digest", blob_json (p_digest p));
           ("id", JStr (p_id p)); ("raw", blob_json (p_raw p))]);
        ("src", JStr (d_src d))].

Lemma sort_opt_json o : sort_keys (opt_json o) = opt_json o.
Proof. by destruct o. Qed.
Lemma sort_blob b : declared b → sort_keys (blob_json b) = blob_json b.
Proof. destruct b as [b|j]; [done |]. by intros ->. Qed.

Lemma sort_data e : well_typed e → sort_keys (_data_to_dict (e_data e)) = sorted_data (e_data e).
Proof.
  intros [H1 H2]. unfold _data_to_dict, sorted_data. cbn [sort_keys List.map fst snd].
  rewrite sort_opt_json, (sort_blob _ H1), (sort_blob _ H2). reflexivity.
Qed.

Lemma opt_json_ok o : dicts_ok (opt_json o).
Proof. by destruct o. Qed.
Lemma blob_json_ok b : declared b → dicts_ok (blob_json b).
Proof. destruct b as [b|j]; [done |]. by intros ->. Qed.
Lemma keys_ok (l : list string) : bool_decide (NoDup l) = true → NoDup l.
Proof. by intros ?%bool_decide_eq_true. Qed.

Lemma sorted_data_ok e : well_typed e → dicts_ok (sorted_data (e_data e)).
Proof.
  intros [H1 H2]. cbn [sorted_data dicts_ok List.map fst snd fold_right].
  repeat first [done | apply opt_json_ok | by apply blob_json_ok | by apply keys_ok; vm_compute | split].
Qed.

Lemma opt_json_inj o1 o2 : opt_json o1 = opt_json o2 → o1 = o2.
Proof. destruct o1, o2; cbn; congruence. Qed.
Lemma blob_json_inj b1 b2 : declared b1 → declared b2 → blob_json b1 = blob_json b2 → b1 = b2.
Proof.
  destruct b1, b2; cbn; intros H1 H2 H; subst; try done. injection H as H. by apply b64encode_inj in H as ->.
Qed.

Lemma sorted_data_inj e1 e2 :
  well_typed e1 → well_typed e2 → sorted_data (e_data e1) = sorted_data (e_data e2) → e_data e1 = e_data e2.
Proof.
  intros [Hd1 Hr1] [Hd2 Hr2] H.
  destruct e1 as [[f1 n1 s1 [i1 ns1 t1 v1 q1 se1] [p1 c1 d1 r1]] sig1].
  destruct e2 as [[f2 n2 s2 [i2 ns2 t2 v2 q2 se2] [p2 c2 d2 r2]] sig2].
  cbn in *. injection H as -> -> -> Hq -> -> -> -> -> Hd -> Hr ->.
  by rewrite (opt_json_inj _ _ Hq), (blob_json_inj _ _ Hd1 Hd2 Hd), (blob_json_inj _ _ Hr1 Hr2 Hr).
Qed.

Lemma canonical_bytes_inj e1 e2 :
  well_typed e1 → well_typed e2 → _canonical_bytes e1 = _canonical_bytes e2 → e_data e1 = e_data e2.
Proof.
  intros H1 H2 H%utf8_inj%dump_inj; [| done | rewrite sort_data by done; by apply sorted_data_ok ..].
  rewrite !sort_data in H by done. by apply sorted_data_inj.
Qed.

(** The signature as [marshal] prints it: an empty one is none. *)
Definition printed_signature (e : Event) : option string :=
  if opt_str_truthy (e_signature e) then e_signature e else None.

Lemma sort_envelope e :
  well_typed e →
  sort_keys (envelope e)
    = JObj [("data", sorted_data (e_data e)); ("signature", opt_json (b64encode <$> printed_signature e))].
Proof.
  intros He. unfold envelope, printed_signature. cbn [sort_keys List.map fst snd].
  rewrite (sort_data e He). destruct (e_signature e) as [s|]; [cbn; destruct (str_truthy s) |]; reflexivity.
Qed.

Lemma json_pair_inj k1 k2 (a b a' b' : json) :
  JObj [(k1, a); (k2, b)] = JObj [(k1, a'); (k2, b')] → a = a' ∧ b = b'.
Proof. by intros [= -> ->]. Qed.

(** C38: The text that is signed, and the text that is sent, determine the event:
    events whose digest and payload are bytes or [None] have equal signed bytes
    only if all their fields are equal, and equal marshalled texts only if their
    signatures are too (an empty one counts as none); the marshalled text is a
    JSON document that parses to the event's fields. *)
Theorem event_text_determines_event (e1 e2 : Event) :
  well_typed e1 → well_typed e2 →
  (_canonical_bytes e1 = _canonical_bytes e2 → e_data e1 = e_data e2)
  ∧ (marshal e1 = marshal e2 → e_data e1 = e_data e2 ∧ printed_signature e1 = printed_signature e2)
  ∧ loads (marshal e1)
    = Some (JObj [("data", sorted_data (e_data e1));
                  ("signature", opt_json (b64encode <$> printed_signature e1))]).
Proof.
  intros H1 H2.
  assert (∀ e, well_typed e → dicts_ok (sort_keys (envelope e))) as Hok.
  { intros e He. rewrite sort_envelope by done. cbn [dicts_ok List.map fst snd fold_right].
    repeat first [done | by apply sorted_data_ok | apply opt_json_ok | by apply keys_ok; vm_compute | split]. }
  split_and!.
  - by apply canonical_bytes_inj.
  - intros H%dump_inj; [| done | by apply Hok ..]. rewrite !sort_envelope in H by done.
    apply json_pair_inj in H as [Hd Hs].
    split; [by apply sorted_data_inj |].
    apply opt_json_inj in Hs. destruct (printed_signature e1), (printed_signature e2); try done.
    injection Hs as Hs. by apply b64encode_inj in Hs as ->.
  - unfold marshal. rewrite loads_dump; [by rewrite sort_envelope | done | by apply Hok].
Qed.

(** C39: Signing, on every path.  A key that cannot be loaded or is not elliptic, a
    hash that is not known and a signature that fails each raise, and leave the
    event exactly as it was.  Otherwise the event gets the signature and changes
    in nothing else, and with any public key of the signing key, under any
    spelling of the hash's name, it verifies.  An event with that signature and
    other data has other signed bytes, and verifies only if the curve itself
    accepts the signature for those bytes; an unsigned event is not valid. *)
Theorem signed_event_verifies {R Priv Pub : Type} `{!Ecdsa R Priv Pub} (pair : Priv → Pub → Prop)
    `{!EcdsaLaws R Priv Pub pair} (private_pem alg : string) (pass : option string) (e : Event) (r : R) :
  let signed := sign private_pem alg pass (e, r) in
  (e_signature e = None → ∀ public_pem alg', verify public_pem alg' e = Ret false)
  ∧ match load_pem_private_key private_pem pass with
    | Raise x => signed = (Raise x, (e, r))
    | Ret k =>
        if decide (is_ec_private k = false) then ∃ m, signed = (Raise (TypeError m), (e, r))
        else if decide (lower alg ∉ hash_algorithms) then ∃ m, signed = (Raise (InternalException m), (e, r))
        else
          match ec_sign k (_canonical_bytes e) (lower alg) r with
          | (Raise x, r') => signed = (Raise x, (e, r'))
          | (Ret sig, r') =>
              signed = (Ret sig, (mkEvent (e_data e) (Some sig), r'))
              ∧ ∀ p public_pem alg', pair k p → load_pem_public_key public_pem = Ret p →
                  is_ec_public p = true → lower alg' = lower alg →
                  verify public_pem alg' (mkEvent (e_data e) (Some sig)) = Ret true
                  ∧ ∀ e2, well_typed e → well_typed e2 → e_data e2 ≠ e_data e → e_signature e2 = Some sig →
                      _canonical_bytes e2 ≠ _canonical_bytes e
                      ∧ (verify public_pem alg' e2 = Ret true →
                         ec_verify p sig (_canonical_bytes e2) (lower alg) = Ret tt)
                      ∧ (ec_verify p sig (_canonical_bytes e2) (lower alg) = Raise InvalidSignature →
                         verify public_pem alg' e2 = Ret false)
          end
    end.
Proof.
  intros signed. split; [unfold verify; by intros -> |]. subst signed.
  unfold sign, ecdsa_sign, m_bind, m_of_outcome.
  destruct (load_pem_private_key private_pem pass) as [k|x]; cbn beta iota; [| done].
  destruct (is_ec_private k); cbn [negb m_raise]; [rewrite decide_False by done | by eexists].
  destruct (decide (lower alg ∉ hash_algorithms)) as [Hin|Hin].
  { unfold get_hash_algorithm. rewrite bool_decide_false by done. by eexists. }
  apply dec_stable in Hin.
  assert (get_hash_algorithm alg = Ret (lower alg)) as ->
    by (unfold get_hash_algorithm; by rewrite bool_decide_true by done).
  destruct (ec_sign k (_canonical_bytes e) (lower alg) r) as [[sig|x] r'] eqn:Hsign; [| done].
  split; [done |]. intros p public_pem alg' Hpair Hp Hec Halg.
  unfold verify, ecdsa_verify, get_hash_algorithm. cbn [e_signature].
  rewrite Hp, Hec, Halg, bool_decide_true by done. cbn [negb]. split.
  { change (_canonical_bytes (mkEvent (e_data e) (Some sig))) with (_canonical_bytes e).
    by rewrite (sign_verifies k p (_canonical_bytes e) (lower alg) r sig r' Hpair Hsign). }
  intros e2 H1 H2 Hne ->. split; [intros H; apply Hne; by apply canonical_bytes_inj |]. split.
  - destruct (ec_verify _ _ _ _) as [[]|x]; [done | by destruct (is_invalid_signature x)].
  - by intros ->.
Qed.

Module EventExamples.
Definition e1 : Event := (add_payload (λ alg d, Ret (alg +:+ d)) "p1" "c" "raw" (Some "SHA256")
  (event_new "u1" "t0" (Some "created") None)).2.
Lemma e1_ok : well_typed e1.
Proof. by split. Qed.

Lemma event_text_determines_event_witness :
  e_data e1 = e_data (set_sender "" e1)
  ∧ loads (marshal e1) = Some (JObj [("data", sorted_data (e_data e1)); ("signature", JNull)]).
Proof.
  destruct (event_text_determines_event e1 (set_sender "" e1)) as (H1 & _ & H3); [by split | by split |].
  split; [apply H1; vm_compute; reflexivity | exact H3].
Defined.

(** A scheme whose signatures are the key and the text. *)
#[local] Instance toy_ecdsa : Ecdsa nat string string := {
  load_pem_private_key pem _ := Ret pem;
  is_ec_private k := str_truthy k;
  ec_sign k data alg r := (Ret (k +:+ alg +:+ data), Datatypes.S r);
  load_pem_public_key pem := Ret pem;
  is_ec_public p := str_truthy p;
  ec_verify p sig data alg := if String.eqb sig (p +:+ alg +:+ data) then Ret tt else Raise InvalidSignature;
}.
#[local] Instance toy_laws : EcdsaLaws nat string string eq.
Proof. split. intros k p data alg r sig r' -> [= <- <-]. cbn. by rewrite String.eqb_refl. Qed.

Definition signed1 : Event := (sign (R := nat) "key" "SHA256" None (e1, 0%nat)).2.1.
(** A key that signs, a key that is not elliptic, and an event that was altered. *)
Lemma signed_event_verifies_witness :
  e_data signed1 = e_data e1
  ∧ verify (R := nat) (Priv := string) (Pub := string) "key" "sha256" signed1 = Ret true
  ∧ verify (R := nat) (Priv := string) (Pub := string) "key" "sha256" (set_sender "x" signed1) = Ret false
  ∧ ∃ m, sign (R := nat) (Priv := string) (Pub := string) "" "SHA256" None (e1, 0%nat)
         = (Raise (TypeError m), (e1, 0%nat)).
Proof.
  destruct (signed_event_verifies (R := nat) (Priv := string) (Pub := string) eq "key" "SHA256" None e1 0%nat)
    as (_ & _ & Hv).
  destruct (Hv "key" "key" "sha256") as [H1 H2]; [done .. |].
  destruct (H2 (set_sender "x" signed1)) as (_ & _ & H3); [by split | by split | done | done |].
  destruct (signed_event_verifies (R := nat) (Priv := string) (Pub := string) eq "" "SHA256" None e1 0%nat)
    as (_ & Hraise).
  split; [reflexivity |]. split; [exact H1 |]. split; [apply H3; vm_compute; reflexivity | exact Hraise].
Defined.
End EventExamples.
