(* ===== verification/Crypto.v ===== *)
(** * Crypto: digests as text, keys and their files

    The parts of [src/pypepper/common/security/crypto] that events do not use:
    [digest.py] on text and as hexadecimal digits, and of [elliptic/ecdsa.py] the
    key pairs and their PEM files.  [cryptography] is third-party: [EcdsaKeys] are
    its calls, [EcdsaKeysLaws] that a file it writes is a file it reads. *)
From S2P Require Import Prelude Json PyValues Encodings Event.

(** ** Digests *)
(** [BinaryLike]: text, or bytes in one of their types. *)
Inductive BinaryLike : Type := Text (s : string) | Raw (b : string).
Definition bytes_of (data : BinaryLike) : string := match data with Text s => utf8 s | Raw b => b end.
(** [bytes.hex()], and [bytes.fromhex] of such a text. *)
Fixpoint hex (b : string) : string :=
  match b with
  | "" => ""
  | String c b => String (hex_digit (code c / 16)) (String (hex_digit (code c mod 16)) (hex b))
  end.
Fixpoint unhex (s : string) : option string :=
  match s with
  | "" => Some ""
  | String a (String b s) =>
      x ← hex_value a; y ← hex_value b; r ← unhex s; Some (String (ascii_of_nat (16 * x + y)) r)
  | _ => None
  end.
Lemma unhex_hex b : unhex (hex b) = Some b.
Proof.
  induction b as [|c b IH]; [done |]. cbn [hex unhex]. rewrite IH.
  destruct c as [[] [] [] [] [] [] [] []]; reflexivity.
Qed.
Lemma hex_length b : (String.length (hex b) = 2 * String.length b)%nat.
Proof. induction b as [|c b IH]; [done |]. cbn [hex String.length]. rewrite IH. lia. Qed.

Section Digest.
Context (hash : string → string → outcome string).
(** [digest.get(data, alg)] and [digest.get_hex_str(data, alg)]. *)
Definition get (data : BinaryLike) (alg : string) : outcome string := digest_get hash (bytes_of data) alg.
Definition get_hex_str (data : BinaryLike) (alg : string) : outcome string :=
  match get data alg with Ret d => Ret (hex d) | Raise e => Raise e end.

(** The text of a digest determines it; text is hashed as its UTF-8 bytes; MD5 and
    SHA-1 are refused in any spelling, before the hash is looked for. *)
Lemma get_hex_str_spec data alg :
  get_hex_str (Text data) alg = get_hex_str (Raw (utf8 data)) alg
  ∧ (lower alg = "md5" ∨ lower alg = "sha1" → ∃ m, get_hex_str (Text data) alg = Raise (ValueError m))
  ∧ (lower alg ≠ "md5" → lower alg ≠ "sha1" →
     match hash alg (utf8 data) with
     | Ret d => ∃ s, get_hex_str (Text data) alg = Ret s ∧ unhex s = Some d
                     ∧ String.length s = (2 * String.length d)%nat
     | Raise e => get_hex_str (Text data) alg = Raise e
     end).
Proof.
  unfold get_hex_str, get, digest_get. cbn [bytes_of]. split_and!; [done | |].
  - intros H. rewrite bool_decide_eq_true_2; [by eexists |].
    unfold _REJECTED_DIGEST_ALGS. destruct H as [-> | ->]; by apply (bool_decide_unpack _).
  - intros H1 H2. rewrite bool_decide_eq_false_2.
    + destruct (hash alg (utf8 data)) as [d|e]; [| done]. eexists.
      split_and!; [done | apply unhex_hex | apply hex_length].
    + intros [?|[?|[]%elem_of_nil]%elem_of_cons]%elem_of_cons; congruence.
Qed.
End Digest.

(** ** Keys *)
Section Keys.
Context {R Priv Pub : Type}.
(** How a private key is written: [BestAvailableEncryption] or [NoEncryption]. *)
Inductive encryption : Type := NoEncryption | BestAvailableEncryption (password : string).
Class EcdsaKeys `{!Ecdsa R Priv Pub} : Type := {
  generate_private_key : M R Priv;                  (** on secp256k1 *)
  private_bytes : encryption → Priv → string;       (** PEM, PKCS8 *)
  public_key : Priv → Pub;
  public_bytes : Pub → string;                      (** PEM, SubjectPublicKeyInfo *)
}.
(** The password a file written with [enc] is read with. *)
Definition password_of (enc : encryption) : option string :=
  match enc with NoEncryption => None | BestAvailableEncryption p => Some p end.
Class EcdsaKeysLaws `{!Ecdsa R Priv Pub, !EcdsaKeys} (pair : Priv → Pub → Prop) : Prop := {
  generated_law : ∀ r k r', generate_private_key r = (Ret k, r') →
    is_ec_private k = true ∧ is_ec_public (public_key k) = true ∧ pair k (public_key k);
  private_bytes_law : ∀ enc k, load_pem_private_key (private_bytes enc k) (password_of enc) = Ret k;
  public_bytes_law : ∀ p, load_pem_public_key (public_bytes p) = Ret p;
}.

Context `{!Ecdsa R Priv Pub, !EcdsaKeys}.
(** [ECDSA.new_key_pair()], [ECDSA.get_private_key_pem(private_key, passphrase)]
    and [ECDSA.get_public_key_pem(private_key)]. *)
Definition new_key_pair : M R Priv := generate_private_key.
Definition get_private_key_pem (private_key : Priv) (passphrase : option string) : string :=
  private_bytes (if opt_str_truthy passphrase then BestAvailableEncryption (default "" passphrase)
                 else NoEncryption) private_key.
Definition get_public_key_pem (private_key : Priv) : string := public_bytes (public_key private_key).

Context (pair : Priv → Pub → Prop) `{!EcdsaLaws R Priv Pub pair, !EcdsaKeysLaws pair}.
(** A file is read back with the passphrase it was written with; an empty
    passphrase writes a file without one. *)
Lemma private_key_pem_reads k pass :
  load_pem_private_key (get_private_key_pem k pass) (if opt_str_truthy pass then pass else None) = Ret k.
Proof using EcdsaKeysLaws0.
  unfold get_private_key_pem. destruct (opt_str_truthy pass) eqn:Hp.
  - destruct pass as [p|]; [| done]. apply (private_bytes_law (BestAvailableEncryption p)).
  - apply (private_bytes_law NoEncryption).
Qed.

(** An event signed with a new key's file verifies with that key's public file,
    under any spelling of the hash's name: signing fails only in the curve's own
    code or on an unknown hash. *)
Lemma new_key_signs alg alg' pass e r k r1 :
  new_key_pair r = (Ret k, r1) → lower alg' = lower alg → pass ≠ Some "" →
  match sign (get_private_key_pem k pass) alg pass (e, r1) with
  | (Ret sig, (e', _)) =>
      e_data e' = e_data e ∧ e_signature e' = Some sig
      ∧ verify (R := R) (Priv := Priv) (get_public_key_pem k) alg' e' = Ret true
  | (Raise x, (e', r2)) =>
      e' = e ∧ (lower alg ∉ hash_algorithms ∨ ec_sign k (_canonical_bytes e) (lower alg) r1 = (Raise x, r2))
  end.
Proof using EcdsaLaws0 EcdsaKeysLaws0.
  intros Hk Halg Hp. destruct (generated_law _ _ _ Hk) as (Hec & Hpub & Hpair).
  assert (load_pem_private_key (get_private_key_pem k pass) pass = Ret k) as Hload.
  { pose proof (private_key_pem_reads k pass) as Hr. by destruct pass as [[|c p]|]. }
  unfold sign, ecdsa_sign, m_bind, m_of_outcome. rewrite Hload, Hec. cbn [negb].
  unfold get_hash_algorithm at 1. destruct (bool_decide (lower alg ∈ hash_algorithms)) eqn:Hin.
  2:{ apply bool_decide_eq_false in Hin. cbn. by split; [| left]. }
  destruct (ec_sign k (_canonical_bytes e) (lower alg) r1) as [[sig|x] r2] eqn:Hsign;
    [| by split; [| right]].
  split_and!; [done | done |]. unfold verify, ecdsa_verify, get_hash_algorithm, get_public_key_pem.
  cbn [e_signature]. rewrite public_bytes_law, Hpub, Halg, Hin. cbn [negb].
  change (_canonical_bytes (mkEvent (e_data e) (Some sig))) with (_canonical_bytes e).
  by rewrite (sign_verifies k (public_key k) (_canonical_bytes e) (lower alg) r1 sig r2 Hpair Hsign).
Qed.
End Keys.

Module CryptoExamples.
Example hex_ex : get_hex_str (λ _ d, Ret d) (Text "Az") "sha256" = Ret "417a".
Proof. reflexivity. Qed.
Example sha1_ex : ∃ m, get_hex_str (λ _ d, Ret d) (Raw "x") "SHA1" = Raise (ValueError m).
Proof. by eexists. Qed.

(** A scheme whose files are the password and the key, and whose signatures are
    the key, the hash and the text. *)
Definition pem_head (enc : option string) : string := match enc with None => "N" | Some p => "E" +:+ p end.
Definition toy_read (pem : string) (password : option string) : outcome string :=
  match str_after (pem_head password) pem with
  | Some k => Ret k
  | None => Raise (ValueError "Bad decrypt. Incorrect password?")
  end.
#[local] Instance toy_ecdsa : Ecdsa nat string string := {
  load_pem_private_key := toy_read;
  is_ec_private k := str_truthy k;
  ec_sign k data alg r := (Ret (k +:+ alg +:+ data), Datatypes.S r);
  load_pem_public_key pem := Ret pem;
  is_ec_public p := str_truthy p;
  ec_verify p sig data alg := if String.eqb sig (p +:+ alg +:+ data) then Ret tt else Raise InvalidSignature;
}.
#[local] Instance toy_ecdsa_laws : EcdsaLaws nat string string eq.
Proof. split. intros k p data alg r sig r' -> [= <- <-]. cbn. by rewrite String.eqb_refl. Qed.
#[local] Instance toy_keys : EcdsaKeys (R := nat) (Priv := string) (Pub := string) := {
  generate_private_key r := (Ret ("k" +:+ pretty r), Datatypes.S r);
  private_bytes enc k := pem_head (password_of enc) +:+ k;
  public_key k := k;
  public_bytes p := p;
}.
#[local] Instance toy_keys_laws : EcdsaKeysLaws (R := nat) (Priv := string) (Pub := string) eq.
Proof.
  split; cbn [generate_private_key private_bytes public_bytes toy_keys load_pem_private_key toy_ecdsa]; [| | done].
  - intros r k r' [= <- <-]. done.
  - intros enc k. unfold toy_read. by rewrite str_after_app.
Qed.

Example signed_with_new_key :
  let '(_, (e', _)) := sign (R := nat) (get_private_key_pem (R := nat) (Pub := string) "k7" (Some "pw")) "SHA256"
                         (Some "pw") (EventExamples.e1, 8%nat) in
  verify (R := nat) (Priv := string) (get_public_key_pem (R := nat) (Pub := string) "k7") "sha256" e' = Ret true.
Proof.
  exact (proj2 (proj2 (new_key_signs (R := nat) eq "SHA256" "sha256" (Some "pw") EventExamples.e1 7%nat "k7" 8%nat
    eq_refl eq_refl ltac:(done)))).
Qed.
Example wrong_password : load_pem_private_key (get_private_key_pem (R := nat) (Pub := string) "k7" (Some "pw")) (Some "px")
  = Raise (ValueError "Bad decrypt. Incorrect password?").
Proof. vm_compute. reflexivity. Qed.
End CryptoExamples.
