(* ===== verification/EventInterface.v ===== *)
(** * EventInterface: what an event promises to those who use one

    [IEvent] of [src/pypepper/event/interfaces.py] as an interface: its setters,
    one per field, its payload, signing and text; [IEventLaws] says how they
    interact.  [Event] implements it, and the state machine, which takes any
    [IEvent], is a client. *)
From S2P Require Import Prelude Json Fsm Encodings Event.

(** The fields with a setter. *)
Inductive field : Type := FId | FNamespace | FVersion | FRequestId | FSender | FFlow | FName | FSrc.
#[export] Instance field_eq_dec : EqDecision field.
Proof. solve_decision. Defined.
(** A field of [IData]; the request id may be absent. *)
Definition get_field (f : field) (d : Data) : option string :=
  let h := d_header d in
  match f with
  | FId => Some (h_id h) | FNamespace => Some (h_namespace h) | FVersion => Some (h_version h)
  | FRequestId => h_request_id h | FSender => Some (h_sender h)
  | FFlow => Some (d_flow d) | FName => Some (d_name d) | FSrc => Some (d_src d)
  end.

Class IEventObject (E : Type) : Type := {
  data : E → Data;
  signature : E → option string;
  set_field : field → string → E → E;          (** [set_event_id], ..., [set_src] *)
  put_payload : Payload → E → E;                  (** [set_payload] *)
  attach_payload (hash : string → string → outcome string) (payload_id category raw : string)
    (hash_alg : option string) : M E unit;        (** [add_payload] *)
  sign_event {R Priv Pub} `{!Ecdsa R Priv Pub} (certificate hash_alg : string) (passphrase : option string)
    : M (E * R) string;
  verify_event {R Priv Pub} `{!Ecdsa R Priv Pub} (certificate hash_alg : string) : E → outcome bool;
  marshal_event : E → string;
}.

Class IEventLaws (E : Type) `{!IEventObject E} : Prop := {
  set_field_law : ∀ f v e,
    get_field f (data (set_field f v e)) = Some v
    ∧ (∀ g, g ≠ f → get_field g (data (set_field f v e)) = get_field g (data e))
    ∧ h_timestamp (d_header (data (set_field f v e))) = h_timestamp (d_header (data e))
    ∧ d_payload (data (set_field f v e)) = d_payload (data e)
    ∧ signature (set_field f v e) = signature e;
  put_payload_law : ∀ p e,
    d_payload (data (put_payload p e)) = p ∧ signature (put_payload p e) = signature e
    ∧ (∀ g, get_field g (data (put_payload p e)) = get_field g (data e));
  attach_payload_law : ∀ hash i c raw alg e,
    let '(o, e') := attach_payload hash i c raw alg e in
    (i = "" ∨ c = "" ∨ raw = "" → (∃ m, o = Raise (ValueError m)) ∧ e' = e)
    ∧ (o = Ret tt → p_id (d_payload (data e')) = i ∧ p_category (d_payload (data e')) = c
                    ∧ p_raw (d_payload (data e')) = Bytes raw)
    ∧ (∀ g, get_field g (data e') = get_field g (data e)) ∧ signature e' = signature e;
  sign_event_law {R Priv Pub} `{!Ecdsa R Priv Pub} : ∀ cert alg pass e (r : R),
    let '(o, (e', r')) := sign_event (Priv := Priv) (Pub := Pub) cert alg pass (e, r) in
    data e' = data e ∧ match o with Ret sig => signature e' = Some sig | Raise _ => e' = e end;
  unsigned_law {R Priv Pub} `{!Ecdsa R Priv Pub} : ∀ cert alg e,
    signature e = None → verify_event (R := R) (Priv := Priv) (Pub := Pub) cert alg e = Ret false;
  same_text_law : ∀ e e', data e = data e' → signature e = signature e' → marshal_event e = marshal_event e';
}.

(** ** [Event] implements it *)
#[export] Instance Event_object : IEventObject Event := {
  data := e_data;
  signature := e_signature;
  set_field f v := match f with
    | FId => set_event_id v | FNamespace => set_event_namespace v | FVersion => set_event_version v
    | FRequestId => set_request_id v | FSender => set_sender v
    | FFlow => set_flow v | FName => set_name v | FSrc => set_src v end;
  put_payload := set_payload;
  attach_payload := add_payload;
  sign_event R Priv Pub H := sign;
  verify_event R Priv Pub H := verify (R := R) (Priv := Priv) (Pub := Pub);
  marshal_event := marshal;
}.
Lemma add_payload_law hash i c raw alg e :
  let '(o, e') := add_payload hash i c raw alg e in
  (i = "" ∨ c = "" ∨ raw = "" → (∃ m, o = Raise (ValueError m)) ∧ e' = e)
  ∧ (o = Ret tt → p_id (d_payload (e_data e')) = i ∧ p_category (d_payload (e_data e')) = c
                  ∧ p_raw (d_payload (e_data e')) = Bytes raw)
  ∧ (∀ g, get_field g (e_data e') = get_field g (e_data e)) ∧ e_signature e' = e_signature e.
Proof.
  unfold add_payload.
  destruct i as [|i0 i]; [by split_and!; [intros _; split; [by eexists |] | ..] |]. destruct c as [|c0 c]; [by split_and!; [intros _; split; [by eexists |] | ..] |].
  destruct raw as [|r0 raw]; [by split_and!; [intros _; split; [by eexists |] | ..] |].
  replace (str_truthy (String i0 i)) with true by done. replace (str_truthy (String c0 c)) with true by done.
  replace (str_truthy (String r0 raw)) with true by done. cbn [negb].
  rewrite bind_eq. cbn [m_modify].
  assert (∀ s t, String s t ≠ "") as Hne by done.
  destruct (opt_str_truthy alg).
  - rewrite bind_eq. unfold m_of_outcome. destruct (digest_get _ _ _) as [d|x];
      (split_and!; [by intros [?|[?|?]] | done | by intros [] | done]).
  - cbn. split_and!; [by intros [?|[?|?]] | done | by intros [] | done].
Qed.
#[export] Instance Event_laws : IEventLaws Event.
Proof.
  split.
  - intros f v e. cbn. destruct f; (split_and!; [done | intros [] Hg; try done; by destruct Hg | done ..]).
  - intros p e. split_and!; [done | done | by intros []].
  - apply add_payload_law.
  - intros R Priv Pub H cert alg pass e r. cbn [sign_event Event_object]. unfold sign. cbn beta iota zeta.
    destruct (ecdsa_sign (_canonical_bytes e) cert alg pass r) as [[sig|x] r']; by split.
  - intros R Priv Pub H cert alg e. cbn. unfold verify. by intros ->.
  - intros [d s] [d' s']. cbn. by intros -> ->.
Qed.

(** ** Clients *)
Section Clients.
Context {E : Type} `{!IEventObject E, !IEventLaws E}.

(** A caller that fills an event in. *)
Fixpoint fill (assignments : list (field * string)) (e : E) : E :=
  match assignments with [] => e | (f, v) :: rest => fill rest (set_field f v e) end.
Definition last_value (f : field) (assignments : list (field * string)) : option string :=
  fold_left (λ o fv, if decide (fv.1 = f) then Some fv.2 else o) assignments None.

Lemma last_value_cons f g v l :
  last_value f ((g, v) :: l) = match last_value f l with Some x => Some x | None => if decide (g = f) then Some v else None end.
Proof.
  unfold last_value. cbn [fold_left fst snd]. generalize (if decide (g = f) then Some v else None) as o.
  induction l as [|[h w] l IH]; intros o; cbn [fold_left fst snd]; [by destruct o |].
  rewrite (IH (if decide (h = f) then Some w else o)), (IH (if decide (h = f) then Some w else None)).
  case_decide; by destruct (fold_left _ l None).
Qed.

(** The last assignment of each field is the one that stays; what was not
    assigned, the payload and the signature are as they were. *)
Lemma fill_fields l e :
  (∀ f, get_field f (data (fill l e))
        = match last_value f l with Some v => Some v | None => get_field f (data e) end)
  ∧ d_payload (data (fill l e)) = d_payload (data e) ∧ signature (fill l e) = signature e.
Proof using IEventLaws0.
  revert e. induction l as [|[g v] l IH]; intros e; [done |]. cbn [fill].
  destruct (IH (set_field g v e)) as (IHf & -> & ->).
  destruct (set_field_law g v e) as (H1 & H2 & _ & H3 & H4). split_and!; [| done | done].
  intros f. rewrite IHf, last_value_cons. destruct (last_value f l); [done |].
  case_decide as Hf; [by subst | by apply H2].
Qed.

(** A state machine's event. *)
#[export] Instance machine_event : IEvent E := {
  event_flow e := d_flow (data e);
  event_name e := d_name (data e);
}.
(** Which transition an event takes depends on its flow and name alone: not on
    its header, its payload or its signature. *)
Lemma fill_keeps_transition l e s :
  last_value FFlow l = None → last_value FName l = None →
  _build_transition_key (fill l e) s = _build_transition_key e s.
Proof using IEventLaws0.
  intros Hf Hn. destruct (fill_fields l e) as [H _]. apply transition_key_eq.
  pose proof (H FFlow) as H1. pose proof (H FName) as H2. rewrite Hf in H1. rewrite Hn in H2.
  injection H1 as H1. injection H2 as H2. cbn [event_flow event_name machine_event]. by rewrite H1, H2.
Qed.
Lemma sign_keeps_transition {R Priv Pub} `{!Ecdsa R Priv Pub} cert alg pass e (r : R) s :
  _build_transition_key (sign_event (Priv := Priv) (Pub := Pub) cert alg pass (e, r)).2.1 s
  = _build_transition_key e s.
Proof using IEventLaws0.
  pose proof (sign_event_law (Priv := Priv) (Pub := Pub) cert alg pass e r) as H.
  destruct (sign_event _ _ _ (e, r)) as [o [e' r']]. destruct H as [Hd _].
  apply transition_key_eq. cbn. by rewrite Hd.
Qed.
End Clients.

(** A payload replaced without a hash keeps the digest of the one before. *)
Example stale_digest :
  let add := add_payload (λ alg d, Ret (alg +:+ d)) in
  let e := (let* _ := add "p" "c" "one" (Some "sha256") in add "p" "c" "two" None)
             (event_new "u" "t" None None) in
  d_payload (e_data e.2) = mkPayload "p" "c" (Bytes "sha256one") (Bytes "two").
Proof. reflexivity. Qed.
