(* ===== verification/DbUri.v ===== *)
(** * DbUri: database configurations and connection URLs

    [src/pypepper/helper/db] and [_engine_from_config] of
    [src/pypepper/scheduler/store/sql.py].  Options come from YAML, so each is a
    JSON value ([JNull] for [None]).  What is done with a URL - [create_engine],
    mongoengine's [connect] - is third-party: these functions give the URL, or
    the arguments, or the error raised before. *)
From S2P Require Import Prelude Dict Json PyValues Encodings.

(** [quote_plus(s)]. *)
Definition hex_upper (n : nat) : ascii := ascii_of_nat (if n <? 10 then 48 + n else 55 + n)%nat.
Definition always_safe (c : ascii) : bool :=
  let n := code c in
  ((65 <=? n) && (n <=? 90) || (97 <=? n) && (n <=? 122) || (48 <=? n) && (n <=? 57)
   || (n =? 95) || (n =? 46) || (n =? 45) || (n =? 126))%nat.
Fixpoint quote_bytes (b : string) : string :=
  match b with
  | "" => ""
  | String c b' =>
      if always_safe c then String c (quote_bytes b')
      else if (code c =? 32)%nat then String "+" (quote_bytes b')
      else String "%" (String (hex_upper (code c / 16)) (String (hex_upper (code c mod 16)) (quote_bytes b')))
  end.
Definition quote_plus (j : json) : outcome string :=
  match j with
  | JStr s => Ret (quote_bytes (utf8 s))
  | _ => Raise (TypeError "quote_from_bytes() expected bytes")
  end.

(** [IConfig] and the [Config]s of [postgres], [mysql] and [mongodb]: [extra] is
    [sslmode], [charset] or [auth_source]. *)
Record Config : Type := mkConfig {
  uri : json;
  username : json;
  password : json;
  host : json;
  port : Z;
  db : json;
  extra : json;
}.
(** [postgres.Config(...)], [mysql.Config(...)], [mongodb.Config(...)]: an option
    that is not given is [None], the port and the last have a default.  [mongodb]
    also keeps a [uuid_representation], which nothing reads. *)
Definition new_Config (default_port : Z) (default_extra : json) (uri username password host : option json)
    (port : option Z) (db extra : option json) : Config :=
  mkConfig (default JNull uri) (default JNull username) (default JNull password) (default JNull host)
    (default default_port port) (default JNull db) (default default_extra extra).
Definition postgres_Config := new_Config 5432 JNull.
Definition mysql_Config := new_Config 3306 (JStr "utf8mb4").
Definition mongodb_Config := new_Config 27017 (JStr "admin").
(** The four options a configuration without URL needs. *)
Definition complete (cfg : Config) : bool :=
  py_truthy (username cfg) && py_truthy (password cfg) && py_truthy (host cfg) && py_truthy (db cfg).

(** [_quote_userinfo], [build_postgres_uri], [build_mysql_uri]. *)
Definition _quote_userinfo (username password : json) : outcome (string * string) :=
  match quote_plus username, quote_plus password with
  | Ret u, Ret p => Ret (u, p)
  | Raise e, _ => Raise e
  | _, Raise e => Raise e
  end.
Definition location (scheme : string) (user pwd : string) (cfg : Config) : string :=
  scheme +:+ "://" +:+ user +:+ ":" +:+ pwd +:+ "@" +:+ py_str (host cfg) +:+ ":" +:+ str_of_Z (port cfg)
  +:+ "/" +:+ py_str (db cfg).
Definition build_postgres_uri (cfg : Config) : outcome string :=
  match _quote_userinfo (username cfg) (password cfg) with
  | Raise e => Raise e
  | Ret (user, pwd) =>
      let uri := location "postgresql+psycopg" user pwd cfg in
      Ret (if py_truthy (extra cfg) then uri +:+ "?sslmode=" +:+ py_str (extra cfg) else uri)
  end.
Definition build_mysql_uri (cfg : Config) : outcome string :=
  match _quote_userinfo (username cfg) (password cfg) with
  | Raise e => Raise e
  | Ret (user, pwd) =>
      Ret (location "mysql+pymysql" user pwd cfg +:+ "?charset=" +:+ py_str (extra cfg))
  end.

(** The URL [postgres.connect(cfg)] and [mysql.connect(cfg)] connect to. *)
Definition connect_url (build : Config → outcome string) (cfg : Config) : outcome string :=
  if py_truthy (uri cfg) then Ret (py_str (uri cfg))
  else if negb (py_truthy (username cfg)) then Raise (ValueError "invalid username")
  else if negb (py_truthy (password cfg)) then Raise (ValueError "invalid password")
  else if negb (py_truthy (host cfg)) then Raise (ValueError "invalid host")
  else if negb (py_truthy (db cfg)) then Raise (ValueError "invalid db")
  else build cfg.
Definition postgres_connect : Config → outcome string := connect_url build_postgres_uri.
Definition mysql_connect : Config → outcome string := connect_url build_mysql_uri.

(** What [mongodb.connect(cfg)] passes to mongoengine: a URL, or the options. *)
Definition mongodb_connect (cfg : Config) : outcome (string + Config) :=
  if py_truthy (uri cfg) then Ret (inl (py_str (uri cfg)))
  else if negb (complete cfg) then
    Raise (ValueError "mongodb connect requires uri=... or username, password, host, and db")
  else Ret (inr cfg).

(** [kwargs.get(key)], [int(kwargs.get("port") or default)]. *)
Definition kwarg (kwargs : dict json) (key : string) : json := default JNull (dict_get key kwargs).
Definition kwarg_or (kwargs : dict json) (key : string) (d : json) : json :=
  if py_truthy (kwarg kwargs key) then kwarg kwargs key else d.
Definition config_of (kwargs : dict json) (default_port : Z) (extra : json) : outcome Config :=
  match py_int (kwarg_or kwargs "port" (JInt default_port)) with
  | Ret port =>
      Ret (mkConfig (kwarg kwargs "uri") (kwarg kwargs "username") (kwarg kwargs "password")
        (kwarg kwargs "host") port (kwarg kwargs "db") extra)
  | Raise e => Raise e
  end.

(** [_engine_from_config(backend, **kwargs)]: the URL of the engine. *)
Definition engine_url (cfg : outcome Config) (missing : string)
    (build : Config → outcome string) : outcome string :=
  match cfg with
  | Raise e => Raise e
  | Ret cfg =>
      if py_truthy (uri cfg) then Ret (py_str (uri cfg))
      else if negb (complete cfg) then Raise (ValueError missing)
      else build cfg
  end.
Definition _engine_from_config (backend : string) (kwargs : dict json) : outcome string :=
  if String.eqb backend "postgres" then
    engine_url (config_of kwargs 5432 (kwarg kwargs "sslmode"))
      "postgres job store requires uri=... or username, password, host, and db" build_postgres_uri
  else
    engine_url (config_of kwargs 3306 (kwarg_or kwargs "charset" (JStr "utf8mb4")))
      "mysql job store requires uri=... or username, password, host, and db" build_mysql_uri.

(** The checks of [MongoJobStore.__init__] and what it connects with. *)
Definition mongo_target (kwargs : dict json) : outcome (string + Config) :=
  match config_of kwargs 27017 (kwarg_or kwargs "auth_source" (JStr "admin")) with
  | Raise e => Raise e
  | Ret cfg =>
      if py_truthy (uri cfg) then Ret (inl (py_str (uri cfg)))
      else if negb (complete cfg) then
        Raise (ValueError "mongodb job store requires uri=... or username, password, host, and db")
      else Ret (inr cfg)
  end.

Example postgres_url :
  _engine_from_config "postgres" [("username", JStr "a b"); ("password", JStr "p@:/%"); ("host", JStr "h");
    ("db", JStr "jobs"); ("sslmode", JStr "require")]
  = Ret "postgresql+psycopg://a+b:p%40%3A%2F%25@h:5432/jobs?sslmode=require".
Proof. reflexivity. Qed.
