(* ===== verification/StoreConfig.v ===== *)
(** * StoreConfig: which store a process saves to

    [src/pypepper/scheduler/store/__init__.py] and the deferred-store flag of
    [src/pypepper/common/config.py].  YAML is read elsewhere: a configuration is
    the data it holds.  Opening a database is third-party ([open_sql],
    [open_mongo]). *)
From S2P Require Import Prelude Dict Json PyValues Lifecycle Fsm SchedulerFsm JobStore Channel.
From S2P Require Import Context Task Payload World Job DbUri.

(** The stores that can be installed: by what they were built from.  A memory
    store is known by its number, another implementation likewise. *)
Inductive installed : Type :=
| MemoryStore (n : nat)
| SqlStoreAt (backend url : string)
| MongoStoreAt (target : string + Config)
| OtherStore (n : nat).
Definition is_memory (s : installed) : bool := match s with MemoryStore _ => true | _ => false end.

Definition _VALID_BACKENDS : list string := ["memory"; "postgres"; "mysql"; "mongodb"].

(** The process: its world, the loaded YAML, the one-shot warning, and a number
    for the next memory store. *)
Record Setup (X : Type) : Type := mkSetup {
  s_world : World installed X;
  s_setting : option json;
  s_warned : bool;
  s_next : nat;
}.
Arguments mkSetup {X}. Arguments s_world {X}. Arguments s_setting {X}.
Arguments s_warned {X}. Arguments s_next {X}.

(** [getattr(x, name, None)] on what a YAML document holds; a name that [hasattr] would not find gives [None] too. *)
Definition attr (x : json) (name : string) : json :=
  match x with JObj l => default JNull (dict_get name l) | _ => JNull end.
Definition is_none (x : json) : bool := match x with JNull => true | _ => false end.

(** The backend a configuration names, if any. *)
Definition job_store_cfg (yml : option json) : json :=
  match yml with Some y => attr (attr y "scheduler") "jobStore" | None => JNull end.
Definition backend_attr (yml : option json) : json := attr (job_store_cfg yml) "backend".
(** [name in ("", "memory")] for [name = str(backend).strip().lower()]. *)
Definition means_memory (backend : string) : bool :=
  bool_decide (lower (strip backend) ∈ [""; "memory"]).

Section StoreConfig.
Context {X : Type} (open_sql : string → string → outcome unit) (open_mongo : string + Config → outcome unit).
Abbreviation ST := (Setup X).

Definition on_world {A} (m : M (World installed X) A) : M ST A :=
  λ s, let '(o, w) := m (s_world s) in (o, mkSetup w (s_setting s) (s_warned s) (s_next s)).
Definition get_job_store (s : ST) : installed := w_store (s_world s).

(** [Config.refresh_scheduler_job_store_deferred()]. *)
Definition refresh_scheduler_job_store_deferred : M ST unit :=
  let* _ := on_world (m_modify (set_deferred None)) in
  let* yml := m_get s_setting in
  let backend := backend_attr yml in
  if is_none backend then m_ret tt
  else if means_memory (py_str backend) then m_ret tt
  else on_world (m_modify (set_deferred (Some (py_str backend)))).

(** [Config.load_config()] on a parsed document; [others] is what setting up the
    log and tracing does before the flag is refreshed. *)
Definition load_config (setting : json) (others : outcome unit) : M ST unit :=
  let* _ := m_modify (λ s, mkSetup (s_world s) (Some setting) (s_warned s) (s_next s)) in
  let* _ := m_of_outcome others in
  refresh_scheduler_job_store_deferred.

(** [_yaml_declared_job_store_backend()]. *)
Definition _yaml_declared_job_store_backend (s : ST) : option string :=
  let backend := backend_attr (s_setting s) in
  if is_none backend then None
  else let name := strip (py_str backend) in if str_truthy name then Some name else None.

(** [_warn_durable_vs_memory_once] and [reset_job_store_mismatch_warning]; the
    log line itself is not kept. *)
Definition _warn_durable_vs_memory_once : M ST unit :=
  m_modify (λ s, mkSetup (s_world s) (s_setting s) true (s_next s)).
Definition reset_job_store_mismatch_warning : M ST unit :=
  m_modify (λ s, mkSetup (s_world s) (s_setting s) false (s_next s)).

(** [set_job_store(store)]. *)
Definition set_job_store (store : installed) : M ST unit :=
  let* declared := m_get _yaml_declared_job_store_backend in
  let* _ := (if is_memory store then
               match declared with
               | Some d => if negb (means_memory d) then _warn_durable_vs_memory_once else m_ret tt
               | None => m_ret tt
               end
             else m_ret tt) in
  let* _ := on_world (m_modify (set_store store)) in
  on_world mark_scheduler_job_store_applied.

Definition new_memory : M ST installed :=
  let* n := m_get s_next in
  let* _ := m_modify (λ s, mkSetup (s_world s) (s_setting s) (s_warned s) (Datatypes.S (s_next s))) in
  m_ret (MemoryStore n).

(** [reset_job_store()]. *)
Definition reset_job_store : M ST unit :=
  let* store := new_memory in
  let* _ := on_world (m_modify (set_store store)) in
  let* _ := reset_job_store_mismatch_warning in
  refresh_scheduler_job_store_deferred.

(** The store [configure_job_store] builds: its location, then opened. *)
Definition unsupported_msg (backend : json) : string :=
  "unsupported job store backend: " +:+ py_repr backend.
Definition durable_store (backend : string) (kwargs : dict json) : outcome installed :=
  if String.eqb backend "mongodb" then
    match mongo_target kwargs with
    | Ret target => match open_mongo target with Ret _ => Ret (MongoStoreAt target) | Raise e => Raise e end
    | Raise e => Raise e
    end
  else
    match _engine_from_config backend kwargs with
    | Ret url => match open_sql backend url with Ret _ => Ret (SqlStoreAt backend url) | Raise e => Raise e end
    | Raise e => Raise e
    end.
(** [configure_job_store(backend, **kwargs)]. *)
Definition configure_job_store (backend : string) (kwargs : dict json) : M ST unit :=
  let* store :=
    (if String.eqb backend "memory" then new_memory
     else if bool_decide (backend ∈ ["postgres"; "mysql"; "mongodb"])
     then m_of_outcome (durable_store backend kwargs)
     else m_raise (ValueError (unsupported_msg (JStr backend)))) in
  set_job_store store.

(** The options [setup_from_config] forwards. *)
Definition option_keys : list string :=
  ["uri"; "host"; "port"; "username"; "password"; "db"; "sslmode"; "charset"; "auth_source"].
Definition kwargs_of (store_cfg : json) : dict json :=
  omap (λ key, let v := attr store_cfg key in if is_none v then None else Some (key, v)) option_keys.

(** [setup_from_config(yml_config)]. *)
Definition setup_from_config (yml_config : option json) : M ST unit :=
  let store_cfg := job_store_cfg yml_config in
  if is_none store_cfg then m_ret tt
  else
    match py_or (Some (attr store_cfg "backend")) (JStr "memory") with
    | JStr backend =>
        if negb (bool_decide (backend ∈ _VALID_BACKENDS)) then
          m_raise (ValueError (unsupported_msg (JStr backend)))
        else
          let* current := m_get get_job_store in
          if String.eqb backend "memory" && is_memory current then
            on_world mark_scheduler_job_store_applied
          else configure_job_store backend (kwargs_of store_cfg)
    | JArr _ | JObj _ => m_raise (TypeError "unhashable type")
    | raw => m_raise (ValueError (unsupported_msg raw))
    end.

(** The guard at the head of [Job.save] and [Job.get_saved]. *)
Definition save_guard : M ST unit :=
  let* store := m_get get_job_store in
  on_world (ensure_scheduler_job_store_applied (is_memory store)).
End StoreConfig.

(** ** A declared database is never replaced by memory in silence *)
Section Facts.
Context {X : Type} (open_sql : string → string → outcome unit) (open_mongo : string + Config → outcome unit).
Abbreviation ST := (Setup X).
Abbreviation setup := (setup_from_config (X := X) open_sql open_mongo).

(** The YAML names backend [b]; databases are the other backends. *)
Definition declares (yml : json) (b : string) : Prop := backend_attr (Some yml) = JStr b.
Definition databases : list string := ["postgres"; "mysql"; "mongodb"].

Lemma database_not_memory b : b ∈ databases → means_memory b = false ∧ b ≠ "memory".
Proof. by repeat (intros [->|H]%elem_of_cons; [by split | revert H]); intros ?%elem_of_nil. Qed.

(** The flag after [refresh_scheduler_job_store_deferred]. *)
Definition deferred_of (yml : option json) : option string :=
  let backend := backend_attr yml in
  if is_none backend then None
  else if means_memory (py_str backend) then None else Some (py_str backend).
Definition with_deferred (d : option string) (s : ST) : ST :=
  mkSetup (set_deferred d (s_world s)) (s_setting s) (s_warned s) (s_next s).

Lemma durable_store_not_memory b kwargs store :
  durable_store open_sql open_mongo b kwargs = Ret store → is_memory store = false.
Proof.
  unfold durable_store. destruct (String.eqb b "mongodb").
  - destruct (mongo_target kwargs) as [t|]; [| done]. destruct (open_mongo t); [| done]. by intros [= <-].
  - destruct (_engine_from_config b kwargs) as [u|]; [| done]. destruct (open_sql b u); [| done]. by intros [= <-].
Qed.

Lemma refresh_run (s : ST) :
  refresh_scheduler_job_store_deferred s = (Ret tt, with_deferred (deferred_of (s_setting s)) s).
Proof.
  unfold refresh_scheduler_job_store_deferred, deferred_of, with_deferred. unfold m_bind. cbn.
  destruct (is_none _); [by destruct (s_world s) |].
  destruct (means_memory _); by destruct (s_world s).
Qed.

(** The guard, by what is installed and what is deferred. *)
Lemma guard_run (s : ST) :
  save_guard s =
    match w_deferred (s_world s) with
    | Some b =>
        if is_memory (get_job_store s) then (Raise (ValueError (not_applied_msg b)), s)
        else (Ret tt, with_deferred None s)
    | None => (Ret tt, s)
    end.
Proof.
  unfold save_guard, ensure_scheduler_job_store_applied, get_job_store, m_bind, on_world, m_get, with_deferred.
  destruct s as [w yml warned n]. cbn.
  destruct (w_deferred w) as [b|] eqn:Hd; [destruct (is_memory (w_store w)) |]; done.
Qed.

Lemma set_job_store_run store (s : ST) :
  ∃ s', set_job_store store s = (Ret tt, s') ∧ get_job_store s' = store
  ∧ w_deferred (s_world s') = None ∧ s_setting s' = s_setting s.
Proof.
  unfold set_job_store, m_bind, m_get. destruct (is_memory store);
    [destruct (_yaml_declared_job_store_backend s) as [d|]; [destruct (means_memory d) |] |];
    cbn; by eexists.
Qed.

Lemma setup_database yml b (s : ST) :
  declares yml b → b ∈ databases →
  setup (Some yml) s =
    match durable_store open_sql open_mongo b (kwargs_of (job_store_cfg (Some yml))) with
    | Ret store => set_job_store store s
    | Raise e => (Raise e, s)
    end.
Proof.
  intros Hb Hdb. destruct (database_not_memory b Hdb) as [_ Hm].
  unfold setup_from_config. unfold declares, backend_attr in Hb.
  destruct (job_store_cfg (Some yml)) as [| | | | |l] eqn:Hc; try discriminate Hb. cbn [is_none].
  rewrite Hb.
  assert (bool_decide (b ∈ databases) = true) as Hdb' by (by apply bool_decide_eq_true).
  assert (str_truthy b = true ∧ bool_decide (b ∈ _VALID_BACKENDS) = true) as [Ht Hv].
  { revert Hdb. clear. by repeat (intros [->|H]%elem_of_cons; [by split | revert H]); intros ?%elem_of_nil. }
  cbn [py_or py_truthy]. rewrite Ht, Hv. cbn [negb].
  unfold configure_job_store, m_bind at 1, m_get at 1.
  destruct (String.eqb_spec b "memory") as [->|_]; [done |]. cbn [andb].
  fold databases. rewrite Hdb'. unfold m_bind, m_of_outcome.
  by destruct (durable_store _ _ _ _).
Qed.

(** A successful set-up from the loaded configuration leaves nothing deferred. *)
Lemma configure_applies b kwargs (s s' : ST) :
  configure_job_store open_sql open_mongo b kwargs s = (Ret tt, s') →
  w_deferred (s_world s') = None ∧ s_setting s' = s_setting s.
Proof.
  unfold configure_job_store. intros (store & s1 & H1 & H2)%bind_ret_inv.
  destruct (set_job_store_run store s1) as (s2 & E & _ & Hd & Hy). rewrite E in H2. injection H2 as <-.
  split; [done |]. rewrite Hy. destruct (String.eqb b "memory"); [by injection H1 as _ <- |].
  destruct (bool_decide _); [| done]. unfold m_of_outcome in H1. by injection H1 as _ <-.
Qed.
Lemma setup_applies yml (s s' : ST) :
  setup (Some yml) s = (Ret tt, s') → w_deferred (s_world s) = deferred_of (Some yml) →
  w_deferred (s_world s') = None ∧ s_setting s' = s_setting s.
Proof.
  unfold setup_from_config. destruct (is_none (job_store_cfg (Some yml))) eqn:Hn.
  { intros [= <-] ->. split; [| done]. unfold deferred_of, backend_attr.
    by destruct (job_store_cfg (Some yml)). }
  intros H _. destruct (py_or _ _) as [| | |b| |]; try done.
  destruct (negb _); [done |]. rewrite bind_eq in H. cbn [m_get] in H.
  destruct (_ && _); [by injection H as <- | by apply configure_applies in H].
Qed.

Lemma reset_run (s : ST) :
  ∃ s', reset_job_store s = (Ret tt, s') ∧ is_memory (get_job_store s') = true
  ∧ w_deferred (s_world s') = deferred_of (s_setting s) ∧ s_setting s' = s_setting s.
Proof.
  assert (reset_job_store s = refresh_scheduler_job_store_deferred
    (mkSetup (set_store (MemoryStore (s_next s)) (s_world s)) (s_setting s) false (Datatypes.S (s_next s)))) as -> by done.
  rewrite refresh_run. by eexists.
Qed.
End Facts.

(** C16: Once a configuration that declares a database is loaded, a process whose
    store is still in memory refuses to save, with an error that names the
    backend; setting the store up from that configuration either fails with an
    error and changes nothing - so saving is still refused - or installs a store
    of that backend at the place its options name, after which saving is
    allowed; resetting the store refuses saves again.  A store of another kind
    installed before the load counts as the declared one. *)
Theorem declared_database_is_used {X : Type} (open_sql : string → string → outcome unit)
    (open_mongo : string + Config → outcome unit) (yml : json) (b : string) (s : Setup X) :
  declares yml b → b ∈ databases →
  let s1 := (load_config yml (Ret tt) s).2 in
  let refused (s : Setup X) := save_guard s = (Raise (ValueError (not_applied_msg b)), s) in
  get_job_store s1 = get_job_store s
  ∧ (if is_memory (get_job_store s) then refused s1 else (save_guard s1).1 = Ret tt)
  ∧ (is_memory (get_job_store s) = true →
     match setup_from_config open_sql open_mongo (Some yml) s1 with
     | (Raise e, s2) => s2 = s1 ∧ refused s2
     | (Ret _, s2) =>
         durable_store open_sql open_mongo b (kwargs_of (job_store_cfg (Some yml))) = Ret (get_job_store s2)
         ∧ is_memory (get_job_store s2) = false
         ∧ save_guard s2 = (Ret tt, s2)
         ∧ let '(o, s3) := reset_job_store s2 in o = Ret tt ∧ is_memory (get_job_store s3) = true ∧ refused s3
     end).
Proof.
  intros Hb Hdb s1 refused. destruct (database_not_memory b Hdb) as [Hm _].
  assert (deferred_of (Some yml) = Some b) as Hdef.
  { unfold deferred_of. unfold declares in Hb. rewrite Hb. cbn [is_none py_str]. by rewrite Hm. }
  assert (s1 = with_deferred (Some b) (mkSetup (s_world s) (Some yml) (s_warned s) (s_next s))) as Hs1.
  { change s1 with (refresh_scheduler_job_store_deferred
      (mkSetup (s_world s) (Some yml) (s_warned s) (s_next s))).2. rewrite refresh_run. cbn [snd s_setting]. by rewrite Hdef. }
  assert (∀ s : Setup X, w_deferred (s_world s) = Some b → is_memory (get_job_store s) = true → refused s) as Href.
  { intros s' Hd Hmem. unfold refused. by rewrite guard_run, Hd, Hmem. }
  assert (get_job_store s1 = get_job_store s) as Hst by (by rewrite Hs1).
  assert (w_deferred (s_world s1) = Some b) as Hd1 by (by rewrite Hs1).
  split_and!; [done | |].
  - destruct (is_memory (get_job_store s)) eqn:Hmem; [apply Href; [done | by rewrite Hst] |].
    by rewrite guard_run, Hd1, Hst, Hmem.
  - intros Hmem. rewrite (setup_database open_sql open_mongo yml b s1 Hb Hdb).
    destruct (durable_store _ _ _ _) as [store|e] eqn:Hstore.
    2:{ split; [done |]. apply Href; [done | by rewrite Hst]. }
    destruct (set_job_store_run store s1) as (s2 & -> & Hg & Hd2 & Hy2).
    destruct (reset_run s2) as (s3 & -> & Hm3 & Hd3 & _).
    split_and!; [by rewrite Hg | | by rewrite guard_run, Hd2 | done | done |].
    + rewrite Hg. by apply durable_store_not_memory in Hstore.
    + apply Href; [| done]. rewrite Hd3, Hy2, Hs1. exact Hdef.
Qed.

Module StoreConfigExamples.
Definition yml1 : json :=
  JObj [("scheduler", JObj [("jobStore", JObj [("backend", JStr "mysql"); ("username", JStr "u");
    ("password", JStr "p w"); ("host", JStr "h"); ("port", JStr "3307"); ("db", JStr "d")])])].
Definition s0 : Setup unit :=
  mkSetup (mkWorld (λ _, mkJob "" None "" (ctx_new None None) [] build_scheduler_fsm "" "" "" 1 0) (λ _, false)
    0 manager_init ∅ (MemoryStore 0) None false tt) None false 1.

Lemma declared_database_is_used_witness :
  let s1 := (load_config yml1 (Ret tt) s0).2 in
  (save_guard s1).1 = Raise (ValueError (not_applied_msg "mysql"))
  ∧ get_job_store (setup_from_config (λ _ _, Ret tt) (λ _, Ret tt) (Some yml1) s1).2
    = SqlStoreAt "mysql" "mysql+pymysql://u:p+w@h:3307/d?charset=utf8mb4".
Proof.
  destruct (declared_database_is_used (λ _ _, Ret tt) (λ _, Ret tt) yml1 "mysql" s0) as (_ & H & _);
    [reflexivity | by right; left |].
  cbv zeta. split; [exact (f_equal fst H) | vm_compute; reflexivity].
Defined.
End StoreConfigExamples.
