(* ===== verification/Time.v ===== *)
(** * Time: dates and delays

    [src/pypepper/common/utils/time.py].  Dates are the third-party [arrow]'s: its
    calls are parameters ([Arrow]).  A delay is computed in binary64, as Python
    does, with the Standard Library's [SpecFloat]. *)
From Stdlib Require Import SpecFloat.
From S2P Require Import Prelude Json PyValues.

(** ** Dates *)
Class Arrow (W A : Type) : Type := {
  arrow_now : option string → M W A;               (** [arrow.now(tz)] *)
  utcnow : M W A;
  fromtimestamp : json → option string → outcome A;
  format : string → A → string;
  date_str : A → string;                           (** [str(a.date())] *)
  tzname : A → option string;                      (** [a.timetz().tzname()] *)
  int_timestamp : A → Z;
}.
Definition ISO8601_WITH_TZ_OFFSET : string := "YYYY-MM-DDTHH:mm:ss.SSSZZ".

Section Dates.
Context {W A : Type} `{!Arrow W A}.
Definition get_datetime (tz : option string) : M W string :=
  let* a := arrow_now tz in m_ret (format ISO8601_WITH_TZ_OFFSET a).
Definition get_local_datetime : M W string := get_datetime None.
Definition get_utc_datetime : M W string :=
  let* a := utcnow in m_ret (format ISO8601_WITH_TZ_OFFSET a).
Definition get_date (tz : option string) : M W string := let* a := arrow_now tz in m_ret (date_str a).
Definition get_timezone : M W string :=
  let* a := arrow_now None in m_ret (match tzname a with Some n => n | None => "" end).
Definition get_unix_timestamp : M W Z := let* a := utcnow in m_ret (int_timestamp a).
Definition parse_unix_timestamp (timestamp : json) (tz : option string) : outcome string :=
  match fromtimestamp timestamp tz with
  | Ret a => Ret (format ISO8601_WITH_TZ_OFFSET a)
  | Raise e => Raise e
  end.
End Dates.

(** ** Delays *)
(** [float(z)], which [int * float] applies; [x * y], [x + y] on floats. *)
Definition float_of (z : Z) : outcome spec_float :=
  match binary_normalize 53 1024 z 0 false with
  | S754_infinity _ => Raise (OtherException "OverflowError" "int too large to convert to float")
  | x => Ret x
  end.
Definition fmul : spec_float → spec_float → spec_float := SFmul 53 1024.
Definition fadd : spec_float → spec_float → spec_float := SFadd 53 1024.
Definition float_lit (z : Z) : spec_float := binary_normalize 53 1024 z 0 false.

(** The literal [0.001] is the float nearest to it. *)
Definition TIME_MS : spec_float := SFdiv 53 1024 (float_lit 1) (float_lit 1000).
Definition TIME_SECOND : spec_float := fmul TIME_MS (float_lit 1000).
Definition TIME_MINUTE : spec_float := fmul TIME_SECOND (float_lit 60).
Definition TIME_HOUR : spec_float := fmul TIME_MINUTE (float_lit 60).
Definition TIME_DAY : spec_float := fmul TIME_HOUR (float_lit 24).

Definition times (unit : spec_float) (n : Z) : outcome spec_float :=
  match float_of n with Ret x => Ret (fmul unit x) | Raise e => Raise e end.
(** The argument of [time.sleep]. *)
Definition delay (ms second minute hour day : Z) : outcome spec_float :=
  match times TIME_MS ms, times TIME_SECOND second, times TIME_MINUTE minute, times TIME_HOUR hour, times TIME_DAY day with
  | Ret a, Ret b, Ret c, Ret d, Ret e => Ret (fadd (fadd (fadd (fadd a b) c) d) e)
  | Raise x, _, _, _, _ | _, Raise x, _, _, _ | _, _, Raise x, _, _ | _, _, _, Raise x, _ | _, _, _, _, Raise x => Raise x
  end.
(** [sleep(ms, second, minute, hour, day)]. *)
Definition sleep {W} (time_sleep : spec_float → M W unit) (ms second minute hour day : Z) : M W unit :=
  let* x := m_of_outcome (delay ms second minute hour day) in time_sleep x.

(** The units are whole numbers of seconds, exactly, in spite of [0.001]. *)
Lemma units_exact :
  TIME_SECOND = float_lit 1 ∧ TIME_MINUTE = float_lit 60 ∧ TIME_HOUR = float_lit 3600
  ∧ TIME_DAY = float_lit 86400.
Proof. by vm_compute. Qed.

(** Delays of whole units are exact, up to a minute of seconds, an hour of minutes,
    a day of hours and a month of days; and so are whole seconds asked for in
    milliseconds up to a minute. *)
Definition same_delay (o : outcome spec_float) (seconds : Z) : bool :=
  match o with Ret x => bool_decide (SFeqb x (float_lit seconds) = true) | Raise _ => false end.
Definition upto (n : nat) : list Z := map Z.of_nat (seq 0 (S n)).
Lemma delays_exact :
  forallb (λ n, same_delay (delay 0 n 0 0 0) n && same_delay (delay (1000 * n) 0 0 0 0) n) (upto 60) = true
  ∧ forallb (λ n, same_delay (delay 0 0 n 0 0) (60 * n)) (upto 60) = true
  ∧ forallb (λ n, same_delay (delay 0 0 0 n 0) (3600 * n)) (upto 24) = true
  ∧ forallb (λ n, same_delay (delay 0 0 0 0 n) (86400 * n)) (upto 31) = true.
Proof. by vm_compute. Qed.
(** One of each unit: a single rounding. *)
Example delay_rounds : delay 1 1 1 1 1 = Ret (SFadd 53 1024 (float_lit 90061) TIME_MS).
Proof. vm_compute. reflexivity. Qed.
Example delay_overflows : delay (10 ^ 400) 0 0 0 0 = Raise (OtherException "OverflowError" "int too large to convert to float").
Proof. vm_compute. reflexivity. Qed.
