(* ===== verification/Random.v ===== *)
(** * Random: random values, identifiers and salts

    [src/pypepper/common/utils/random.py], [uuid.py], the default interval of
    [retry.py] and [common/security/crypto/salt.py]. *)
From S2P Require Import Prelude Json PyValues.

(** [secrets] and [uuid] are the standard library's; [EntropyLaws] is what they
    document. *)
Class Entropy (W : Type) : Type := {
  randrange : Z → Z → M W Z;
  randbits : Z → M W Z;
  token_hex : Z → M W string;
  token_bytes : Z → M W string;
  uuid4_hex : M W string;
}.
Class EntropyLaws (W : Type) `{!Entropy W} : Prop := {
  randrange_law : ∀ a b w,
    if (a <? b)%Z then ∃ z w', randrange a b w = (Ret z, w') ∧ (a ≤ z < b)%Z
    else ∃ m w', randrange a b w = (Raise (ValueError m), w');
  randbits_law : ∀ n w, (0 < n)%Z → ∃ z w', randbits n w = (Ret z, w') ∧ (0 ≤ z < 2 ^ n)%Z;
  token_hex_law : ∀ n w, (0 ≤ n)%Z →
    ∃ s w', token_hex n w = (Ret s, w') ∧ Z.of_nat (String.length s) = (2 * n)%Z;
  token_bytes_law : ∀ n w, (0 ≤ n)%Z →
    ∃ l w', token_bytes n w = (Ret l, w') ∧ Z.of_nat (String.length l) = n;
  uuid4_hex_law : ∀ w, ∃ s w', uuid4_hex w = (Ret s, w') ∧ String.length s = 32%nat;
}.

Section Random.
Context {W : Type} `{!Entropy W}.

(** [Random.DEFAULT_ENTROPY]. *)
Definition DEFAULT_ENTROPY : Z := 64.
(** [Random.rand_int_between(min_, max_)]. *)
Definition rand_int_between (min_ max_ : Z) : M W Z := randrange min_ max_.
(** [Random.rand_uint_between(min_, max_)]. *)
Definition rand_uint_between (min_ max_ : Z) : M W Z :=
  if (min_ <? 0)%Z || (max_ <? 0)%Z then m_raise (InternalException "invalid range")
  else randrange min_ max_.
(** [Random.rand_boolean()]. *)
Definition rand_boolean : M W bool := let* b := randbits 1 in m_ret (b =? 1)%Z.
(** [Random.rand_lowercase(inputs)]. *)
Fixpoint rand_lowercase (inputs : string) : M W string :=
  match inputs with
  | "" => m_ret ""
  | String c inputs' =>
      let* b := rand_boolean in
      let c' := if b then lower_char c else c in
      let* outputs := rand_lowercase inputs' in
      m_ret (String c' outputs)
  end.
(** [c.upper()], as code points: for three letters it leaves the first 256. *)
Definition upper_points (c : ascii) : list Z :=
  let n := Z.of_nat (code c) in
  if ((97 <=? n) && (n <=? 122) || (224 <=? n) && (n <=? 254) && negb (n =? 247))%Z then [(n - 32)%Z]
  else if (n =? 223)%Z then [83; 83]%Z
  else if (n =? 255)%Z then [376%Z]
  else if (n =? 181)%Z then [924%Z]
  else [n].
Definition lower_points (c : ascii) : list Z := [Z.of_nat (code (lower_char c))].
Definition points (c : ascii) : list Z := [Z.of_nat (code c)].
(** [Random.rand_case(inputs)] and [Random.rand_uppercase(inputs)], as code points. *)
Fixpoint rand_points (heads tails : ascii → list Z) (inputs : string) : M W (list Z) :=
  match inputs with
  | "" => m_ret []
  | String c inputs' =>
      let* b := rand_boolean in
      let* outputs := rand_points heads tails inputs' in
      m_ret ((if b : bool then heads c else tails c) ++ outputs)
  end.
Definition rand_case : string → M W (list Z) := rand_points upper_points lower_points.
Definition rand_uppercase : string → M W (list Z) := rand_points upper_points points.
(** [Random.rand_int_seed(k)]; [int_pow10 e] is [int(math.pow(10, e))]. *)
Definition bit_length (z : Z) : Z := if (z =? 0)%Z then 0 else (Z.log2 (Z.abs z) + 1)%Z.
Definition rand_int_seed (int_pow10 : Z → outcome Z) (k : Z) : M W Z :=
  let* p := m_of_outcome (int_pow10 (k - 1)%Z) in
  randbits (bit_length p + 1)%Z.
(** [Random.rand_hex_seed()]. *)
Definition rand_hex_seed : M W string := token_hex DEFAULT_ENTROPY.

(** [retry.random_retry_interval()] and its defaults. *)
Definition DEFAULT_RETRY_TIMES : Z := 3.
Definition DEFAULT_RETRY_INTERVAL : Z := 3.
Definition DEFAULT_RETRY_MIN_INTERVAL : Z := DEFAULT_RETRY_INTERVAL.
Definition DEFAULT_RETRY_MAX_INTERVAL : Z := DEFAULT_RETRY_MIN_INTERVAL * 3.
Definition random_retry_interval (min_interval max_interval : Z) : M W Z :=
  rand_uint_between min_interval max_interval.

(** [uuid.new_uuid()]: the hexadecimal digits in groups of 8, 4, 4, 4 and 12. *)
Definition dashed (h : string) : string :=
  let part i n := String.substring i n h in
  part 0 8%nat +:+ "-" +:+ part 8%nat 4%nat +:+ "-" +:+ part 12%nat 4%nat +:+ "-" +:+ part 16%nat 4%nat
  +:+ "-" +:+ part 20%nat 12%nat.
Definition new_uuid : M W string := let* h := uuid4_hex in m_ret (dashed h).
(** [uuid.new_uuid_32bits()] and [uuid.custom_uuid(length)]. *)
Definition new_uuid_32bits : M W string := uuid4_hex.
Definition custom_uuid (length : Z) : M W string :=
  if (length <=? 0)%Z then m_raise (InternalException "invalid length")
  else let* s := new_uuid_32bits in m_ret (String.substring 0 (Z.to_nat length) s).

(** [salt.new(size)]. *)
Definition MIN_SALT_SIZE : Z := 16.
Definition DEFAULT_SALT_SIZE : Z := 64.
Definition salt_new (size : Z) : M W string :=
  if (size <? MIN_SALT_SIZE)%Z then
    m_raise (InternalException "salt size at least 16 bytes long")
  else token_bytes size.

Context `{!EntropyLaws W}.

(** An unsigned range refuses negative bounds; a value it gives is in range. *)
Lemma rand_uint_between_spec a b w :
  match rand_uint_between a b w with
  | (Ret z, _) => (0 ≤ a ≤ z)%Z ∧ (z < b)%Z
  | (Raise (InternalException _), w') => (a < 0 ∨ b < 0)%Z ∧ w' = w
  | (Raise (ValueError _), _) => (0 ≤ b ≤ a)%Z
  | _ => False
  end.
Proof.
  unfold rand_uint_between.
  destruct (Z.ltb_spec a 0) as [Ha|Ha]; [cbn; auto with lia |].
  destruct (Z.ltb_spec b 0) as [Hb|Hb]; [cbn; auto with lia |]. cbn [orb].
  pose proof (randrange_law a b w) as H.
  destruct (Z.ltb_spec a b); destruct H as (z & w' & H); [destruct H as [-> ?] | rewrite H]; lia.
Qed.

(** The default interval between retries is 3 to 8 seconds. *)
Lemma random_retry_interval_default w :
  ∃ z w', random_retry_interval DEFAULT_RETRY_MIN_INTERVAL DEFAULT_RETRY_MAX_INTERVAL w = (Ret z, w')
    ∧ (3 ≤ z ≤ 8)%Z.
Proof.
  destruct (randrange_law 3 9 w) as (z & w' & H & Hz). exists z, w'. split; [exact H | lia].
Qed.

Lemma rand_boolean_returns w : ∃ b w', rand_boolean w = (Ret b, w').
Proof.
  destruct (randbits_law 1 w) as (z & w' & Hz & _); [done |]. eexists _, w'.
  unfold rand_boolean. by rewrite (bind_ret_run _ _ _ _ _ Hz).
Qed.
Lemma lower_char_idemp c : lower_char (lower_char c) = lower_char c.
Proof. destruct c as [[] [] [] [] [] [] [] []]; reflexivity. Qed.

(** Random lower-casing changes nothing but case. *)
Lemma rand_lowercase_lower s : ∀ w,
  ∃ t w', rand_lowercase s w = (Ret t, w') ∧ lower t = lower s.
Proof.
  induction s as [|c s IH]; intros w; [by exists "", w |]. cbn [rand_lowercase].
  destruct (rand_boolean_returns w) as (b & w1 & Hb). rewrite (bind_ret_run _ _ _ _ _ Hb).
  destruct (IH w1) as (t & w2 & Ht & Hl).
  eexists _, w2. rewrite (bind_ret_run _ _ _ _ _ Ht). split; [done |].
  cbn [lower]. rewrite Hl. f_equal. by destruct b; [apply lower_char_idemp |].
Qed.

(** An identifier has the asked length, at most 32. *)
Lemma substring_length s : ∀ n, String.length (String.substring 0 n s) = (n `min` String.length s)%nat.
Proof. induction s as [|c s IH]; intros [|n]; cbn; [done.. |]. by rewrite IH. Qed.
Lemma custom_uuid_length n w :
  (0 < n)%Z → ∃ s w', custom_uuid n w = (Ret s, w') ∧ Z.of_nat (String.length s) = (n `min` 32)%Z.
Proof.
  intros Hn. unfold custom_uuid, new_uuid_32bits. rewrite (proj2 (Z.leb_gt n 0)) by lia.
  destruct (uuid4_hex_law w) as (s & w' & Hs & Hl). rewrite (bind_ret_run _ _ _ _ _ Hs).
  eexists _, w'. split; [reflexivity |]. rewrite substring_length, Hl. lia.
Qed.

(** A salt is at least 16 bytes and of the asked size, or is refused. *)
Lemma salt_new_spec n w :
  match salt_new n w with
  | (Ret l, _) => Z.of_nat (String.length l) = n ∧ (16 ≤ n)%Z
  | (Raise e, w') => (n < 16)%Z ∧ w' = w
  end.
Proof.
  unfold salt_new, MIN_SALT_SIZE. destruct (Z.ltb_spec n 16); [done |].
  destruct (token_bytes_law n w) as (l & w' & -> & Hl); [lia |]. done.
Qed.

(** Random casing: each character keeps its place, in one of its two forms. *)
Lemma rand_points_forms f g s w :
  ∃ bits w', rand_points f g s w
      = (Ret (concat (zip_with (λ b c, if b : bool then f c else g c) bits (String.list_ascii_of_string s))), w')
    ∧ length bits = String.length s.
Proof.
  revert w. induction s as [|c s IH]; intros w; [by exists [], w |]. cbn [rand_points].
  destruct (rand_boolean_returns w) as (b & w1 & Hb). rewrite (bind_ret_run _ _ _ _ _ Hb).
  destruct (IH w1) as (bits & w2 & Hs & Hl). rewrite (bind_ret_run _ _ _ _ _ Hs).
  exists (b :: bits), w2. split; [done |]. cbn. by rewrite Hl.
Qed.

(** A seed for [k] digits has at most [k]: it is under four times [10^(k-1)].
    [math.pow(10, e)] is exact up to [e = 22]. *)
Lemma rand_int_seed_digits int_pow10 k w :
  (1 ≤ k ≤ 23)%Z → (∀ e, (0 ≤ e ≤ 22)%Z → int_pow10 e = Ret (10 ^ e)%Z) →
  ∃ z w', rand_int_seed int_pow10 k w = (Ret z, w') ∧ (0 ≤ z < 4 * 10 ^ (k - 1))%Z ∧ (z < 10 ^ k)%Z.
Proof.
  intros Hk Hpow. unfold rand_int_seed. rewrite Hpow by lia. rewrite bind_eq. cbn [m_of_outcome].
  set (p := (10 ^ (k - 1))%Z). assert (0 < p)%Z as Hp by (apply Z.pow_pos_nonneg; lia).
  assert (10 ^ k = 10 * p)%Z as Hk10.
  { subst p. rewrite <- Z.pow_succ_r by lia. f_equal. lia. }
  unfold bit_length. destruct (Z.eqb_spec p 0); [lia |]. rewrite Z.abs_eq by lia.
  pose proof (Z.log2_nonneg p). pose proof (Z.log2_spec p Hp) as [Hlo _].
  destruct (randbits_law (Z.log2 p + 1 + 1) w) as (z & w' & -> & Hz); [lia |].
  exists z, w'. split; [done |].
  replace (Z.log2 p + 1 + 1)%Z with (Z.log2 p + 2)%Z in Hz by lia. rewrite Z.pow_add_r in Hz by lia. lia.
Qed.

(** The text of an identifier: its digits, with dashes. *)
Lemma new_uuid_text w :
  ∃ h w', uuid4_hex w = (Ret h, w') ∧ new_uuid w = (Ret (dashed h), w') ∧ String.length (dashed h) = 36%nat.
Proof.
  destruct (uuid4_hex_law w) as (h & w' & Hh & Hl). exists h, w'. split; [done |].
  unfold new_uuid. rewrite (bind_ret_run _ _ _ _ _ Hh). split; [done |].
  do 32 (destruct h as [|? h]; [discriminate Hl |]). by destruct h.
Qed.
End Random.

