(* ===== verification/Utils.v ===== *)
(** * Utils: retries, named caches, options, loaders

    [src/pypepper/common/utils/retry.py], the [CacheSet] of [common/cache.py],
    [common/options.py] and [loader.py]. *)
From S2P Require Import Prelude Dict Json PyValues Context.

(** ** Retries *)
(** [str(e)]. *)
Definition exn_str (e : exn) : string :=
  match e with
  | InternalException m | ValueError m | RuntimeError m | TypeError m | TimeoutError m
  | ChannelFullError m | ChannelStoppedError m | JobRedeliveryError m _ _ | JobRequeuedError m
  | OtherException _ m => m
  | KeyError k => repr_str k
  | HTTPException status detail => str_of_Z status +:+ ": " +:+ detail
  | BaseExc _ => ""
  end.

Section Retry.
Context {W A : Type} (func : M W A) (sleep : Z → M W unit).

(** The loop of [retry.run] from attempt [i]; [n] attempts are left. *)
Fixpoint retry_loop (n : nat) (retry_interval : Z) : M W A :=
  match n with
  | O => m_raise (InternalException "")   (* not reached: the last attempt raises *)
  | S n' =>
      m_try func
        (λ e,
           if (n' =? 0)%nat then m_raise (InternalException (exn_str e))
           else let* _ := sleep retry_interval in retry_loop n' retry_interval)
  end.
(** [retry.run(func, retry_times, retry_interval)] once [func] is known. *)
Definition retry_checked (retry_times retry_interval : Z) : M W A :=
  if (retry_times <=? 0)%Z then m_raise (InternalException "invalid retry times")
  else if (retry_interval <? 0)%Z then m_raise (InternalException "invalid retry interval")
  else retry_loop (Z.to_nat retry_times) retry_interval.

(** The world in which attempt [k] starts, if all before it failed and were slept
    off. *)
Fixpoint attempt_world (retry_interval : Z) (k : nat) (w : W) : option W :=
  match k with
  | O => Some w
  | S k' =>
      match func w with
      | (Raise e, w1) =>
          if is_exception e then
            match sleep retry_interval w1 with
            | (Ret _, w2) => attempt_world retry_interval k' w2
            | _ => None
            end
          else None
      | _ => None
      end
  end.

(** How [retry.run] ends with the last attempt it makes. *)
Definition ends_with (last : bool) (r : outcome A * W) (w' : outcome A * W) : Prop :=
  match r with
  | (Ret a, w1) => w' = (Ret a, w1)
  | (Raise e, w1) =>
      if is_exception e then last = true ∧ w' = (Raise (InternalException (exn_str e)), w1)
      else w' = (Raise e, w1)
  end.

Lemma retry_loop_ends n i w :
  (∀ w, ∃ w', sleep i w = (Ret tt, w')) →
  ∃ k wk, (k < S n)%nat ∧ attempt_world i k w = Some wk
    ∧ ends_with (k =? n)%nat (func wk) (retry_loop (S n) i w).
Proof.
  intros Hs. revert w. induction n as [|n IH]; intros w.
  - exists 0%nat, w. split_and!; [lia | done |]. cbn [retry_loop]. unfold m_try, ends_with.
    destruct (func w) as [[a|e] w1]; [done |]. by destruct (is_exception e).
  - destruct (func w) as [[a|e] w1] eqn:Hf; [| destruct (is_exception e) eqn:He].
    + exists 0%nat, w. split_and!; [lia | done |]. rewrite Hf. cbn [ends_with retry_loop].
      unfold m_try. by rewrite Hf.
    + destruct (Hs w1) as [w2 Hw2]. destruct (IH w2) as (k & wk & Hk & Ha & He').
      exists (S k), wk. split_and!; [lia | cbn [attempt_world]; by rewrite Hf, He, Hw2 |].
      cbn [Nat.eqb]. cbn [retry_loop]. rewrite (try_raise_run _ _ _ _ _ Hf He). cbn [Nat.eqb].
      by rewrite (bind_ret_run _ _ _ _ _ Hw2).
    + exists 0%nat, w. split_and!; [lia | done |]. rewrite Hf. cbn [ends_with retry_loop].
      unfold m_try. by rewrite Hf, He.
Qed.

Lemma retry_loop_succeeds n i w a w' :
  (∃ k wk, (k < n)%nat ∧ attempt_world i k w = Some wk ∧ func wk = (Ret a, w')) →
  retry_loop n i w = (Ret a, w').
Proof.
  revert w. induction n as [|n IH]; intros w (k & wk & Hk & Ha & Hf); [lia |].
  cbn [retry_loop]. destruct k as [|k].
  - injection Ha as <-. by apply try_ret_run.
  - cbn [attempt_world] in Ha. destruct (func w) as [[b|e] w1] eqn:Hw; [done |].
    destruct (is_exception e) eqn:He; [| done].
    destruct (sleep i w1) as [[u|?] w2] eqn:Hs; [| done].
    rewrite (try_raise_run _ _ _ _ _ Hw He). destruct n as [|n]; [lia |]. cbn [Nat.eqb].
    rewrite (bind_ret_run _ _ _ _ _ Hs). apply IH. exists k, wk. split_and!; [lia | done | done].
Qed.
End Retry.

(** [retry.run(func, retry_times, retry_interval)]. *)
Definition retry_run {W A} (func : option (M W A)) (sleep : Z → M W unit)
    (retry_times retry_interval : Z) : M W A :=
  match func with
  | None => m_raise (InternalException "invalid function")
  | Some f => retry_checked f sleep retry_times retry_interval
  end.

(** C40: [retry.run] makes at least one and at most [retry_times] attempts, each
    after the previous one failed and was slept off, and ends with the last: its
    value, its [BaseException] as it is, or - when it was attempt number
    [retry_times] - an [InternalException] with its message.  If any of the
    first [retry_times] attempts would succeed, its value is the result.  Bad
    arguments are refused before anything runs. *)
Theorem retry_run_attempts {W A} (func : option (M W A)) (sleep : Z → M W unit)
    retry_times retry_interval w :
  (∀ i w, ∃ w', sleep i w = (Ret tt, w')) →
  match func with
  | None => retry_run func sleep retry_times retry_interval w
            = (Raise (InternalException "invalid function"), w)
  | Some f =>
      if (0 <? retry_times)%Z && (0 <=? retry_interval)%Z then
        (∃ k wk, (Z.of_nat k < retry_times)%Z
           ∧ attempt_world f sleep retry_interval k w = Some wk
           ∧ ends_with (Z.of_nat k =? retry_times - 1)%Z (f wk)
               (retry_run func sleep retry_times retry_interval w))
        ∧ (∀ k wk a w', (Z.of_nat k < retry_times)%Z →
             attempt_world f sleep retry_interval k w = Some wk → f wk = (Ret a, w') →
             retry_run func sleep retry_times retry_interval w = (Ret a, w'))
      else ∃ m, retry_run func sleep retry_times retry_interval w = (Raise (InternalException m), w)
  end.
Proof.
  intros Hs. destruct func as [f|]; [| done]. cbn [retry_run]. unfold retry_checked.
  destruct (Z.ltb_spec 0 retry_times) as [Ht|Ht]; cbn [andb].
  2: { rewrite (proj2 (Z.leb_le retry_times 0)) by lia. by eexists. }
  rewrite (proj2 (Z.leb_gt retry_times 0)) by lia.
  destruct (Z.leb_spec 0 retry_interval) as [Hi|Hi].
  2: { rewrite (proj2 (Z.ltb_lt _ _)) by lia. by eexists. }
  rewrite (proj2 (Z.ltb_ge retry_interval 0)) by lia. split.
  - destruct (retry_loop_ends f sleep (Nat.pred (Z.to_nat retry_times)) retry_interval w
      (Hs retry_interval)) as (k & wk & Hk & Ha & He).
    replace (Datatypes.S (Nat.pred (Z.to_nat retry_times))) with (Z.to_nat retry_times) in * by lia.
    exists k, wk. split_and!; [lia | done |].
    replace (Z.of_nat k =? retry_times - 1)%Z with (k =? Nat.pred (Z.to_nat retry_times))%nat;
      [done |]. destruct (Nat.eqb_spec k (Nat.pred (Z.to_nat retry_times)));
      destruct (Z.eqb_spec (Z.of_nat k) (retry_times - 1)); try done; lia.
  - intros k wk a w' Hk Ha Hf. apply retry_loop_succeeds. exists k, wk. split_and!; [lia | done | done].
Qed.

(** ** Named caches

    A [Cache] is an object: [objects] is the heap of those that were made, a cache
    is named by its position, and [_cache_store] is the set's dict. *)
Section CacheSet.
Context {C : Type} (Cache_init : Z → Z → C) (Cache_clear : C → C).

(** [Cache.default_cache_maxsize] and [Cache.default_cache_ttl]. *)
Definition default_cache_maxsize : Z := 128.
Definition default_cache_ttl : Z := 60.

Record CacheSet : Type := mkCacheSet { objects : list C; _cache_store : dict nat }.
Implicit Types (s : CacheSet).

(** [new_cache_set()]. *)
Definition new_cache_set (heap : list C) : CacheSet := mkCacheSet heap [].
(** [new_cache()]. *)
Definition new_cache : C := Cache_init default_cache_maxsize default_cache_ttl.
(** [CacheSet.new(name, maxsize, ttl)]. *)
Definition cacheset_new (name : string) (maxsize ttl : Z) : M CacheSet nat := λ s,
  match dict_get name (_cache_store s) with
  | Some existing => (Ret existing, s)
  | None =>
      let r := length (objects s) in
      (Ret r, mkCacheSet (objects s ++ [Cache_init maxsize ttl]) (dict_set name r (_cache_store s)))
  end.
(** [CacheSet.get(name)]. *)
Definition cacheset_get (name : string) : M CacheSet (option nat) :=
  m_get (λ s, dict_get name (_cache_store s)).
(** [CacheSet.clear()]; [clear_names] is its loop. *)
Fixpoint clear_names (store : dict nat) (names : list string) (os : list C) : list C :=
  match names with
  | [] => os
  | name :: names' =>
      clear_names store names'
        (match dict_get name store with Some r => alter Cache_clear r os | None => os end)
  end.
Definition cacheset_clear : M CacheSet unit :=
  m_modify (λ s, mkCacheSet
    (clear_names (_cache_store s) (dict_keys (_cache_store s)) (objects s)) []).

(** Different names have different caches, all of them made. *)
Record cacheset_wf s : Prop := {
  wf_refs : ∀ n r, dict_map (_cache_store s) !! n = Some r → (r < length (objects s))%nat;
  wf_inj : ∀ n1 n2 r, dict_map (_cache_store s) !! n1 = Some r →
    dict_map (_cache_store s) !! n2 = Some r → n1 = n2;
  wf_keys : NoDup (dict_keys (_cache_store s));
}.

Lemma new_cache_set_wf heap : cacheset_wf (new_cache_set heap).
Proof. split; cbn; [done.. | constructor]. Qed.

Lemma cacheset_new_wf name m t s : cacheset_wf s → cacheset_wf (cacheset_new name m t s).2.
Proof.
  intros [Hr Hi Hk]. unfold cacheset_new. destruct (dict_get name (_cache_store s)) as [r|] eqn:Hg;
    [done |]. split; cbn [objects _cache_store snd].
  - intros n r. rewrite dict_map_set, lookup_insert_Some, length_app. cbn.
    intros [[_ <-] | [_ H%Hr]]; lia.
  - intros n1 n2 r. rewrite dict_map_set, !lookup_insert_Some.
    intros [[<- <-] | [H1 Hn1]] [[H2 Hn2] | [H2 Hn2]]; try done.
    + apply Hr in Hn2. lia.
    + subst. apply Hr in Hn1. lia.
    + eauto.
  - by apply dict_set_NoDup.
Qed.

(** A name has one cache until the set is cleared: asking for it again, with
    whatever parameters, gives the same one and changes nothing. *)
Lemma cacheset_new_again name m t m' t' s r s1 :
  cacheset_new name m t s = (Ret r, s1) →
  cacheset_new name m' t' s1 = (Ret r, s1) ∧ cacheset_get name s1 = (Ret (Some r), s1).
Proof.
  unfold cacheset_new, cacheset_get, m_get. rewrite !dict_get_map.
  destruct (dict_map (_cache_store s) !! name) as [r'|] eqn:Hg.
  - intros [= <- <-]. rewrite ?dict_get_map. by rewrite Hg.
  - intros [= <- <-]. cbn [_cache_store]. rewrite ?dict_get_map, !dict_map_set. by rewrite !lookup_insert_eq.
Qed.

(** Only the first call for a name uses the parameters. *)
Lemma cacheset_new_first name m t s :
  dict_map (_cache_store s) !! name = None →
  ∃ s1, cacheset_new name m t s = (Ret (length (objects s)), s1)
    ∧ objects s1 = objects s ++ [Cache_init m t]
    ∧ ∀ n, n ≠ name → dict_map (_cache_store s1) !! n = dict_map (_cache_store s) !! n.
Proof.
  intros Hn. unfold cacheset_new. rewrite dict_get_map, Hn. eexists. split; [done |].
  split; [done |]. intros n Hne. cbn [_cache_store]. by rewrite dict_map_set, lookup_insert_ne.
Qed.

Lemma clear_names_lookup (store : dict nat) ks os (r : nat) :
  (∀ n1 n2 r, dict_map store !! n1 = Some r → dict_map store !! n2 = Some r → n1 = n2) →
  NoDup ks →
  clear_names store ks os !! r
  = (if bool_decide (Exists (λ n, dict_map store !! n = Some r) ks) then Cache_clear else id)
      <$> (os !! r).
Proof.
  intros Hi. revert os. induction ks as [|n ks IH]; intros os Hnd; cbn [clear_names].
  - rewrite bool_decide_eq_false_2 by (by intros ?%Exists_nil). by rewrite option_fmap_id.
  - apply NoDup_cons in Hnd as [Hn Hnd]. rewrite IH, dict_get_map by done.
    destruct (dict_map store !! n) as [r'|] eqn:Hg.
    + destruct (decide (r' = r)) as [->|Hr].
      * rewrite list_lookup_alter_eq.
        rewrite (bool_decide_eq_true_2 (Exists (λ n, dict_map store !! n = Some r) (n :: ks)))
          by (by left).
        rewrite bool_decide_eq_false_2; [by rewrite option_fmap_id |].
        intros (n' & Hin & Hn')%Exists_exists. by rewrite (Hi n n' r) in Hn.
      * rewrite list_lookup_alter_ne by done. f_equal. rewrite (bool_decide_ext _
          (Exists (λ n, dict_map store !! n = Some r) (n :: ks))); [done |].
        rewrite Exists_cons, Hg. split; [auto | intros [?|?]; congruence].
    + f_equal. rewrite (bool_decide_ext _
          (Exists (λ n, dict_map store !! n = Some r) (n :: ks))); [done |].
      rewrite Exists_cons, Hg. split; [auto | intros [?|?]; congruence].
Qed.

(** Clearing empties every cache of the set - a holder of one sees it empty -
    leaves all other caches alone, and forgets every name. *)
Lemma cacheset_clear_spec s :
  cacheset_wf s →
  let s' := (cacheset_clear s).2 in
  (∀ n r, dict_map (_cache_store s) !! n = Some r → objects s' !! r = Cache_clear <$> (objects s !! r))
  ∧ (∀ r, (∀ n, dict_map (_cache_store s) !! n ≠ Some r) → objects s' !! r = objects s !! r)
  ∧ ∀ n, cacheset_get n s' = (Ret None, s').
Proof.
  intros [Hr Hi Hk]. cbn. split_and!; [| | done].
  - intros n r Hn. rewrite clear_names_lookup by done. rewrite bool_decide_eq_true_2; [done |].
    apply Exists_exists. exists n. split; [| done]. unfold dict_keys.
    apply elem_of_list_to_map_2 in Hn. apply list_elem_of_fmap. by exists (n, r).
  - intros r Hn. rewrite clear_names_lookup by done. rewrite bool_decide_eq_false_2;
      [by rewrite option_fmap_id |]. intros (n & _ & H)%Exists_exists. by apply (Hn n).
Qed.
End CacheSet.

(** ** Options

    An option function receives the options object and may change it; contexts
    are named by references. *)
Section Options.
Context {Ctx : Type} (new_context : Ctx).

Record IOptions : Type := mkIOptions { opt_context : Ctx; opt_dryrun : bool }.

(** The loop of [options.new]. *)
Fixpoint apply_options (option_funcs : list (M IOptions unit)) : M IOptions unit :=
  match option_funcs with
  | [] => m_ret tt
  | func :: option_funcs' => let* _ := func in apply_options option_funcs'
  end.
(** [options.new(option_funcs)]: the object it returns, or what a function raised. *)
Definition options_new (option_funcs : option (list (M IOptions unit))) : outcome IOptions :=
  match apply_options (default [] option_funcs) (mkIOptions new_context false) with
  | (Ret _, opts) => Ret opts
  | (Raise e, _) => Raise e
  end.
(** [with_context(ctx)], [with_dryrun(is_dryrun)]. *)
Definition with_context (ctx : Ctx) : M IOptions unit :=
  m_modify (λ opts, mkIOptions ctx (opt_dryrun opts)).
Definition with_dryrun (is_dryrun : bool) : M IOptions unit :=
  m_modify (λ opts, mkIOptions (opt_context opts) is_dryrun).

Lemma apply_options_app fs gs opts :
  apply_options (fs ++ gs) opts =
    match apply_options fs opts with
    | (Ret _, opts') => apply_options gs opts'
    | (Raise e, opts') => (Raise e, opts')
    end.
Proof.
  revert opts. induction fs as [|f fs IH]; intros opts; [done |]. cbn [app apply_options].
  rewrite !bind_eq. destruct (f opts) as [[?|e] o1]; [apply IH | done].
Qed.
(** The last option of a kind wins, whatever came before it. *)
Lemma last_option_wins fs ctx b opts :
  options_new (Some fs) = Ret opts →
  options_new (Some (fs ++ [with_context ctx])) = Ret (mkIOptions ctx (opt_dryrun opts))
  ∧ options_new (Some (fs ++ [with_dryrun b])) = Ret (mkIOptions (opt_context opts) b).
Proof.
  unfold options_new. cbn [default]. unfold id. rewrite !apply_options_app.
  destruct (apply_options fs _) as [[?|e] o1]; [by intros [= ->] | done].
Qed.
End Options.

(** ** The module loader

    A loader function may itself register and load: it runs on the loader's
    world. *)
Definition ERROR_INVALID_MODULE_NAME : string := "invalid module name".
Definition ERROR_INVALID_LOADER : string := "invalid loader".
Definition ERROR_NOT_FOUND_MODULE : string := "not found module".

Section Loader.
Context {W F A : Type}.

Record Loader : Type := mkLoader { _module_loader_mapper : dict F; loader_env : W }.
Context (call : F → M Loader A).

(** [Loader.register(module_name, func)]. *)
Definition register (module_name : string) (func : option F) : M Loader unit := λ l,
  if negb (str_truthy module_name) then (Raise (InternalException ERROR_INVALID_MODULE_NAME), l)
  else match func with
       | None => (Raise (InternalException ERROR_INVALID_LOADER), l)
       | Some f =>
           match dict_get module_name (_module_loader_mapper l) with
           | Some _ => (Ret tt, l)
           | None =>
               (Ret tt, mkLoader (dict_set module_name f (_module_loader_mapper l)) (loader_env l))
           end
       end.
(** [Loader.load(module_name, func)]. *)
Definition load (module_name : string) (func : option F) : M Loader A := λ l,
  if negb (str_truthy module_name) then (Raise (InternalException ERROR_INVALID_MODULE_NAME), l)
  else
    let l1 := match func with Some _ => (register module_name func l).2 | None => l end in
    match dict_get module_name (_module_loader_mapper l1) with
    | None => (Raise (InternalException ERROR_NOT_FOUND_MODULE), l1)
    | Some f => call f l1
    end.

(** The first loader registered under a name is the one that runs: a later one
    is ignored, by [register] and by [load]. *)
Lemma load_runs_first name f0 func l :
  name ≠ "" → dict_map (_module_loader_mapper l) !! name = Some f0 →
  load name func l = call f0 l ∧ (register name func l).2 = l.
Proof.
  intros Hn Hf. apply str_truthy_true in Hn. unfold load, register. rewrite Hn. cbn [negb].
  rewrite <- dict_get_map in Hf. rewrite Hf. by destruct func; cbn [snd]; rewrite ?Hf.
Qed.
(** A new name is registered by [load] before it runs, and stays so. *)
Lemma load_registers name f l :
  name ≠ "" → dict_map (_module_loader_mapper l) !! name = None →
  load name (Some f) l = call f (register name (Some f) l).2
  ∧ load name None l = (Raise (InternalException ERROR_NOT_FOUND_MODULE), l)
  ∧ dict_map (_module_loader_mapper (register name (Some f) l).2)
    = <[name := f]> (dict_map (_module_loader_mapper l)).
Proof.
  intros Hn Hf. apply str_truthy_true in Hn. rewrite <- dict_get_map in Hf. unfold load, register.
  rewrite Hn, Hf. cbn [negb snd _module_loader_mapper].
  by rewrite dict_get_map, dict_map_set, lookup_insert_eq.
Qed.
End Loader.

(** ** Witnesses *)
Module UtilsExamples.
(** An operation that fails while its countdown is positive; sleeping takes note. *)
Definition flaky : M (Z * list Z) string := λ w,
  if (0 <? w.1)%Z then (Raise (RuntimeError "busy"), ((w.1 - 1)%Z, w.2)) else (Ret "ok", w).
Definition nap (n : Z) : M (Z * list Z) unit := λ w, (Ret tt, (w.1, w.2 ++ [n])).
Lemma nap_total i w : ∃ w', nap i w = (Ret tt, w').
Proof. by eexists. Qed.

Example retry_gives_up : retry_run (Some flaky) nap 3 5 (3%Z, [])
  = (Raise (InternalException "busy"), (0%Z, [5%Z; 5%Z])).
Proof. reflexivity. Qed.

Lemma retry_run_attempts_witness :
  retry_run (Some flaky) nap 3 5 (2%Z, []) = (Ret "ok", (0%Z, [5%Z; 5%Z])).
Proof.
  destruct (retry_run_attempts (Some flaky) nap 3 5 (2%Z, []) nap_total) as [_ H].
  apply (H 2%nat (0%Z, [5%Z; 5%Z])); reflexivity.
Defined.
End UtilsExamples.
