(* ===== verification/Connect.v ===== *)
(** * Connect: opening the databases

    [ping] and [close] of [src/pypepper/helper/db], [MongoJobStore.__init__] of
    [scheduler/store/mongodb.py], [SqlJobStore.__init__] and [_ensure_schema] of
    [scheduler/store/sql.py].  Drivers are third-party: what they do is a
    parameter, and [SqlSchemaLaws] what SQLAlchemy documents. *)
From S2P Require Import Prelude Dict Json PyValues DbUri Utils.

(** [sub in s]. *)
Definition contains (sub s : string) : bool :=
  match String.index 0 sub s with Some _ => true | None => false end.

(** [postgres.ping(engine)], [mysql.ping(engine)] on a connection, known by its
    [closed]. *)
Definition ping (engine : option bool) : outcome bool :=
  match engine with
  | None => Raise (ValueError "invalid engine")
  | Some closed => Ret (negb closed)
  end.

Definition mysql_ping : option bool → outcome bool := ping.

(** ** MongoDB *)
(** [mongodb.close()]: [disconnect_all] is mongoengine's. *)
Definition mongodb_close {W} (disconnect_all : M W unit) : M W unit := disconnect_all.
Section Mongo.
Context {W : Type} (disconnect : json → M W unit) (mongo_connect : string + Config → json → M W unit).
Definition _DEFAULT_ALIAS : string := "pypepper_scheduler_jobs".
(** Disconnecting an alias that is not connected is not an error. *)
Definition benign (exc : exn) : bool :=
  let log_msg := lower (exn_str exc) in
  contains "not been created" log_msg || contains "has not been defined" log_msg
  || contains "does not exist" log_msg && contains "alias" log_msg.
(** [MongoJobStore.__init__], giving its alias; the log lines are not kept. *)
Definition MongoJobStore_init (kwargs : dict json) : M W json :=
  let alias := kwarg_or kwargs "alias" (JStr _DEFAULT_ALIAS) in
  let* target := m_of_outcome (mongo_target kwargs) in
  let* _ := m_try (disconnect alias) (λ exc, if benign exc then m_ret tt else m_raise exc) in
  let* _ := mongo_connect target alias in
  m_ret alias.

(** A store is built exactly when its options are complete, the alias is free or
    could be freed, and the driver connects to what the options name. *)
Lemma MongoJobStore_init_cases kwargs w :
  let alias := kwarg_or kwargs "alias" (JStr _DEFAULT_ALIAS) in
  match mongo_target kwargs with
  | Raise e => MongoJobStore_init kwargs w = (Raise e, w)
  | Ret target =>
      let '(o, w1) := disconnect alias w in
      match o with
      | Raise e =>
          if is_exception e && benign e then
            MongoJobStore_init kwargs w = (let* _ := mongo_connect target alias in m_ret alias) w1
          else MongoJobStore_init kwargs w = (Raise e, w1)
      | Ret _ => MongoJobStore_init kwargs w = (let* _ := mongo_connect target alias in m_ret alias) w1
      end
  end.
Proof.
  cbv zeta. unfold MongoJobStore_init. rewrite bind_eq. unfold m_of_outcome.
  destruct (mongo_target kwargs) as [target|e]; [| done]. rewrite bind_eq. unfold m_try.
  destruct (disconnect _ w) as [[[]|e] w1]; [done |].
  destruct (is_exception e); cbn [andb]; [| done]. by destruct (benign e).
Qed.
End Mongo.

(** ** SQL *)
Definition TABLE_NAME : string := "scheduler_jobs".
(** The columns of [scheduler_jobs]. *)
Definition table_columns : list string :=
  ["id"; "category"; "channel_id"; "status"; "created"; "updated"; "workflow_count"; "version"; "payload"].

(** An engine: the columns of each of its tables, and SQLAlchemy's calls on it. *)
Class SqlSchema (W : Type) : Type := {
  tables : W → gmap string (list string);
  create_all : M W unit;                        (** [_metadata.create_all(engine)] *)
  get_table_names : M W (list string);
  get_columns : string → M W (list string);
  add_column : string → string → M W unit;      (** [ALTER TABLE t ADD COLUMN c TEXT] *)
}.
(** [create_all] makes the tables that are missing, and changes no other. *)
Class SqlSchemaLaws (W : Type) `{!SqlSchema W} : Prop := {
  create_all_law : ∀ w w', create_all w = (Ret tt, w') →
    tables w' = match tables w !! TABLE_NAME with
                | Some _ => tables w
                | None => <[TABLE_NAME := table_columns]> (tables w)
                end;
  get_table_names_law : ∀ w l w', get_table_names w = (Ret l, w') →
    tables w' = tables w ∧ ∀ t, t ∈ l ↔ is_Some (tables w !! t);
  get_columns_law : ∀ t w l w', get_columns t w = (Ret l, w') →
    tables w' = tables w ∧ tables w !! t = Some l;
  add_column_law : ∀ t c w w', add_column t c w = (Ret tt, w') →
    tables w' = alter (λ cols, cols ++ [c]) t (tables w);
}.

Section Schema.
Context {W : Type} `{!SqlSchema W}.
(** [_ensure_schema(engine)]. *)
Definition _ensure_schema : M W unit :=
  let* _ := create_all in
  let* tables := get_table_names in
  if negb (bool_decide (TABLE_NAME ∈ tables)) then m_ret tt
  else
    let* names := get_columns TABLE_NAME in
    if bool_decide ("payload" ∈ names) then m_ret tt
    else add_column TABLE_NAME "payload".
(** [SqlJobStore.__init__]: the URL of the engine it made. *)
Definition SqlJobStore_init (create_engine : string → M W unit) (backend : string) (kwargs : dict json) : M W string :=
  let* url := m_of_outcome (_engine_from_config backend kwargs) in
  let* _ := create_engine url in
  let* _ := _ensure_schema in
  m_ret url.

Context `{!SqlSchemaLaws W}.
(** After it the table has a payload column: one it had, one it was created with,
    or one added to the columns of an older table, which all stay; other tables
    are as they were, and once is as good as twice. *)
Lemma ensure_schema_migrates w w' :
  _ensure_schema w = (Ret tt, w') →
  ∃ cols, tables w' !! TABLE_NAME = Some cols ∧ "payload" ∈ cols
    ∧ tables w' = <[TABLE_NAME := cols]> (tables w)
    ∧ cols = match tables w !! TABLE_NAME with
             | None => table_columns
             | Some old => if bool_decide ("payload" ∈ old) then old else old ++ ["payload"]
             end.
Proof.
  unfold _ensure_schema. intros ([] & w1 & H1 & H)%bind_ret_inv. apply create_all_law in H1.
  apply bind_ret_inv in H as (l & w2 & H2 & H). apply get_table_names_law in H2 as [E2 Hl].
  assert (∃ old, tables w1 !! TABLE_NAME = Some old
    ∧ tables w1 = <[TABLE_NAME := old]> (tables w)
    ∧ old = default table_columns (tables w !! TABLE_NAME)) as (old & Hold & Hw1 & Eold).
  { rewrite H1. destruct (tables w !! TABLE_NAME) as [old|] eqn:E; eexists.
    - rewrite E. split; [done |]. split; [| done]. by rewrite insert_id.
    - rewrite lookup_insert_eq. by split_and!. }
  rewrite bool_decide_eq_true_2 in H by (apply Hl; by eexists). cbn [negb] in H.
  apply bind_ret_inv in H as (names & w3 & H3 & H). apply get_columns_law in H3 as [E3 Hn].
  rewrite E2, Hold in Hn. injection Hn as <-.
  assert (match tables w !! TABLE_NAME with
          | None => table_columns
          | Some old => if bool_decide ("payload" ∈ old) then old else old ++ ["payload"]
          end = if bool_decide ("payload" ∈ old) then old else old ++ ["payload"]) as ->.
  { destruct (tables w !! TABLE_NAME); cbn in Eold; by subst. }
  destruct (bool_decide ("payload" ∈ old)) eqn:Hp.
  - injection H as <-. exists old. rewrite E3, E2. split_and!; try done. by apply bool_decide_eq_true in Hp.
  - apply add_column_law in H. exists (old ++ ["payload"]).
    assert (tables w' = <[TABLE_NAME := old ++ ["payload"]]> (tables w)) as ->.
    { rewrite H, E3, E2, Hw1. apply map_eq. intros t. destruct (decide (t = TABLE_NAME)) as [->|Ht].
      - by rewrite lookup_alter_eq, !lookup_insert_eq.
      - by rewrite lookup_alter_ne, !lookup_insert_ne. }
    rewrite lookup_insert_eq. split_and!; try done. apply elem_of_app. right. by left.
Qed.
End Schema.

(** A database whose table is older than payloads. *)
Module ConnectExamples.
Definition database : Type := gmap string (list string).
#[local] Instance database_schema : SqlSchema database := {
  tables d := d;
  create_all d := (Ret tt, match d !! TABLE_NAME with Some _ => d | None => <[TABLE_NAME := table_columns]> d end);
  get_table_names d := (Ret (map fst (map_to_list d)), d);
  get_columns t d := (match d !! t with Some l => Ret l | None => Raise (OtherException "NoSuchTableError" t) end, d);
  add_column t c d := (Ret tt, alter (λ cols, cols ++ [c]) t d);
}.
#[local] Instance database_laws : SqlSchemaLaws database.
Proof.
  split.
  - by intros d d' [= <-].
  - intros d l d' [= <- <-]. split; [done |]. intros t. cbn. rewrite list_elem_of_fmap. split.
    + intros ([k v] & -> & Hkv%elem_of_map_to_list). by eexists.
    + intros [v Hv]. exists (t, v). split; [done |]. by apply elem_of_map_to_list.
  - intros t d l d' H. cbn in H. destruct (d !! t) as [l'|] eqn:E; [| done]. injection H as <- <-. by split.
  - by intros t c d d' [= <-].
Qed.
Example migrate_ex :
  (_ensure_schema ({[ TABLE_NAME := ["id"; "status"] ]} : database)).2 = {[ TABLE_NAME := ["id"; "status"; "payload"] ]}.
Proof. vm_compute. reflexivity. Qed.
Example benign_ex :
  benign (OtherException "ConnectionFailure" "Connection with alias x does not exist") = true
  ∧ benign (OtherException "ConnectionFailure" "alias") = false.
Proof. by vm_compute. Qed.
End ConnectExamples.
