(* ===== verification/Http.v ===== *)
(** * Http: the server's start, its middleware, handlers and tracing set-up

    [src/pypepper/network/http] outside [sse], [common/tracing].  FastAPI, uvicorn
    and OpenTelemetry are third-party: an application is what the program
    registers on it, a span what the program sets on it, and starting the server
    is a parameter that receives its options. *)
From S2P Require Import Prelude Dict Json PyValues Context SseEvent SseHub Utils.

(** ** Responses, [response.py] *)
Record Response : Type := mkResponse {
  status_code : Z;
  resp_headers : dict string;
  body : json;
}.
Definition JSONResponse (status : Z) (content : json) : Response := mkResponse status [] content.
Definition opt_json (o : option string) : json := match o with Some s => JStr s | None => JNull end.
(** [build_response(code, data, msg, status_code)]. *)
Definition build_response (code : string) (data : json) (msg : option string) (status : Z) : Response :=
  JSONResponse status (JObj [("code", JStr code); ("msg", opt_json msg); ("data", data)]).
(** [bad_request(code)], [not_found(code)]. *)
Definition bad_request (code : string) : Response :=
  JSONResponse 400 (JObj [("code", JStr code); ("msg", JStr "Bad request")]).
Definition not_found (code : string) : Response :=
  JSONResponse 404 (JObj [("code", JStr code); ("msg", JStr "Not found")]).
(** [error(e, code)]. *)
Definition error (e : exn) (code : option string) : Response :=
  JSONResponse 500 (JObj [("code", opt_json code); ("msg", JStr (exn_str e))]).

(** ** Handlers, [handlers/base.py]; [version_info] and [uptime] are read elsewhere *)
Definition health (version_info : json) : Response := build_response "200" version_info (Some "OK") 200.
Definition ping : string := "pong".
Definition stat (stats : dict json) (key : string) : json := default (JInt 0) (dict_get key stats).
Definition metrics (uptime version_info : json) (stats : dict json) : Response :=
  build_response "200"
    (JObj [("uptime_seconds", uptime); ("version", version_info);
           ("sse", JObj [("total_connections", stat stats "total_connections");
                         ("active_connections", stat stats "active_connections");
                         ("total_dropped_events", stat stats "total_dropped_events")])])
    (Some "OK") 200.

(** ** Applications, [handlers/handlers.py] *)
Inductive handler : Type := Health | Ping | Metrics | PrivateHandler (n : nat).
Inductive middleware : Type := RequestId | Tracing | PrivateMiddleware (n : nat).
(** The HTTP methods the program's routes have. *)
Inductive verb : Type := GET | POST.
(** [middlewares] in the order they were added; [native_tracing] is FastAPI's own. *)
Record FastAPI : Type := mkApp {
  routes : list (verb * string * handler);
  middlewares : list middleware;
  native_tracing : bool;
}.
Definition FastAPI_new (native : bool) : FastAPI := mkApp [] [] native.
(** [app.get(path)(h)], [app.post(path)(h)]. *)
Definition add_route (v : verb) (path : string) (h : handler) : M FastAPI unit :=
  m_modify (λ a, mkApp (routes a ++ [(v, path, h)]) (middlewares a) (native_tracing a)).
Definition add_middleware (m : middleware) : M FastAPI unit :=
  m_modify (λ a, mkApp (routes a) (middlewares a ++ [m]) (native_tracing a)).

(** [ITaskHandler]. *)
Record ITaskHandler : Type := mkTaskHandler {
  private_register : M FastAPI unit;
  private_use : M FastAPI unit;
}.

Definition _register_health_check : M FastAPI unit :=
  let* _ := add_route GET "/health" Health in add_route GET "/ping" Ping.
Definition _register_metrics_check : M FastAPI unit := add_route GET "/metrics" Metrics.
(** [_disable_fastapi_server_spans(app)]. *)
Definition _disable_fastapi_server_spans : M FastAPI unit :=
  m_modify (λ a, mkApp (routes a) (middlewares a) false).
Definition _use_default_middleware : M FastAPI unit :=
  let* _ := _disable_fastapi_server_spans in
  let* _ := add_middleware RequestId in
  add_middleware Tracing.
(** [register_handlers(app, private_handlers)], [use_middleware(app, private_handlers)]. *)
Definition register_handlers (private_handlers : option ITaskHandler) : M FastAPI unit :=
  let* _ := (let* _ := _register_health_check in _register_metrics_check) in
  match private_handlers with Some h => private_register h | None => m_ret tt end.
Definition use_middleware (private_handlers : option ITaskHandler) : M FastAPI unit :=
  let* _ := _use_default_middleware in
  match private_handlers with Some h => private_use h | None => m_ret tt end.
(** [server.create_app(handlers_)]. *)
Definition create_app (native : bool) (handlers_ : option ITaskHandler) : outcome FastAPI :=
  match (let* _ := register_handlers handlers_ in use_middleware handlers_) (FastAPI_new native) with
  | (Ret _, a) => Ret a
  | (Raise e, _) => Raise e
  end.

(** ** Middleware: [RequestIdMiddleware] and [TracingMiddleware] on one request

    [state_request_id] is [request.state.request_id], which both see; a span is
    what was set on it when it ended. *)
Record Request : Type := mkRequest {
  method : string;
  scheme : string;
  path : string;
  query : string;
  x_request_id : option string;
}.
Record Span : Type := mkSpan {
  span_name : string;
  attributes : dict json;
  status_error : option string;       (** the description of an error status *)
  exceptions : list exn;
}.
Record Exchange (W : Type) : Type := mkExchange {
  state_request_id : option string;
  spans : list Span;
  env : W;
}.
Arguments mkExchange {W}. Arguments state_request_id {W}. Arguments spans {W}. Arguments env {W}.

Section Middleware.
Context {W : Type} (new_uuid : M W string).
Abbreviation MX := (M (Exchange W)).
Implicit Types (call_next : MX Response).

Definition on_env {A} (m : M W A) : MX A :=
  λ x, let '(o, w) := m (env x) in (o, mkExchange (state_request_id x) (spans x) w).
Definition set_request_id (id : string) : MX unit :=
  m_modify (λ x, mkExchange (Some id) (spans x) (env x)).
Definition end_span (s : Span) : MX unit :=
  m_modify (λ x, mkExchange (state_request_id x) (spans x ++ [s]) (env x)).

(** [RequestIdMiddleware.dispatch(request, call_next)]. *)
Definition request_id_dispatch (request : Request) (call_next : MX Response) : MX Response :=
  let* req_id := (match x_request_id request with
                  | Some id => if str_truthy id then m_ret id else on_env new_uuid
                  | None => on_env new_uuid
                  end) in
  let* _ := set_request_id req_id in
  let* response := call_next in
  m_ret (mkResponse (status_code response)
           (dict_set "X-Request-ID" req_id (resp_headers response)) (body response)).

(** [TracingMiddleware.dispatch(request, call_next)]. *)
Definition request_attributes (request : Request) : dict json :=
  [("http.method", JStr (method request)); ("http.scheme", JStr (scheme request));
   ("url.path", JStr (path request))]
  ++ if str_truthy (query request) then [("url.query", JStr (query request))] else [].
Definition tracing_dispatch (request : Request) (call_next : MX Response) : MX Response :=
  let span_name := method request +:+ " " +:+ path request in
  let attrs := request_attributes request in
  let* response := m_except (λ _, true) call_next
    (λ exc, let* _ := end_span
              (if is_exception exc then mkSpan span_name attrs (Some (exn_str exc)) [exc]
               else mkSpan span_name attrs None []) in
            m_raise exc) in
  let* req_id := m_get state_request_id in
  let attrs := attrs ++ match req_id with Some id => [("request_id", JStr id)] | None => [] end in
  let attrs := attrs ++ [("http.status_code", JInt (status_code response))] in
  let* _ := end_span (mkSpan span_name attrs
                        (if (500 <=? status_code response)%Z then Some "" else None) []) in
  m_ret response.

(** The middlewares of an application: the last added runs first. *)
Fixpoint through (custom : nat → Request → MX Response → MX Response) (added : list middleware)
    (request : Request) (call_next : MX Response) : MX Response :=
  match added with
  | [] => call_next
  | RequestId :: rest => through custom rest request (request_id_dispatch request call_next)
  | Tracing :: rest => through custom rest request (tracing_dispatch request call_next)
  | PrivateMiddleware n :: rest => through custom rest request (custom n request call_next)
  end.
End Middleware.
#[global] Arguments through {W}.

(** ** Starting the server, [server.py] *)
Record UvicornOptions : Type := mkOptions {
  host : json;
  port : json;
  timeout_keep_alive : Z;
  ssl_certfile : option json;
  ssl_keyfile : option json;
  ssl_ca_certs : option json;
  ssl_cert_required : bool;      (** [ssl_cert_reqs = ssl.CERT_REQUIRED] was given *)
}.

Section Server.
Context {W : Type} (uvicorn_run : FastAPI → UvicornOptions → M W unit) (native : bool).
(** What reading an attribute raises that the document does not have. *)
Context (no_attribute : json → string → exn).

(** [x.name] and [getattr(x, name, None)]. *)
Definition field (x : json) (name : string) : outcome json :=
  match x with
  | JObj l => match dict_get name l with Some v => Ret v | None => Raise (no_attribute x name) end
  | _ => Raise (no_attribute x name)
  end.
Definition field_or_none (x : json) (name : string) : json :=
  match field x name with Ret v => v | Raise _ => JNull end.

(** [run_without_tls(port, handlers_, host)]. *)
Definition run_without_tls (port : json) (handlers_ : option ITaskHandler) (host : json) : M W unit :=
  let* application := m_of_outcome (create_app native handlers_) in
  uvicorn_run application (mkOptions host port 30 None None None false).
(** [run_with_tls(port, handlers_, host)]. *)
Definition run_with_tls (yml : json) (port : json) (handlers_ : option ITaskHandler) (host : json) : M W unit :=
  let* network_conf := m_of_outcome (field yml "network") in
  let* https := m_of_outcome (field network_conf "httpsServer") in
  let cert_file := py_or (Some (field_or_none https "certFile")) (JStr "") in
  let key_file := py_or (Some (field_or_none https "keyFile")) (JStr "") in
  let ca_file := py_or (Some (field_or_none https "caFile")) (JStr "") in
  if negb (py_truthy cert_file) || negb (py_truthy key_file) then
    m_raise (ValueError "HTTPS enabled but certFile/keyFile missing in network.httpsServer config")
  else
    let mutual_tls := py_truthy (field_or_none https "mutualTLS") in
    if mutual_tls && negb (py_truthy ca_file) then
      m_raise (ValueError "HTTPS mutualTLS enabled but caFile missing in network.httpsServer config")
    else
      let* application := m_of_outcome (create_app native handlers_) in
      uvicorn_run application
        (mkOptions host port 30 (Some cert_file) (Some key_file)
           (if mutual_tls then Some ca_file else None) mutual_tls).

Definition enabled (network_conf : json) (server : string) : outcome bool :=
  match field network_conf server with
  | Ret s => match field s "enable" with Ret e => Ret (py_truthy e) | Raise e => Raise e end
  | Raise e => Raise e
  end.
Definition port_of (network_conf : json) (server : string) : outcome json :=
  match field network_conf server with Ret s => field s "port" | Raise e => Raise e end.
(** [run(handlers_)]. *)
Definition run (yml : json) (handlers_ : option ITaskHandler) : M W unit :=
  let* network_conf := m_of_outcome (field yml "network") in
  let host := py_or (Some (field_or_none network_conf "ip")) (JStr "0.0.0.0") in
  let* http := m_of_outcome (enabled network_conf "httpServer") in
  let* both := (if (http : bool) then m_of_outcome (enabled network_conf "httpsServer") else m_ret false) in
  if (both : bool) then
    m_raise (RuntimeError "Both httpServer and httpsServer are enabled; enable only one")
  else if http then
    let* port := m_of_outcome (port_of network_conf "httpServer") in
    run_without_tls port handlers_ host
  else
    let* https := m_of_outcome (enabled network_conf "httpsServer") in
    if (https : bool) then
      let* port := m_of_outcome (port_of network_conf "httpsServer") in
      run_with_tls yml port handlers_ host
    else m_raise (RuntimeError "Neither httpServer nor httpsServer is enabled in config").
End Server.

(** ** Tracing set-up, [tracing/setup.py] *)
Record TracerProvider : Type := mkProvider {
  service_name : json;
  console : bool;
  otlp_endpoint : option string;
}.
(** [installed] is the process's provider; [None] is the no-op one. *)
Record TracingState : Type := mkTracing {
  _provider : option TracerProvider;
  installed : option TracerProvider;
  flushed : list TracerProvider;      (** shut down, in order *)
  _atexit_registered : bool;
}.
(** [shutdown()]. *)
Definition tracing_shutdown : M TracingState unit :=
  m_modify (λ t, mkTracing None None
    (flushed t ++ option_list (_provider t)) (_atexit_registered t)).
(** [endpoint.rstrip("/")] and the path of traces. *)
Fixpoint rstrip_slash (s : string) : string :=
  match s with
  | "" => ""
  | String c s' =>
      match rstrip_slash s' with
      | "" => if Ascii.eqb c "/" then "" else String c ""
      | t => String c t
      end
  end.
Definition ends_with_str (suffix s : string) : bool :=
  (String.length suffix <=? String.length s)%nat
  && String.eqb (String.substring (String.length s - String.length suffix) (String.length suffix) s) suffix.
Definition traces_endpoint (otlp_endpoint : json) : string :=
  let endpoint := rstrip_slash (py_str otlp_endpoint) in
  if ends_with_str "/v1/traces" endpoint then endpoint else endpoint +:+ "/v1/traces".

(** [getattr(x, name, None)] on a document, [hasattr]. *)
Definition get_attr (x : json) (name : string) : json :=
  match x with JObj l => default JNull (dict_get name l) | _ => JNull end.
Definition has_attr (x : json) (name : string) : bool :=
  match x with JObj l => match dict_get name l with Some _ => true | None => false end | _ => false end.
Definition is_null (x : json) : bool := match x with JNull => true | _ => false end.

(** The provider a configuration asks for. *)
Definition configured_provider (yml : json) : option TracerProvider :=
  let cfg := get_attr yml "tracing" in
  if negb (py_truthy (get_attr cfg "enabled")) then None
  else
    let name := get_attr cfg "serviceName" in
    let name := if negb (py_truthy name) && has_attr yml "serviceInfo"
                then get_attr (get_attr yml "serviceInfo") "serviceName" else name in
    let name := if py_truthy name then name else JStr "pypepper" in
    let console := py_truthy (get_attr cfg "console") in
    let otlp_cfg := get_attr cfg "otlp" in
    let otlp_enabled := py_truthy (get_attr otlp_cfg "enabled") in
    let endpoint := py_or (Some (get_attr otlp_cfg "endpoint")) (JStr "http://127.0.0.1:4318") in
    if negb console && negb otlp_enabled then None
    else Some (mkProvider name console (if otlp_enabled then Some (traces_endpoint endpoint) else None)).
(** [setup_from_config(yml_config)]. *)
Definition setup_from_config (yml_config : json) : M TracingState unit :=
  let* _ := tracing_shutdown in
  match configured_provider yml_config with
  | None => m_ret tt
  | Some provider => m_modify (λ t, mkTracing (Some provider) (Some provider) (flushed t) true)
  end.

(** [setup_for_tests(exporter, service_name)]; the exporter is the caller's. *)
Definition setup_for_tests (service_name : string) : M TracingState TracerProvider :=
  let* _ := tracing_shutdown in
  let provider := mkProvider (JStr service_name) false None in
  let* _ := m_modify (λ t, mkTracing (Some provider) (Some provider) (flushed t) (_atexit_registered t)) in
  m_ret provider.

(** ** What the server does with its configuration

    [serves yml opts]: the configuration asks for a server with these options.
    Exactly one protocol is enabled; TLS has a certificate and a key; mutual TLS
    has an authority and requires the client's certificate. *)
Section ServerSpec.
Context {W : Type} (uvicorn_run : FastAPI → UvicornOptions → M W unit) (native : bool).
Context (no_attribute : json → string → exn).
Abbreviation fld := (field no_attribute).
Abbreviation opt_fld := (field_or_none no_attribute).
Definition host_of (network_conf : json) : json :=
  py_or (Some (opt_fld network_conf "ip")) (JStr "0.0.0.0").

Inductive serves (yml : json) : UvicornOptions → Prop :=
| serves_plain net port :
    fld yml "network" = Ret net →
    enabled no_attribute net "httpServer" = Ret true →
    enabled no_attribute net "httpsServer" = Ret false →
    port_of no_attribute net "httpServer" = Ret port →
    serves yml (mkOptions (host_of net) port 30 None None None false)
| serves_tls net https port (mutual : bool) :
    fld yml "network" = Ret net →
    enabled no_attribute net "httpServer" = Ret false →
    enabled no_attribute net "httpsServer" = Ret true →
    port_of no_attribute net "httpsServer" = Ret port →
    fld net "httpsServer" = Ret https →
    py_truthy (opt_fld https "certFile") = true → py_truthy (opt_fld https "keyFile") = true →
    py_truthy (opt_fld https "mutualTLS") = mutual →
    (mutual = true → py_truthy (opt_fld https "caFile") = true) →
    serves yml (mkOptions (host_of net) port 30
      (Some (opt_fld https "certFile")) (Some (opt_fld https "keyFile"))
      (if mutual then Some (opt_fld https "caFile") else None) mutual).

Lemma py_or_truthy x d : py_truthy d = false → py_truthy (py_or (Some x) d) = py_truthy x.
Proof. intros Hd. cbn. by destruct (py_truthy x) eqn:Hx. Qed.
Lemma py_or_true x d : py_truthy x = true → py_or (Some x) d = x.
Proof. intros H. cbn. by rewrite H. Qed.

Definition serve (handlers_ : option ITaskHandler) (opts : UvicornOptions) : M W unit :=
  let* application := m_of_outcome (create_app native handlers_) in uvicorn_run application opts.

Lemma run_with_tls_cases yml net https port handlers_ host w :
  fld yml "network" = Ret net → fld net "httpsServer" = Ret https →
  let ok := py_truthy (opt_fld https "certFile") && py_truthy (opt_fld https "keyFile")
            && (negb (py_truthy (opt_fld https "mutualTLS")) || py_truthy (opt_fld https "caFile")) in
  (ok = true →
    run_with_tls uvicorn_run native no_attribute yml port handlers_ host w
    = serve handlers_ (mkOptions host port 30
        (Some (opt_fld https "certFile")) (Some (opt_fld https "keyFile"))
        (if py_truthy (opt_fld https "mutualTLS") then Some (opt_fld https "caFile") else None)
        (py_truthy (opt_fld https "mutualTLS"))) w)
  ∧ (ok = false → ∃ m, run_with_tls uvicorn_run native no_attribute yml port handlers_ host w
                        = (Raise (ValueError m), w)).
Proof.
  intros Hn Hs. unfold run_with_tls. rewrite Hn. rewrite bind_eq. cbn [m_of_outcome]. rewrite Hs.
  rewrite bind_eq. cbn [m_of_outcome]. rewrite !py_or_truthy by done.
  destruct (py_truthy (opt_fld https "certFile")) eqn:Hc; [| split; [done | by eexists]].
  destruct (py_truthy (opt_fld https "keyFile")) eqn:Hk; [| split; [done | by eexists]].
  rewrite !(py_or_true (opt_fld https "certFile")), !(py_or_true (opt_fld https "keyFile")) by done.
  destruct (py_truthy (opt_fld https "mutualTLS")); cbn [andb negb orb]; [| split; [done | done]].
  destruct (py_truthy (opt_fld https "caFile")) eqn:Ha; cbn [negb]; [| split; [done | by eexists]].
  split; [| done]. intros _. by rewrite py_or_true.
Qed.

(** Every configuration is served or refused. *)
Lemma run_cases yml handlers_ (w : W) :
  (∃ opts, serves yml opts ∧ run uvicorn_run native no_attribute yml handlers_ w = serve handlers_ opts w)
  ∨ (∀ opts, ¬ serves yml opts) ∧ ∃ e, run uvicorn_run native no_attribute yml handlers_ w = (Raise e, w).
Proof.
  assert (∀ (r : outcome unit * W) e, r = (Raise e, w) → (∀ opts, ¬ serves yml opts) →
    (∃ opts, serves yml opts ∧ r = serve handlers_ opts w)
    ∨ (∀ opts, ¬ serves yml opts) ∧ ∃ e, r = (Raise e, w)) as Hno by (intros r e ->; right; eauto).
  unfold run. rewrite bind_eq. destruct (fld yml "network") as [net|e] eqn:Hn; cbn [m_of_outcome].
  2:{ eapply Hno; [done |]. intros opts []; congruence. }
  rewrite bind_eq. destruct (enabled no_attribute net "httpServer") as [[]|e] eqn:Hp; cbn [m_of_outcome].
  3:{ eapply Hno; [done |]. intros opts []; congruence. }
  - rewrite bind_eq. destruct (enabled no_attribute net "httpsServer") as [[]|e] eqn:Hs; cbn [m_of_outcome];
      [by eapply Hno; [done | intros opts []; congruence] | | by eapply Hno; [done | intros opts []; congruence]].
    rewrite bind_eq. destruct (port_of no_attribute net "httpServer") as [port|e] eqn:Hport; cbn [m_of_outcome].
    2:{ eapply Hno; [done |]. intros opts []; congruence. }
    left. eexists. split; [by eapply serves_plain | done].
  - rewrite bind_eq. cbn [m_ret]. rewrite bind_eq.
    destruct (enabled no_attribute net "httpsServer") as [[]|e] eqn:Hs; cbn [m_of_outcome];
      [| by eapply Hno; [done | intros opts []; congruence] ..].
    rewrite bind_eq. destruct (port_of no_attribute net "httpsServer") as [port|e] eqn:Hport; cbn [m_of_outcome].
    2:{ eapply Hno; [done |]. intros opts []; congruence. }
    destruct (fld net "httpsServer") as [https|e] eqn:Hh.
    2: { unfold port_of in Hport. by rewrite Hh in Hport. }
    destruct (run_with_tls_cases yml net https port handlers_ (host_of net) w Hn Hh) as [Hyes Hbad].
    destruct (py_truthy (opt_fld https "certFile")) eqn:Hc, (py_truthy (opt_fld https "keyFile")) eqn:Hk,
      (negb (py_truthy (opt_fld https "mutualTLS")) || py_truthy (opt_fld https "caFile")) eqn:Hm;
      try (destruct (Hbad eq_refl) as [m E]; eapply Hno; [exact E |];
           intros opts [| net' https' port' mutual Hn' _ _ _ Hh' Hc' Hk' Hm' Ha']; [congruence |];
           assert (net' = net) as -> by congruence; assert (https' = https) as -> by congruence;
           subst mutual; destruct (py_truthy (opt_fld https "mutualTLS")); cbn in Hm; [specialize (Ha' eq_refl) |]; congruence).
    left. eexists. split; [| by apply Hyes].
    eapply serves_tls; try eassumption; [reflexivity |]. intros Hmu. by rewrite Hmu in Hm.
Qed.

(** What is asked for is served. *)
Lemma run_serves yml opts handlers_ (w : W) :
  serves yml opts → run uvicorn_run native no_attribute yml handlers_ w = serve handlers_ opts w.
Proof.
  intros [net port Hn Hp Hs Hport | net https port mutual Hn Hp Hs Hport Hh Hc Hk Hm Ha];
    unfold run; do 2 (rewrite ?Hn, ?Hp, bind_eq; cbn [m_of_outcome]).
  + rewrite Hs. do 1 (rewrite bind_eq; cbn [m_of_outcome]). rewrite Hport, bind_eq. done.
  + rewrite bind_eq. cbn [m_ret]. rewrite Hs, bind_eq. cbn [m_of_outcome].
    rewrite Hport, bind_eq. cbn [m_of_outcome].
    destruct (run_with_tls_cases yml net https port handlers_ (host_of net) w Hn Hh) as [H _].
    rewrite Hc, Hk, Hm in H. apply H. destruct mutual; cbn; [by apply Ha | done].
Qed.

(** The server that is started is the one the configuration asks for.  When
    it asks for one - plain HTTP or TLS, not both, mutual TLS only with an
    authority and with client certificates required - [run] builds the
    application and hands it to uvicorn with exactly those options; when it asks
    for none, [run] raises and nothing is started. *)
Theorem server_starts_as_configured yml handlers_ (w : W) :
  (∀ opts, serves yml opts →
     run uvicorn_run native no_attribute yml handlers_ w = serve handlers_ opts w)
  ∧ ((∀ opts, ¬ serves yml opts) →
     ∃ e, run uvicorn_run native no_attribute yml handlers_ w = (Raise e, w)).
Proof.
  split; [intros opts; apply run_serves |].
  intros Hno. destruct (run_cases yml handlers_ w) as [(opts & Hs & _)|[_ H]]; [by destruct (Hno opts) | done].
Qed.
End ServerSpec.

(** ** What a request leaves behind *)
Section RequestSpec.
Context {W : Type} (new_uuid : M W string) (custom : nat → Request → M (Exchange W) Response → M (Exchange W) Response).

(** The application without private handlers: request ids inside the span. *)
Lemma default_app native :
  create_app native None =
    Ret (mkApp [(GET, "/health", Health); (GET, "/ping", Ping); (GET, "/metrics", Metrics)] [RequestId; Tracing] false).
Proof. reflexivity. Qed.

(** The id a request runs under: the client's, or a new one. *)
Definition request_id (request : Request) (x : Exchange W) (id : string) (x1 : Exchange W) : Prop :=
  match x_request_id request with
  | Some i => if str_truthy i then id = i ∧ x1 = x
              else ∃ w1, new_uuid (env x) = (Ret id, w1)
                         ∧ x1 = mkExchange (state_request_id x) (spans x) w1
  | None => ∃ w1, new_uuid (env x) = (Ret id, w1)
                  ∧ x1 = mkExchange (state_request_id x) (spans x) w1
  end.

Lemma request_id_dispatch_eq request call_next x id x1 :
  request_id request x id x1 →
  request_id_dispatch new_uuid request call_next x =
    match call_next (mkExchange (Some id) (spans x1) (env x1)) with
    | (Ret r, x2) => (Ret (mkResponse (status_code r) (dict_set "X-Request-ID" id (resp_headers r)) (body r)), x2)
    | (Raise e, x2) => (Raise e, x2)
    end.
Proof.
  unfold request_id, request_id_dispatch. intros H.
  assert ((match x_request_id request with
           | Some i => if str_truthy i then m_ret i else on_env new_uuid
           | None => on_env new_uuid
           end) x = (Ret id, x1)) as Hid.
  { unfold on_env. destruct (x_request_id request) as [i|]; [destruct (str_truthy i) |];
      [by destruct H as [-> ->] | |]; by destruct H as (w1 & -> & ->). }
  rewrite (bind_ret_run _ _ _ _ _ Hid). do 2 (rewrite bind_eq; cbn [set_request_id m_modify]).
  by destruct (call_next _) as [[r|e] x2].
Qed.

(** Every request answered through the default middlewares carries its id: the
    response has it as [X-Request-ID], with the endpoint's status and body, and
    the one span recorded has it with the method, path and status, in error
    exactly from 500 on.  What the endpoint raises is raised on, and recorded in
    the span when it is an [Exception]. *)
Lemma request_correlated request endpoint x id x1 :
  request_id request x id x1 →
  (∀ y, state_request_id (endpoint y).2 = state_request_id y) →
  let '(o, x2) := endpoint (mkExchange (Some id) (spans x1) (env x1)) in
  let '(o', x') := through new_uuid custom [RequestId; Tracing] request endpoint x in
  ∃ span, spans x' = spans x2 ++ [span] ∧ env x' = env x2
    ∧ span_name span = method request +:+ " " +:+ path request
    ∧ match o with
      | Ret r =>
          (∃ r', o' = Ret r' ∧ status_code r' = status_code r ∧ body r' = body r
             ∧ dict_get "X-Request-ID" (resp_headers r') = Some id)
          ∧ dict_get "request_id" (attributes span) = Some (JStr id)
          ∧ dict_get "http.status_code" (attributes span) = Some (JInt (status_code r))
          ∧ (status_error span ≠ None ↔ (500 ≤ status_code r)%Z)
      | Raise e => o' = Raise e ∧ exceptions span = (if is_exception e then [e] else [])
      end.
Proof.
  intros Hid Hstate. specialize (Hstate (mkExchange (Some id) (spans x1) (env x1))).
  cbn [through]. unfold tracing_dispatch, m_except. rewrite bind_eq.
  rewrite (request_id_dispatch_eq _ _ _ _ _ Hid).
  destruct (endpoint _) as [[r|e] x2]; cbn [snd state_request_id] in Hstate.
  - do 2 (rewrite bind_eq; cbn [m_get end_span m_modify]). rewrite Hstate. cbn [m_ret].
    eexists. split; [reflexivity |]. split; [done |]. split; [done |].
    cbn [attributes status_error status_code]. split.
    { eexists. split; [done |]. split; [done |]. split; [done |]. cbn [resp_headers].
      by rewrite dict_get_map, dict_map_set, lookup_insert_eq. }
    unfold request_attributes. destruct (str_truthy (query request)); (split; [done |]); (split; [done |]);
      destruct (Z.leb_spec 500 (status_code r)); split; intros; (done || lia).
  - rewrite bind_eq. cbn [end_span m_modify m_raise]. eexists. split; [reflexivity |].
    split; [done |]. by destruct (is_exception e).
Qed.
End RequestSpec.

(** The metrics report the registry's figures. *)
Lemma metrics_stats uptime v hub :
  body (metrics uptime v (get_stats hub)) =
    JObj [("code", JStr "200"); ("msg", JStr "OK");
          ("data", JObj [("uptime_seconds", uptime); ("version", v);
             ("sse", JObj [("total_connections", default JNull (dict_get "total_connections" (get_stats hub)));
                           ("active_connections", default JNull (dict_get "active_connections" (get_stats hub)));
                           ("total_dropped_events", default JNull (dict_get "total_dropped_events" (get_stats hub)))])])].
Proof. reflexivity. Qed.

(** Set-up: at most the configured provider is installed, and the previous one is
    shut down, whatever the configuration says. *)
Lemma setup_from_config_spec yml t :
  ∃ t', setup_from_config yml t = (Ret tt, t')
    ∧ _provider t' = configured_provider yml ∧ installed t' = configured_provider yml
    ∧ flushed t' = flushed t ++ option_list (_provider t)
    ∧ (_atexit_registered t' = _atexit_registered t || bool_decide (is_Some (configured_provider yml))).
Proof.
  unfold setup_from_config. rewrite bind_eq. cbn [tracing_shutdown m_modify].
  destruct (configured_provider yml) as [p|]; eexists; (split; [reflexivity |]); cbn.
  - by rewrite orb_true_r.
  - by rewrite orb_false_r.
Qed.

(** ** Witnesses *)
Module HttpExamples.
Definition missing (x : json) (name : string) : exn := AttributeError name.
(** The server is not run but noted. *)
Definition note : FastAPI → UvicornOptions → M (list (FastAPI * UvicornOptions)) unit :=
  λ a o, m_modify (λ w, w ++ [(a, o)]).
Definition server (enable : bool) (port : Z) (more : dict json) : json :=
  JObj ([("enable", JBool enable); ("port", JInt port)] ++ more).
Definition config (http https : bool) (ca : string) : json :=
  JObj [("network", JObj [("ip", JNull); ("httpServer", server http 8080 []);
    ("httpsServer", server https 8443
       [("mutualTLS", JBool true); ("certFile", JStr "c.pem"); ("keyFile", JStr "k.pem"); ("caFile", JStr ca)])])].
Definition tls_options : UvicornOptions :=
  mkOptions (JStr "0.0.0.0") (JInt 8443) 30 (Some (JStr "c.pem")) (Some (JStr "k.pem"))
    (Some (JStr "ca.pem")) true.

Lemma config_serves_tls : serves missing (config false true "ca.pem") tls_options.
Proof. by apply (serves_tls missing (config false true "ca.pem")
  (get_attr (config false true "ca.pem") "network")
  (get_attr (get_attr (config false true "ca.pem") "network") "httpsServer") (JInt 8443) true). Qed.
Lemma config_without_ca opts : ¬ serves missing (config false true "") opts.
Proof.
  intros [net port Hn Hp | net https port mutual Hn Hp Hs Hport Hh Hc Hk Hm Ha];
    injection Hn as <-; [done |]. injection Hh as <-. subst mutual. by specialize (Ha eq_refl).
Qed.

Lemma server_starts_as_configured_witness :
  run note true missing (config false true "ca.pem") None [] = serve note true None tls_options []
  ∧ ∃ e, run note true missing (config false true "") None [] = (Raise e, []).
Proof.
  split.
  - exact (proj1 (server_starts_as_configured note true missing (config false true "ca.pem") None [])
      tls_options config_serves_tls).
  - exact (proj2 (server_starts_as_configured note true missing (config false true "") None [])
      config_without_ca).
Defined.

Example both_enabled_ex :
  run note true missing (config true true "ca.pem") None []
  = (Raise (RuntimeError "Both httpServer and httpsServer are enabled; enable only one"), []).
Proof. reflexivity. Qed.
Example endpoint_ex : traces_endpoint (JStr "http://h:4318//") = "http://h:4318/v1/traces".
Proof. reflexivity. Qed.
Example correlated_ex :
  through (W := nat) (λ n, (Ret "fresh", Datatypes.S n)) (λ _ _ k, k) [RequestId; Tracing]
    (mkRequest "GET" "http" "/ping" "" (Some "abc")) (m_ret (not_found "404")) (mkExchange None [] 0%nat)
  = (Ret (mkResponse 404 [("X-Request-ID", "abc")] (body (not_found "404"))),
     mkExchange (Some "abc")
       [mkSpan "GET /ping" [("http.method", JStr "GET"); ("http.scheme", JStr "http"); ("url.path", JStr "/ping");
          ("request_id", JStr "abc"); ("http.status_code", JInt 404)] None []] 0%nat).
Proof. reflexivity. Qed.
End HttpExamples.
