(* ===== verification/Log.v ===== *)
(** * Log: levels, the filter, and the version the log announces

    [src/pypepper/common/log.py] and [src/pypepper/common/version.py].  [loguru]
    is third-party: what it does with a record that passes the filter, with its
    handlers and with a bound logger are parameters ([Loguru]). *)
From S2P Require Import Prelude Dict Json PyValues.

(** [LogLevel], a [StrEnum]. *)
Inductive LogLevel : Type := TRACE | DEBUG | INFO | WARNING | ERROR | FATAL.
#[export] Instance LogLevel_eq_dec : EqDecision LogLevel.
Proof. solve_decision. Defined.
Definition level_value (l : LogLevel) : string :=
  match l with
  | TRACE => "TRACE" | DEBUG => "DEBUG" | INFO => "INFO"
  | WARNING => "WARNING" | ERROR => "ERROR" | FATAL => "FATAL"
  end.
Definition __members__ : dict LogLevel :=
  [("TRACE", TRACE); ("DEBUG", DEBUG); ("INFO", INFO); ("WARNING", WARNING); ("ERROR", ERROR); ("FATAL", FATAL)].
(** [LogLevel.has_name(name)], [LogLevel.has_value(value)]: a level equals its text. *)
Definition has_name (name : string) : bool := bool_decide (name ∈ dict_keys __members__).
Definition has_value (value : json) : bool :=
  match value with
  | JStr s => existsb (λ l, String.eqb (level_value l) s) (dict_values __members__)
  | _ => false
  end.

(** The level the module's configuration adds to loguru's own. *)
Definition FATAL_no : Z := 60.
(** [logger]: the number of a level, and the calls this module makes. *)
Class Loguru (L : Type) : Type := {
  level_no : string → outcome Z;             (** [logger.level(name).no] *)
  log_at : string → string → json → M L unit; (** level, message, bound [req_id] *)
  remove : M L unit;                         (** [logger.remove()]: every handler *)
  configure : json → M L unit;               (** one handler, with this [colorize] *)
  complete : M L unit;
}.
(** loguru's documented severities, and the level added. *)
Class LoguruLaws (L : Type) `{!Loguru L} : Prop :=
  level_no_law : ∀ l, level_no (level_value l)
    = Ret (match l with TRACE => 5 | DEBUG => 10 | INFO => 20 | WARNING => 30 | ERROR => 40 | FATAL => FATAL_no end)%Z.

(** The process's logging: the level of [default_log_filter], the [colorize] of
    [config["handlers"][0]], and loguru. *)
Record Logging (L : Type) : Type := mkLogging {
  filter_level : string;
  colorize : json;
  loguru : L;
}.
Arguments mkLogging {L}. Arguments filter_level {L}. Arguments colorize {L}. Arguments loguru {L}.

(** A [Logger] object: what its loguru logger binds. *)
Record Logger : Type := mkLogger { req_id : json }.
Definition log : Logger := mkLogger (JInt 0).

Section Log.
Context {L : Type} `{!Loguru L}.
Abbreviation ML := (M (Logging L)).
Definition on_loguru {A} (m : M L A) : ML A :=
  λ s, let '(o, l) := m (loguru s) in (o, mkLogging (filter_level s) (colorize s) l).

(** The module as it is imported: [default_log_filter] and [config], of which
    the rest changes the filter's level and [colorize], and loguru set up with it. *)
Definition default_logging (l : L) : Logging L := mkLogging (level_value TRACE) (JBool true) l.
Definition install_config : ML unit :=
  let* _ := on_loguru remove in
  let* c := m_get colorize in
  on_loguru (configure c).

(** [LogLevelFilter.__call__(record)], by the number of the record's level. *)
Definition passes (level : string) (record_no : Z) : outcome bool :=
  match level_no level with
  | Ret no => Ret (no <=? record_no)%Z
  | Raise e => Raise e
  end.

(** [Logger.set_log_level(level)], [Logger.set_colorize(colorize)]. *)
Definition set_log_level (level : json) : ML unit :=
  if has_value level then
    m_modify (λ s, mkLogging (match level with JStr l => l | _ => filter_level s end) (colorize s) (loguru s))
  else m_ret tt.
Definition set_colorize (c : json) : ML unit :=
  let* _ := m_modify (λ s, mkLogging (filter_level s) c (loguru s)) in
  let* _ := on_loguru remove in
  on_loguru (configure c).

(** [Logger.request_id(req_id)]: another object; [self] is left as it is. *)
Definition request_id (self : Logger) (req_id : json) : Logger := mkLogger req_id.
(** [trace], [debug], [info], [warn], [error], [fatal]. *)
Definition log_as (self : Logger) (l : LogLevel) (msg : string) : ML unit :=
  on_loguru (log_at (level_value l) msg (req_id self)).
Definition trace (self : Logger) : string → ML unit := log_as self TRACE.
Definition debug (self : Logger) : string → ML unit := log_as self DEBUG.
Definition info (self : Logger) : string → ML unit := log_as self INFO.
Definition warn (self : Logger) : string → ML unit := log_as self WARNING.
Definition error (self : Logger) : string → ML unit := log_as self ERROR.
Definition fatal (self : Logger) : string → ML unit := log_as self FATAL.
(** [Logger.close()]. *)
Definition log_close : ML unit := let* _ := on_loguru complete in on_loguru remove.
End Log.

(** ** [Version], [version.py]: the build's information, read once *)
Section Version.
Context {W : Type} (read_file : string → M W string).
(** [_version_info] and the rest of the process. *)
Record Versioned : Type := mkVersioned { _version_info : json; v_env : W }.
Definition version_new (w : W) : Versioned := mkVersioned (JStr "") w.
Definition _version_info_filename : string := "git.json".
Definition unknown_info : json :=
  JObj [("version", JStr "unknown"); ("gitCommit", JStr "unknown"); ("commitTime", JStr "unknown");
        ("buildTime", JStr "unknown"); ("pythonVersion", JStr "unknown")].
Definition on_v_env {A} (m : M W A) : M Versioned A :=
  λ v, let '(o, w) := m (v_env v) in (o, mkVersioned (_version_info v) w).
(** [get_version_info()]. *)
Definition get_version_info : M Versioned json :=
  m_try
    (let* info := m_get _version_info in
     let* _ := (if py_truthy info then m_ret tt
                else
                  let* data := on_v_env (read_file _version_info_filename) in
                  let* parsed := (match loads data with
                                  | Some j => m_ret j
                                  | None => m_raise (ValueError "JSONDecodeError")
                                  end) in
                  m_modify (λ v, mkVersioned parsed (v_env v))) in
     m_get _version_info)
    (λ _, m_ret unknown_info).
End Version.
Arguments mkVersioned {W}. Arguments _version_info {W}. Arguments v_env {W}.

(** ** [Logger.logo(msg)] *)
(** [json.dumps(x, indent=4)], from nesting level [n]. *)
Definition newline (n : nat) : string := String "010" (String.concat "" (repeat "    " n)).
Definition bracketed (l r : string) (n : nat) (items : list string) : string :=
  match items with
  | [] => l +:+ r
  | _ => l +:+ newline (S n) +:+ join ("," +:+ newline (S n)) items +:+ newline n +:+ r
  end.
Fixpoint dumps_indent (n : nat) (j : json) : string :=
  match j with
  | JArr l => bracketed "[" "]" n (List.map (dumps_indent (S n)) l)
  | JObj l =>
      bracketed "{" "}" n (List.map (λ kv, quote true kv.1 +:+ ": " +:+ dumps_indent (S n) kv.2) l)
  | _ => dump default_opts j
  end.

(** ** Facts *)
Lemma has_value_spec v : has_value v = true ↔ ∃ l, v = JStr (level_value l).
Proof.
  split.
  - destruct v as [| | |s| |]; try done. unfold has_value. intros (l & _ & Hl)%existsb_exists.
    exists l. by apply String.eqb_eq in Hl as ->.
  - intros [l ->]. by destruct l.
Qed.
(** Names and values are the same texts. *)
Lemma has_name_value s : has_name s = has_value (JStr s).
Proof.
  apply eq_true_iff_eq. unfold has_name. rewrite bool_decide_eq_true, has_value_spec. split.
  - intros H. by repeat (apply elem_of_cons in H as [->|H]; [by (exists TRACE + exists DEBUG + exists INFO + exists WARNING + exists ERROR + exists FATAL) |]);
      apply elem_of_nil in H.
  - intros [l [= ->]]. destruct l; cbn; set_solver.
Qed.

Section LogFacts.
Context {L : Type} `{!Loguru L, !LoguruLaws L}.
(** The filter's level after [set_log_level] calls: the last that names one. *)
Definition level_after (start : LogLevel) (calls : list json) : LogLevel :=
  fold_left (λ l v, match v with
    | JStr s => match dict_get s __members__ with Some l' => l' | None => l end
    | _ => l end) calls start.
Fixpoint set_levels (calls : list json) : M (Logging L) unit :=
  match calls with [] => m_ret tt | v :: rest => let* _ := set_log_level v in set_levels rest end.

Definition severity (l : LogLevel) : Z :=
  match l with TRACE => 5 | DEBUG => 10 | INFO => 20 | WARNING => 30 | ERROR => 40 | FATAL => 60 end.

(** At import every record at one of the levels passes. *)
Lemma default_passes (l0 : L) l : passes (filter_level (default_logging l0)) (severity l) = Ret true.
Proof using LoguruLaws0. unfold passes. cbn [default_logging filter_level]. rewrite level_no_law. by destruct l. Qed.

Lemma set_log_level_run v (s : Logging L) l :
  filter_level s = level_value l →
  ∃ s', set_log_level v s = (Ret tt, s') ∧ filter_level s' = level_value (level_after l [v])
    ∧ colorize s' = colorize s ∧ loguru s' = loguru s.
Proof.
  intros Hl. unfold set_log_level, level_after. cbn [fold_left].
  destruct (has_value v) eqn:Hv.
  - apply has_value_spec in Hv as [l' ->]. eexists. split; [done |]. by destruct l'.
  - exists s. split; [done |]. rewrite Hl. split; [| done].
    destruct v as [| | |t| |]; try done. destruct (dict_get t __members__) as [l'|] eqn:Hg; [| done].
    assert (has_value (JStr t) = true) as Ht; [| congruence].
    rewrite <- has_name_value. unfold has_name. apply bool_decide_eq_true.
    destruct (decide (t ∈ dict_keys __members__)) as [|Hn]; [done |].
    rewrite dict_get_map in Hg. unfold dict_map in Hg. by rewrite not_elem_of_list_to_map_1 in Hg.
Qed.

(** Colours that are set, before or after the levels, are loguru's as if the
    module had been imported with them; the level in force is kept. *)
Lemma set_colorize_installs c (s : Logging L) :
  set_colorize c s = install_config (mkLogging (filter_level s) c (loguru s))
  ∧ filter_level (set_colorize c s).2 = filter_level s ∧ colorize (set_colorize c s).2 = c.
Proof using Type.
  unfold set_colorize, install_config. rewrite !bind_eq. cbn [m_modify]. rewrite !bind_eq.
  unfold on_loguru at 1 3 5 7. cbn [loguru filter_level colorize].
  destruct (remove (loguru s)) as [[[]|e] l]; [| done]. rewrite bind_eq. cbn [m_get colorize].
  unfold on_loguru. cbn [loguru filter_level colorize]. by destruct (configure c l) as [o l'].
Qed.

(** Whatever texts and values a configuration gives as levels, the filter never
    raises, and lets through exactly the records at or above the last level
    that is one. *)
Lemma filter_total (calls : list json) (s : Logging L) l :
  filter_level s = level_value l →
  ∃ s', set_levels calls s = (Ret tt, s') ∧ loguru s' = loguru s
    ∧ ∀ no, passes (filter_level s') no = Ret (bool_decide (severity (level_after l calls) ≤ no)%Z).
Proof using LoguruLaws0.
  revert s l. induction calls as [|v calls IH]; intros s l Hl.
  - exists s. split_and!; [done | done |]. intros no. unfold passes. rewrite Hl, level_no_law.
    f_equal. cbn. apply eq_true_iff_eq. rewrite Z.leb_le, bool_decide_eq_true. by destruct l.
  - destruct (set_log_level_run v s l Hl) as (s1 & E & Hl1 & _ & Hg).
    destruct (IH s1 (level_after l [v]) Hl1) as (s' & E' & Hg' & Hp). exists s'. cbn [set_levels].
    rewrite (bind_ret_run _ _ _ _ _ E). split_and!; [done | congruence | exact Hp].
Qed.
End LogFacts.

(** The version is read until it has been read: then the file is not read again;
    an exception of the file, or of its text, gives the unknown version and
    leaves the object as it was. *)
Lemma get_version_info_cases {W : Type} (read_file : string → M W string) (v : Versioned (W := W)) :
  let '(o, v') := get_version_info read_file v in
  (py_truthy (_version_info v) = true ∧ o = Ret (_version_info v) ∧ v' = v)
  ∨ (py_truthy (_version_info v) = false
     ∧ let '(r, w) := read_file _version_info_filename (v_env v) in
       match r with
       | Ret data =>
           match loads data with
           | Some j => o = Ret j ∧ v' = mkVersioned j w
           | None => o = Ret unknown_info ∧ v' = mkVersioned (_version_info v) w
           end
       | Raise e => o = (if is_exception e then Ret unknown_info else Raise e)
                    ∧ v' = mkVersioned (_version_info v) w
       end).
Proof.
  unfold get_version_info, m_try. rewrite bind_eq. cbn [m_get]. unfold on_v_env.
  destruct (py_truthy (_version_info v)); [by left |]. rewrite bind_eq.
  destruct (read_file _ (v_env v)) as [[data|e] w] eqn:E; rewrite bind_eq; cbn; rewrite E.
  - destruct (loads data) as [j|]; cbn; by right.
  - destruct (is_exception e); by right.
Qed.

(** A law-abiding logger that keeps what it is given. *)
Module LogExamples.
Definition note : Type := list (string * string * json).
Definition no_of (name : string) : outcome Z :=
  match dict_get name __members__ with
  | Some l => Ret (severity l)
  | None => Raise (ValueError "Level does not exist")
  end.
#[export] Instance noted : Loguru note := {
  level_no := no_of;
  log_at l m r := m_modify (λ n, n ++ [(l, m, r)]);
  remove := m_ret tt;
  configure _ := m_ret tt;
  complete := m_ret tt;
}.
#[export] Instance noted_laws : LoguruLaws note.
Proof. intros []; reflexivity. Qed.
Example levels_ex :
  let s := (set_levels [JStr "WARNING"; JStr "warn"; JInt 3; JNull] (mkLogging "TRACE" (JBool true) ([] : note))).2 in
  filter_level s = "WARNING" ∧ passes (filter_level s) 20 = Ret false ∧ passes (filter_level s) 60 = Ret true.
Proof. by vm_compute. Qed.
Example bound_ex :
  (let* _ := warn (request_id log (JStr "r1")) "m1" in info log "m2")
    (mkLogging "TRACE" (JBool true) ([] : note))
  = (Ret tt, mkLogging "TRACE" (JBool true) [("WARNING", "m1", JStr "r1"); ("INFO", "m2", JInt 0)]).
Proof. reflexivity. Qed.
Example indent_ex :
  dumps_indent 0 (JObj [("a", JArr [JInt 1; JStr "x"]); ("b", JObj [])])
  = "{" +:+ newline 1 +:+ quote true "a" +:+ ": [" +:+ newline 2 +:+ "1," +:+ newline 2 +:+ quote true "x"
    +:+ newline 1 +:+ "]," +:+ newline 1 +:+ quote true "b" +:+ ": {}" +:+ newline 0 +:+ "}".
Proof. reflexivity. Qed.
Example version_ex :
  let read (name : string) : M nat string := λ n, (match n with 0 => Raise (OtherException "FileNotFoundError" "no file") | _ => Ret "3" end, S n)%nat in
  let m := (let* a := get_version_info read in let* b := get_version_info read in
            let* c := get_version_info read in m_ret [a; b; c]) in
  m (version_new 0%nat) = (Ret [unknown_info; JInt 3; JInt 3], mkVersioned (JInt 3) 2%nat).
Proof. vm_compute. reflexivity. Qed.
End LogExamples.
