(* ===== verification/Startup.v ===== *)
(** * Startup: a process from its command line to its server

    [src/pypepper/common/system.py], [Config.load_config] of
    [src/pypepper/common/config.py] with everything it sets up, and the [main] of
    [src/example/server/app.py] and [src/example/sse/app.py].  The command line's
    parser, files, YAML and [Box], signals' delivery and uvicorn are third-party:
    parameters.  Handlers run in the main thread. *)
From S2P Require Import Prelude Dict Json PyValues Lifecycle JobStore Channel Context Task World Job DbUri.
From S2P Require Import StoreConfig Utils Http Log SseSecurity SseApp.

Inductive Signal : Type := SIGINT | SIGTERM | SIGHUP.
#[export] Instance Signal_eq_dec : EqDecision Signal.
Proof. solve_decision. Defined.
Definition signals : list Signal := [SIGINT; SIGTERM; SIGHUP].

(** The process: store set-up and configuration, tracing, logging, version and
    files, the signals this program handles, and whether it was aborted. *)
Record Process (X L E : Type) : Type := mkProcess {
  p_setup : Setup X;
  p_tracing : TracingState;
  p_log : Logging L;
  p_version : Versioned (W := E);
  p_signals : list Signal;
  p_aborted : bool;
}.
Arguments mkProcess {X L E}. Arguments p_setup {X L E}. Arguments p_tracing {X L E}. Arguments p_log {X L E}.
Arguments p_version {X L E}. Arguments p_signals {X L E}. Arguments p_aborted {X L E}.

Section Startup.
Context {X L E : Type} `{!Loguru L}.
Abbreviation MP := (M (Process X L E)).
(** [os.path.abspath], [parser.parse_known_args()] given the default of
    [--config], reading a file, [yaml.safe_load] and [Box]. *)
Context (abspath : string → string) (parse_known_args : string → outcome (option string * list string)).
Context (read_file : string → M E string) (safe_load : string → outcome json) (box : json → outcome json).
Context (no_attribute : json → string → exn).
Context (open_sql : string → string → outcome unit) (open_mongo : string + DbUri.Config → outcome unit).

Definition on_setup {A} (m : M (Setup X) A) : MP A :=
  λ p, let '(o, s) := m (p_setup p) in
       (o, mkProcess s (p_tracing p) (p_log p) (p_version p) (p_signals p) (p_aborted p)).
Definition on_tracing {A} (m : M TracingState A) : MP A :=
  λ p, let '(o, t) := m (p_tracing p) in
       (o, mkProcess (p_setup p) t (p_log p) (p_version p) (p_signals p) (p_aborted p)).
Definition on_log {A} (m : M (Logging L) A) : MP A :=
  λ p, let '(o, l) := m (p_log p) in
       (o, mkProcess (p_setup p) (p_tracing p) l (p_version p) (p_signals p) (p_aborted p)).
Definition on_version {A} (m : M (Versioned (W := E)) A) : MP A :=
  λ p, let '(o, v) := m (p_version p) in
       (o, mkProcess (p_setup p) (p_tracing p) (p_log p) v (p_signals p) (p_aborted p)).

(** [system.shutdown()]; the line it prints is not kept. *)
Definition abort : MP unit :=
  m_modify (λ p, mkProcess (p_setup p) (p_tracing p) (p_log p) (p_version p) (p_signals p) true).
Definition shutdown : MP unit :=
  let* _ := on_tracing tracing_shutdown in
  let* _ := on_log log_close in
  abort.
(** [system.handler(signal_number, frame)]; loguru fills in the message. *)
Definition signal_handler (sig : Signal) : MP unit :=
  let* _ := on_log (Log.info log "PID={}, Signal={}({}), Frame={}, system exit") in
  shutdown.
(** [system.handle_signals()]. *)
Definition handle_signal (sig : Signal) : MP unit :=
  m_modify (λ p, mkProcess (p_setup p) (p_tracing p) (p_log p) (p_version p)
    (if decide (sig ∈ p_signals p) then p_signals p else p_signals p ++ [sig]) (p_aborted p)).
Fixpoint handle_all (sigs : list Signal) : MP unit :=
  match sigs with
  | [] => m_ret tt
  | sig :: rest => let* _ := handle_signal sig in handle_all rest
  end.
Definition handle_signals : MP unit := handle_all signals.

(** [log.logo(msg)]. *)
Definition log_logo (msg : string) : MP unit :=
  let* info := on_version (get_version_info read_file) in
  on_log (Log.info log (msg +:+ dumps_indent 0 info)).

(** [Config.load_config(filename)]. *)
Definition _default_config_filepath : string := "./conf/" +:+ "app.config.yaml".
Definition unknown_msg (unknown : list string) : string :=
  "Ignoring unknown CLI arguments: " +:+ py_repr (JArr (map JStr unknown)).
Definition config_path (filename : option string) : MP string :=
  if opt_str_truthy filename then m_ret (abspath (default "" filename))
  else
    let* args := m_of_outcome (parse_known_args _default_config_filepath) in
    let* _ := (match args.2 with [] => m_ret tt | unknown => on_log (warn log (unknown_msg unknown)) end) in
    m_ret (abspath (if opt_str_truthy args.1 then default "" args.1 else _default_config_filepath)).
Definition set_setting (setting : json) : MP unit :=
  on_setup (m_modify (λ s, mkSetup (s_world s) (Some setting) (s_warned s) (s_next s))).
Definition configure_log (setting : json) : MP unit :=
  let conf := Http.get_attr setting "log" in
  if Http.has_attr setting "log" && Http.has_attr conf "level" then
    let* _ := on_log (set_log_level (Http.get_attr conf "level")) in
    let* colorize := m_of_outcome (field no_attribute conf "colorize") in
    on_log (set_colorize colorize)
  else m_ret tt.
Definition load_config (filename : option string) : MP unit :=
  let* path := config_path filename in
  let* data := on_version (on_v_env (read_file path)) in
  let* document := m_of_outcome (safe_load data) in
  let* setting := m_of_outcome (box document) in
  let* _ := set_setting setting in
  let* _ := configure_log setting in
  let* _ := on_tracing (Http.setup_from_config setting) in
  on_setup refresh_scheduler_job_store_deferred.

(** ** [example/server/app.py] *)
Definition biz1 : handler := PrivateHandler 1.
Definition biz2 : handler := PrivateHandler 2.
(** [register_biz_api(app)] and [AppHandlers]. *)
Definition register_biz_api : M FastAPI unit :=
  let* _ := add_route GET "/api/v1/biz1" biz1 in add_route POST "/api/v1/biz2" biz2.
Definition app_handlers : ITaskHandler := mkTaskHandler register_biz_api (m_ret tt).
(** [main()]. *)
Definition get_yml_config : MP (option json) := m_get (λ p, s_setting (p_setup p)).
Definition server_main (logo : string) (native : bool)
    (uvicorn_run : FastAPI → UvicornOptions → MP unit) : MP unit :=
  let* _ := log_logo logo in
  let* _ := handle_signals in
  let* _ := load_config None in
  let* yml := get_yml_config in
  let* _ := on_setup (StoreConfig.setup_from_config open_sql open_mongo yml) in
  let* yml := get_yml_config in
  Http.run uvicorn_run native no_attribute (default JNull yml) (Some app_handlers).

(** What a process has done when it starts its server. *)
Definition boot (logo : string) : MP json :=
  let* _ := log_logo logo in
  let* _ := handle_signals in
  let* _ := load_config None in
  let* yml := get_yml_config in
  let* _ := on_setup (StoreConfig.setup_from_config open_sql open_mongo yml) in
  m_get (λ p, default JNull (s_setting (p_setup p))).
End Startup.

(** ** Stages *)
Section Stages.
Context {X L E : Type} `{!Loguru L}.
Abbreviation P := (Process X L E).
Implicit Types p : P.

(** What only logging, version and files change. *)
Record quiet_step (p p' : P) : Prop := {
  q_setup : p_setup p' = p_setup p;
  q_tracing : p_tracing p' = p_tracing p;
  q_signals : p_signals p' = p_signals p;
  q_aborted : p_aborted p' = p_aborted p;
  q_level : filter_level (p_log p') = filter_level (p_log p);
}.
#[local] Instance quiet_step_preorder : PreOrder quiet_step.
Proof. split; [by split |]. intros p1 p2 p3 [] []. split; congruence. Qed.

Lemma on_version_quiet {A} (m : M (Versioned (W := E)) A) : preserves quiet_step (on_version m).
Proof. intros p. unfold on_version. by destruct (m (p_version p)). Qed.
Lemma log_at_quiet self l msg : preserves quiet_step (on_log (log_as self l msg)).
Proof. intros p. unfold on_log, log_as, on_loguru. by destruct (log_at _ _ _ _). Qed.
#[local] Hint Resolve on_version_quiet log_at_quiet : preserves.

Lemma log_logo_quiet read_file msg : preserves quiet_step (log_logo (X := X) (L := L) (E := E) read_file msg).
Proof. unfold log_logo, Log.info. prove_preserves. Qed.
Lemma config_path_quiet abspath parse name :
  preserves quiet_step (config_path (X := X) (L := L) (E := E) abspath parse name).
Proof.
  unfold config_path. apply preserves_if; [auto with preserves |].
  apply preserves_bind; [apply _ | auto with preserves |]. intros args.
  apply preserves_bind; [apply _ | | intros []; auto with preserves].
  destruct args.2; [auto with preserves | apply log_at_quiet].
Qed.

(** The signals: all of [signals], whatever was handled before. *)
Lemma handle_all_run sigs p :
  ∃ l, handle_all sigs p = (Ret tt, mkProcess (p_setup p) (p_tracing p) (p_log p) (p_version p) l (p_aborted p))
    ∧ (∀ s, s ∈ l ↔ s ∈ sigs ∨ s ∈ p_signals p).
Proof.
  revert p. induction sigs as [|sig sigs IH]; intros p.
  - exists (p_signals p). split; [by destruct p |]. intros s. rewrite elem_of_nil. tauto.
  - cbn [handle_all]. rewrite bind_eq. cbn [handle_signal m_modify].
    destruct (IH (mkProcess (p_setup p) (p_tracing p) (p_log p) (p_version p)
      (if decide (sig ∈ p_signals p) then p_signals p else p_signals p ++ [sig]) (p_aborted p))) as (l & -> & Hl).
    exists l. split; [done |]. intros s. rewrite Hl, elem_of_cons. cbn [p_signals].
    case_decide as Hin; [intuition congruence |]. rewrite elem_of_app, list_elem_of_singleton. tauto.
Qed.

(** The level a configuration sets. *)
Definition configured_level (yml : json) (l : string) : string :=
  match Http.get_attr (Http.get_attr yml "log") "level" with
  | JStr s => if has_value (JStr s) then s else l
  | _ => l
  end.
Lemma configure_log_run no_attribute yml p p' :
  configure_log no_attribute yml p = (Ret tt, p') →
  p_setup p' = p_setup p ∧ p_tracing p' = p_tracing p ∧ p_signals p' = p_signals p
  ∧ p_aborted p' = p_aborted p
  ∧ filter_level (p_log p') = configured_level yml (filter_level (p_log p)).
Proof.
  unfold configure_log. destruct (_ && _) eqn:Hhas.
  2:{ intros [= <-]. split_and!; try done. unfold configured_level.
      apply andb_false_iff in Hhas as [H|H].
      - unfold Http.has_attr in H. unfold Http.get_attr at 2. destruct yml as [| | | | |l]; try done.
        by destruct (dict_get "log" l).
      - unfold Http.has_attr in H. unfold Http.get_attr at 1. destruct (Http.get_attr yml "log") as [| | | | |l]; try done.
        by destruct (dict_get "level" l). }
  clear Hhas. intros ([] & p1 & H1 & H)%bind_ret_inv. apply bind_ret_inv in H as (c & p2 & H2 & H).
  unfold m_of_outcome in H2. injection H2 as _ <-.
  assert (p1 = mkProcess (p_setup p) (p_tracing p) (mkLogging (configured_level yml (filter_level (p_log p)))
    (colorize (p_log p)) (loguru (p_log p))) (p_version p) (p_signals p) (p_aborted p)) as ->.
  { unfold on_log, set_log_level, configured_level in *.
    destruct (has_value _) eqn:Hv.
    - cbn in H1. injection H1 as <-. apply has_value_spec in Hv as [l Hl]. rewrite Hl. by destruct l.
    - cbn in H1. injection H1 as <-. destruct (Http.get_attr _ "level"); by rewrite ?Hv; destruct (p_log p). }
  unfold on_log, set_colorize in H. rewrite bind_eq in H. cbn [m_modify p_log filter_level loguru] in H.
  unfold on_loguru, m_bind in H. cbn in H.
  destruct (remove (loguru (p_log p))) as [[[]|e] l1]; [| done]. cbn in H.
  destruct (configure c l1) as [[[]|e] l2]; [| done]. by injection H as <-.
Qed.
End Stages.

(** ** A booted process *)
Section Boot.
Context {X L E : Type} `{!Loguru L}.
Context (abspath : string → string) (parse_known_args : string → outcome (option string * list string)).
Context (read_file : string → M E string) (safe_load : string → outcome json) (box : json → outcome json).
Context (no_attribute : json → string → exn).
Context (open_sql : string → string → outcome unit) (open_mongo : string + DbUri.Config → outcome unit).
Abbreviation P := (Process X L E).
Abbreviation loading := (load_config (X := X) (L := L) abspath parse_known_args read_file safe_load box no_attribute).
Abbreviation boots := (boot (X := X) (L := L) abspath parse_known_args read_file safe_load box no_attribute open_sql open_mongo).
Abbreviation main := (server_main (X := X) (L := L) abspath parse_known_args read_file safe_load box no_attribute open_sql open_mongo).

(** A loaded configuration is in force everywhere it is used. *)
Record loaded (yml : json) (p p' : P) : Prop := {
  l_setting : s_setting (p_setup p') = Some yml;
  l_store : get_job_store (p_setup p') = get_job_store (p_setup p);
  l_deferred : w_deferred (s_world (p_setup p')) = deferred_of (Some yml);
  l_provider : _provider (p_tracing p') = configured_provider yml;
  l_installed : Http.installed (p_tracing p') = configured_provider yml;
  l_level : filter_level (p_log p') = configured_level yml (filter_level (p_log p));
  l_signals : p_signals p' = p_signals p;
}.
Lemma load_config_loads name p p' : loading name p = (Ret tt, p') → ∃ yml, loaded yml p p'.
Proof.
  unfold load_config. intros (path & p1 & H1 & H)%bind_ret_inv.
  pose proof (config_path_quiet abspath parse_known_args name p) as Q1. rewrite H1 in Q1. cbn [snd] in Q1.
  apply bind_ret_inv in H as (text & p2 & H2 & H).
  pose proof (on_version_quiet (on_v_env (read_file path)) p1) as Q2. rewrite H2 in Q2. cbn [snd] in Q2.
  apply bind_ret_inv in H as (document & p3 & H3 & H). apply bind_ret_inv in H as (yml & p4 & H4 & H).
  unfold m_of_outcome in H3, H4. injection H3 as _ <-. injection H4 as _ <-.
  rewrite bind_eq in H. cbn [set_setting on_setup m_modify] in H. set (p5 := mkProcess _ _ _ _ _ _) in H.
  apply bind_ret_inv in H as ([] & p6 & H6 & H).
  destruct (configure_log_run _ _ _ _ H6) as (E1 & E2 & E3 & E4 & E5).
  rewrite bind_eq in H. unfold on_tracing in H.
  destruct (setup_from_config_spec yml (p_tracing p6)) as (t & Et & Hp & Hi & _). rewrite Et in H.
  unfold on_setup in H. cbn [p_setup] in H. rewrite refresh_run in H. injection H as <-.
  destruct Q1 as [A1 A2 A3 A4 A5], Q2 as [B1 B2 B3 B4 B5].
  exists yml. split; cbn [p_setup p_tracing p_log p_signals]; rewrite ?E1; cbn; rewrite ?E1; cbn; try done.
  - unfold get_job_store. cbn. by rewrite B1, A1.
  - rewrite E5. cbn. by rewrite B5, A5.
  - rewrite E3. cbn. by rewrite B3, A3.
Qed.

(** What holds of a process that has booted with [yml]. *)
Record booted (yml : json) (p p' : P) : Prop := {
  b_setting : s_setting (p_setup p') = Some yml;
  b_saves : save_guard (p_setup p') = (Ret tt, p_setup p');
  b_database : ∀ b, declares yml b → b ∈ databases →
    durable_store open_sql open_mongo b (kwargs_of (job_store_cfg (Some yml))) = Ret (get_job_store (p_setup p'));
  b_tracing : Http.installed (p_tracing p') = configured_provider yml;
  b_level : filter_level (p_log p') = configured_level yml (filter_level (p_log p));
  b_signals : ∀ sig, sig ∈ p_signals p';
}.
Lemma boot_boots logo p p' yml : boots logo p = (Ret yml, p') → booted yml p p'.
Proof.
  unfold boot. intros ([] & p1 & H1 & H)%bind_ret_inv.
  pose proof (log_logo_quiet read_file logo p) as [Q1 Q2 Q3 Q4 Q5]. rewrite H1 in *. cbn [snd] in *.
  destruct (handle_all_run signals p1) as (sigs & Eh & Hs).
  apply bind_ret_inv in H as ([] & p2 & H2 & H). unfold handle_signals in H2. rewrite Eh in H2. injection H2 as <-.
  apply bind_ret_inv in H as ([] & p3 & H3 & H). apply load_config_loads in H3 as (yml' & []).
  rewrite bind_eq in H. cbn [get_yml_config m_get] in H. rewrite l_setting0 in H.
  apply bind_ret_inv in H as ([] & p4 & H4 & H). injection H as Hy <-.
  unfold on_setup in H4. destruct (StoreConfig.setup_from_config _ _ _ (p_setup p3)) as [o st] eqn:Es.
  injection H4 as -> <-. cbn [p_setup p_tracing p_log p_signals] in *.
  destruct (setup_applies _ _ _ _ _ Es l_deferred0) as [Hd Hst]. rewrite Hst, l_setting0 in Hy. cbn in Hy. subst yml'.
  split; cbn [p_setup p_tracing p_log p_signals].
  - congruence.
  - by rewrite guard_run, Hd.
  - intros b Hb Hdb. rewrite (setup_database _ _ _ _ _ Hb Hdb) in Es.
    destruct (durable_store _ _ _ _) as [store|e]; [| done].
    destruct (set_job_store_run store (p_setup p3)) as (s' & E' & Hg & _). rewrite E' in Es. injection Es as <-.
    by rewrite Hg.
  - done.
  - by rewrite l_level0, Q5.
  - intros sig. rewrite l_signals0. apply Hs. left.
    destruct sig; [by left | by right; left | by right; right; left].
Qed.

(** [main] boots, then runs the server. *)
Lemma server_main_boots logo native uvicorn_run p :
  main logo native uvicorn_run p =
    match boots logo p with
    | (Ret yml, p') => Http.run uvicorn_run native no_attribute yml (Some app_handlers) p'
    | (Raise e, p') => (Raise e, p')
    end.
Proof.
  unfold server_main, boot, m_bind.
  unfold get_yml_config, m_get.
  repeat (match goal with |- context [match ?m with (_, _) => _ end] => destruct m as [[?|?] ?] end; try done).
Qed.

(** C37: the example server starts only a process that is ready for it.  [main]
    either raises - while it boots, or because the configuration asks for no
    server that could be started, with nothing handed to uvicorn - or it is the
    call of uvicorn, with the application that has the program's and the
    standard routes and middleware and with exactly the options the
    configuration asks for, made in a process where that configuration is
    loaded, the database it declares is the job store and saving is allowed,
    its tracing provider is installed, its log level filters, and every signal
    is handled. *)
Theorem server_main_starts_configured logo native uvicorn_run (p : P) :
  (∃ e p', main logo native uvicorn_run p = (Raise e, p')
     ∧ (boots logo p = (Raise e, p')
        ∨ ∃ yml, boots logo p = (Ret yml, p') ∧ ∀ opts, ¬ serves no_attribute yml opts))
  ∨ ∃ yml opts p', boots logo p = (Ret yml, p') ∧ booted yml p p' ∧ serves no_attribute yml opts
     ∧ main logo native uvicorn_run p =
         uvicorn_run
           (mkApp [(GET, "/health", Health); (GET, "/ping", Ping); (GET, "/metrics", Metrics);
                   (GET, "/api/v1/biz1", biz1); (POST, "/api/v1/biz2", biz2)] [RequestId; Tracing] false) opts p'.
Proof.
  rewrite server_main_boots. destruct (boots logo p) as [[yml|e] p'] eqn:Hb; [| left; eauto].
  destruct (run_cases uvicorn_run native no_attribute yml (Some app_handlers) p')
    as [(opts & Hs & ->)|[Hno [e ->]]].
  - right. exists yml, opts, p'. split_and!; [done | by eapply boot_boots | done | done].
  - left. exists e, p'. split; [done |]. right. by exists yml.
Qed.
End Boot.

(** ** [main] of [example/sse/app.py] *)
Section SseMain.
Context {X L E C : Type} `{!Loguru L, !TtlCache C}.
Context (abspath : string → string) (parse_known_args : string → outcome (option string * list string)).
Context (read_file : string → M E string) (safe_load : string → outcome json) (box : json → outcome json).
Context (no_attribute : json → string → exn).
Context (open_sql : string → string → outcome unit) (open_mongo : string + DbUri.Config → outcome unit).
Context (environ : string → option string).
(** The typed view of a document's [sse] section, which [Box] gives. *)
Context (sse_view : json → SecurityConf).

Record SseProcess : Type := mkSse { ap_process : Process X L E; ap_server : Server C }.
Abbreviation MA := (M SseProcess).
Definition on_process {A} (m : M (Process X L E) A) : MA A :=
  λ a, let '(o, p) := m (ap_process a) in (o, mkSse p (ap_server a)).
Definition on_server {A} (m : M (Server C) A) : MA A :=
  λ a, let '(o, s) := m (ap_server a) in (o, mkSse (ap_process a) s).

Definition sse_app : FastAPI :=
  mkApp [(GET, "/sse/echo", PrivateHandler 1); (GET, "/sse/counter", PrivateHandler 2);
         (GET, "/sse/clock", PrivateHandler 3); (GET, "/sse/stats", PrivateHandler 4);
         (GET, "/health", PrivateHandler 5); (GET, "/", PrivateHandler 6)] [] true.
(** [a.b.c] on the document. *)
Fixpoint fields (x : json) (names : list string) : outcome json :=
  match names with
  | [] => Ret x
  | name :: rest => match field no_attribute x name with Ret v => fields v rest | Raise e => Raise e end
  end.
Fixpoint log_lines (lines : list string) : MA unit :=
  match lines with
  | [] => m_ret tt
  | line :: rest => let* _ := on_process (on_log (Log.info log line)) in log_lines rest
  end.
Definition usage (port : json) : list string :=
  let url := "http://localhost:" +:+ py_str port in
  ["Starting SSE example server on port " +:+ py_str port; "Available endpoints:";
   "  - " +:+ url +:+ "/sse/echo"; "  - " +:+ url +:+ "/sse/counter"; "  - " +:+ url +:+ "/sse/clock";
   "  - " +:+ url +:+ "/sse/stats"; ""; "Example usage:"; "  export PYPEPPER_SSE_API_KEY=your-local-key";
   "  curl -N -H " +:+ String "034" "X-API-Key: $PYPEPPER_SSE_API_KEY" +:+ String "034" (" " +:+ url +:+ "/sse/echo")].
(** The dash of the warning is a wider one in the source. *)
Definition sse_main (logo : string) (uvicorn_run : FastAPI → UvicornOptions → MA unit) : MA unit :=
  let* _ := on_process (log_logo read_file logo) in
  let* _ := on_process handle_signals in
  let* _ := on_process (load_config abspath parse_known_args read_file safe_load box no_attribute None) in
  let* yml := on_process get_yml_config in
  let* _ := on_server (m_modify (λ s, mkServer (sv_security s) (sv_streams s) (sse_view (default JNull yml)))) in
  let* _ := on_process (on_setup (StoreConfig.setup_from_config open_sql open_mongo yml)) in
  let* demo_key := on_server (_inject_demo_api_key_from_env environ) in
  let yml := default JNull yml in
  let* most := m_of_outcome (fields yml ["sse"; "maxTotalConnections"]) in
  let* _ := log_lines ["Max connections: " +:+ py_str most] in
  let* enabled := m_of_outcome (fields yml ["sse"; "authentication"; "enabled"]) in
  let* _ := log_lines ["Authentication: " +:+ py_str enabled] in
  let* _ := (if negb (opt_str_truthy demo_key) && py_truthy enabled then
               on_process (on_log (warn log ("No PYPEPPER_SSE_API_KEY set; validKeys is empty "
                 +:+ "- SSE auth will reject requests")))
             else m_ret tt) in
  let* port := m_of_outcome (fields yml ["network"; "httpServer"; "port"]) in
  let* _ := log_lines (usage port) in
  uvicorn_run sse_app (mkOptions (JStr "0.0.0.0") port 30 None None None false).
End SseMain.

(** The end of a process by a signal: traces flushed, the log drained and closed,
    then the abort. *)
Lemma signal_ends_process {X L E : Type} `{!Loguru L} sig (p : Process X L E) p' :
  signal_handler sig p = (Ret tt, p') →
  p_aborted p' = true ∧ _provider (p_tracing p') = None
  ∧ flushed (p_tracing p') = flushed (p_tracing p) ++ option_list (_provider (p_tracing p)).
Proof.
  unfold signal_handler, shutdown. intros ([] & p1 & H1 & H)%bind_ret_inv.
  pose proof (log_at_quiet log INFO "PID={}, Signal={}({}), Frame={}, system exit" p) as Q.
  unfold Log.info in H1. rewrite H1 in Q. destruct Q as [_ Qt _ _ _]. cbn [snd] in Qt.
  rewrite bind_eq in H. unfold on_tracing in H at 1. cbn [tracing_shutdown m_modify] in H.
  apply bind_ret_inv in H as ([] & p2 & H2 & H). injection H as <-. unfold on_log in H2.
  destruct (log_close _) as [o l]. injection H2 as _ <-. cbn. by rewrite Qt.
Qed.

(** ** A server that starts *)
Module StartupExamples.
Import HttpExamples StoreConfigExamples LogExamples.
Definition yml_server : json :=
  JObj [("network", JObj [("ip", JNull); ("httpServer", server true 8080 []); ("httpsServer", server false 8443 [])]);
        ("log", JObj [("level", JStr "INFO"); ("colorize", JBool false)]);
        ("scheduler", JObj [("jobStore", JObj [("backend", JStr "mysql"); ("username", JStr "u");
          ("password", JStr "p"); ("host", JStr "h"); ("port", JStr "3307"); ("db", JStr "d")])])].
Definition read (name : string) : M nat string := m_ret name.
Definition idle (log : note) : Process unit note nat :=
  mkProcess s0 (mkTracing None None [] false) (mkLogging "TRACE" (JBool true) log) (version_new 0%nat) [] false.
Abbreviation run_main uv := (server_main (λ n, n) (λ d, Ret (Some d, [])) read (λ _, Ret yml_server) Ret
  missing (λ _ _, Ret tt) (λ _, Ret tt) "logo" true uv (idle [])).
Definition uv : FastAPI → UvicornOptions → M (Process unit note nat) unit := λ _ _, m_ret tt.

Lemma server_main_starts_configured_witness :
  ∃ p', booted (λ _ _, Ret tt) (λ _, Ret tt) yml_server (idle []) p'
    ∧ serves missing yml_server (mkOptions (JStr "0.0.0.0") (JInt 8080) 30 None None None false)
    ∧ (run_main uv).2 = p'.
Proof.
  destruct (server_main_starts_configured (λ n, n) (λ d, Ret (Some d, [])) read (λ _, Ret yml_server) Ret
    missing (λ _ _, Ret tt) (λ _, Ret tt) "logo" true uv (idle []))
    as [(e & p' & H & _)|(yml & opts & p' & Hb & H & Hs & Hm)].
  - exfalso. apply (f_equal fst) in H. vm_compute in H. discriminate H.
  - assert (yml = yml_server) as -> by (apply (f_equal fst) in Hb; vm_compute in Hb; by injection Hb as <-).
    assert (opts = mkOptions (JStr "0.0.0.0") (JInt 8080) 30 None None None false) as ->.
    { destruct Hs as [net port Hn Hp Hs Hport | net https port mutual Hn Hp]; injection Hn as <-; [| discriminate Hp].
      vm_compute in Hport. injection Hport as <-. reflexivity. }
    exists p'. split_and!; [done | done |]. by rewrite Hm.
Defined.
End StartupExamples.
