(* ===== verification/Config.v ===== *)
(** * Config: the typed configuration

    The [Conf*] classes of [src/pypepper/common/config.py] declare the types of a
    configuration; at run time it is the [Box] of a YAML document.  A document of
    the declared types ([document]) is safe to read: the server, the connection
    limits, the log and tracing set-up and the SSE gate see the values of the
    record, and no attribute is missing. *)
From S2P Require Import Prelude Dict Json PyValues StoreConfig SseHub SseSecurity Utils Http Log Startup.

Record ConfHTTPServer : Type := mkHTTPServer { http_enable : bool; http_port : Z }.
Record ConfHTTPSServer : Type := mkHTTPSServer {
  https_enable : bool; https_port : Z; mutualTLS : bool; certFile : string; keyFile : string; caFile : string }.
Record ConfNetwork : Type := mkNetwork { ip : string; httpServer : ConfHTTPServer; httpsServer : ConfHTTPSServer }.
Record ConfLog : Type := mkLog { level : string; log_colorize : bool }.
Record ConfSSEAuthentication : Type := mkAuthentication { auth_on : bool; valid_keys : list json }.
Record ConfSSERateLimit : Type := mkRateLimit { rate_on : bool; max_per_minute : Z }.
Record ConfSSE : Type := mkSSE {
  maxTotalConnections : Z; maxConnectionsPerIP : Z; maxQueueSize : Z; streamTimeoutSeconds : Z;
  authentication : ConfSSEAuthentication; rateLimit : ConfSSERateLimit }.
Record ConfTracingOTLP : Type := mkOTLP { otlp_enabled : bool; endpoint : string }.
Record ConfTracing : Type := mkConfTracing {
  tracing_enabled : bool; serviceName : string; tracing_console : bool; otlp : ConfTracingOTLP }.
Record ConfSchedulerJobStore : Type := mkJobStore {
  backend : string; js_uri : option string; js_host : option string; js_port : option Z; js_username : option string;
  js_password : option string; js_db : option string; sslmode : option string; js_charset : option string;
  auth_source : option string }.
Record ConfScheduler : Type := mkScheduler { jobStore : ConfSchedulerJobStore }.
Record YmlConfig : Type := mkYml {
  network : ConfNetwork; yml_log : ConfLog; sse : ConfSSE; tracing : ConfTracing; scheduler : ConfScheduler;
  custom : json }.

(** ** The document of a configuration *)
Definition opt_str (o : option string) : json := match o with Some s => JStr s | None => JNull end.
Definition network_doc (c : ConfNetwork) : json :=
  let h := httpServer c in let s := httpsServer c in
  JObj [("ip", JStr (ip c));
    ("httpServer", JObj [("enable", JBool (http_enable h)); ("port", JInt (http_port h))]);
    ("httpsServer", JObj [("enable", JBool (https_enable s)); ("port", JInt (https_port s));
       ("mutualTLS", JBool (mutualTLS s)); ("certFile", JStr (certFile s)); ("keyFile", JStr (keyFile s));
       ("caFile", JStr (caFile s))])].
Definition sse_doc (c : ConfSSE) : json :=
  JObj [("maxTotalConnections", JInt (maxTotalConnections c)); ("maxConnectionsPerIP", JInt (maxConnectionsPerIP c));
    ("maxQueueSize", JInt (maxQueueSize c)); ("streamTimeoutSeconds", JInt (streamTimeoutSeconds c));
    ("authentication", JObj [("enabled", JBool (auth_on (authentication c)));
       ("validKeys", JArr (valid_keys (authentication c)))]);
    ("rateLimit", JObj [("enabled", JBool (rate_on (rateLimit c)));
       ("maxRequestsPerMinute", JInt (max_per_minute (rateLimit c)))])].
Definition tracing_doc (c : ConfTracing) : json :=
  JObj [("enabled", JBool (tracing_enabled c)); ("serviceName", JStr (serviceName c)); ("console", JBool (tracing_console c));
    ("otlp", JObj [("enabled", JBool (otlp_enabled (otlp c))); ("endpoint", JStr (endpoint (otlp c)))])].
Definition job_store_doc (c : ConfSchedulerJobStore) : json :=
  JObj [("backend", JStr (backend c)); ("uri", opt_str (js_uri c)); ("host", opt_str (js_host c));
    ("port", match js_port c with Some n => JInt n | None => JNull end); ("username", opt_str (js_username c));
    ("password", opt_str (js_password c)); ("db", opt_str (js_db c)); ("sslmode", opt_str (sslmode c));
    ("charset", opt_str (js_charset c)); ("auth_source", opt_str (auth_source c))].
Definition document (c : YmlConfig) : json :=
  JObj [("network", network_doc (network c));
    ("log", JObj [("level", JStr (level (yml_log c))); ("colorize", JBool (log_colorize (yml_log c)))]);
    ("sse", sse_doc (sse c)); ("tracing", tracing_doc (tracing c));
    ("scheduler", JObj [("jobStore", job_store_doc (jobStore (scheduler c)))]); ("custom", custom c)].

(** ** The server *)
Section Server.
Context {W : Type} (uvicorn_run : FastAPI → UvicornOptions → M W unit) (native : bool).
Context (no_attribute : json → string → exn).

(** [server.run] on a record. *)
Definition run_typed (c : ConfNetwork) (handlers_ : option ITaskHandler) : M W unit :=
  let h := httpServer c in let s := httpsServer c in
  let host := JStr (if str_truthy (ip c) then ip c else "0.0.0.0") in
  if http_enable h && https_enable s then
    m_raise (RuntimeError "Both httpServer and httpsServer are enabled; enable only one")
  else if http_enable h then
    serve uvicorn_run native handlers_ (mkOptions host (JInt (http_port h)) 30 None None None false)
  else if https_enable s then
    if negb (str_truthy (certFile s)) || negb (str_truthy (keyFile s)) then
      m_raise (ValueError "HTTPS enabled but certFile/keyFile missing in network.httpsServer config")
    else if mutualTLS s && negb (str_truthy (caFile s)) then
      m_raise (ValueError "HTTPS mutualTLS enabled but caFile missing in network.httpsServer config")
    else serve uvicorn_run native handlers_
           (mkOptions host (JInt (https_port s)) 30 (Some (JStr (certFile s))) (Some (JStr (keyFile s)))
              (if mutualTLS s then Some (JStr (caFile s)) else None) (mutualTLS s))
  else m_raise (RuntimeError "Neither httpServer nor httpsServer is enabled in config").

Lemma py_or_str s d : py_or (Some (JStr s)) (JStr d) = JStr (if str_truthy s then s else d).
Proof. cbn. by destruct (str_truthy s). Qed.

(** The attributes the server reads, as a typed configuration answers them. *)
Abbreviation fld := (field no_attribute).
Abbreviation opt_fld := (field_or_none no_attribute).
Lemma network_of_document c : fld (document c) "network" = Ret (network_doc (network c)).
Proof. reflexivity. Qed.
Lemma servers_of_network n :
  enabled no_attribute (network_doc n) "httpServer" = Ret (http_enable (httpServer n))
  ∧ port_of no_attribute (network_doc n) "httpServer" = Ret (JInt (http_port (httpServer n)))
  ∧ enabled no_attribute (network_doc n) "httpsServer" = Ret (https_enable (httpsServer n))
  ∧ port_of no_attribute (network_doc n) "httpsServer" = Ret (JInt (https_port (httpsServer n)))
  ∧ opt_fld (network_doc n) "ip" = JStr (ip n).
Proof. split_and!; reflexivity. Qed.
Lemma tls_of_network n : ∃ https, let s := httpsServer n in
  fld (network_doc n) "httpsServer" = Ret https
  ∧ opt_fld https "certFile" = JStr (certFile s) ∧ opt_fld https "keyFile" = JStr (keyFile s)
  ∧ opt_fld https "caFile" = JStr (caFile s) ∧ opt_fld https "mutualTLS" = JBool (mutualTLS s).
Proof. eexists. split_and!; reflexivity. Qed.

Lemma truthy_or_empty s : (if str_truthy s then s else "") = s.
Proof. by destruct s. Qed.

Lemma run_with_tls_document c port handlers_ host w :
  let s := httpsServer (network c) in
  run_with_tls uvicorn_run native no_attribute (document c) port handlers_ host w
  = (if negb (str_truthy (certFile s)) || negb (str_truthy (keyFile s)) then
       m_raise (ValueError "HTTPS enabled but certFile/keyFile missing in network.httpsServer config")
     else if mutualTLS s && negb (str_truthy (caFile s)) then
       m_raise (ValueError "HTTPS mutualTLS enabled but caFile missing in network.httpsServer config")
     else serve uvicorn_run native handlers_
            (mkOptions host port 30 (Some (JStr (certFile s))) (Some (JStr (keyFile s)))
               (if mutualTLS s then Some (JStr (caFile s)) else None) (mutualTLS s))) w.
Proof.
  cbv zeta. destruct (tls_of_network (network c)) as (https & Hs & Hc & Hk & Ha & Hm).
  unfold run_with_tls. rewrite bind_eq, network_of_document. cbn [m_of_outcome].
  rewrite bind_eq, Hs. cbn [m_of_outcome]. rewrite Hc, Hk, Ha, Hm, !py_or_str, !truthy_or_empty.
  cbn [py_truthy]. by repeat case_match.
Qed.

(** The server reads a typed configuration without an attribute error. *)
Lemma run_document c handlers_ w :
  Http.run uvicorn_run native no_attribute (document c) handlers_ w = run_typed (network c) handlers_ w.
Proof.
  destruct (servers_of_network (network c)) as (Hh & Hp & Hs & Hsp & Hip).
  unfold Http.run, run_typed. rewrite bind_eq, network_of_document. cbn [m_of_outcome].
  rewrite bind_eq, Hh, Hip, py_or_str. cbn [m_of_outcome]. rewrite bind_eq.
  destruct (http_enable _) eqn:E1; rewrite ?Hs; cbn [m_of_outcome m_ret].
  - destruct (https_enable _) eqn:E2; cbn [andb]; [done |]. by rewrite bind_eq, Hp.
  - rewrite bind_eq. cbn [m_of_outcome andb]. destruct (https_enable _) eqn:E2; [| done].
    rewrite bind_eq, Hsp. cbn [m_of_outcome]. rewrite run_with_tls_document. by repeat case_match.
Qed.
End Server.

(** ** Limits, log, tracing, gate *)
(** [getattr(config.get_yml_config().sse, name, None)]. *)
Definition sse_value (c : YmlConfig) (name : string) : outcome json :=
  Ret (Http.get_attr (Http.get_attr (document c) "sse") name).
Lemma limits_of_document c w :
  _max_connections_override w = None → _max_connections_per_ip_override w = None →
  _effective_max_connections (sse_value c) w = Ret (maxTotalConnections (sse c))
  ∧ MAX_CONNECTIONS_PER_IP (sse_value c) w = Ret (maxConnectionsPerIP (sse c))
  ∧ max_queue_size (sse_value c) = Ret (maxQueueSize (sse c)).
Proof. unfold _effective_max_connections, MAX_CONNECTIONS_PER_IP. by intros -> ->. Qed.

Lemma log_of_document {X L E} `{!Loguru L} no_attribute c (p : Process X L E) :
  configure_log no_attribute (document c) p
  = (let* _ := on_log (set_log_level (JStr (level (yml_log c)))) in
     on_log (set_colorize (JBool (log_colorize (yml_log c))))) p.
Proof. unfold configure_log. cbn -[set_log_level set_colorize on_log]. reflexivity. Qed.

(** The provider of a typed configuration. *)
Definition typed_provider (c : ConfTracing) : option TracerProvider :=
  if negb (tracing_enabled c) then None
  else if negb (tracing_console c) && negb (otlp_enabled (otlp c)) then None
  else Some (mkProvider (JStr (if str_truthy (serviceName c) then serviceName c else "pypepper")) (tracing_console c)
    (if otlp_enabled (otlp c)
     then Some (traces_endpoint (JStr (if str_truthy (endpoint (otlp c)) then endpoint (otlp c) else "http://127.0.0.1:4318")))
     else None)).
Lemma attrs_of_tracing c : let cfg := tracing_doc (tracing c) in let t := tracing c in
  Http.get_attr (document c) "tracing" = cfg ∧ has_attr (document c) "serviceInfo" = false
  ∧ Http.get_attr cfg "enabled" = JBool (tracing_enabled t)
  ∧ Http.get_attr cfg "serviceName" = JStr (serviceName t)
  ∧ Http.get_attr cfg "console" = JBool (tracing_console t)
  ∧ Http.get_attr (Http.get_attr cfg "otlp") "enabled" = JBool (otlp_enabled (otlp t))
  ∧ Http.get_attr (Http.get_attr cfg "otlp") "endpoint" = JStr (endpoint (otlp t)).
Proof. repeat split; reflexivity. Qed.
Lemma provider_of_document c : configured_provider (document c) = typed_provider (tracing c).
Proof.
  destruct (attrs_of_tracing c) as (Ht & Hi & He & Hn & Hc & Ho & Hp).
  unfold configured_provider, typed_provider. rewrite Ht, Hi, He, Hn, Hc, Ho, Hp, py_or_str, andb_false_r.
  cbn [py_truthy]. destruct (tracing_enabled _); cbn [negb]; [| done].
  destruct (_ && _); [done |]. by destruct (str_truthy (serviceName _)).
Qed.

(** The gate's configuration, as [SseSecurity] and [Startup.sse_main] take it. *)
Definition security_conf (c : YmlConfig) : SecurityConf :=
  let a := authentication (sse c) in let r := rateLimit (sse c) in
  mkSecurityConf (auth_on a) (valid_keys a) (rate_on r) (max_per_minute r).

Lemma declared_backend_of_document c : declares (document c) (backend (jobStore (scheduler c))).
Proof. reflexivity. Qed.
