(* ===== verification/Scripts.v ===== *)
(** * Scripts: the checks of [src/scripts]

    [check_devenv_healthy.py] (are the compose services usable), [pip_audit.py]
    (what is audited and with which exit code) and [check_mutable_class_attrs.py]
    (class-level state, on Python's syntax trees).  Processes, files and sockets
    are operations of a type class. *)
From S2P Require Import Prelude Dict Json PyValues.

(** ** Text: [str.splitlines], [split], [partition], [rstrip], [startswith] *)
Definition is_break (c : ascii) : bool :=
  let n := code c in
  ((10 <=? n) && (n <=? 13) || (28 <=? n) && (n <=? 30) || (n =? 133))%nat.
Definition cons_line (c : ascii) (lines : list string) : list string :=
  match lines with [] => [String c ""] | l :: ls => String c l :: ls end.
Fixpoint splitlines (s : string) : list string :=
  match s with
  | "" => []
  | String "013" (String "010" s') => "" :: splitlines s'
  | String c s' => if is_break c then "" :: splitlines s' else cons_line c (splitlines s')
  end.

Fixpoint split_ws (s : string) : list string :=
  match s with
  | "" => []
  | String c s' =>
      if py_space c then split_ws s'
      else match s' with
           | "" => [String c ""]
           | String d _ => if py_space d then String c "" :: split_ws s' else cons_line c (split_ws s')
           end
  end.

(** [s.split(sep, 1)[0]] and [s.partition(sep)[0]]. *)
Fixpoint before (sep : ascii) (s : string) : string :=
  match s with
  | "" => ""
  | String c s' => if Ascii.eqb c sep then "" else String c (before sep s')
  end.
Definition rstrip (s : string) : string := str_rev (lstrip (str_rev s "")) "".
Definition starts_with (c : ascii) (s : string) : bool :=
  match s with String d _ => Ascii.eqb c d | "" => false end.

(** [l[i]]. *)
Definition list_item {A} (l : list A) (i : nat) : outcome A :=
  match l !! i with Some x => Ret x | None => Raise (OtherException "IndexError" "list index out of range") end.

Lemma splitlines_cons c s :
  splitlines (String c s) =
    if is_break c then
      "" :: splitlines (match c, s with
                        | "013"%char, String "010" s' => s'
                        | _, _ => s
                        end)
    else cons_line c (splitlines s).
Proof.
  destruct c as [[] [] [] [] [] [] [] []]; try reflexivity.
  destruct s as [|[[] [] [] [] [] [] [] []] s]; reflexivity.
Qed.

(** Joining lines without breaks and splitting gives the lines back. *)
Definition no_break (s : string) : Prop := Forall (λ c, is_break c = false) (String.list_ascii_of_string s).
Definition unlines (ls : list string) : string :=
  foldr (λ l acc, l +:+ String "010" acc) "" ls.

Lemma splitlines_line l s : no_break l → splitlines (l +:+ String "010" s) = l :: splitlines s.
Proof.
  unfold no_break. induction l as [|c l IH]; cbn [String.append String.list_ascii_of_string].
  - intros _. by rewrite splitlines_cons.
  - intros [Hc Hl]%Forall_cons. by rewrite splitlines_cons, Hc, IH.
Qed.
Lemma splitlines_unlines ls : Forall no_break ls → splitlines (unlines ls) = ls.
Proof.
  induction ls as [|l ls IH]; [done |]. intros [Hl Hls]%Forall_cons.
  change (unlines (l :: ls)) with (l +:+ String "010" (unlines ls)).
  by rewrite splitlines_line, IH.
Qed.
Lemma splitlines_no_break s : Forall no_break (splitlines s).
Proof.
  remember (String.length s) as n eqn:Hn. revert s Hn.
  induction n as [n IH] using lt_wf_ind; intros [|c s] ->; [constructor |].
  rewrite splitlines_cons. destruct (is_break c) eqn:Hc.
  - constructor; [constructor |].
    assert (∀ t, (String.length t < Datatypes.S (String.length s))%nat → Forall no_break (splitlines t)) as IH'
      by (intros t Ht; by eapply IH).
    destruct c as [[] [] [] [] [] [] [] []]; try (apply IH'; cbn; lia).
    destruct s as [|[[] [] [] [] [] [] [] []] s]; apply IH'; cbn; lia.
  - pose proof (IH (String.length s) ltac:(cbn; lia) s eq_refl) as H.
    destruct (splitlines s) as [|l ls]; cbn; [repeat constructor; done |].
    apply Forall_cons in H as [Hl Hls]. constructor; [| done]. by constructor.
Qed.
Lemma join_newline ls : ls ≠ [] → join (String "010" "") ls +:+ String "010" "" = unlines ls.
Proof.
  induction ls as [|l [|l' ls] IH]; [done | by intros _ |]. intros _.
  rewrite join_cons2, !str_app_assoc, IH by done. reflexivity.
Qed.

(** ** The host: processes, files and sockets *)
(** [Exited] has a code that is not negative: death by a signal is not modelled. *)
Inductive process : Type :=
| Exited (code : Z) (stdout stderr : string)
| NotInstalled.
Definition FileNotFoundError (msg : string) : exn := OtherException "FileNotFoundError" msg.
Definition is_file_not_found (e : exn) : bool :=
  match e with OtherException cls _ => String.eqb cls "FileNotFoundError" | _ => false end.

Class Host (W : Type) : Type := {
  subprocess_run : list string → M W process;      (** output captured *)
  subprocess_call : list string → M W Z;           (** exit code; may raise *)
  create_connection : string → Z → M W unit;       (** and close it *)
  is_file : string → M W bool;
  read_text : string → M W string;
  write_text : string → string → M W unit;
  which_uv : M W (option string);
  mkdtemp : M W string;
  rmtree : string → M W unit;
  print_line : string → M W unit;
}.

(** [isinstance(e, OSError)], of the exceptions a socket raises. *)
Definition OS_ERRORS : list string :=
  ["OSError"; "ConnectionError"; "ConnectionRefusedError"; "ConnectionResetError"; "ConnectionAbortedError";
   "BrokenPipeError"; "BlockingIOError"; "InterruptedError"; "PermissionError"; "gaierror"; "herror"].
Definition is_os_error (e : exn) : bool :=
  match e with
  | TimeoutError _ => true
  | OtherException cls _ => bool_decide (cls ∈ OS_ERRORS)
  | _ => false
  end.

(** [for x in l: f(x)], collecting the results in order. *)
Fixpoint for_each {W A B} (f : A → M W (list B)) (l : list A) : M W (list B) :=
  match l with
  | [] => m_ret []
  | x :: l' => let* ys := f x in let* zs := for_each f l' in m_ret (ys ++ zs)
  end.

(** ** [check_devenv_healthy.py] *)
Module Devenv.
(** [tcp_port_open(host, port)]. *)
Definition tcp_port_open {W} `{!Host W} (host : string) (port : Z) : M W bool :=
  m_except is_os_error (let* _ := create_connection host port in m_ret true) (λ _, m_ret false).
Definition EXPECTED_SERVICES : list string := ["mysql"; "mongo"; "postgres"].
Definition SERVICE_PORTS : dict Z := [("mysql", 3306%Z); ("mongo", 27017%Z); ("postgres", 5432%Z)].
Definition _UNHEALTHY : list string := ["unhealthy"; "starting"].

(** [[json.loads(line) for line in lines if line.strip()]]. *)
Fixpoint loads_lines (lines : list string) : outcome (list json) :=
  match lines with
  | [] => Ret []
  | line :: lines' =>
      if str_truthy (strip line) then
        match loads line with
        | None => Raise JSONDecodeError
        | Some j =>
            match loads_lines lines' with Ret js => Ret (j :: js) | Raise e => Raise e end
        end
      else loads_lines lines'
  end.
(** [_parse_ps_json(raw)]. *)
Definition _parse_ps_json (raw : string) : outcome (list json) :=
  let text := strip raw in
  if negb (str_truthy text) then Ret []
  else if starts_with "[" text then
    match loads text with
    | None => Raise JSONDecodeError
    | Some (JArr data) => Ret data
    | Some _ => Raise (ValueError "compose ps JSON array expected")
    end
  else loads_lines (splitlines text).

(** [str(row.get(key) or "")]. *)
Definition text_field (row : json) (key : string) : outcome string :=
  match py_get row key with
  | Ret got => Ret (py_str (py_or got (JStr "")))
  | Raise e => Raise e
  end.
(** The loop that fills [by_service]. *)
Fixpoint index_rows (rows : list json) (by_service : dict json) : outcome (dict json) :=
  match rows with
  | [] => Ret by_service
  | row :: rows' =>
      match text_field row "Service" with
      | Ret name =>
          index_rows rows' (if str_truthy name then dict_set name row by_service else by_service)
      | Raise e => Raise e
      end
  end.
(** [f"State={row.get('State')!r} Health={row.get('Health')!r}"]. *)
Definition row_get (row : json) (key : string) : json :=
  match py_get row key with Ret (Some v) => v | _ => JNull end.
Definition describe (svc : string) (row : json) : string :=
  svc +:+ ": State=" +:+ py_repr (row_get row "State") +:+ " Health=" +:+ py_repr (row_get row "Health").

Section Check.
Context {W : Type} `{!Host W}.

(** One turn of the loop over [expected]: the problems it appends. *)
Definition check_service (by_service : dict json) (svc : string) : M W (list string) :=
  match dict_get svc by_service with
  | None => m_ret [svc +:+ ": missing from compose ps"]
  | Some row =>
      let* state := m_of_outcome (text_field row "State") in
      let* health := m_of_outcome (text_field row "Health") in
      if negb (String.eqb (lower state) "running") then m_ret [describe svc row]
      else if String.eqb (lower health) "healthy" then m_ret []
      else if bool_decide (lower health ∈ _UNHEALTHY) then m_ret [describe svc row]
      else
        match dict_get svc SERVICE_PORTS with
        | None => m_raise (KeyError svc)
        | Some port =>
            let* open := tcp_port_open "127.0.0.1" port in
            if open then m_ret []
            else m_ret [describe svc row +:+ " and 127.0.0.1:" +:+ str_of_Z port +:+ " closed"]
        end
  end.
(** [check_services(rows, expected)]. *)
Definition check_services (rows : list json) (expected : list string) : M W (list string) :=
  let* by_service := m_of_outcome (index_rows rows []) in
  for_each (check_service by_service) expected.

Fixpoint print_lines (ls : list string) : M W unit :=
  match ls with [] => m_ret tt | l :: ls' => let* _ := print_line l in print_lines ls' end.
Definition is_value_error (e : exn) : bool := match e with ValueError _ => true | _ => false end.
Definition value_error_text (e : exn) : string := match e with ValueError m => m | _ => "" end.

(** [main()] for the compose file [file]. *)
Definition main (file : string) : M W Z :=
  let cmd := ["docker"; "compose"; "-f"; file; "ps"; "--format"; "json"] in
  let* proc := subprocess_run cmd in
  match proc with
  | NotInstalled =>
      let* _ := print_line "error: docker is required to check devenv health" in m_ret 2%Z
  | Exited code stdout stderr =>
      if negb (code =? 0)%Z then
        let err := strip (if str_truthy stderr then stderr
                          else if str_truthy stdout then stdout
                          else "Command '[" +:+ join ", " (map repr_str cmd)
                               +:+ "]' returned non-zero exit status " +:+ str_of_Z code +:+ ".") in
        let* _ := print_line ("error: " +:+ join " " cmd +:+ " failed: " +:+ err) in m_ret 1%Z
      else
        let* found := m_except is_value_error
          (let* rows := m_of_outcome (_parse_ps_json stdout) in
           let* problems := check_services rows EXPECTED_SERVICES in
           m_ret (Some problems))
          (λ e, let* _ := print_line ("error: could not parse compose ps JSON: " +:+ value_error_text e) in
                m_ret None) in
        match found with
        | None => m_ret 1%Z
        | Some [] =>
            let* _ := print_line (str_of_Z (Z.of_nat (length EXPECTED_SERVICES))
                                  +:+ " devenv services running and healthy") in m_ret 0%Z
        | Some problems =>
            let* _ := print_line "devenv is not healthy:" in
            let* _ := print_lines (map (λ l, "  " +:+ l) problems) in
            m_ret 1%Z
        end
  end.
End Check.

(** What usable means: the last row the service has says so, or says nothing and
    its port answers. *)
Definition named (svc : string) (row : json) : Prop := text_field row "Service" = Ret svc.
#[export] Instance named_dec svc row : Decision (named svc row).
Proof.
  unfold named. destruct (text_field row "Service") as [n|e]; [| by right].
  destruct (decide (n = svc)) as [->|Hn]; [by left | right; congruence].
Defined.
Definition service_row (rows : list json) (svc : string) : option json := last (filter (named svc) rows).
Definition field_is (row : json) (key : string) (p : string → Prop) : Prop :=
  ∃ t, text_field row key = Ret t ∧ p (lower t).
Definition usable (listening : Z → bool) (rows : list json) (svc : string) : Prop :=
  ∃ row, service_row rows svc = Some row
    ∧ field_is row "State" (λ t, t = "running")
    ∧ (field_is row "Health" (λ t, t = "healthy")
       ∨ field_is row "Health" (λ t, t ∉ _UNHEALTHY)
         ∧ ∃ port, dict_get svc SERVICE_PORTS = Some port ∧ listening port = true).
Definition is_row (row : json) : Prop := ∃ l, row = JObj l.

Lemma text_field_row row key : is_row row → ∃ t, text_field row key = Ret t.
Proof. intros [l ->]. by eexists. Qed.

Lemma index_rows_last rows acc :
  Forall is_row rows →
  ∃ d, index_rows rows acc = Ret d
    ∧ ∀ svc, svc ≠ "" → dict_get svc d = match service_row rows svc with
                                         | Some row => Some row
                                         | None => dict_get svc acc
                                         end.
Proof.
  revert acc. induction rows as [|row rows IH]; intros acc; [by exists acc |].
  intros [Hr Hrs]%Forall_cons. destruct (text_field_row row "Service" Hr) as [n Hn].
  cbn [index_rows]. rewrite Hn.
  destruct (IH (if str_truthy n then dict_set n row acc else acc) Hrs) as (d & -> & Hd).
  exists d. split; [done |]. intros svc Hs. rewrite Hd by done. unfold service_row.
  rewrite filter_cons. destruct (decide (named svc row)) as [Hnm|Hnm].
  - assert (n = svc) as -> by (unfold named in Hnm; congruence).
    apply str_truthy_true in Hs as ->. rewrite last_cons.
    destruct (last (filter (named svc) rows)); [done |].
    by rewrite dict_get_map, dict_map_set, lookup_insert_eq.
  - destruct (last (filter (named svc) rows)); [done |]. destruct (str_truthy n); [| done].
    rewrite !dict_get_map, dict_map_set, lookup_insert_ne; [done |]. intros ->. by apply Hnm.
Qed.

(** All that parsing the output raises is caught by [main]. *)
Lemma loads_lines_raises lines e : loads_lines lines = Raise e → is_value_error e = true.
Proof.
  induction lines as [|l ls IH]; cbn [loads_lines]; [done |].
  destruct (str_truthy (strip l)); [| done]. destruct (loads l); [| by intros [= <-]].
  destruct (loads_lines ls); [done |]. intros [= ->]. by apply IH.
Qed.
Lemma parse_ps_raises raw e : _parse_ps_json raw = Raise e → is_value_error e = true.
Proof.
  unfold _parse_ps_json. destruct (str_truthy (strip raw)); cbn [negb]; [| done].
  destruct (starts_with _ _); [| apply loads_lines_raises].
  destruct (loads (strip raw)) as [[]|]; by intros [= <-].
Qed.

Section Verdict.
Context {W : Type} `{!Host W} (listening : Z → bool).
(** Ports do not change while the check runs. *)
Hypothesis tcp_law : ∀ h p w, ∃ o w', create_connection h p w = (o, w')
  ∧ if listening p then o = Ret tt else ∃ e, o = Raise e ∧ is_os_error e = true.
Lemma tcp_port_open_run h p w : ∃ w', tcp_port_open h p w = (Ret (listening p), w').
Proof.
  destruct (tcp_law h p w) as (o & w' & Hc & Ho). exists w'. unfold tcp_port_open, m_except. rewrite bind_eq, Hc.
  destruct (listening p); [by subst o |]. destruct Ho as (e & -> & He). by rewrite He.
Qed.

Lemma check_service_usable rows d svc w :
  Forall is_row rows → svc ∈ EXPECTED_SERVICES →
  dict_get svc d = service_row rows svc →
  ∃ ps w', check_service d svc w = (Ret ps, w') ∧ (ps = [] ↔ usable listening rows svc).
Proof.
  intros Hrows Hsvc Hd. unfold check_service, usable. rewrite Hd.
  destruct (service_row rows svc) as [row|] eqn:Hr.
  2: { exists [svc +:+ ": missing from compose ps"], w. split; [done |].
       split; [intros [=] |]. by intros (? & ? & _). }
  assert (is_row row) as Hrow.
  { unfold service_row in Hr. apply last_Some_elem_of, list_elem_of_filter in Hr as [_ Hr].
    by eapply Forall_forall in Hrows. }
  destruct (text_field_row row "State" Hrow) as [st Hst].
  destruct (text_field_row row "Health" Hrow) as [he Hhe].
  assert (∃ port, dict_get svc SERVICE_PORTS = Some port) as [port Hport].
  { unfold EXPECTED_SERVICES in Hsvc. rewrite !elem_of_cons in Hsvc.
    destruct Hsvc as [-> | [-> | [-> | Hsvc]]]; [by eexists.. | by apply elem_of_nil in Hsvc]. }
  assert (∀ key t p, text_field row key = Ret t → field_is row key p ↔ p (lower t)) as Hf.
  { intros key t p Ht. unfold field_is. rewrite Ht. split; [| by exists t]. by intros (t' & [= <-] & ?). }
  rewrite Hst, Hhe, Hport. do 2 (rewrite bind_eq; cbn [m_of_outcome]).
  destruct (String.eqb_spec (lower st) "running") as [Hs|Hs]; cbn [negb].
  2: { eexists _, w. split; [reflexivity |]. split; [intros [=] |].
       intros (r & [= <-] & Hx & _). by apply (Hf _ st) in Hx. }
  destruct (String.eqb_spec (lower he) "healthy") as [Hh|Hh].
  { exists [], w. split; [done |]. split; [| done]. intros _. exists row.
    split; [done |]. split; [by apply (Hf _ st) |]. left. by apply (Hf _ he). }
  case_bool_decide as Hu.
  { eexists _, w. split; [reflexivity |]. split; [intros [=] |].
    intros (r & [= <-] & _ & [Hx | [Hx _]]); by apply (Hf _ he) in Hx. }
  destruct (tcp_port_open_run "127.0.0.1" port w) as [w' Hw]. rewrite (bind_ret_run _ _ _ _ _ Hw).
  destruct (listening port) eqn:Hl.
  - exists [], w'. split; [done |]. split; [| done]. intros _. exists row.
    split; [done |]. split; [by apply (Hf _ st) |]. right. split; [by apply (Hf _ he) |]. by exists port.
  - eexists _, w'. split; [reflexivity |]. split; [intros [=] |].
    intros (r & [= <-] & _ & [Hx | [_ (p & [= <-] & Hx)]]); [by apply (Hf _ he) in Hx | congruence].
Qed.

Lemma check_services_usable rows svcs w :
  Forall is_row rows → svcs ⊆ EXPECTED_SERVICES →
  ∃ ps w', check_services rows svcs w = (Ret ps, w')
    ∧ (ps = [] ↔ ∀ svc, svc ∈ svcs → usable listening rows svc).
Proof.
  intros Hrows Hsub. unfold check_services. destruct (index_rows_last rows [] Hrows) as (d & -> & Hd).
  rewrite bind_eq. cbn [m_of_outcome]. revert w. induction svcs as [|svc svcs IH]; intros w.
  { exists [], w. split; [done |]. split; [intros _ svc Hin; by apply elem_of_nil in Hin | done]. }
  cbn [for_each].
  assert (svc ∈ EXPECTED_SERVICES) as Hin by (apply Hsub; by left).
  destruct (check_service_usable rows d svc w Hrows Hin) as (ps & w1 & H1 & Hps).
  { rewrite Hd; [by destruct (service_row rows svc) |]. intros ->. unfold EXPECTED_SERVICES in Hin.
    rewrite !elem_of_cons in Hin. by destruct Hin as [? | [? | [? | ?%elem_of_nil]]]. }
  destruct (IH ltac:(intros x Hx; apply Hsub; by right) w1) as (qs & w2 & H2 & Hqs).
  exists (ps ++ qs), w2. rewrite (bind_ret_run _ _ _ _ _ H1), (bind_ret_run _ _ _ _ _ H2).
  split; [done |]. rewrite app_nil, Hps, Hqs. split.
  - intros [Ha Hb] x [-> | Hx]%elem_of_cons; auto.
  - intros H. split; [apply H; by left |]. intros x Hx. apply H. by right.
Qed.

Hypothesis print_law : ∀ l w, ∃ w', print_line l w = (Ret tt, w').

Lemma print_lines_law ls w : ∃ w', print_lines ls w = (Ret tt, w').
Proof.
  revert w. induction ls as [|l ls IH]; intros w; [by exists w |]. cbn [print_lines].
  destruct (print_law l w) as [w1 H1]. rewrite (bind_ret_run _ _ _ _ _ H1). apply IH.
Qed.
Lemma print_then {A} l (m : M W A) w : ∃ w', (let* _ := print_line l in m) w = m w'.
Proof. destruct (print_law l w) as [w1 H1]. exists w1. by rewrite (bind_ret_run _ _ _ _ _ H1). Qed.
Lemma print_then_ret {A} l (a : A) w : ∃ w', (let* _ := print_line l in m_ret a) w = (Ret a, w').
Proof. destruct (print_then l (m_ret a) w) as [w1 ->]. by exists w1. Qed.

(** The exit code of the health check, whatever [docker] does: 2 without it, 1
    when it fails or its output is no JSON, and otherwise 0 exactly when every
    expected service is usable - its last row is running and healthy, or running
    with no verdict on its health and its port answers - and 1 when one is not. *)
Theorem devenv_exit_code file w :
  match subprocess_run ["docker"; "compose"; "-f"; file; "ps"; "--format"; "json"] w with
  | (Ret NotInstalled, _) => ∃ w', main file w = (Ret 2%Z, w')
  | (Ret (Exited code out err), _) =>
      if (code =? 0)%Z then
        match _parse_ps_json out with
        | Raise _ => ∃ w', main file w = (Ret 1%Z, w')
        | Ret rows =>
            Forall is_row rows →
            ∃ c w', main file w = (Ret c, w') ∧ (c = 0 ∨ c = 1)%Z
              ∧ (c = 0%Z ↔ ∀ svc, svc ∈ EXPECTED_SERVICES → usable listening rows svc)
        end
      else ∃ w', main file w = (Ret 1%Z, w')
  | (Raise e, w1) => main file w = (Raise e, w1)
  end.
Proof.
  unfold main. destruct (subprocess_run _ w) as [[[code out err|]|e] w1] eqn:Hrun.
  3: { by rewrite (bind_raise_run _ _ _ _ _ Hrun). }
  2: { rewrite (bind_ret_run _ _ _ _ _ Hrun). apply print_then_ret. }
  rewrite (bind_ret_run _ _ _ _ _ Hrun). destruct (code =? 0)%Z; cbn [negb].
  2: { apply print_then_ret. }
  destruct (_parse_ps_json out) as [rows|e] eqn:Hp.
  - intros Hrows. destruct (check_services_usable rows EXPECTED_SERVICES w1 Hrows) as (ps & w2 & Hc & Hps);
      [done |].
    rewrite bind_eq. unfold m_except. rewrite bind_eq. cbn [m_of_outcome].
    rewrite (bind_ret_run _ _ _ _ _ Hc). cbn [m_ret].
    destruct ps as [|p ps].
    + destruct (print_then_ret (str_of_Z (Z.of_nat (length EXPECTED_SERVICES))
        +:+ " devenv services running and healthy") 0%Z w2) as [w3 ->].
      exists 0%Z, w3. split; [done |]. split; [by left |]. rewrite <- Hps. done.
    + destruct (print_law "devenv is not healthy:" w2) as [w3 H3]. rewrite (bind_ret_run _ _ _ _ _ H3).
      destruct (print_lines_law (map (λ l, "  " +:+ l) (p :: ps)) w3) as [w4 H4].
      rewrite (bind_ret_run _ _ _ _ _ H4). exists 1%Z, w4. split; [done |]. split; [by right |].
      rewrite <- Hps. done.
  - assert (is_value_error e = true) as He by (by eapply parse_ps_raises).
    rewrite bind_eq. unfold m_except. rewrite bind_eq. cbn [m_of_outcome]. rewrite He.
    destruct (print_then_ret ("error: could not parse compose ps JSON: " +:+ value_error_text e)
      (None : option (list string)) w1) as [w3 ->]. by exists w3.
Qed.
End Verdict.
End Devenv.

Module DevenvExamples.
Import Devenv.
(** A host whose [docker] prints [out], on which one port answers. *)
Record host : Type := mkHost { out : string; printed : list string }.
#[export] Instance host_ops : Host host := {
  subprocess_run _ := m_get (λ w, Exited 0 (out w) "");
  subprocess_call _ := m_ret 0%Z;
  create_connection _ p :=
    if (p =? 5432)%Z then m_ret tt else m_raise (OtherException "ConnectionRefusedError" "[Errno 111]");
  is_file _ := m_ret false;
  read_text _ := m_ret "";
  write_text _ _ := m_ret tt;
  which_uv := m_ret None;
  mkdtemp := m_ret "/tmp/x";
  rmtree _ := m_ret tt;
  print_line l := m_modify (λ w, mkHost (out w) (printed w ++ [l]));
}.
Definition row (svc state health : string) : json :=
  JObj [("Service", JStr svc); ("State", JStr state); ("Health", JStr health)].
Definition rows : list json :=
  [row "mysql" "running" "healthy"; row "mongo" "running" "starting"; row "postgres" "Running" "";
   row "mongo" "running" "Healthy"].
Definition ps_array : string := dump default_opts (JArr rows).
Definition ps_lines : string := unlines (map (dump default_opts) rows).

Example parse_array_ex : _parse_ps_json ps_array = Ret rows.
Proof. vm_compute. reflexivity. Qed.
Example parse_lines_ex : _parse_ps_json ps_lines = Ret rows.
Proof. vm_compute. reflexivity. Qed.
Example unhealthy_ex :
  (main "ci.yaml" (mkHost (dump default_opts (JArr [row "mysql" "exited" ""])) [])).2
  = mkHost (dump default_opts (JArr [row "mysql" "exited" ""]))
      ["devenv is not healthy:"; "  mysql: State='exited' Health=''";
       "  mongo: missing from compose ps"; "  postgres: missing from compose ps"].
Proof. vm_compute. reflexivity. Qed.

Lemma tcp_answers h p (w : host) : ∃ o w', create_connection h p w = (o, w')
  ∧ if (p =? 5432)%Z then o = Ret tt else ∃ e, o = Raise e ∧ is_os_error e = true.
Proof.
  cbn. destruct (p =? 5432)%Z; [by eexists _, _ |]. eexists _, _. split; [done |]. by eexists.
Qed.
Lemma print_returns l (w : host) : ∃ w', print_line l w = (Ret tt, w').
Proof. by eexists. Qed.
Lemma rows_are_rows : Forall is_row rows.
Proof. repeat constructor; by eexists. Qed.

Lemma devenv_exit_code_witness :
  ∃ c w', main "ci.yaml" (mkHost ps_lines []) = (Ret c, w') ∧ (c = 0 ∨ c = 1)%Z
    ∧ (c = 0%Z ↔ ∀ svc, svc ∈ EXPECTED_SERVICES → usable (λ p, (p =? 5432)%Z) rows svc).
Proof.
  exact (devenv_exit_code _ tcp_answers print_returns "ci.yaml" (mkHost ps_lines []) rows_are_rows).
Defined.
Example devenv_healthy_ex : (main "ci.yaml" (mkHost ps_lines [])).1 = Ret 0%Z.
Proof. vm_compute. reflexivity. Qed.
End DevenvExamples.

(** ** [pip_audit.py] *)
Module PipAudit.
(** The identifier on a line of the ignore file; [None] for blank lines and
    comments. *)
Definition vuln_of_line (raw : string) : outcome (option string) :=
  let line := strip raw in
  if negb (str_truthy line) || starts_with "#" line then Ret None
  else match list_item (split_ws (strip (before "#" line))) 0 with
       | Ret vuln_id => Ret (if str_truthy vuln_id then Some vuln_id else None)
       | Raise e => Raise e
       end.
Fixpoint vulns_of_lines (lines : list string) : outcome (list string) :=
  match lines with
  | [] => Ret []
  | raw :: lines' =>
      match vuln_of_line raw, vulns_of_lines lines' with
      | Ret v, Ret ids => Ret (option_list v ++ ids)
      | Ret _, Raise e => Raise e
      | Raise e, _ => Raise e
      end
  end.
(** One line of [_strip_environment_markers], and the text it writes. *)
Definition strip_line (raw : string) : string :=
  let stripped := strip raw in
  if negb (str_truthy stripped) || starts_with "#" stripped then raw
  else rstrip (before ";" stripped).
Definition strip_markers (text : string) : string :=
  join (String "010" "") (map strip_line (splitlines text)) +:+ String "010" "".

Section Audit.
Context {W : Type} `{!Host W} (executable ROOT : string).
Definition IGNORE_FILE : string := ROOT +:+ "/.pip-audit-ignore.txt".
Definition REQUIREMENTS : string := ROOT +:+ "/requirements.txt".
Definition UV_LOCK : string := ROOT +:+ "/uv.lock".

(** [_ignored_vulns()]. *)
Definition _ignored_vulns : M W (list string) :=
  let* present := is_file IGNORE_FILE in
  if negb present then m_ret []
  else let* text := read_text IGNORE_FILE in m_of_outcome (vulns_of_lines (splitlines text)).
(** [_pip_audit_cmd(requirements, lock_graph)]. *)
Definition _pip_audit_cmd (requirements : string) (lock_graph : bool) : M W (list string) :=
  let cmd := [executable; "-m"; "pip_audit"; "-S"; "-r"; requirements]
             ++ if lock_graph then ["--no-deps"; "--disable-pip"] else [] in
  let* ids := _ignored_vulns in
  m_ret (cmd ++ concat (map (λ vuln_id, ["--ignore-vuln"; vuln_id]) ids)).
(** [_run(cmd)]; where it runs and where its output goes are left out. *)
Definition _run (cmd : list string) : M W Z :=
  let* _ := print_line ("+ " +:+ join " " cmd) in subprocess_call cmd.
(** [_uv_bin()]. *)
Definition UV_MISSING : string :=
  "uv is required to audit the uv.lock graph (uv export --locked). "
  +:+ "Install uv from https://docs.astral.sh/uv/getting-started/installation/".
Definition _uv_bin : M W string :=
  let* uv := which_uv in
  match uv with
  | Some uv =>
      if str_truthy uv then m_ret uv else m_raise (FileNotFoundError UV_MISSING)
  | None => m_raise (FileNotFoundError UV_MISSING)
  end.
(** [_strip_environment_markers(src, dest)]. *)
Definition _strip_environment_markers (src dest : string) : M W unit :=
  let* text := read_text src in write_text dest (strip_markers text).
(** [_audit_requirements()]. *)
Definition _audit_requirements : M W Z :=
  let* present := is_file REQUIREMENTS in
  if negb present then m_raise (FileNotFoundError ("missing requirements file: " +:+ REQUIREMENTS))
  else let* cmd := _pip_audit_cmd REQUIREMENTS false in _run cmd.
(** [_audit_lock_export()]. *)
Definition _audit_lock_export : M W Z :=
  let* present := is_file UV_LOCK in
  if negb present then m_raise (FileNotFoundError ("missing lock file: " +:+ UV_LOCK))
  else
    let* uv := _uv_bin in
    let* tmp := mkdtemp in
    m_finally
      (let export_path := tmp +:+ "/uv-export.txt" in
       let audit_path := tmp +:+ "/uv-export-nomarker.txt" in
       let* rc := _run [uv; "export"; "--locked"; "--all-groups"; "--no-hashes";
                        "--no-emit-project"; "-o"; export_path] in
       if negb (rc =? 0)%Z then m_ret rc
       else
         let* _ := _strip_environment_markers export_path audit_path in
         let* cmd := _pip_audit_cmd audit_path true in
         _run cmd)
      (rmtree tmp).
(** [main()]. *)
Definition audit_main : M W Z :=
  m_except is_file_not_found
    (let* rc := _audit_requirements in
     if negb (rc =? 0)%Z then m_ret rc else _audit_lock_export)
    (λ e, let* _ := print_line ("error: " +:+ match e with OtherException _ m => m | _ => "" end) in
          m_ret 2%Z).
End Audit.

(** A line that is neither blank nor a comment always names something: indexing
    the words of what precedes a trailing comment cannot fail. *)
Lemma lstrip_head s c t : lstrip s = String c t → py_space c = false.
Proof. induction s as [|d s IH]; cbn; [done |]. destruct (py_space d) eqn:Hd; [done | by intros [= <- <-]]. Qed.
Lemma str_rev_app s acc acc' : str_rev s (acc +:+ acc') = str_rev s acc +:+ acc'.
Proof.
  revert acc. induction s as [|c s IH]; intros acc; [done |].
  cbn [str_rev]. by rewrite <- (IH (String c acc)).
Qed.
Lemma str_rev_cons c s : str_rev (String c s) "" = str_rev s "" +:+ String c "".
Proof. by rewrite <- (str_rev_app s ""). Qed.
Lemma lstrip_snoc s c : py_space c = false → ∃ t, lstrip (s +:+ String c "") = t +:+ String c "".
Proof.
  intros Hc. induction s as [|d s [t IH]]; cbn; [exists ""; by rewrite Hc |].
  destruct (py_space d); [by exists t | by exists (String d s)].
Qed.
Lemma str_rev_snoc t c : str_rev (t +:+ String c "") "" = String c (str_rev t "").
Proof.
  induction t as [|d t IH]; [done |]. change (String d t +:+ String c "") with (String d (t +:+ String c "")).
  by rewrite str_rev_cons, IH, str_rev_cons.
Qed.
(** What is not a space stays at the head when spaces are stripped. *)
Lemma rstrip_head c s : py_space c = false → ∃ t, rstrip (String c s) = String c t.
Proof.
  intros Hc. unfold rstrip. rewrite str_rev_cons.
  destruct (lstrip_snoc (str_rev s "") c Hc) as [t ->]. rewrite str_rev_snoc. by eexists.
Qed.
Lemma strip_head c s : py_space c = false → ∃ t, strip (String c s) = String c t.
Proof. intros Hc. unfold strip. cbn [lstrip]. rewrite Hc. by apply (rstrip_head c s). Qed.
Lemma strip_nonspace s c t : strip s = String c t → py_space c = false.
Proof.
  unfold strip. destruct (lstrip s) as [|d u] eqn:Hl; [done |].
  apply lstrip_head in Hl. destruct (rstrip_head d u Hl) as [t' Ht]. unfold rstrip in Ht.
  rewrite Ht. by intros [= <- <-].
Qed.
Lemma split_ws_head c s : py_space c = false → ∃ w ws, split_ws (String c s) = String c w :: ws.
Proof.
  intros Hc. cbn [split_ws]. rewrite Hc. destruct s as [|d s]; [by eexists _, _ |].
  destruct (py_space d); [by eexists _, _ |]. destruct (split_ws _); by eexists _, _.
Qed.

Lemma vuln_of_line_total raw :
  let line := strip raw in
  vuln_of_line raw =
    (if negb (str_truthy line) || starts_with "#" line then Ret None
     else Ret (hd_error (split_ws (strip (before "#" line)))))
  ∧ (line ≠ "" → starts_with "#" line = false → ∃ id, vuln_of_line raw = Ret (Some id)).
Proof.
  unfold vuln_of_line. cbn zeta. destruct (strip raw) as [|c t] eqn:Hl; [done |].
  cbn [str_truthy String.eqb negb orb]. destruct (starts_with "#" (String c t)) eqn:Hh; [done |].
  cbn [before]. cbn [starts_with] in Hh. rewrite Ascii.eqb_sym, Hh.
  pose proof (strip_nonspace _ _ _ Hl) as Hc.
  destruct (strip_head c (before "#" t) Hc) as [u ->].
  destruct (split_ws_head c u Hc) as (w & ws & ->). cbn. split; [done |]. intros _ _. by eexists.
Qed.
Lemma ignored_vulns_total lines : ∃ ids, vulns_of_lines lines = Ret ids ∧ (length ids ≤ length lines)%nat.
Proof.
  induction lines as [|l ls (ids & IH & Hlen)]; [by exists [] |]. cbn [vulns_of_lines length].
  destruct (vuln_of_line_total l) as [-> _]. rewrite IH.
  destruct (negb _ || _); [eexists; split; [done |]; cbn; lia |].
  eexists; split; [done |]. rewrite length_app. destruct (hd_error _); cbn; lia.
Qed.

(** Stripping markers keeps the lines of the export, one for one: comments and
    blank lines as they are, requirements without what follows the semicolon. *)
Definition chars_all (P : ascii → Prop) (s : string) : Prop := Forall P (String.list_ascii_of_string s).
Lemma chars_all_lstrip P s : chars_all P s → chars_all P (lstrip s).
Proof.
  unfold chars_all. induction s as [|c s IH]; [done |]. cbn. intros [Hc Hs]%Forall_cons.
  destruct (py_space c); [by apply IH | by constructor].
Qed.
Lemma chars_all_rev P s acc : chars_all P s → chars_all P acc → chars_all P (str_rev s acc).
Proof.
  unfold chars_all. revert acc. induction s as [|c s IH]; intros acc; [done |].
  cbn. intros [Hc Hs]%Forall_cons Ha. apply IH; [done |]. by constructor.
Qed.
Lemma chars_all_rstrip P s : chars_all P s → chars_all P (rstrip s).
Proof.
  intros H. unfold rstrip. apply chars_all_rev; [| constructor].
  apply chars_all_lstrip, chars_all_rev; [done | constructor].
Qed.
Lemma chars_all_strip P s : chars_all P s → chars_all P (strip s).
Proof. intros H. apply (chars_all_rstrip P (lstrip s)), chars_all_lstrip, H. Qed.
Lemma chars_all_before P c s : chars_all P s → chars_all P (before c s).
Proof.
  unfold chars_all. induction s as [|d s IH]; [done |]. cbn. intros [Hd Hs]%Forall_cons.
  destruct (Ascii.eqb d c); constructor; auto.
Qed.
Lemma before_no_sep c s : chars_all (λ d, d ≠ c) (before c s).
Proof.
  unfold chars_all. induction s as [|d s IH]; [constructor |]. cbn.
  destruct (Ascii.eqb_spec d c); constructor; auto.
Qed.

Lemma strip_line_no_break raw : no_break raw → no_break (strip_line raw).
Proof.
  intros H. unfold strip_line. destruct (_ || _); [done |].
  by apply chars_all_rstrip, chars_all_before, chars_all_strip.
Qed.
Lemma strip_markers_lines text :
  splitlines text ≠ [] →
  splitlines (strip_markers text) = map strip_line (splitlines text).
Proof.
  intros H. unfold strip_markers. rewrite join_newline by by destruct (splitlines text).
  apply splitlines_unlines. pose proof (splitlines_no_break text) as Hn.
  induction Hn as [|l ls Hl Hls IH] in |- *; constructor.
  - by apply strip_line_no_break.
  - clear -Hls. induction Hls; constructor; auto using strip_line_no_break.
Qed.
Lemma strip_line_cases raw :
  strip_line raw = raw ∧ (strip raw = "" ∨ starts_with "#" (strip raw) = true)
  ∨ chars_all (λ c, c ≠ ";"%char) (strip_line raw).
Proof.
  unfold strip_line. destruct (str_truthy (strip raw)) eqn:Ht; cbn [negb orb].
  - destruct (starts_with "#" (strip raw)); [left; auto |]. right.
    apply chars_all_rstrip, before_no_sep.
  - left. split; [done |]. left. by apply str_truthy_false.
Qed.

Example vulns_ex :
  vulns_of_lines (splitlines (unlines ["# known"; ""; "  PYSEC-1 # no fix"; "GHSA-2#x y"]))
  = Ret ["PYSEC-1"; "GHSA-2"].
Proof. reflexivity. Qed.
Example markers_ex :
  strip_markers (unlines ["# via x"; "colorama==0.4 ; sys_platform == 'win32'"; "six==1.0"])
  = unlines ["# via x"; "colorama==0.4"; "six==1.0"].
Proof. reflexivity. Qed.
End PipAudit.

(** ** [check_mutable_class_attrs.py]

    Python's syntax trees, as far as the check tells nodes apart; [Node] is any
    other node with its children in field order. *)
Module ClassAttrs.
Inductive ast : Type :=
| Name (id : string)
| Attribute (value : ast) (attr : string)
| Call (func : ast) (args : list ast)
| DictExpr (children : list ast)
| ListExpr (children : list ast)
| SetExpr (children : list ast)
| Assign (lineno : Z) (targets : list ast) (value : ast)
| AnnAssign (lineno : Z) (target annotation : ast) (value : option ast)
| ClassDef (name : string) (bases body decorators : list ast)
| Node (children : list ast).

Definition ALLOWLIST_ATTRS : list (string * string * string) := [].
Definition ALLOWLIST_ATTR_NAMES : list string := ["_init_lock"; "_instance"].
Definition MUTABLE_CALLS : list string := ["Lock"; "RLock"; "dict"; "list"; "set"; "Cache"].

(** [_mutable_call_name(value)]. *)
Definition _mutable_call_name (value : ast) : option string :=
  match value with
  | Call (Name id) _ => Some id
  | Call (Attribute _ attr) _ => Some attr
  | _ => None
  end.
(** [_is_mutable_value(value)]. *)
Definition _is_mutable_value (value : option ast) : bool :=
  match value with
  | None => false
  | Some (DictExpr _) | Some (ListExpr _) | Some (SetExpr _) => true
  | Some (Call f args) =>
      match _mutable_call_name (Call f args) with
      | Some name => bool_decide (name ∈ MUTABLE_CALLS)
      | None => false
      end
  | Some _ => false
  end.
(** [str.isupper()]: a cased character, and none that is not upper case; the
    letters of U+00AA and U+00BA count as lower case. *)
Definition is_upper_char (c : ascii) : bool := negb (Ascii.eqb (lower_char c) c).
Definition is_lower_char (c : ascii) : bool :=
  let n := code c in
  ((97 <=? n) && (n <=? 122) || (223 <=? n) && negb (n =? 247)
   || (n =? 170) || (n =? 181) || (n =? 186))%nat.
Definition isupper (s : string) : bool :=
  existsb is_upper_char (String.list_ascii_of_string s)
  && negb (existsb is_lower_char (String.list_ascii_of_string s)).
(** [_should_flag_name(attr_name)]. *)
Definition _should_flag_name (attr_name : string) : bool :=
  if String.eqb attr_name "__slots__" || negb (starts_with "_" attr_name) then false
  else if isupper attr_name then false
  else negb (bool_decide (attr_name ∈ ALLOWLIST_ATTR_NAMES)).

Section Visitor.
Context (_rel : string).
(** [Visitor._report]: what it appends to [errors]. *)
Definition _report (lineno : Z) (class_name attr_name : string) : list string :=
  if bool_decide ((_rel, class_name, attr_name) ∈ ALLOWLIST_ATTRS) then []
  else [_rel +:+ ":" +:+ str_of_Z lineno +:+ ": class " +:+ class_name +:+ "." +:+ attr_name
        +:+ " is a mutable class attribute; initialize in __init__/__new__"].
Definition report_target (lineno : Z) (class_name : string) (target : ast) : list string :=
  match target with
  | Name id => if _should_flag_name id then _report lineno class_name id else []
  | _ => []
  end.
(** The loop of [visit_ClassDef] on one statement of the body. *)
Definition check_stmt (class_name : string) (stmt : ast) : list string :=
  match stmt with
  | Assign lineno targets value =>
      if _is_mutable_value (Some value) then flat_map (report_target lineno class_name) targets else []
  | AnnAssign lineno target _ value =>
      if _is_mutable_value value then report_target lineno class_name target else []
  | _ => []
  end.
(** [generic_visit] goes through the children in field order. *)
Definition children (n : ast) : list ast :=
  match n with
  | Name _ => []
  | Attribute value _ => [value]
  | Call func args => func :: args
  | DictExpr l | ListExpr l | SetExpr l | Node l => l
  | Assign _ targets value => targets ++ [value]
  | AnnAssign _ target annotation value => target :: annotation :: option_list value
  | ClassDef _ bases body decorators => bases ++ body ++ decorators
  end.
(** [Visitor.visit(node)]: the errors it appends. *)
Fixpoint visit (n : ast) : list string :=
  match n with
  | Name _ => []
  | Attribute value _ => visit value
  | Call func args => visit func ++ concat (map visit args)
  | DictExpr l | ListExpr l | SetExpr l | Node l => concat (map visit l)
  | Assign _ targets value => concat (map visit targets) ++ visit value
  | AnnAssign _ target annotation value =>
      visit target ++ visit annotation ++ match value with Some v => visit v | None => [] end
  | ClassDef name bases body decorators =>
      flat_map (check_stmt name) body
      ++ concat (map visit bases) ++ concat (map visit body) ++ concat (map visit decorators)
  end.

End Visitor.
(** [main()] on the parsed files of the tree: what it prints and its exit code. *)
Definition main_errors (files : list (string * ast)) : list string :=
  flat_map (λ f, visit f.1 f.2) files.
Definition main_code (files : list (string * ast)) : Z :=
  match main_errors files with [] => 0%Z | _ => 1%Z end.

(** The errors of a class are its own statements' and those found below it. *)
Lemma visit_children rel n :
  visit rel n =
    match n with ClassDef name _ body _ => flat_map (check_stmt rel name) body | _ => [] end
    ++ concat (map (visit rel) (children n)).
Proof.
  destruct n; cbn [visit children]; rewrite ?map_app, ?concat_app; cbn [map concat app];
    rewrite ?app_nil_r; try done. by destruct value; cbn; rewrite ?app_nil_r.
Qed.

(** Being below a node, at any depth: in a method, a nested class, a condition. *)
Inductive below : ast → ast → Prop :=
| below_refl n : below n n
| below_child n m k : m ∈ children n → below m k → below n k.
(** A statement of a class body that binds a private name to a mutable value. *)
Definition flagged (class_name : string) (stmt : ast) : Prop :=
  ∃ id, _should_flag_name id = true ∧
    ((∃ lineno targets value, stmt = Assign lineno targets value
        ∧ Name id ∈ targets ∧ _is_mutable_value (Some value) = true)
     ∨ ∃ lineno annotation value, stmt = AnnAssign lineno (Name id) annotation value
        ∧ _is_mutable_value value = true).

Lemma check_stmt_flagged rel name stmt : check_stmt rel name stmt ≠ [] ↔ flagged name stmt.
Proof.
  assert (∀ lineno t, report_target rel lineno name t ≠ [] ↔ ∃ id, t = Name id ∧ _should_flag_name id = true) as Ht.
  { intros lineno t. destruct t; cbn; try (split; [done | by intros (? & ? & _)]).
    destruct (_should_flag_name id) eqn:Hf.
    - split; [by exists id | done].
    - split; [done |]. intros (? & [= <-] & ?). congruence. }
  unfold flagged. destruct stmt as [| | | | | |ln targets value|ln target ann value| |]; cbn [check_stmt];
    try (split; [done | intros (? & _ & [(? & ? & ? & [=] & _) | (? & ? & ? & [=] & _)])]).
  - destruct (_is_mutable_value (Some value)) eqn:Hm.
    + split.
      * intros H. assert (∃ t, t ∈ targets ∧ report_target rel ln name t ≠ []) as (t & Hin & Hr).
        { induction targets as [|t ts IH]; [done |]. cbn [flat_map] in H.
          destruct (report_target rel ln name t) eqn:E.
          - destruct (IH H) as (u & Hu & Hru). exists u. split; [by right | done].
          - exists t. split; [by left |]. by rewrite E. }
        apply Ht in Hr as (id & -> & Hid). exists id. split; [done |]. left. by eexists _, _, _.
      * intros (id & Hid & [(? & ? & ? & [= <- <- <-] & Hin & _) | (? & ? & ? & [=] & _)]) Hnil.
        apply list_elem_of_In, in_split in Hin as (l1 & l2 & ->).
        rewrite flat_map_app in Hnil. apply app_nil in Hnil as [_ Hnil]. cbn [flat_map] in Hnil.
        apply app_nil in Hnil as [Hnil _]. revert Hnil. apply Ht. by exists id.
    + split; [done |]. intros (? & _ & [(? & ? & ? & [= <- <- <-] & _ & ?) | (? & ? & ? & [=] & _)]).
      congruence.
  - destruct (_is_mutable_value value) eqn:Hm.
    + rewrite Ht. split.
      * intros (id & -> & Hid). exists id. split; [done |]. right. by eexists _, _, _.
      * intros (id & Hid & [(? & ? & ? & [=] & _) | (? & ? & ? & [= <- -> <- <-] & _)]). by exists id.
    + split; [done |]. intros (? & _ & [(? & ? & ? & [=] & _) | (? & ? & ? & [= <- -> <- <-] & ?)]).
      congruence.
Qed.

Section AstInd.
Variable P : ast → Prop.
Hypothesis step : ∀ n, Forall P (children n) → P n.
Fixpoint ast_ind' (n : ast) : P n :=
  let all := fix all (l : list ast) : Forall P l :=
    match l with
    | [] => Forall_nil_2 P
    | x :: l' => Forall_cons_2 P x l' (ast_ind' x) (all l')
    end in
  step n
    match n as n' return Forall P (children n') with
    | Name _ => Forall_nil_2 P
    | Attribute v _ => Forall_cons_2 P v [] (ast_ind' v) (Forall_nil_2 P)
    | Call f args => Forall_cons_2 P f args (ast_ind' f) (all args)
    | DictExpr l => all l
    | ListExpr l => all l
    | SetExpr l => all l
    | Node l => all l
    | Assign _ ts v => Forall_app_2 P ts [v] (all ts) (Forall_cons_2 P v [] (ast_ind' v) (Forall_nil_2 P))
    | AnnAssign _ t a v =>
        Forall_cons_2 P t (a :: option_list v) (ast_ind' t)
          (Forall_cons_2 P a (option_list v) (ast_ind' a)
            match v as v' return Forall P (option_list v') with
            | Some x => Forall_cons_2 P x [] (ast_ind' x) (Forall_nil_2 P)
            | None => Forall_nil_2 P
            end)
    | ClassDef _ bs body ds =>
        Forall_app_2 P bs (body ++ ds) (all bs) (Forall_app_2 P body ds (all body) (all ds))
    end.
End AstInd.

Lemma flat_map_nil {A B} (f : A → list B) l : flat_map f l = [] ↔ ∀ x, x ∈ l → f x = [].
Proof.
  induction l as [|x l IH]; cbn; [split; [intros _ x Hx; by apply elem_of_nil in Hx | done] |].
  rewrite app_nil, IH. split.
  - intros [Hx Hl] y [-> | Hy]%elem_of_cons; auto.
  - intros H. split; [apply H; by left |]. intros y Hy. apply H. by right.
Qed.

(** The check is exact: it reports nothing exactly when no class anywhere in the
    file has a flagged statement in its body. *)
Lemma visit_exact rel n :
  visit rel n = [] ↔
  ∀ name bases body decorators, below n (ClassDef name bases body decorators) →
    ∀ stmt, stmt ∈ body → ¬ flagged name stmt.
Proof.
  induction n as [n IH] using ast_ind'. rewrite visit_children, app_nil, <- flat_map_concat_map, flat_map_nil.
  rewrite Forall_forall in IH. split.
  - intros [Hn Hc] name bs body ds Hb. inversion Hb as [? | ? m ? Hm Hk]; subst.
    + intros stmt Hin. rewrite flat_map_nil in Hn. rewrite <- (check_stmt_flagged rel).
      intros Hf. by apply Hf, Hn, Hin.
    + intros stmt. exact (proj1 (IH m Hm) (Hc m Hm) _ _ _ _ Hk stmt).
  - intros H. split.
    + destruct n; try done. apply flat_map_nil. intros stmt Hin.
      destruct (check_stmt rel name stmt) eqn:E; [done |]. exfalso.
      apply (H name bases body decorators (below_refl _) stmt Hin), (check_stmt_flagged rel). by rewrite E.
    + intros m Hm. apply (IH m Hm). intros name bs body ds Hb. apply (H name bs body ds).
      exact (below_child _ _ _ Hm Hb).
Qed.

Lemma main_code_exact files :
  main_code files = 0%Z ↔
  ∀ rel tree, (rel, tree) ∈ files → ∀ name bases body decorators,
    below tree (ClassDef name bases body decorators) → ∀ stmt, stmt ∈ body → ¬ flagged name stmt.
Proof.
  unfold main_code. transitivity (main_errors files = []); [by destruct (main_errors files) |].
  unfold main_errors. rewrite flat_map_nil. setoid_rewrite <- visit_exact. split.
  - intros H rel tree Hin. by apply (H (rel, tree)).
  - intros H [rel tree] Hin. by apply H.
Qed.

Example nested_ex :
  visit "a.py" (Node [Node [ClassDef "A" [] [Node []; AnnAssign 7 (Name "_store") (Name "dict") (Some (DictExpr []));
    Assign 8 [Name "_LIMITS"] (ListExpr []); Assign 9 [Name "_instance"] (Call (Name "Lock") [])] []]])
  = ["a.py:7: class A._store is a mutable class attribute; initialize in __init__/__new__"].
Proof. reflexivity. Qed.
End ClassAttrs.
