(* ===== verification/Build.v ===== *)
(** * Build: the packaging script

    [src/scripts/build.py]: the trees of configuration, library, examples and
    virtual environment are copied into [./dist].  A file system maps paths,
    relative to the working directory, to files and directories; [os] and
    [shutil] are modelled as far as the script uses them, without symbolic links
    and without the failures of the disk. *)
From S2P Require Import Prelude.

(** ** Files *)
Abbreviation path := (list string).
Inductive node : Type := File (content : string) | Dir.
Abbreviation FS := (gmap (list string) node).
Record Disk : Type := mkDisk { files : FS; printed : list string }.
#[export] Instance node_eq_dec : EqDecision node.
Proof. solve_decision. Defined.

(** What is left of [q] below [p]. *)
Fixpoint strip (p q : path) : option path :=
  match p, q with
  | [], _ => Some q
  | a :: p', b :: q' => if String.eqb a b then strip p' q' else None
  | _ :: _, [] => None
  end.
Lemma strip_Some p q r : strip p q = Some r ↔ q = p ++ r.
Proof.
  revert q. induction p as [|a p IH]; intros [|b q]; cbn; try (split; congruence).
  destruct (String.eqb_spec a b) as [->|Hab]; [rewrite IH |]; split; congruence.
Qed.
Lemma strip_app p r : strip p (p ++ r) = Some r.
Proof. by apply strip_Some. Qed.

Definition show_path (p : path) : string := "./" +:+ String.concat "/" p.
Definition os_error (cls msg : string) (p : path) : exn :=
  OtherException cls (msg +:+ ": '" +:+ show_path p +:+ "'").
Definition FileNotFoundError : path → exn := os_error "FileNotFoundError" "[Errno 2] No such file or directory".
Definition FileExistsError : path → exn := os_error "FileExistsError" "[Errno 17] File exists".
Definition NotADirectoryError : path → exn := os_error "NotADirectoryError" "[Errno 20] Not a directory".

(** [os.path.exists], [os.path.isdir]; the working directory itself exists. *)
Definition node_at (p : path) (fs : FS) : option node := match p with [] => Some Dir | _ => fs !! p end.
Definition path_exists (p : path) (fs : FS) : bool := bool_decide (node_at p fs ≠ None).
Definition isdir (p : path) (fs : FS) : bool := bool_decide (node_at p fs = Some Dir).

Definition set_files (fs : FS) (d : Disk) : Disk := mkDisk fs (printed d).
Definition on_files (f : FS → FS) : M Disk unit := m_modify (λ d, set_files (f (files d)) d).
(** [shutil.rmtree(p)]. *)
Definition rmtree (p : path) : M Disk unit :=
  let* n := m_get (λ d, node_at p (files d)) in
  match n with
  | None => m_raise (FileNotFoundError p)
  | Some (File _) => m_raise (NotADirectoryError p)
  | Some Dir => on_files (filter (λ '(q, _), strip p q = None))
  end.
(** [os.mkdir] below [parent], [os.makedirs(parent/rest)]. *)
Definition mkdir (parent p : path) : M Disk unit :=
  let* fs := m_get files in
  match node_at parent fs with
  | None => m_raise (FileNotFoundError p)
  | Some (File _) => m_raise (NotADirectoryError p)
  | Some Dir =>
      if path_exists p fs then m_raise (FileExistsError p) else on_files (insert p Dir)
  end.
Fixpoint makedirs (parent rest : path) : M Disk unit :=
  match rest with
  | [] => m_raise (FileExistsError parent)
  | [c] => mkdir parent (parent ++ [c])
  | c :: rest =>
      let p := parent ++ [c] in
      let* e := m_get (λ d, path_exists p (files d)) in
      let* _ := if (e : bool) then m_ret tt else mkdir parent p in
      makedirs p rest
  end.
(** [shutil.copytree(src, dst)], [dst] not below [src]: what [src] holds is copied
    into the new directory [dst]. *)
Definition copy_entry (src dst q : path) (n : node) (fs : FS) : FS :=
  match strip src q with
  | Some (c :: r) => <[dst ++ c :: r := n]> fs
  | _ => fs
  end.
Definition copy_below (src dst : path) (fs : FS) : FS := map_fold (copy_entry src dst) fs fs.
Definition copytree (src dst : path) : M Disk unit :=
  let* n := m_get (λ d, node_at src (files d)) in
  match n with
  | None => m_raise (FileNotFoundError src)
  | Some (File _) => m_raise (NotADirectoryError src)
  | Some Dir => let* _ := makedirs [] dst in on_files (copy_below src dst)
  end.

(** ** The script *)
(** One turn of the loop; the virtual environment is copied the same way. *)
Definition replace_tree (src dst : path) : M Disk unit :=
  let* e := m_get (λ d, path_exists dst (files d)) in
  let* _ := if (e : bool) then rmtree dst else m_ret tt in
  copytree src dst.
Fixpoint replace_all (pairs : list (path * path)) : M Disk unit :=
  match pairs with
  | [] => m_ret tt
  | (src, dst) :: pairs => let* _ := replace_tree src dst in replace_all pairs
  end.
Definition dist (name : string) : path := ["dist"; name].
Definition trees : list (path * path) :=
  [(["conf"], dist "conf"); (["pypepper"], dist "pypepper"); (["example"], dist "example")].
Definition venv_src : path := [".venv"].
Definition venv_dst : path := dist ".venv".
Definition skipped_msg : string :=
  "[BUILD] .venv not found; skipped (use `python -m build` for PyPI packages)".
Definition build : M Disk unit :=
  let* _ := replace_all trees in
  let* venv := m_get (λ d, isdir venv_src (files d)) in
  if (venv : bool) then replace_tree venv_src venv_dst
  else m_modify (λ d, mkDisk (files d) (printed d ++ [skipped_msg])).

(** ** Copying *)
Lemma copy_fold_lookup (src dst : path) (base m : FS) (q : path) :
  map_fold (copy_entry src dst) base m !! q =
    match strip dst q with
    | Some (c :: r) => match m !! (src ++ c :: r) with Some n => Some n | None => base !! q end
    | _ => base !! q
    end.
Proof.
  apply (map_fold_weak_ind (λ (acc m : FS), acc !! q =
    match strip dst q with
    | Some (c :: r) => match m !! (src ++ c :: r) with Some n => Some n | None => base !! q end
    | _ => base !! q
    end)).
  { destruct (strip dst q) as [[|c r]|]; [done | by simplify_map_eq | done]. }
  clear m. intros p n m acc Hp IH. unfold copy_entry.
  assert (∀ c r, p ≠ src ++ c :: r → <[p:=n]> m !! (src ++ c :: r) = m !! (src ++ c :: r)) as Hother
    by (intros; by apply lookup_insert_ne).
  destruct (strip src p) as [[|c r]|] eqn:Es.
  - apply strip_Some in Es as ->. rewrite IH. destruct (strip dst q) as [[|c r]|]; [done | | done].
    rewrite Hother; [done |]. intros [=]%app_inv_head.
  - apply strip_Some in Es as ->. destruct (decide (dst ++ c :: r = q)) as [<-|Hq].
    + rewrite lookup_insert_eq, strip_app. by rewrite lookup_insert_eq.
    + rewrite lookup_insert_ne by done. rewrite IH.
      destruct (strip dst q) as [[|c' r']|] eqn:Ed; [done | | done].
      rewrite Hother; [done |]. apply strip_Some in Ed as ->. intros [= -> ->]%app_inv_head. done.
  - rewrite IH. destruct (strip dst q) as [[|c r]|]; [done | | done].
    rewrite Hother; [done |]. intros ->. by rewrite strip_app in Es.
Qed.

(** A file system is a tree when what holds an entry is a directory. *)
Definition tree (fs : FS) : Prop := ∀ p c n, fs !! (p ++ [c]) = Some n → p = [] ∨ fs !! p = Some Dir.
Lemma tree_below fs p r : tree fs → p ≠ [] → fs !! p ≠ Some Dir → r ≠ [] → fs !! (p ++ r) = None.
Proof.
  intros Ht Hp Hd. induction r as [|c r IH] using rev_ind; [done |]. intros _.
  destruct (fs !! (p ++ r ++ [c])) as [n|] eqn:E; [| done]. rewrite app_assoc in E.
  destruct (Ht _ _ _ E) as [[-> _]%app_eq_nil|H]; [done |].
  destruct (decide (r = [])) as [->|Hr]; [by rewrite app_nil_r in H |]. by rewrite IH in H.
Qed.

(** What a copy of [src] at [dst] leaves. *)
Definition replaced (src dst : path) (fs : FS) (q : path) : option node :=
  match strip dst q with
  | Some r => fs !! (src ++ r)
  | None => if decide (q = ["dist"]) then Some Dir else fs !! q
  end.

Definition absent_or_dir (p : path) (fs : FS) : Prop := fs !! p = None ∨ fs !! p = Some Dir.
Lemma clear_dst x d : tree (files d) → absent_or_dir (dist x) (files d) →
  ∃ fs, (let* e := m_get (λ d, path_exists (dist x) (files d)) in
         if (e : bool) then rmtree (dist x) else m_ret tt) d = (Ret tt, mkDisk fs (printed d))
    ∧ ∀ q, fs !! q = match strip (dist x) q with Some _ => None | None => files d !! q end.
Proof.
  destruct d as [fs pr]. cbn [files printed]. intros Ht Hdst. rewrite bind_eq. cbn [m_get files].
  unfold path_exists. cbn [node_at dist]. destruct Hdst as [Hdst|Hdst]; rewrite Hdst.
  - rewrite bool_decide_eq_false_2 by (by intros []). exists fs. split; [done |]. intros q.
    destruct (strip _ q) as [r|] eqn:E; [| done]. apply strip_Some in E as ->.
    destruct (decide (r = [])) as [->|Hr]; [done |]. apply tree_below; [done | done | | done].
    by rewrite Hdst.
  - rewrite bool_decide_eq_true_2 by done. unfold rmtree. rewrite bind_eq. cbn [m_get files node_at dist].
    rewrite Hdst. eexists. split; [done |]. intros q. cbn [files].
    apply option_eq. intros n. rewrite map_lookup_filter_Some.
    change (fs !! q = Some n ∧ strip (dist x) q = None
            ↔ match strip (dist x) q with Some _ => None | None => fs !! q end = Some n).
    destruct (strip (dist x) q); intuition congruence.
Qed.

Lemma makedirs_dist x d : absent_or_dir ["dist"] (files d) → files d !! dist x = None →
  makedirs [] (dist x) d
  = (Ret tt, mkDisk (<[dist x := Dir]> (<[["dist"] := Dir]> (files d))) (printed d)).
Proof.
  destruct d as [fs pr]. cbn [files printed]. intros Hd Hx. cbn [makedirs dist app]. rewrite bind_eq. cbn [m_get files].
  unfold path_exists at 1. cbn [node_at].
  assert (["dist"] ≠ dist x) as Hne by done.
  assert ((if bool_decide (fs !! ["dist"] ≠ None) then m_ret tt else mkdir [] ["dist"]) (mkDisk fs pr)
    = (Ret tt, mkDisk (<[["dist"] := Dir]> fs) pr)) as Hmk.
  { destruct Hd as [Hd|Hd]; rewrite Hd.
    - rewrite bool_decide_eq_false_2 by (by intros []). unfold mkdir. rewrite bind_eq. cbn [m_get files node_at].
      unfold path_exists. cbn [node_at]. rewrite Hd. by rewrite bool_decide_eq_false_2 by (by intros []).
    - rewrite bool_decide_eq_true_2 by done. by rewrite insert_id. }
  rewrite bind_eq, Hmk. unfold mkdir. rewrite bind_eq. cbn [m_get files node_at].
  rewrite lookup_insert_eq. unfold path_exists. cbn [node_at].
  rewrite lookup_insert_ne by done. fold (dist x). rewrite Hx.
  by rewrite bool_decide_eq_false_2 by (by intros []).
Qed.

(** A directory of the working directory, copied below [./dist]. *)
Lemma replace_tree_run x d :
  x ≠ "dist" → tree (files d) → files d !! [x] = Some Dir →
  absent_or_dir ["dist"] (files d) → absent_or_dir (dist x) (files d) →
  ∃ fs, replace_tree [x] (dist x) d = (Ret tt, mkDisk fs (printed d))
    ∧ ∀ q, fs !! q = replaced [x] (dist x) (files d) q.
Proof.
  intros Hx Ht Hsrc Hdist Hdst. destruct (clear_dst x d Ht Hdst) as (fs1 & Hclear & H1).
  assert (strip (dist x) [x] = None) as Hsx.
  { destruct (strip (dist x) [x]) as [r|] eqn:E; [| done]. apply strip_Some in E. cbn in E. congruence. }
  unfold replace_tree. rewrite bind_eq in Hclear. cbn [m_get] in Hclear. rewrite bind_eq. cbn [m_get].
  rewrite bind_eq, Hclear. unfold copytree. rewrite bind_eq. cbn [m_get files node_at].
  rewrite H1, Hsx, Hsrc, bind_eq, makedirs_dist; cbn [files printed].
  - eexists. split; [done |]. intros q. cbn [files]. unfold copy_below. rewrite copy_fold_lookup.
    unfold replaced. destruct (strip (dist x) q) as [r|] eqn:E.
    + apply strip_Some in E as ->. destruct r as [|c r].
      { rewrite !app_nil_r, lookup_insert_eq. by rewrite Hsrc. }
      assert (strip (dist x) ([x] ++ c :: r) = None) as Hsr.
      { destruct (strip (dist x) ([x] ++ c :: r)) as [r'|] eqn:E; [| done]. apply strip_Some in E. injection E as E _. done. }
      rewrite !lookup_insert_ne by (unfold dist; cbn; congruence). rewrite H1, Hsr.
      rewrite H1, strip_app. by destruct (files d !! ([x] ++ c :: r)).
    + destruct (decide (q = ["dist"])) as [->|Hq].
      * rewrite lookup_insert_ne by done. apply lookup_insert_eq.
      * rewrite !lookup_insert_ne; [by rewrite H1, E | done |]. intros <-. by rewrite <- (app_nil_r (dist x)), strip_app in E.
  - unfold absent_or_dir. by rewrite !H1.
  - rewrite H1. by rewrite <- (app_nil_r (dist x)), strip_app.
Qed.

Lemma replaced_tree x fs fs' : tree fs → x ≠ "dist" → fs !! [x] = Some Dir →
  (∀ q, fs' !! q = replaced [x] (dist x) fs q) → tree fs'.
Proof.
  intros Ht Hx Hsrc Hfs p c n. rewrite !Hfs. unfold replaced.
  destruct (strip (dist x) (p ++ [c])) as [r|] eqn:E.
  - apply strip_Some in E. induction r as [|c' r _] using rev_ind; intros Hn; right.
    + rewrite app_nil_r in E. change (dist x) with (["dist"] ++ [x]) in E. apply app_inj_tail in E as [-> _]. done.
    + rewrite app_assoc in E. apply app_inj_tail in E as [-> ->]. rewrite strip_app.
      rewrite app_assoc in Hn. destruct (Ht _ _ _ Hn) as [|H]; [done | exact H].
  - destruct (decide (p ++ [c] = ["dist"])) as [Hd|Hd].
    { intros _. left. change ["dist"] with ([] ++ ["dist"]) in Hd. by apply app_inj_tail in Hd as [-> _]. }
    intros Hn. destruct (Ht _ _ _ Hn) as [|Hp]; [by left |]. right.
    destruct (strip (dist x) p) as [r|] eqn:Ep.
    { apply strip_Some in Ep as ->. by rewrite <- app_assoc, strip_app in E. }
    by case_decide.
Qed.

(** ** The packaged tree *)

(** What [./dist] holds once the trees of [names] are copied. *)
Definition packed (names : list string) (fs : FS) (q : path) : option node :=
  match q with
  | [a] => if decide (a = "dist" ∧ names ≠ []) then Some Dir else fs !! q
  | a :: x :: r => if decide (a = "dist" ∧ x ∈ names) then fs !! (x :: r) else fs !! q
  | _ => fs !! q
  end.
Lemma replaced_packed x fs q : replaced [x] (dist x) fs q = packed [x] fs q.
Proof.
  unfold replaced, packed. destruct q as [|a [|y r]]; cbn [strip dist].
  - by case_decide.
  - destruct (String.eqb_spec "dist" a) as [<-|Ha].
    + rewrite !decide_True by done. done.
    + rewrite !decide_False; [done | intros [? _]; congruence | congruence].
  - destruct (String.eqb_spec "dist" a) as [<-|Ha].
    + destruct (String.eqb_spec x y) as [<-|Hx].
      * rewrite decide_True by (split; [done | by apply list_elem_of_singleton]). done.
      * rewrite !decide_False; [done | | done]. intros [_ ?%list_elem_of_singleton]. congruence.
    + rewrite !decide_False; [done | intros [? _]; congruence | congruence].
Qed.
Lemma packed_source names fs x r : x ≠ "dist" → packed names fs (x :: r) = fs !! (x :: r).
Proof. intros Hx. destruct r; cbn [packed]; by rewrite decide_False by (by intros [? _]). Qed.
Lemma packed_app l names fs fs' q : l ≠ [] → "dist" ∉ names → (∀ q, fs' !! q = packed l fs q) →
  packed names fs' q = packed (l ++ names) fs q.
Proof.
  intros Hl Hd Hfs. destruct q as [|a [|y r]]; cbn [packed]; rewrite ?Hfs; cbn [packed].
  - done.
  - assert (l ++ names ≠ []) as Hln by (by destruct l).
    destruct (decide (a = "dist")) as [->|Ha].
    + rewrite (decide_True _ _ (P := "dist" = "dist" ∧ l ≠ [])), (decide_True _ _ (P := _ ∧ l ++ names ≠ []))
        by done. by destruct (decide _).
    + rewrite !decide_False; [done | | |]; by intros [? _].
  - destruct (decide (a = "dist" ∧ y ∈ names)) as [[-> Hy]|Hn].
    + rewrite (decide_True _ _ (P := _ ∧ y ∈ l ++ names)) by (split; [done | apply elem_of_app; by right]).
      apply (packed_source l). congruence.
    + destruct (decide (a = "dist" ∧ y ∈ l)) as [[-> Hy]|Hx].
      * rewrite decide_True by (split; [done | apply elem_of_app; by left]). done.
      * rewrite decide_False; [done |]. intros [-> [Hy|Hy]%elem_of_app]; [by apply Hx | by apply Hn].
Qed.

(** The conditions under which the trees of [names] can be copied. *)
Definition packable (names : list string) (fs : FS) : Prop :=
  tree fs ∧ absent_or_dir ["dist"] fs
  ∧ ∀ x, x ∈ names → x ≠ "dist" ∧ fs !! [x] = Some Dir ∧ absent_or_dir (dist x) fs.
Lemma packable_weaken names names' fs : (∀ x, x ∈ names' → x ∈ names) → packable names fs → packable names' fs.
Proof. intros Hsub (Ht & Hd & Hn). split_and!; [done | done |]. intros x Hx. by apply Hn, Hsub. Qed.
(** Copying the trees of [l] leaves those of [names] as copiable as they were. *)
Lemma packable_packed l names fs fs' : l ≠ [] → tree fs' → packable (l ++ names) fs →
  (∀ q, fs' !! q = packed l fs q) → packable names fs'.
Proof.
  intros Hl Ht (_ & _ & Hn) Hfs. split_and!; [done | |].
  - right. rewrite Hfs. cbn [packed]. by rewrite decide_True.
  - intros y Hy. destruct (Hn y) as (Hyd & Hys & Hyt); [apply elem_of_app; by right |].
    split_and!; [done | |].
    + rewrite Hfs. by rewrite packed_source.
    + unfold absent_or_dir. rewrite Hfs. cbn [packed dist]. case_decide; [by right | done].
Qed.
Lemma packed_tree x names fs fs' : packable (x :: names) fs → (∀ q, fs' !! q = packed [x] fs q) → tree fs'.
Proof.
  intros (Ht & _ & Hn) Hfs. destruct (Hn x) as (Hx & Hsrc & _); [by left |].
  apply (replaced_tree x fs); [done | done | done |]. intros q. by rewrite Hfs, replaced_packed.
Qed.
Lemma replace_all_run names : ∀ d, packable names (files d) →
  ∃ fs, replace_all (map (λ x, ([x], dist x)) names) d = (Ret tt, mkDisk fs (printed d))
    ∧ tree fs ∧ ∀ q, fs !! q = packed names (files d) q.
Proof.
  induction names as [|x names IH]; intros d Hd.
  { exists (files d). destruct d as [fs pr]. split_and!; [done | apply Hd |].
    intros [|a [|y r]]; cbn [packed]; [done | |]; rewrite decide_False; try done.
    - by intros [_ ?].
    - by intros [_ ?%elem_of_nil]. }
  pose proof Hd as (Ht & Hdist & Hn). destruct (Hn x) as (Hx & Hsrc & Hdst); [by left |].
  destruct (replace_tree_run x d Hx Ht Hsrc Hdist Hdst) as (fs1 & Hrun & Hfs1). cbn [map replace_all].
  assert (∀ q, fs1 !! q = packed [x] (files d) q) as Hp by (intros q; by rewrite Hfs1, replaced_packed).
  destruct (IH (mkDisk fs1 (printed d))) as (fs & Hall & Htree & Hfs).
  { apply (packable_packed [x] names (files d)); [done | by eapply packed_tree | done | done]. }
  exists fs. rewrite bind_eq, Hrun, Hall. split_and!; [done | done |]. intros q. rewrite Hfs. cbn [files].
  apply (packed_app [x]); [done | | done]. intros Hin. by destruct (Hn "dist") as [? _]; [right |].
Qed.

(** The names of the trees the script copies from a file system. *)
Definition packed_names (fs : FS) : list string :=
  ["conf"; "pypepper"; "example"] ++ if isdir venv_src fs then [".venv"] else [].
Definition notice (fs : FS) : list string := if isdir venv_src fs then [] else [skipped_msg].
Lemma build_run d : packable (packed_names (files d)) (files d) →
  ∃ fs, build d = (Ret tt, mkDisk fs (printed d ++ notice (files d)))
    ∧ tree fs ∧ ∀ q, fs !! q = packed (packed_names (files d)) (files d) q.
Proof.
  unfold packed_names, notice. set (three := ["conf"; "pypepper"; "example"]). intros Hp.
  destruct (replace_all_run three d) as (fs1 & Hrun & Ht1 & Hfs1).
  { eapply packable_weaken, Hp. intros x Hx. apply elem_of_app. by left. }
  assert (isdir venv_src fs1 = isdir venv_src (files d)) as Hvenv.
  { unfold isdir, venv_src. cbn [node_at]. by rewrite Hfs1, packed_source. }
  unfold build. rewrite bind_eq. change trees with (map (λ x, ([x], dist x)) three).
  rewrite Hrun, bind_eq. cbn [m_get files]. rewrite Hvenv.
  destruct (isdir venv_src (files d)); [| by exists fs1].
  pose proof (packable_packed three [".venv"] (files d) fs1 ltac:(done) Ht1 Hp Hfs1) as Hp1.
  pose proof Hp1 as (_ & Hd1 & Hn1). destruct (Hn1 ".venv") as (Hv & Hs & Hdst); [by left |].
  destruct (replace_tree_run ".venv" (mkDisk fs1 (printed d)) Hv Ht1 Hs Hd1 Hdst) as (fs2 & Hrun2 & Hfs2).
  assert (∀ q, fs2 !! q = packed [".venv"] fs1 q) as Hq by (intros q; by rewrite Hfs2, replaced_packed).
  exists fs2. unfold venv_src, venv_dst. rewrite Hrun2, app_nil_r. split_and!; [done | by eapply packed_tree |].
  intros q. rewrite Hq. apply packed_app; [done | | done]. by intros ?%list_elem_of_singleton.
Qed.

(** ** Properties *)

(** The script on any working directory whose sources are directories and whose
    [./dist], as far as it is there, is made of directories: it succeeds; each
    [./dist/x] then holds exactly what [./x] does, whatever it held before; all
    other files, [./dist] itself apart, are untouched; the virtual environment
    is copied when it is a directory, and otherwise its old copy, if any, stays
    and a notice is printed.  Running it again changes nothing. *)
Theorem build_packs d : let fs := files d in packable (packed_names fs) fs →
  ∃ fs', build d = (Ret tt, mkDisk fs' (printed d ++ notice fs)) ∧ tree fs'
    ∧ (∀ x r, x ∈ packed_names fs → fs' !! (dist x ++ r) = fs !! ([x] ++ r))
    ∧ (∀ x r, x ∉ packed_names fs → fs' !! (dist x ++ r) = fs !! (dist x ++ r))
    ∧ (∀ x r, x ≠ "dist" → fs' !! (x :: r) = fs !! (x :: r))
    ∧ ∀ out, build (mkDisk fs' out) = (Ret tt, mkDisk fs' (out ++ notice fs)).
Proof.
  intros fs Hp. destruct (build_run d Hp) as (fs' & Hrun & Ht & Hfs). fold fs in Hrun, Hfs.
  exists fs'. split_and!; [done | done | | | |].
  - intros x r Hx. rewrite Hfs. cbn [packed dist app]. by rewrite decide_True.
  - intros x r Hx. rewrite Hfs. cbn [packed dist app]. by rewrite decide_False by (by intros []).
  - intros x r Hx. rewrite Hfs. by apply packed_source.
  - intros out. assert (∀ x, x ≠ "dist" → fs' !! [x] = fs !! [x]) as Hsame
      by (intros x Hx; rewrite Hfs; by apply packed_source).
    assert (packed_names fs' = packed_names fs ∧ notice fs' = notice fs) as [Hnames Hnot].
    { unfold packed_names, notice, isdir, venv_src. cbn [node_at]. by rewrite Hsame. }
    destruct (build_run (mkDisk fs' out)) as (fs2 & Hrun2 & _ & Hfs2); cbn [files printed] in *.
    + rewrite Hnames. split_and!; [done | |].
      * right. rewrite Hfs. done.
      * intros x Hx. destruct Hp as (_ & _ & Hn). destruct (Hn x Hx) as (Hd & Hsrc & _).
        split_and!; [done | by rewrite Hsame |]. right. rewrite Hfs. cbn [packed dist].
        by rewrite decide_True.
    + rewrite Hrun2, Hnot. do 2 f_equal. apply map_eq. intros q. rewrite Hfs2, Hnames.
      destruct q as [|a [|x r]]; cbn [packed].
      * done.
      * case_decide; [| done]. rewrite Hfs. cbn [packed]. by rewrite decide_True.
      * case_decide as Hx; [| done]. destruct Hx as [-> Hx].
        assert (x ≠ "dist") as Hd by (by destruct Hp as (_ & _ & Hn); destruct (Hn x Hx)).
        rewrite !Hfs, packed_source by done. cbn [packed]. by rewrite decide_True.
Qed.

(** A missing source costs its old copy: the copy is removed before the source
    is looked at. *)
Lemma missing_source_loses_copy x d : x ≠ "dist" →
  tree (files d) → files d !! [x] = None → files d !! dist x = Some Dir →
  ∃ fs, replace_tree [x] (dist x) d = (Raise (FileNotFoundError [x]), mkDisk fs (printed d))
    ∧ ∀ r, fs !! (dist x ++ r) = None.
Proof.
  intros Hx Ht Hsrc Hdst. destruct (clear_dst x d Ht) as (fs1 & Hclear & H1); [by right |].
  unfold replace_tree. rewrite bind_eq in Hclear. cbn [m_get] in Hclear.
  rewrite bind_eq. cbn [m_get]. rewrite bind_eq, Hclear. unfold copytree. rewrite bind_eq. cbn [m_get files node_at].
  rewrite H1, Hsrc. exists fs1. split; [by destruct (strip _ _) |]. intros r. by rewrite H1, strip_app.
Qed.

Module BuildExamples.
Definition before : FS := list_to_map
  [(["conf"], Dir); (["conf"; "app.yaml"], File "log:"); (["pypepper"], Dir); (["pypepper"; "a.py"], File "pass");
   (["example"], Dir); (["dist"], Dir); (["dist"; "conf"], Dir); (["dist"; "conf"; "old"], File "x");
   (["dist"; "notes"], File "n")].
Example built : let d := (build (mkDisk before [])).2 in
  files d = list_to_map
    [(["conf"], Dir); (["conf"; "app.yaml"], File "log:"); (["pypepper"], Dir); (["pypepper"; "a.py"], File "pass");
     (["example"], Dir); (["dist"], Dir); (["dist"; "conf"], Dir); (["dist"; "conf"; "app.yaml"], File "log:");
     (["dist"; "pypepper"], Dir); (["dist"; "pypepper"; "a.py"], File "pass"); (["dist"; "example"], Dir);
     (["dist"; "notes"], File "n")]
  ∧ printed d = [skipped_msg].
Proof. split; [by apply (bool_decide_unpack _); vm_compute | vm_compute; reflexivity]. Qed.
Example no_sources : (build (mkDisk ∅ [])).1 = Raise (FileNotFoundError ["conf"]).
Proof. vm_compute. reflexivity. Qed.
End BuildExamples.
